(* ===== verification/_CoqProject ===== *)
-Q . S2P
Prelude.v
ByteSource.v
HeadLoop.v
TcpSocket.v
Hibernate.v
TcpPool.v
TcpPoolSample.v
TcpServer.v
TlsSocket.v
QuicSocket.v
QuicPool.v
QuicServer.v
QuicClient.v
QuicSample.v
SocketContext.v
RpcBase.v
WsFrame.v
WsSession.v
WsConnect.v
WsOverTcp.v
TlsSample.v
MqttTopic.v
PathTree.v
MqttSession.v
MqttBroker.v
MqttV311.v
RpcClient.v
MqttServer.v
MqttQuic.v
MqttStack.v
MqttTls.v
MqttOverWs.v
MqttServerSample.v
MqttQuicSample.v
RpcOverMqtt.v
HttpText.v
StaticCache.v
ByteSearch.v
Params.v
ParamsValue.v
ParamsRequest.v
ParamsForm.v
BufferPool.v
HttpMessage.v
HttpSample.v
HttpBody.v
HttpRoute.v
HttpMiddleware.v
HttpRange.v
HttpCors.v
HttpPort.v
HttpMultipart.v
HttpParser.v
HttpConnect.v
HttpOverTcp.v
WsHandshake.v
WsHandshakeOverTcp.v
FilePath.v
FileNames.v
FileLoad.v
FilesLoad.v
Upload.v
FilesOverHttp.v
