(* ===== verification/Prelude.v ===== *)
(** * pi_net: a verification library

    pi_net is a network stack in layers: a TCP connection and the pool that polls it
    (new_tcp), WebSocket on it (ws), MQTT 3.1.1 with a broker on WebSocket (mqtt), and an
    HTTP server (http; https is the earlier one, tcp the earlier TCP crate); TLS takes the place of
    plain TCP, QUIC (quic) is a transport of its own, and RPC (base, rpc) runs over MQTT. The kernel's poller reports an event; the pool calls the socket,
    the socket the handlers of WebSocket, these the sub-protocol, and the answers go back
    through [write_ready] to the write buffer.

    ** Files and the code they model

    - [Prelude]: results and error kinds, machine widths, sorted vectors with Rust's
      [binary_search_by], [insert] and [remove], total orders.
    - [ByteSource]: the interface between a connection and a framing layer, with its laws.
      [HeadLoop]: the loop that reads the head of a request, of http/src/acceptor.rs and
      ws/src/acceptor.rs, over any step that parses.
    - [TcpSocket]: new_tcp/src/connect.rs (the record of the socket; [recv], [send],
      [read_ready], [wakeup_read_ready], [write_ready], [reregister_interest], [close]), with
      the unique ids of connect_pool.rs and the [close_socket] of utils.rs. It discharges the laws of [ByteSource] ([conn_ready] is
      [read_ready] and the await that follows it).
    - [Hibernate]: the hibernation of a connection, of connect.rs and utils.rs of new_tcp:
      the objects in a store by address, [poll], [wakeup] and the queued tasks.
    - [TcpPool]: new_tcp/src/connect_pool.rs: the pool that polls the connections. A turn of
      [event_loop] takes new connections, written bytes, events of the poller, close events
      and timers; the tasks it leaves run between the turns, as do the calls of the
      application ([app]). Its states are those of [pool_reachable]; [TcpPoolSample] has one
      such run and the witnesses. [TcpServer]: acceptor.rs, server.rs and the configuration
      and driver of lib.rs, from the listening socket to the service of a port.
    - [TlsSocket]: new_tcp/src/tls_connect.rs, the plain connection with a session of rustls
      around it ([TlsApi], [TlsLaws]); it discharges the laws of [ByteSource] and [Transport],
      so that WebSocket and MQTT run on it unchanged. [TlsSample] has a toy record layer.
    - [QuicSocket]: quic/src/connect.rs and utils.rs, a connection with a main stream and
      expanding ones around the state machine of quinn-proto ([QuinnApi]); it tells its pool what
      happens by events, kept in the order they are sent. [QuicPool]: connect_pool.rs and
      [broadcast] of lib.rs: the table of connections, their tasks, and the turns of
      [event_loop], whose states are those of [reachable]. [QuicServer]: acceptor.rs and server.rs.
      [QuicClient]: client.rs. [QuicSample] has a package to run them with, and the witnesses.
    - [SocketContext]: the reference-counted context of new_tcp/src/utils.rs.
    - [WsFrame]: ws/src/frame.rs. [WsSession]: ws/src/utils.rs. [WsConnect]:
      ws/src/connect.rs, over the class [Transport] and any [ChildProtocol].
      [WsOverTcp]: the instances for the TCP connection, and the witnesses.
      [WsHandshake]: ws/src/acceptor.rs and server.rs, with its witnesses in
      [WsHandshakeOverTcp].
    - [MqttTopic]: [is_match] of mqtt/src/broker.rs over the class [TopicApi] of the
      package mqtt311. [PathTree]: mqtt/src/utils.rs. [MqttSession]: mqtt/src/session.rs.
      [MqttBroker]: mqtt/src/broker.rs. [MqttV311]: mqtt/src/v311.rs, handlers that
      thread one [world] of broker, sessions and connections. [MqttOverWs]: concrete
      connections and the witnesses. [MqttStack]: the MQTT handlers as the sub-protocol
      of a WebSocket connection, so that a packet is followed through all layers. [MqttTls]:
      tls_v311.rs, the same handlers over TLS. [MqttServer]: the connection of a session
      (session.rs), the registries of a broker and those of server.rs, brokers by name and port
      in a store; [MqttServerSample] has servers and MQTT from the encrypted bytes on.
      [MqttQuic]: quic_v311.rs and the connection of quic_session.rs, the handlers on a main
      stream of [QuicPool]; [MqttQuicSample] has two clients and the witnesses.
    - [RpcBase]: base/src and rpc/src, the heads of requests, connections and services over any
      MQTT connection ([MqttHandle]). [RpcClient]: nodec/src (rpc.rs, mqttc.rs, wsc.rs), the
      client whose closures and tasks are data; [RpcOverMqtt] puts the services on the
      sessions of [MqttServer] and a client in front.
    - [HttpText]: the operations on strings the HTTP code uses. [StaticCache]:
      http/src/static_cache.rs. [ByteSearch]: the search of bytes of the package twoway and
      the texts of bytes.
    - [HttpMessage]: requests, responses and the channel of a body (http/src/request.rs,
      response.rs, utils.rs); [HttpBody]: the reading of a request's body; [HttpConnect]:
      connect.rs, packet.rs, acceptor.rs and server.rs; [HttpRoute]: route.rs and
      virtual_host.rs; [HttpMiddleware]: middleware.rs and gateway.rs, whose middlewares are
      [HttpParser] (default_parser.rs), [HttpMultipart] (multi_parts.rs), [HttpRange]
      (range_load.rs), [HttpCors] (cors_handler.rs) and [HttpPort] (port.rs). The state a
      middleware works on is the part of the world that its [Focus] reads. [HttpSample] has
      stand-ins for the packages, and [HttpOverTcp] a listener on a TCP connection.
    - The file services of http/src, which are middlewares too: [FilePath], the paths of std
      and [trim_path], [normalize_path]; [FileLoad] (file_load.rs), one file, whole or in
      chunks; [FileNames] (the syntax of many names) and [FilesLoad] (files_load.rs,
      batch_load.rs): the tasks that read the files are steps, in any schedule; [Upload]
      (upload.rs). [FilesOverHttp] has concrete file systems and the witnesses.
    - [Params]: the tables of parameters of https/src/params.rs (paths such as [a[b][]],
      [assign], [find], [take]). [ParamsValue]: its conversions to and from values, numbers
      and JSON. [ParamsRequest]: the body with its limit, the JSON and the encoded sources
      (parser.rs, url_encode.rs, [eval]). [ParamsForm]: multipart forms ([split_bytes] of
      util.rs and [parse_multipart]).
    - [BufferPool]: the pool of write buffers of tcp/src/buffer_pool.rs and the lists of
      tcp/src/util.rs; threads are interleaved as steps of a relation.

    Functions keep the names of the code. A handler is a function from the state to the
    new state and its result; a panic of the code is [None] or [Panic]; a task that
    waits for ever is [Pending], [Blocked] or [Hibernates]. Bytes and machine words are
    [Z], with wrap-around written out ([wrap64]); lengths of buffers that cannot
    overflow are [nat].

    ** What the theorems show

    - TCP: [recv] delivers what the stream had, unless the stream ended in the same call
      ([recv_delivers]), waiting for bytes ends when they have come and loses none
      (C23); what is lost after a partial write
      ([send_partial_write_loses]). The pool of write buffers of the older crate accounts
      for its lists ([pool_accounts]), never blocks a thread ([pool_never_blocks]) and
      recycles what nobody holds ([collect_recycles]).
    - The pool: in every state it comes to, the tables of connections, of the poller and of
      the timer agree (C32), no turn panics (C33), and the
      application is told once that a connection is closed (C34). What is
      written is sent (C36); close events are handled up to the first one
      whose connection is gone (C35), which a call of [close_socket] brings about
      ([close_by_uid_strands]); unique ids tell pools and connections apart ([uid_injective]). A peer
      that connects is called back at the service of its port ([accepted_served]), but one
      failed accept ends the listener ([listener_lost]).
    - TLS: waiting for bytes ends and loses none of the plain text (C24), what
      is sent is what was written (C25), but the last bytes can stay behind
      ([tls_tail_waits]) and a failed close strands the connection ([tls_close_strands]).
    - QUIC: a stream is delivered in order whatever the order of its chunks
      (C26) but not across calls of [recv] ([quic_order_across_calls]), and the last bytes of a stream are lost
      ([quic_tail_lost]); a partial write loses bytes or panics (C27). What the
      application writes reaches the package (C28), a closing is called
      back once (C29), a broadcast reaches every stream ([quic_broadcast_all]).
      A datagram goes to the loop that owns its connection ([quic_routed_to_owner]). The client's [read] ends with
      the bytes it waited for ([quic_read_complete]). Timeouts never fire ([quic_timeouts_never_fire]), an ended stream
      is not reported ([quic_read_end_ignored]), and closing one stream closes all ([quic_stream_close_closes]).
    - Hibernation: two calls of [wakeup] wake a task on an open connection
      ([wakeup_within_two]); on a closed one it sleeps for ever ([closed_hibernation_strands]).
    - Context: the count never sees the handles ([context_count_misses_handles]).
    - Handshake: which requests pass (C11), the switch of protocols in
      whatever segments the request comes (C10), what a refused
      request leaves open ([refused_handshake_opens]).
    - WebSocket: the head is encoded and decoded back (C20) up to the length at
      which the encoder panics ([head_capacity_panics]), masking is that of
      RFC 6455 (C19), a masked frame is read whole however it is cut
      ([read_head_masked]), and so is a batch of at most 128 frames (C18); fragments are
      reassembled (C21), broadcasts reach every connection
      ([broadcast_all]), closing sends its status ([close_sends_status]), the status only
      advances (C38); the cases the code gets wrong ([read_head_split_closes],
      [ping_payload_misplaced], [frames_after_close_handled], [closed_mid_head]).
    - MQTT: the matching of patterns (C39), the tree refines a map from
      patterns to sorted sets (C3), every subscriber is reached after any
      sequence of operations (C2), but [a/#] misses its parent [a]
      ([parent_level_missed]), unsubscription
      ([unsubscribe_topic_removes]); CONNECT ([accept_refuses_connected],
      [accept_registers]), publication end to end (C1), closing
      ([close_releases_client]). The registries agree in every state (C31), what
      the server publishes reaches every subscriber (C30), unless
      a second factory took the broker's name ([broker_replaced]). Over QUIC, packets are handled in
      order ([quic_packets_in_order]) and a publication goes to every stream of every subscriber
      ([quic_publish_delivered]), but a closed connection among them costs the client that
      published its own ([quic_dead_subscriber_closes]).
    - RPC: a request goes through the server's layers to its handler and the reply back as one
      frame (C4); the client gives every answer to its own request, in any
      order (C5), unless one has timed out before (C6); its
      subscriptions are always refused (C7).
    - HTTP: the head of a request of HTTP/1.1 is read in whatever segments it comes, within the
      sixteen turns of the loop (C9); a route is found exactly as the list of routes says
      (C12); a chain asks its middlewares in order up to the first that
      does not go on, and answers in the reverse order (C22); a service's answer is written once ([service_answered]), a
      streamed one decodes to its parts (C8). Bodies are taken exactly
      ([take_body_delivers]) or the loop spins ([body_loop_spins]). The middlewares: forms and
      queries ([form_request]), the length of the response ([response_length]) and the
      answer to HEAD ([head_like_get]), multipart forms in any blocks
      ([blocks_independent], [form_collected]), ranges (C40), refused origins
      ([cors_refuses]), the body of the application ([port_collects]). The accounting of the
      cache (C37), what was inserted is read ([get_insert]), entity tags
      ([etag_roundtrip]), collection ([collect_clear_frees]).
    - Files: whatever the path of a request, nothing outside the root is read
      (C13) and no file written (C16), but a name with ".." can make
      directories there ([directory_made_outside]), and the names of files_load.rs
      can leave the root ([files_escape]). A file is answered with its content
      ([file_served]), in chunks that the peer puts together (C17), and a
      second request with its tag is not ([served_then_not_modified]). Many files come in
      the order of the request, those of a directory sorted, whatever the schedule of the tasks (C14), and a
      batch can be taken apart (C15); the syntax of names is decoded
      ([names_roundtrip]).
    - Parameters: what is written at a path is read there and nothing else changes
      ([assign_find]), arrays of records ([assign_records]), a null on the way of [take]
      ([take_through_null]), numbers stay in their range ([num_from_value_bounds]), the limit
      of the body ([body_limit]), encoded pairs ([url_encode_plain]), forms ([form_roundtrip]).

    ** Bounds and fuel

    [READ_FUEL] is 6: the reader of a frame waits at most once and takes once for each of
    the six bytes, the rest of the head and the payload; [read_head_masked] shows that it is enough.
    [FRAMES_FUEL] is 130: the loop returns at its 129th frame (C18).
    [SUBSCRIBE_DEPTH] is 2: a pattern subscribes to public topics, which have no
    wildcards, so the recursive calls end (C2). The loop of [mask] has the length of the
    payload as fuel (C19). A path has its length
    as fuel ([value_assign], [assign_find]), [read_to_end] and [split_bytes] that of the bytes
    ([body_limit], [form_roundtrip]), [to_value] the depth of the JSON value.
    [head_loop] recurses on the turns that are left, sixteen as in the code; [wait_body]
    needs two turns ([form_request]), [stream_loop] one more than there are parts
    (C8), [encode_deflate] two, [collect_body] one of its two ([recv] gives
    everything up to the end), [chunk_msgs] one more than there are bytes
    (C17), [disk_files] the depth of the directories. The loop of [send] of QUIC has the length of the block as fuel ([send_loop_fuel]), that of the segments of a
    datagram the length of its bytes ([quic_segments]); the loops that ask the package for datagrams and events go on for
    as long as it has some, which the turn bounds. All other recursion is structural.

    ** Parameters

    Results of [read], [write] and the poller; the keys that the slot map and the timer of a
    pool give, and the addresses of a host ([IpApi]); the topic types and the packet codec of
    the package mqtt311 ([TopicApi], [TopicLaws], [PacketCodec], [PacketReader], [PacketIds]); rustls ([TlsApi],
    [TlsLaws]), quinn-proto ([QuinnApi], [QuinnPoll], [QuinnEndpoint], [QuinnConnect]) and compress ([CompressApi]); the application's
    [Listener], [Service] and [ChildProtocol]; checksum and dates of the packages
    pi_adler32 and httpdate; the packages http and url ([HttpApi], [HttpLaws]),
    httparse ([HeadParser], [HeadApi], [PartApi]), pi_crypto and base64 ([HandshakeApi]), regex ([RegexApi]), flate2 and brotli ([CodecApi]); the
    application behind [HttpPort] and the clock; the packages mime, twoway ([ByteSearch]), num ([NumApi]),
    serde_json ([JsonApi]) and form_urlencoded, and the order of a hash map; the file system
    ([FileApi], [DirApi], [FileWriteApi]) and the runtime of its tasks ([FileRuntime]). A
    file system does not change while one request reads it, and has no links where
    [Upload] confines its writes; what is known of [create_dir_all] is that it makes the
    missing prefixes of the text of a path ([FileWriteLaws]). A packet has at most the
    length MQTT allows, so its frame can be encoded ([PacketCodec]). The laws have concrete instances, used by the witnesses.

    ** What is not modelled

    Threads and locks: each handler runs alone, in any order. Log messages and texts of
    errors. Lower-casing is that of ASCII. The position of an error in the syntax of names
    is left out. Of QUIC, the certificates and the configuration of the package; quic_broker.rs
    and most of quic_session.rs, copies of broker.rs and session.rs. The server publishes to
    the handles of QUIC sessions through [QuicHandle]. The UDP crates: what they do with a datagram is decided by the
    kernel. The crates that new_tcp, ws, mqtt and
    http have replaced (tcp but for its buffers, net, mqtt_tmp, rpc_tmp, the server of
    https), and the clients around reqwest, actix and websocket-codec. mqtt_proxy is a
    service, of which a broker takes any. *)

From stdpp Require Export base tactics numbers list sorting option gmap strings.
From Stdlib Require Export ZArith Lia.

#[global] Open Scope nat_scope.

(** ** Fallible code *)

(** [std::io::ErrorKind], the variants the modelled code produces. *)
Inductive ErrorKind :=
| Other
| BrokenPipe
| InvalidData
| InvalidInput
| ConnectionAborted
| ConnectionRefused
| AlreadyExists
| WriteZero
| Interrupted
| WouldBlock
| AddrNotAvailable
| NotFound
| PermissionDenied
| TimedOut
| NotConnected.

#[export] Instance ErrorKind_eq_dec : EqDecision ErrorKind.
Proof. solve_decision. Defined.

(** Rust's [Result<A, E>]. *)
Inductive result (E A : Type) : Type :=
| Ok (a : A)
| Err (e : E).
Arguments Ok {E A} a.
Arguments Err {E A} e.

#[export] Instance result_ret E : MRet (result E) := fun A a => Ok a.
#[export] Instance result_bind E : MBind (result E) := fun A B f m =>
  match m with Ok a => f a | Err e => Err e end.

(** [std::io::Result<A>]; only the kind of an error is kept, the message text is not. *)
Abbreviation io_result := (result ErrorKind).

Definition is_ok {E A} (r : result E A) : bool :=
  match r with Ok _ => true | Err _ => false end.

(** How a task ends: with a value, waiting for ever, with a panic, or not at all (the
    fuel of one of its loops is used up). *)
Inductive outcome (A : Type) :=
| Done (a : A)
| Blocked
| Panic
| NoFuel.
Arguments Done {A} a.
Arguments Blocked {A}.
Arguments Panic {A}.
Arguments NoFuel {A}.

#[export] Instance outcome_ret : MRet outcome := fun A a => Done a.
#[export] Instance outcome_bind : MBind outcome := fun A B f m =>
  match m with Done a => f a | Blocked => Blocked | Panic => Panic | NoFuel => NoFuel end.

(** A panicking operation. *)
Definition lift {A} (o : option A) : outcome A :=
  match o with Some a => Done a | None => Panic end.

(** ** Machine integers *)

Definition wrap (w : Z) (z : Z) : Z := (z mod 2 ^ w)%Z.
Abbreviation wrap8 := (wrap 8).
Abbreviation wrap64 := (wrap 64).

(** A word whose low [k] bits are free takes a shorter one. *)
Lemma lor_disjoint (b k r : Z) : (0 <= k)%Z -> (0 <= r < 2 ^ k)%Z -> Z.lor (b * 2 ^ k) r = (b * 2 ^ k + r)%Z.
Proof.
  intros Hk Hr. assert (Z.land (b * 2 ^ k) r = 0)%Z as Hdisj.
  { apply Z.bits_inj'. intros i Hi. rewrite Z.land_spec, Z.bits_0.
    destruct (decide (i < k)%Z); [by rewrite Z.mul_pow2_bits_low by lia|].
    rewrite <-(Z.mod_small r (2 ^ k)), Z.mod_pow2_bits_high by lia. apply andb_false_r. }
  by rewrite <-Z.lxor_lor, <-Z.add_nocarry_lxor.
Qed.

(** A byte and a byte string ([u8], [Vec<u8>]). *)
Definition byte_ok (b : Z) : Prop := (0 <= b < 256)%Z.
Definition bytes_ok (l : list Z) : Prop := Forall byte_ok l.

(** ** Vectors *)

(** [Vec::insert(i, x)] for [i <= len]. *)
Definition vec_insert {A} (i : nat) (x : A) (l : list A) : list A :=
  take i l ++ x :: drop i l.

(** [Vec::remove(i)] for [i < len]. *)
Definition vec_remove {A} (i : nat) (l : list A) : list A :=
  take i l ++ drop (S i) l.

(** [slice::binary_search_by(f)]: [f] compares an element with the target. The
    interval is [left, right) with [size = right - left]; [inl] is Rust's [Ok]
    (found at), [inr] is [Err] (insertion point). *)
Fixpoint bsearch_loop {A} (fuel : nat) (f : A -> comparison) (l : list A)
    (left right : nat) : nat + nat :=
  match fuel with
  | O => inr left
  | S fuel' =>
      if decide (left < right) then
        let mid := left + (right - left) / 2 in
        match l !! mid with
        | Some x =>
            match f x with
            | Lt => bsearch_loop fuel' f l (S mid) right
            | Gt => bsearch_loop fuel' f l left mid
            | Eq => inl mid
            end
        | None => inr left
        end
      else inr left
  end.

Definition binary_search_by {A} (f : A -> comparison) (l : list A) : nat + nat :=
  bsearch_loop (length l) f l 0 (length l).

(** ** Orderings (Rust's [Ord]) *)

(** A total preorder: [Eq] need not be Leibniz equality, as the sessions of the
    broker are ordered by client id only. *)
Class TotalOrd (A : Type) := {
  ocmp : A -> A -> comparison;
  ocmp_sym : forall a b, ocmp b a = CompOpp (ocmp a b);
  ocmp_le_trans : forall a b c, ocmp a b <> Gt -> ocmp b c <> Gt -> ocmp a c <> Gt;
}.

Definition olt {A} `{TotalOrd A} (a b : A) : Prop := ocmp a b = Lt.

(** A vector kept in strictly increasing order. *)
Abbreviation strictly_sorted := (StronglySorted olt).

(** The two idioms the code writes out at each use: insert a value at its
    place unless an equal one is there, remove the value found. *)
Definition sorted_insert {A} `{TotalOrd A} (x : A) (l : list A) : list A :=
  match binary_search_by (fun v => ocmp v x) l with
  | inr i => vec_insert i x l
  | inl _ => l
  end.

Definition sorted_remove {A} `{TotalOrd A} (x : A) (l : list A) : list A :=
  match binary_search_by (fun v => ocmp v x) l with
  | inl i => vec_remove i l
  | inr _ => l
  end.

(** ** Automation *)

Create HintDb pinet.
Create Rewrite HintDb pinet_simpl.

(** Case analysis on the scrutinee of a [match] or [if] of the goal. *)
Ltac case_step :=
  match goal with
  | |- context [match ?x with _ => _ end] =>
      lazymatch x with context [match _ with _ => _ end] => fail | _ => destruct x eqn:? end
  end.
Ltac case_step_in H :=
  match type of H with
  | context [match ?x with _ => _ end] =>
      lazymatch x with context [match _ with _ => _ end] => fail | _ => destruct x eqn:? end
  end.
Ltac case_all := repeat (case_step; simplify_eq/=).
Ltac case_all_in H := repeat (case_step_in H; simplify_eq/=).

(** ** Lemmas on orderings *)

Section ordering.
Context {A : Type} `{TotalOrd A}.
Implicit Types (a b c x y : A) (l : list A).

Lemma ocmp_refl a : ocmp a a = Eq.
Proof. pose proof (ocmp_sym a a) as E. destruct (ocmp a a); simplify_eq/=; done. Qed.

Lemma ocmp_Eq_sym a b : ocmp a b = Eq -> ocmp b a = Eq.
Proof. intros E. by rewrite ocmp_sym, E. Qed.

Lemma ocmp_Gt_Lt a b : ocmp a b = Gt <-> ocmp b a = Lt.
Proof. rewrite (ocmp_sym a b). by destruct (ocmp a b). Qed.

Lemma ocmp_Lt_Gt a b : ocmp a b = Lt <-> ocmp b a = Gt.
Proof. rewrite (ocmp_sym a b). by destruct (ocmp a b). Qed.

(** [Eq] values compare alike with every third value. *)
Lemma ocmp_Eq_l a b c : ocmp a b = Eq -> ocmp a c = ocmp b c.
Proof.
  intros E. pose proof (ocmp_Eq_sym _ _ E) as E'.
  pose proof (ocmp_le_trans a b c) as T1. pose proof (ocmp_le_trans b a c) as T2.
  pose proof (ocmp_le_trans c a b) as T3. pose proof (ocmp_le_trans c b a) as T4.
  pose proof (ocmp_sym a c) as S1. pose proof (ocmp_sym b c) as S2.
  rewrite E in *. rewrite E' in *.
  destruct (ocmp a c), (ocmp b c); simpl in *; rewrite ?S1, ?S2 in *;
    try done; exfalso; intuition congruence.
Qed.

Lemma olt_trans a b c : olt a b -> olt b c -> olt a c.
Proof.
  unfold olt. intros E1 E2.
  pose proof (ocmp_le_trans a b c) as T. rewrite E1, E2 in T.
  destruct (ocmp a c) eqn:E3; [|done|].
  - rewrite (ocmp_Eq_l a c b) in E1 by done. apply ocmp_Lt_Gt in E2. congruence.
  - exfalso. by apply T.
Qed.

Lemma olt_irrefl a : ~ olt a a.
Proof. unfold olt. by rewrite ocmp_refl. Qed.

#[export] Instance olt_transitive : Transitive olt.
Proof. intros a b c. apply olt_trans. Qed.

(** In a strictly sorted vector a value [Eq] to the target is unique. *)
Lemma sorted_Eq_unique l i j x y t :
  strictly_sorted l -> l !! i = Some x -> l !! j = Some y ->
  ocmp x t = Eq -> ocmp y t = Eq -> i = j.
Proof.
  intros Hs Hi Hj Ex Ey.
  assert (ocmp x y = Eq) as Exy.
  { apply ocmp_Eq_sym in Ey. by rewrite (ocmp_Eq_l _ _ _ Ex). }
  assert (forall i' j' a b, i' < j' -> l !! i' = Some a -> l !! j' = Some b -> olt a b) as Hlt.
  { clear -Hs. induction Hs as [|z l Hs IH HF]; intros i j a b Hij Ha Hb; [done|].
    destruct j as [|j]; [lia|]. destruct i as [|i]; simplify_eq/=.
    - by eapply (Forall_lookup_1 _ _ _ _ HF).
    - eapply IH; [|done..]. lia. }
  destruct (decide (i = j)) as [|Hne]; [done|exfalso].
  destruct (decide (i < j)).
  - pose proof (Hlt i j x y ltac:(lia) Hi Hj) as L. unfold olt in L. congruence.
  - pose proof (Hlt j i y x ltac:(lia) Hj Hi) as L. unfold olt in L.
    apply ocmp_Eq_sym in Exy. congruence.
Qed.
End ordering.

#[export] Hint Resolve ocmp_refl ocmp_Eq_sym olt_trans : pinet.

(** ** Binary search *)

#[local] Arguments Nat.div : simpl never.

Section bsearch.
Context {A : Type} `{TotalOrd A}.
Implicit Types (x t : A) (l : list A).

Lemma bsearch_loop_found fuel (f : A -> comparison) l left right i :
  bsearch_loop fuel f l left right = inl i -> exists x, l !! i = Some x /\ f x = Eq.
Proof.
  revert left right; induction fuel as [|fuel IH]; intros left right E; simpl in E; [done|].
  case_all_in E; eauto.
Qed.

(** With fuel for the interval, the loop's answer [Err i] splits the vector. *)
Lemma bsearch_loop_absent fuel (f : A -> comparison) l left right i :
  right <= length l -> right - left <= fuel -> left <= right ->
  (forall j x k y, j <= k -> l !! j = Some x -> l !! k = Some y -> f y = Lt -> f x = Lt) ->
  (forall j x k y, j <= k -> l !! j = Some x -> l !! k = Some y -> f x = Gt -> f y = Gt) ->
  (forall j x, j < left -> l !! j = Some x -> f x = Lt) ->
  (forall j x, right <= j -> l !! j = Some x -> f x = Gt) ->
  bsearch_loop fuel f l left right = inr i ->
  i <= length l /\
  (forall j x, j < i -> l !! j = Some x -> f x = Lt) /\
  (forall j x, i <= j -> l !! j = Some x -> f x = Gt).
Proof.
  intros Hr Hfuel Hlr Hlt Hgt. revert left right Hr Hfuel Hlr.
  induction fuel as [|fuel IH]; intros left right Hr Hfuel Hlr HL HR E; simpl in E.
  { simplify_eq. assert (i = right) as -> by lia. eauto. }
  case_decide as Hd; [|simplify_eq; assert (i = right) as -> by lia; eauto].
  assert (left + (right - left) / 2 < right) as Hmid.
  { pose proof (Nat.div_lt (right - left) 2). lia. }
  set (mid := left + (right - left) / 2) in *.
  destruct (lookup_lt_is_Some_2 l mid ltac:(lia)) as [m Hm]. rewrite Hm in E.
  destruct (f m) eqn:Ef; [done| |].
  - eapply IH; [..|exact E]; try lia; [|done].
    intros j x Hj Hx. apply (Hlt j x mid m); [lia|done..].
  - eapply IH; [..|exact E]; try lia; [done|].
    intros j x Hj Hx. apply (Hgt mid m j x); [lia|done..].
Qed.

Lemma sorted_lookup_lt l i j x y :
  strictly_sorted l -> i < j -> l !! i = Some x -> l !! j = Some y -> olt x y.
Proof.
  intros Hs. revert i j. induction Hs as [|z l Hs IH HF]; intros i j Hij Hx Hy; [done|].
  destruct j as [|j]; [lia|]. destruct i as [|i]; simplify_eq/=.
  - by eapply (Forall_lookup_1 _ _ _ _ HF).
  - eapply IH; [|done..]. lia.
Qed.

(** The result of the search on a strictly sorted vector. *)
Lemma binary_search_found t l i :
  binary_search_by (fun v => ocmp v t) l = inl i -> exists x, l !! i = Some x /\ ocmp x t = Eq.
Proof. apply bsearch_loop_found. Qed.

Lemma binary_search_absent t l i :
  strictly_sorted l -> binary_search_by (fun v => ocmp v t) l = inr i ->
  i <= length l /\
  (forall j x, j < i -> l !! j = Some x -> ocmp x t = Lt) /\
  (forall j x, i <= j -> l !! j = Some x -> ocmp x t = Gt).
Proof.
  intros Hs. apply bsearch_loop_absent; try lia.
  - intros j x k y Hjk Hx Hy E. destruct (decide (j = k)) as [->|]; [congruence|].
    apply (olt_trans x y t); [|done]. eapply sorted_lookup_lt; [done| |done..]. lia.
  - intros j x k y Hjk Hx Hy E. destruct (decide (j = k)) as [->|]; [congruence|].
    apply ocmp_Gt_Lt. apply ocmp_Gt_Lt in E. apply (olt_trans t x y); [done|].
    eapply sorted_lookup_lt; [done| |done..]. lia.
  - intros j x Hj Hx. apply lookup_lt_Some in Hx. lia.
Qed.

Lemma binary_search_complete t l x :
  strictly_sorted l -> x ∈ l -> ocmp x t = Eq ->
  exists i, binary_search_by (fun v => ocmp v t) l = inl i.
Proof.
  intros Hs Hx Ex. destruct (binary_search_by _ l) as [i|i] eqn:E; [by eexists|].
  destruct (binary_search_absent _ _ _ Hs E) as (_ & HL & HR).
  apply list_elem_of_lookup in Hx as [j Hj].
  destruct (decide (j < i)); [specialize (HL j x)|specialize (HR j x)];
    rewrite Ex in *; exfalso; naive_solver lia.
Qed.
End bsearch.

(** ** Sorted vectors *)

Section sorted_vec.
Context {A : Type} `{TotalOrd A}.
Implicit Types (x y t : A) (l : list A).

Lemma strictly_sorted_app l1 l2 :
  strictly_sorted (l1 ++ l2) <->
  strictly_sorted l1 /\ strictly_sorted l2 /\ (forall x y, x ∈ l1 -> y ∈ l2 -> olt x y).
Proof. rewrite StronglySorted_app. naive_solver. Qed.

Lemma elem_of_vec_insert i x y l : y ∈ vec_insert i x l <-> y = x \/ y ∈ l.
Proof.
  unfold vec_insert. rewrite <-(take_drop i l) at 3. set_solver.
Qed.

Lemma elem_of_take_lookup i l x : x ∈ take i l -> exists j, j < i /\ l !! j = Some x.
Proof.
  intros [j Hj]%list_elem_of_lookup. exists j.
  apply lookup_take_Some in Hj as [? ?]. done.
Qed.

Lemma elem_of_drop_lookup i l x : x ∈ drop i l -> exists j, i <= j /\ l !! j = Some x.
Proof.
  intros [j Hj]%list_elem_of_lookup. rewrite lookup_drop in Hj.
  exists (i + j). split; [lia|done].
Qed.

Lemma sorted_insert_elem x y l :
  strictly_sorted l ->
  y ∈ sorted_insert x l <-> y ∈ l \/ (y = x /\ forall z, z ∈ l -> ocmp z x <> Eq).
Proof.
  intros Hs. unfold sorted_insert.
  destruct (binary_search_by _ l) as [i|i] eqn:E.
  - apply binary_search_found in E as (z & Hz & Ez).
    apply list_elem_of_lookup_2 in Hz. naive_solver.
  - rewrite elem_of_vec_insert. pose proof (binary_search_complete x l) as HC.
    split; [|naive_solver]. intros [->|?]; [right|by left]. split; [done|].
    intros z Hz Ez. destruct (HC z Hs Hz Ez). congruence.
Qed.

Lemma sorted_insert_sorted x l : strictly_sorted l -> strictly_sorted (sorted_insert x l).
Proof.
  intros Hs. unfold sorted_insert.
  destruct (binary_search_by _ l) as [i|i] eqn:E; [done|].
  destruct (binary_search_absent _ _ _ Hs E) as (Hi & HL & HR).
  pose proof Hs as Hs'. rewrite <-(take_drop i l), strictly_sorted_app in Hs'.
  destruct Hs' as (S1 & S2 & S12). unfold vec_insert.
  apply strictly_sorted_app. split_and!; [done| |].
  - constructor; [done|]. apply Forall_forall. intros y Hy.
    apply elem_of_drop_lookup in Hy as (j & ? & Hj). apply ocmp_Gt_Lt. by eapply HR.
  - intros y z Hy [->|Hz]%elem_of_cons; [|by apply S12].
    apply elem_of_take_lookup in Hy as (j & ? & Hj). by eapply HL.
Qed.

(** An equal value is in the vector after the insertion, the old one if there was one. *)
Lemma sorted_insert_present x l :
  strictly_sorted l -> exists y, y ∈ sorted_insert x l /\ ocmp y x = Eq.
Proof.
  intros Hs. unfold sorted_insert.
  destruct (binary_search_by _ l) as [i|i] eqn:E.
  - apply binary_search_found in E as (z & Hz & Ez).
    exists z. split; [by eapply list_elem_of_lookup_2|done].
  - exists x. rewrite elem_of_vec_insert. auto using ocmp_refl.
Qed.

Lemma sorted_remove_sorted x l : strictly_sorted l -> strictly_sorted (sorted_remove x l).
Proof.
  intros Hs. unfold sorted_remove, vec_remove.
  destruct (binary_search_by _ l) as [i|i] eqn:E; [|done].
  destruct (binary_search_found _ _ _ E) as (z & Hz & Ez).
  rewrite <-(take_drop_middle l i z), strictly_sorted_app in Hs by done.
  destruct Hs as (S1 & S2 & S12). apply StronglySorted_inv in S2 as [S2 _].
  apply strictly_sorted_app. split_and!; [done..|].
  intros a b Ha Hb. apply S12; [done|]. by right.
Qed.

(** Removal takes out exactly the value that compares [Eq]. *)
Lemma sorted_remove_elem x y l :
  strictly_sorted l -> y ∈ sorted_remove x l <-> y ∈ l /\ ocmp y x <> Eq.
Proof.
  intros Hs. unfold sorted_remove, vec_remove.
  destruct (binary_search_by _ l) as [i|i] eqn:E.
  - destruct (binary_search_found _ _ _ E) as (z & Hz & Ez). split.
    + intros Hy. assert (exists j, j <> i /\ l !! j = Some y) as (j & Hj & Hy').
      { apply elem_of_app in Hy as [Hy|Hy].
        - apply elem_of_take_lookup in Hy as (j & ? & ?). exists j. split; [lia|done].
        - apply elem_of_drop_lookup in Hy as (j & ? & ?). exists j. split; [lia|done]. }
      split; [by eapply list_elem_of_lookup_2|]. intros Ey. apply Hj.
      by eapply (sorted_Eq_unique l j i y z x).
    + intros [[j Hj]%list_elem_of_lookup Ney].
      assert (i <> j) by congruence. rewrite elem_of_app.
      destruct (decide (j < i)).
      * left. apply list_elem_of_lookup. exists j. by rewrite lookup_take_lt.
      * right. apply list_elem_of_lookup. exists (j - S i). rewrite lookup_drop.
        replace (S i + (j - S i)) with j by lia. done.
  - split; [|naive_solver]. intros Hy. split; [done|]. intros Ey.
    destruct (binary_search_complete x l y Hs Hy Ey) as [j Ej]. congruence.
Qed.

Lemma strictly_sorted_nil : strictly_sorted ([] : list A).
Proof. constructor. Qed.

Lemma strictly_sorted_singleton x : strictly_sorted [x].
Proof. repeat constructor. Qed.

(** Two strictly sorted vectors hold no two [Eq] values. *)
Lemma strictly_sorted_unique l x y :
  strictly_sorted l -> x ∈ l -> y ∈ l -> ocmp x y = Eq -> x = y.
Proof.
  intros Hs [i Hi]%list_elem_of_lookup [j Hj]%list_elem_of_lookup E.
  assert (i = j) as -> by (eapply sorted_Eq_unique; eauto with pinet). congruence.
Qed.
End sorted_vec.

#[export] Hint Resolve sorted_insert_sorted sorted_remove_sorted
  strictly_sorted_nil strictly_sorted_singleton : pinet.

(** Strings are ordered bytewise, as [String::cmp]. *)
Lemma string_compare_le_trans (a b c : string) :
  String.compare a b <> Gt -> String.compare b c <> Gt -> String.compare a c <> Gt.
Proof.
  revert b c. induction a as [|x a IH]; intros [|y b] [|z c]; simpl; try done.
  unfold Ascii.compare.
  destruct (N.compare_spec (Ascii.N_of_ascii x) (Ascii.N_of_ascii y)) as [E1|E1|E1];
  destruct (N.compare_spec (Ascii.N_of_ascii y) (Ascii.N_of_ascii z)) as [E2|E2|E2];
  destruct (N.compare_spec (Ascii.N_of_ascii x) (Ascii.N_of_ascii z)) as [E3|E3|E3];
  try done; try lia. apply IH.
Qed.

#[export] Instance string_total_order : TotalOrd string := {|
  ocmp := String.compare;
  ocmp_sym := fun a b => String.compare_antisym b a;
  ocmp_le_trans := string_compare_le_trans |}.

Lemma string_ocmp_Eq (a b : string) : ocmp a b = Eq <-> a = b.
Proof.
  split; [apply String.compare_eq_iff|]. intros ->. apply ocmp_refl.
Qed.
