(* ===== verification/ByteSource.v ===== *)
(** * What a framing layer needs of a connection

    The WebSocket layer reads through [SocketHandle]: the read buffer, the pair
    [read_ready] / [await], [BytesMut::copy_to_bytes] and [close]. [ByteSource]
    names these operations and [ByteSourceLaws] states what the framing proofs use
    of them; [TcpSocket] discharges the laws for the TCP connection. *)

From S2P Require Import Prelude.

Class ByteSource (S : Type) := {
  (** the bytes in the read buffer *)
  src_buffered : S -> list Z;
  (** [read_ready(n)] and the await of its value: the new [ready_len], 0 when the
      connection is closed; [None] when the task stays pending *)
  src_ready : nat -> S -> option (nat * S);
  (** [read_ready(n)] has its value at once: it returns [Err], and nothing is awaited *)
  src_at_once : nat -> S -> bool;
  (** [copy_to_bytes(n)]; [None] is its panic *)
  src_take : nat -> S -> option (S * list Z);
  (** [close(Err(kind))] *)
  src_close : ErrorKind -> S -> S;
  (** specification only: the bytes buffered and those still to come *)
  src_stream : S -> list Z;
  (** specification only: open, no read pending, and the peer does not close *)
  src_live : S -> Prop;
}.

Class ByteSourceLaws (S : Type) `{ByteSource S} := {
  src_stream_buffered s : exists later, src_stream s = src_buffered s ++ later;
  src_ready_wait n s :
    src_live s -> length (src_buffered s) < n -> n <= length (src_stream s) ->
    exists v s', src_ready n s = Some (v, s') /\ 0 < v /\ src_live s' /\
      src_stream s' = src_stream s /\
      length (src_buffered s') = length (src_buffered s) + v /\ n <= length (src_buffered s');
  src_ready_later n s : src_live s -> length (src_buffered s) < n -> src_at_once n s = false;
  src_ready_now n s :
    src_live s -> n <= length (src_buffered s) -> 0 < length (src_buffered s) ->
    src_at_once n s = true /\
    exists s', src_ready n s = Some (length (src_buffered s), s') /\ src_live s' /\
      src_buffered s' = src_buffered s /\ src_stream s' = src_stream s;
  src_ready_any s :
    src_live s -> src_buffered s = [] -> src_stream s <> [] ->
    src_at_once 0 s = false /\
    exists v s', src_ready 0 s = Some (v, s') /\ src_live s' /\
      length (src_buffered s') = v /\ src_stream s' = src_stream s;
  src_take_ok n s :
    src_live s -> n <= length (src_buffered s) ->
    exists s', src_take n s = Some (s', take n (src_buffered s)) /\ src_live s' /\
      src_buffered s' = drop n (src_buffered s) /\ src_stream s' = drop n (src_stream s);
}.

Section derived.
Context {S : Type} `{ByteSourceLaws S}.

Lemma src_buffered_le s : length (src_buffered s) <= length (src_stream s).
Proof. destruct (src_stream_buffered s) as [l ->]. rewrite length_app. lia. Qed.

Lemma src_buffered_take n s :
  n <= length (src_buffered s) -> take n (src_buffered s) = take n (src_stream s).
Proof. intros Hn. destruct (src_stream_buffered s) as [l ->]. by rewrite take_app_le. Qed.
End derived.

(** ** Writing, closing and timers *)

(** The event of a timer: the id of a client, or the duration of the timer. *)
Inductive SocketEvent := ClientEvent (client_id : string) | DurationEvent (ms : Z).

(** What the handlers call on [SocketHandle] besides reading. *)
Class Transport (S : Type) `{ByteSource S} := {
  (** [write_ready(buf)] *)
  tr_write_ready : list Z -> S -> S * io_result unit;
  tr_close : io_result unit -> S -> S * io_result unit;
  tr_is_security : S -> bool;
  tr_is_closed : S -> bool;
  (** [set_timeout(timeout, event)] *)
  tr_set_timeout : Z -> SocketEvent -> S -> S;
  (** specification only: the buffers accepted for writing and the close reasons given *)
  tr_written : S -> list (list Z);
  tr_closes : S -> list (io_result unit);
}.

Class TransportLaws (S : Type) `{Transport S} := {
  tr_write_accept buf s s' :
    tr_write_ready buf s = (s', Ok tt) ->
    tr_written s' = tr_written s ++ [buf] /\ tr_closes s' = tr_closes s;
  tr_write_open buf s :
    tr_is_closed s = false -> exists s', tr_write_ready buf s = (s', Ok tt) /\ tr_is_closed s' = false;
  tr_live_open s : src_live s -> tr_is_closed s = false;
  tr_write_refuse buf s s' e : tr_write_ready buf s = (s', Err e) -> s' = s;
  tr_close_records reason s :
    tr_written (tr_close reason s).1 = tr_written s /\
    tr_closes (tr_close reason s).1 = tr_closes s ++ [reason];
  tr_timeout_only ms e s :
    tr_written (tr_set_timeout ms e s) = tr_written s /\ tr_closes (tr_set_timeout ms e s) = tr_closes s /\
    tr_is_closed (tr_set_timeout ms e s) = tr_is_closed s;
}.

(** ** Waiting for more bytes *)

(** [if let Ok(value) = read_ready(n) { if value.await == 0 {..} }]: [false] when the
    value awaited is 0. *)
Definition read_more {S : Type} `{ByteSource S} (n : nat) (s : S) : outcome (S * bool) :=
  match src_ready n s with
  | None => Blocked
  | Some (value, s') => Done (s', src_at_once n s || negb (bool_decide (value = 0)))
  end.

(** A wait for bytes that have not come goes on with at least those bytes. *)
Lemma read_more_wait {S : Type} `{ByteSourceLaws S} n (s : S) :
  src_live s -> length (src_buffered s) < n -> n <= length (src_stream s) ->
  exists s', read_more n s = Done (s', true) /\ src_live s' /\ src_stream s' = src_stream s /\
    n <= length (src_buffered s').
Proof.
  intros Hl Hlt Hn. destruct (src_ready_wait n s Hl Hlt Hn) as (v & s' & E & Hv & ? & ? & ? & ?).
  exists s'. unfold read_more. rewrite E, bool_decide_false by lia. rewrite orb_true_r. by split_and!.
Qed.

(** ** The world of a handler *)

(** A part of the world. *)
Class Focus (A W : Type) := {
  focus_get : W -> A;
  focus_put : A -> W -> W;
}.

Class FocusLaws (A W : Type) `{Focus A W} := {
  focus_get_put a w : focus_get (focus_put a w) = a;
  focus_put_get w : focus_put (focus_get w) w = w;
  focus_put_put a b w : focus_put a (focus_put b w) = focus_put a w;
}.

(** The whole world, and the first component of a pair. *)
#[export] Instance whole_focus (W : Type) : Focus W W := { focus_get w := w; focus_put w _ := w }.
#[export] Instance fst_focus (A B : Type) : Focus A (A * B) := { focus_get w := w.1; focus_put a w := (a, w.2) }.

#[export] Instance whole_focus_laws (W : Type) : FocusLaws W W.
Proof. by split. Qed.
#[export] Instance fst_focus_laws (A B : Type) : FocusLaws A (A * B).
Proof. split; [done| |done]. by intros []. Qed.
