(* ===== verification/HeadLoop.v ===== *)
(** * Reading the head of a request

    The loop that the HTTP listener (http/src/acceptor.rs, server.rs) and the acceptor of
    WebSocket (ws/src/acceptor.rs) run until the head of a request is in the read buffer:
    at most sixteen turns, each of which parses the buffer or waits for more bytes. *)

From S2P Require Import Prelude ByteSource.

(** The package httparse: an error, a part of a head with the version if that was read, or
    the length of the head, the method, the path and the headers. *)
Inductive Parsed :=
| ParseError
| Partial (version : option Z)
| Complete (len : nat) (method path : option string) (hs : list (string * list Z)).

#[export] Instance Parsed_eq_dec : EqDecision Parsed.
Proof. solve_decision. Defined.

Class HeadParser := {
  (** [Request::parse] with room for this many headers *)
  parse_head : nat -> list Z -> Parsed;
}.

Definition MAX_PARSE_COUNT : nat := 16.

Section loop.
Context {S W R : Type} `{ByteSource S} `{Focus S W}.

Definition await_more (n : nat) (w : W) : outcome (W * bool) :=
  '(s, more) ← read_more n (focus_get w); Done (focus_put s w, more).

(** [out] closes the connection when the turns are used up, [gone] is the result when the
    wait tells that it is closed; a step that gives no result goes on with the loop. *)
Variable out : W -> W * R.
Variable gone : R.
Variable step : list Z -> W -> outcome (W * option R).

(** [last] is [last_bin_len]. *)
Fixpoint head_loop (turns last : nat) (w : W) : outcome (W * R) :=
  match turns with
  | O => Done (out w)
  | Datatypes.S turns =>
      let remaining := length (src_buffered (focus_get w)) in
      if bool_decide (remaining = 0) then
        '(w, more) ← await_more 0 w;
        if (more : bool) then head_loop turns last w else Done (w, gone)
      else if bool_decide (remaining = last) then
        '(w, more) ← await_more (remaining + 1) w;
        if (more : bool) then head_loop turns last w else Done (w, gone)
      else
        '(w, res) ← step (src_buffered (focus_get w)) w;
        match res with
        | Some r => Done (w, r)
        | None => head_loop turns remaining w
        end
  end.
End loop.

(** ** The loop finds the head *)

Section reading.
Context {S W R : Type} `{ByteSourceLaws S} `{FocusLaws S W}.

Definition live (w : W) : Prop := src_live (focus_get w).
Definition stream (w : W) : list Z := src_stream (focus_get w).
Definition buffered (w : W) : nat := length (src_buffered (focus_get w)).

Lemma await_more_wait n w :
  live w -> buffered w < n -> n <= length (stream w) ->
  exists s, await_more n w = Done (focus_put s w, true) /\ live (focus_put s w) /\
    stream (focus_put s w) = stream w /\ n <= buffered (focus_put s w).
Proof.
  intros Hl Hb Hn. destruct (read_more_wait n (focus_get w) Hl Hb Hn) as (s & E & ? & ? & ?).
  exists s. unfold await_more, live, stream, buffered. rewrite E. cbn. rewrite focus_get_put. by split_and!.
Qed.

Lemma buffered_take w : src_buffered (focus_get w) = take (buffered w) (stream w).
Proof.
  unfold buffered, stream. destruct (src_stream_buffered (focus_get w)) as [x ->]. by rewrite take_app_length.
Qed.

Lemma buffered_le w : buffered w <= length (stream w).
Proof. apply src_buffered_le. Qed.

Variable out : W -> W * R.
Variable gone : R.
Variable step : list Z -> W -> outcome (W * option R).

(** The turns that the loop needs at most, each byte coming alone. *)
Definition turns_needed (len last : nat) (w : W) : nat :=
  2 * (len - buffered w) + (if bool_decide (last = buffered w) then 0 else 1).

(** A step that goes on with a part of a head of [len] bytes and ends with a whole one. *)
Lemma head_loop_reads (I : W -> Prop) (Q : W -> R -> Prop) (len : nat) (whole : list Z) :
  (forall s w, I w -> I (focus_put s w)) ->
  len <= length whole ->
  (forall w, I w -> live w -> stream w = whole -> 0 < buffered w < len ->
     step (src_buffered (focus_get w)) w = Done (w, None)) ->
  (forall w, I w -> live w -> stream w = whole -> len <= buffered w ->
     exists w' r, step (src_buffered (focus_get w)) w = Done (w', Some r) /\ Q w' r) ->
  forall turns last w,
  I w -> live w -> stream w = whole -> 0 < buffered w -> (last = buffered w -> buffered w < len) ->
  exists w' r, head_loop out gone step turns last w = Done (w', r) /\
    (Q w' r \/ turns < turns_needed len last w /\
       exists w1, (w', r) = out w1 /\ I w1 /\ live w1 /\ stream w1 = whole).
Proof.
  intros HI Hlen Hpart Hwhole turns. induction turns as [|turns IH]; intros last w Iw Hl Hs Hb Hlast; cbn [head_loop].
  { destruct (out w) as [w' r] eqn:E. exists w', r. split; [done|]. right. split; [|by exists w].
    unfold turns_needed. case_bool_decide as Hc; [|lia]. specialize (Hlast Hc). lia. }
  fold (buffered w). rewrite (bool_decide_false (buffered w = 0)) by lia. unfold turns_needed.
  destruct (decide (buffered w = last)) as [E|E].
  - specialize (Hlast (eq_sym E)). rewrite (bool_decide_true (buffered w = last)), (bool_decide_true (last = buffered w)) by done.
    destruct (await_more_wait (buffered w + 1) w Hl) as (s & -> & Hl1 & Hs1 & Hb1); [lia|rewrite Hs; lia|].
    cbn [mbind outcome_bind]. set (w1 := focus_put s w) in *.
    destruct (IH last w1 (HI s w Iw) Hl1 ltac:(congruence) ltac:(lia) ltac:(lia)) as (w' & r & -> & Hr).
    exists w', r. split; [done|]. destruct Hr as [|(Ht & ?)]; [by left|right]. split; [|done].
    unfold turns_needed in Ht. case_bool_decide; lia.
  - rewrite (bool_decide_false (buffered w = last)), (bool_decide_false (last = buffered w)) by congruence.
    destruct (decide (len <= buffered w)) as [Hw|Hw].
    + destruct (Hwhole w Iw Hl Hs Hw) as (w' & r & -> & Hq). exists w', r. split; [done|]. by left.
    + rewrite (Hpart w Iw Hl Hs) by lia. cbn [mbind outcome_bind].
      destruct (IH (buffered w) w Iw Hl Hs Hb ltac:(lia)) as (w' & r & -> & Hr).
      exists w', r. split; [done|]. destruct Hr as [|(Ht & ?)]; [by left|right]. split; [|done].
      unfold turns_needed in Ht. rewrite bool_decide_true in Ht by done. lia.
Qed.

(** Consuming a head that is in the buffer. *)
Lemma take_head head rest w :
  live w -> stream w = head ++ rest -> length head <= buffered w ->
  exists s, src_take (length head) (focus_get w) = Some (s, head) /\ live (focus_put s w) /\
    stream (focus_put s w) = rest.
Proof.
  intros Hl Hs Hb. destruct (src_take_ok (length head) (focus_get w) Hl Hb) as (s & E & Hl' & _ & Es).
  exists s. unfold live, stream in *. rewrite focus_get_put, Es, Hs, drop_app_length. split; [|done].
  rewrite E. do 2 f_equal. rewrite src_buffered_take by done. by rewrite Hs, take_app_length.
Qed.
End reading.

(** The version of HTTP both loops ask for, 1.1. *)
Definition HTTP_VERSION : Z := 1.

(** The stream starts with a whole head of that version: a shorter buffer is parsed as a
    part of one, with the version as soon as it has been read, a longer one as the head. *)
Definition starts_with_head `{HeadParser} (limit : nat) (head rest : list Z) (m p : string)
    (l : list (string * list Z)) : Prop :=
  0 < length head /\
  (forall k, 0 < k < length head ->
     exists v, parse_head limit (take k (head ++ rest)) = Partial v /\ (v = None \/ v = Some HTTP_VERSION)) /\
  (forall k, length head <= k <= length (head ++ rest) ->
     parse_head limit (take k (head ++ rest)) = Complete (length head) (Some m) (Some p) l).
