(* ===== verification/TcpSocket.v ===== *)
(** * The TCP connection (new_tcp/src/connect.rs)

    [TcpSocket] keeps the fields of the struct that its receive, send and close
    paths read or write. The kernel is an oracle: one call of [recv] or [send]
    sees a list of results of [read]/[write]; when the list is exhausted the
    kernel answers [WouldBlock]. Channels to the pool (write, close and timer
    listeners) are lists of the messages sent, the newest last. *)

From S2P Require Import Prelude ByteSource.

(** ** Data *)

(** [mio::Interest]: a non-empty subset of readable and writable. *)
Inductive Interest := READABLE | WRITABLE | READ_WRITE.

Definition interest_add (a b : Interest) : Interest :=
  match a, b with
  | READABLE, READABLE => READABLE
  | WRITABLE, WRITABLE => WRITABLE
  | _, _ => READ_WRITE
  end.

(** [utils::Ready] *)
Inductive Ready := RdEmpty | RdReadable | RdWritable | RdOnlyRead | RdOnlyWrite | RdReadWrite.

Definition DEFAULT_READ_BLOCK_LEN : nat := 4096.
Definition DEFAULT_WRITE_BLOCK_LEN : nat := 4096.
Definition DEFAULT_READ_BLOCK_ADJUST_LEN : nat := 1024.

Record TcpSocket := mkTcpSocket {
  interest : Interest;            (* events the connection listens to *)
  wait_recv_len : nat;            (* bytes the connection has asked for *)
  recv_len : nat;                 (* bytes received so far *)
  readed_read_limit : nat;
  readed : nat;
  read_buf : list Z;              (* received, not yet consumed bytes *)
  wait_ready_len : nat;           (* bytes the pending async read still needs *)
  ready_len : nat;                (* bytes received since that read was set *)
  ready_reader : bool;            (* an async read is pending *)
  wait_sent_len : nat;            (* bytes handed to [write_ready] *)
  sent_len : nat;                 (* bytes written to the stream *)
  readed_write_limit : nat;
  readed_write_len : nat;
  write_buf : list Z;             (* bytes waiting to be written *)
  closed : bool;
  write_events : list (list Z);          (* messages on the write listener *)
  close_events : list (io_result unit);  (* messages on the close listener *)
  timer_events : list (option Z);        (* messages on the timer listener: timeout in ms *)
}.

(** [TcpSocket::new] with the given buffer limits, all listeners attached. *)
Definition new_socket (readed_read_size_limit readed_write_size_limit : nat) : TcpSocket :=
  {| interest := READABLE;
     wait_recv_len := 0; recv_len := 0;
     readed_read_limit :=
       if decide (readed_read_size_limit < DEFAULT_READ_BLOCK_LEN) then 256 * 1024
       else readed_read_size_limit;
     readed := 0; read_buf := [];
     wait_ready_len := 0; ready_len := 0; ready_reader := false;
     wait_sent_len := 0; sent_len := 0;
     readed_write_limit :=
       if decide (readed_write_size_limit < DEFAULT_WRITE_BLOCK_LEN) then 256 * 1024
       else readed_write_size_limit;
     readed_write_len := 0; write_buf := [];
     closed := false; write_events := []; close_events := []; timer_events := [] |}.

(** Field assignments. *)
Definition set_interest (x : Interest) (r : TcpSocket) : TcpSocket :=
  mkTcpSocket x (wait_recv_len r) (recv_len r) (readed_read_limit r) (readed r) (read_buf r)
    (wait_ready_len r) (ready_len r) (ready_reader r) (wait_sent_len r) (sent_len r)
    (readed_write_limit r) (readed_write_len r) (write_buf r) (closed r) (write_events r)
    (close_events r) (timer_events r).
Definition set_wait_recv_len (x : nat) (r : TcpSocket) : TcpSocket :=
  mkTcpSocket (interest r) x (recv_len r) (readed_read_limit r) (readed r) (read_buf r)
    (wait_ready_len r) (ready_len r) (ready_reader r) (wait_sent_len r) (sent_len r)
    (readed_write_limit r) (readed_write_len r) (write_buf r) (closed r) (write_events r)
    (close_events r) (timer_events r).
Definition set_recv_len (x : nat) (r : TcpSocket) : TcpSocket :=
  mkTcpSocket (interest r) (wait_recv_len r) x (readed_read_limit r) (readed r) (read_buf r)
    (wait_ready_len r) (ready_len r) (ready_reader r) (wait_sent_len r) (sent_len r)
    (readed_write_limit r) (readed_write_len r) (write_buf r) (closed r) (write_events r)
    (close_events r) (timer_events r).
Definition set_readed_read_limit (x : nat) (r : TcpSocket) : TcpSocket :=
  mkTcpSocket (interest r) (wait_recv_len r) (recv_len r) x (readed r) (read_buf r)
    (wait_ready_len r) (ready_len r) (ready_reader r) (wait_sent_len r) (sent_len r)
    (readed_write_limit r) (readed_write_len r) (write_buf r) (closed r) (write_events r)
    (close_events r) (timer_events r).
Definition set_readed (x : nat) (r : TcpSocket) : TcpSocket :=
  mkTcpSocket (interest r) (wait_recv_len r) (recv_len r) (readed_read_limit r) x (read_buf r)
    (wait_ready_len r) (ready_len r) (ready_reader r) (wait_sent_len r) (sent_len r)
    (readed_write_limit r) (readed_write_len r) (write_buf r) (closed r) (write_events r)
    (close_events r) (timer_events r).
Definition set_read_buf (x : list Z) (r : TcpSocket) : TcpSocket :=
  mkTcpSocket (interest r) (wait_recv_len r) (recv_len r) (readed_read_limit r) (readed r) x
    (wait_ready_len r) (ready_len r) (ready_reader r) (wait_sent_len r) (sent_len r)
    (readed_write_limit r) (readed_write_len r) (write_buf r) (closed r) (write_events r)
    (close_events r) (timer_events r).
Definition set_wait_ready_len (x : nat) (r : TcpSocket) : TcpSocket :=
  mkTcpSocket (interest r) (wait_recv_len r) (recv_len r) (readed_read_limit r) (readed r)
    (read_buf r) x (ready_len r) (ready_reader r) (wait_sent_len r) (sent_len r)
    (readed_write_limit r) (readed_write_len r) (write_buf r) (closed r) (write_events r)
    (close_events r) (timer_events r).
Definition set_ready_len (x : nat) (r : TcpSocket) : TcpSocket :=
  mkTcpSocket (interest r) (wait_recv_len r) (recv_len r) (readed_read_limit r) (readed r)
    (read_buf r) (wait_ready_len r) x (ready_reader r) (wait_sent_len r) (sent_len r)
    (readed_write_limit r) (readed_write_len r) (write_buf r) (closed r) (write_events r)
    (close_events r) (timer_events r).
Definition set_ready_reader (x : bool) (r : TcpSocket) : TcpSocket :=
  mkTcpSocket (interest r) (wait_recv_len r) (recv_len r) (readed_read_limit r) (readed r)
    (read_buf r) (wait_ready_len r) (ready_len r) x (wait_sent_len r) (sent_len r)
    (readed_write_limit r) (readed_write_len r) (write_buf r) (closed r) (write_events r)
    (close_events r) (timer_events r).
Definition set_wait_sent_len (x : nat) (r : TcpSocket) : TcpSocket :=
  mkTcpSocket (interest r) (wait_recv_len r) (recv_len r) (readed_read_limit r) (readed r)
    (read_buf r) (wait_ready_len r) (ready_len r) (ready_reader r) x (sent_len r)
    (readed_write_limit r) (readed_write_len r) (write_buf r) (closed r) (write_events r)
    (close_events r) (timer_events r).
Definition set_sent_len (x : nat) (r : TcpSocket) : TcpSocket :=
  mkTcpSocket (interest r) (wait_recv_len r) (recv_len r) (readed_read_limit r) (readed r)
    (read_buf r) (wait_ready_len r) (ready_len r) (ready_reader r) (wait_sent_len r) x
    (readed_write_limit r) (readed_write_len r) (write_buf r) (closed r) (write_events r)
    (close_events r) (timer_events r).
Definition set_readed_write_limit (x : nat) (r : TcpSocket) : TcpSocket :=
  mkTcpSocket (interest r) (wait_recv_len r) (recv_len r) (readed_read_limit r) (readed r)
    (read_buf r) (wait_ready_len r) (ready_len r) (ready_reader r) (wait_sent_len r) (sent_len
    r) x (readed_write_len r) (write_buf r) (closed r) (write_events r) (close_events r)
    (timer_events r).
Definition set_readed_write_len (x : nat) (r : TcpSocket) : TcpSocket :=
  mkTcpSocket (interest r) (wait_recv_len r) (recv_len r) (readed_read_limit r) (readed r)
    (read_buf r) (wait_ready_len r) (ready_len r) (ready_reader r) (wait_sent_len r) (sent_len
    r) (readed_write_limit r) x (write_buf r) (closed r) (write_events r) (close_events r)
    (timer_events r).
Definition set_write_buf (x : list Z) (r : TcpSocket) : TcpSocket :=
  mkTcpSocket (interest r) (wait_recv_len r) (recv_len r) (readed_read_limit r) (readed r)
    (read_buf r) (wait_ready_len r) (ready_len r) (ready_reader r) (wait_sent_len r) (sent_len
    r) (readed_write_limit r) (readed_write_len r) x (closed r) (write_events r) (close_events
    r) (timer_events r).
Definition set_closed (x : bool) (r : TcpSocket) : TcpSocket :=
  mkTcpSocket (interest r) (wait_recv_len r) (recv_len r) (readed_read_limit r) (readed r)
    (read_buf r) (wait_ready_len r) (ready_len r) (ready_reader r) (wait_sent_len r) (sent_len
    r) (readed_write_limit r) (readed_write_len r) (write_buf r) x (write_events r)
    (close_events r) (timer_events r).
Definition set_write_events (x : list (list Z)) (r : TcpSocket) : TcpSocket :=
  mkTcpSocket (interest r) (wait_recv_len r) (recv_len r) (readed_read_limit r) (readed r)
    (read_buf r) (wait_ready_len r) (ready_len r) (ready_reader r) (wait_sent_len r) (sent_len
    r) (readed_write_limit r) (readed_write_len r) (write_buf r) (closed r) x (close_events r)
    (timer_events r).
Definition set_close_events (x : list (io_result unit)) (r : TcpSocket) : TcpSocket :=
  mkTcpSocket (interest r) (wait_recv_len r) (recv_len r) (readed_read_limit r) (readed r)
    (read_buf r) (wait_ready_len r) (ready_len r) (ready_reader r) (wait_sent_len r) (sent_len
    r) (readed_write_limit r) (readed_write_len r) (write_buf r) (closed r) (write_events r) x
    (timer_events r).
Definition set_timer_events (x : list (option Z)) (r : TcpSocket) : TcpSocket :=
  mkTcpSocket (interest r) (wait_recv_len r) (recv_len r) (readed_read_limit r) (readed r)
    (read_buf r) (wait_ready_len r) (ready_len r) (ready_reader r) (wait_sent_len r) (sent_len
    r) (readed_write_limit r) (readed_write_len r) (write_buf r) (closed r) (write_events r)
    (close_events r) x.

(** ** Receiving *)

(** A result of [TcpStream::read]; [RData []] is [Ok(0)], the end of the stream. *)
Inductive read_event :=
| RData (data : list Z)
| RInterrupted
| RWouldBlock
| RError (kind : ErrorKind).

(** State of the loop of [recv]: the vector [block] with its filled prefix. *)
Record recv_state := mkRecvState {
  rs_block_len : nat;     (* [block.len()] *)
  rs_block : list Z;      (* the first [block_pos] bytes of [block] *)
  rs_recv_len : nat;
  rs_ready_len : nat;
}.

(** The loop of [recv]; the boolean says that the loop ended on [WouldBlock],
    the only exit that moves the block to the read buffer. *)
Fixpoint recv_loop (pending : bool) (evs : list read_event) (st : recv_state)
    : recv_state * bool * io_result nat :=
  match evs with
  | [] | RWouldBlock :: _ => (st, true, Ok (length (rs_block st)))
  | RInterrupted :: evs' => recv_loop pending evs' st
  | RError kind :: _ => (st, false, Err kind)
  | RData data :: evs' =>
      match data with
      | [] => (st, false, Err ConnectionAborted)
      | _ =>
          let block := rs_block st ++ data in
          let block_pos := length block in
          recv_loop pending evs'
            {| rs_block_len :=
                 if decide (block_pos = rs_block_len st)
                 then rs_block_len st + DEFAULT_READ_BLOCK_ADJUST_LEN else rs_block_len st;
               rs_block := block;
               rs_recv_len := rs_recv_len st + length data;
               rs_ready_len :=
                 if pending then rs_ready_len st + length data else rs_ready_len st |}
      end
  end.

(** [is_require_recv] *)
Definition is_require_recv (s : TcpSocket) : bool := bool_decide (recv_len s < wait_recv_len s).

(** [recv] *)
Definition recv (evs : list read_event) (s : TcpSocket) : TcpSocket * io_result nat :=
  if closed s then (s, Err ConnectionAborted) else
  let '(st, would_block, result) :=
    recv_loop (ready_reader s) evs
      {| rs_block_len := DEFAULT_READ_BLOCK_LEN; rs_block := [];
         rs_recv_len := recv_len s; rs_ready_len := ready_len s |} in
  let s := set_recv_len (rs_recv_len st) (set_ready_len (rs_ready_len st) s) in
  let s := if would_block then set_read_buf (read_buf s ++ rs_block st) s else s in
  let s := if is_require_recv s then s else set_interest WRITABLE s in
  let s := if is_ok result && bool_decide (readed_read_limit s < readed s)
           then set_readed 0 s else s in
  (s, result).

(** [read_ready]: [inr n] is the code's [Err(n)], the bytes readable at once
    (0 when closed); [inl tt] is a pending async value. *)
Definition read_ready (adjust : nat) (s : TcpSocket) : TcpSocket * (unit + nat) :=
  if closed s then (s, inr 0) else
  let s := set_wait_recv_len (wait_recv_len s + adjust) s in
  let s := set_interest (interest_add (interest s) READABLE) s in
  let remaining := length (read_buf s) in
  if decide (adjust <= remaining /\ 0 < remaining) then (s, inr remaining)
  else (set_wait_ready_len (adjust - remaining) (set_ready_reader true s), inl tt).

(** [wakeup_read_ready]: the value the pending read is woken with, if it is. *)
Definition wakeup_read_ready (s : TcpSocket) : TcpSocket * option nat :=
  if decide (wait_ready_len s = 0 \/ wait_ready_len s <= ready_len s) then
    if ready_reader s then
      (set_wait_ready_len 0 (set_ready_len 0 (set_ready_reader false s)), Some (ready_len s))
    else (s, None)
  else (s, None).

(** ** Sending *)

(** A result of [TcpStream::write]. *)
Inductive write_event :=
| WWrote (n : nat)
| WInterrupted
| WWouldBlock
| WError (kind : ErrorKind).

(** State of the loop of [send]: [block] is the slice still to be written,
    [out] collects what the stream accepted. *)
Record send_state := mkSendState {
  ss_block : list Z;
  ss_block_pos : nat;
  ss_out : list Z;
  ss_requeue : list Z;     (* bytes put back into the write buffer *)
}.

(** The loop of [send]; [None] is the panic of the slice [&block[block_pos..]]
    when [block_pos] lies beyond the end of [block]. *)
Fixpoint send_loop (evs : list write_event) (st : send_state) (result : io_result nat)
    : option (send_state * io_result nat) :=
  let block := ss_block st in
  let pos := ss_block_pos st in
  let would_block :=
    if decide (pos <= length block) then
      Some (mkSendState block pos (ss_out st) (drop pos block), Ok pos)
    else None in
  match block with
  | [] => Some (st, result)
  | _ =>
      match evs with
      | [] | WWouldBlock :: _ => would_block
      | WInterrupted :: evs' => send_loop evs' st result
      | WError kind :: _ => Some (st, Err kind)
      | WWrote 0 :: _ => Some (st, Err WriteZero)
      | WWrote n :: evs' =>
          let pos' := pos + n in
          if decide (pos' <= length block) then
            send_loop evs'
              (mkSendState (drop pos' block) pos' (ss_out st ++ take n block) (ss_requeue st))
              (Ok pos')
          else None
      end
  end.

(** [send] with a full-sized write block; the list is what reached the stream. *)
Definition send (evs : list write_event) (s : TcpSocket)
    : option (TcpSocket * list Z * io_result nat) :=
  if closed s then Some (s, [], Err ConnectionAborted) else
  let block_len := Nat.min DEFAULT_WRITE_BLOCK_LEN (length (write_buf s)) in
  match send_loop evs (mkSendState (take block_len (write_buf s)) 0 [] []) (Ok 0) with
  | None => None
  | Some (st, result) =>
      let block_pos := ss_block_pos st in
      let s := set_sent_len (sent_len s + block_pos)
                 (set_readed_write_len (readed_write_len s + block_pos)
                   (set_write_buf (drop block_len (write_buf s) ++ ss_requeue st) s)) in
      let s := if decide (0 < block_pos /\ readed_write_limit s < readed_write_len s)
               then set_readed_write_len 0 s else s in
      let s :=
        if decide (block_pos < block_len) then
          set_interest (interest_add (interest s) WRITABLE) s
        else if decide (0 < length (write_buf s) \/ sent_len s < wait_sent_len s) then
          set_interest WRITABLE s
        else set_interest READABLE s in
      Some (s, ss_out st, result)
  end.

(** [write_ready]: hands bytes to the pool, which appends them to the write buffer. *)
Definition write_ready (buf : list Z) (s : TcpSocket) : TcpSocket * io_result unit :=
  if closed s then (s, Err ConnectionAborted) else
  (set_write_events (write_events s ++ [buf])
     (set_wait_sent_len (wait_sent_len s + length buf) s), Ok tt).

(** [set_timeout], [unset_timeout] *)
Definition set_timeout (timeout : Z) (s : TcpSocket) : TcpSocket :=
  set_timer_events (timer_events s ++ [Some timeout]) s.
Definition unset_timeout (s : TcpSocket) : TcpSocket :=
  set_timer_events (timer_events s ++ [None]) s.

(** [reregister_interest], up to the call of the poller. *)
Definition reregister_interest (ready : Ready) (s : TcpSocket) : TcpSocket :=
  match ready with
  | RdEmpty => set_interest WRITABLE s
  | RdReadable => set_interest (interest_add (interest s) READABLE) s
  | RdWritable => set_interest (interest_add (interest s) WRITABLE) s
  | RdOnlyRead => set_interest READABLE s
  | RdOnlyWrite => set_interest WRITABLE s
  | RdReadWrite => set_interest (interest_add READABLE WRITABLE) s
  end.

(** [AtomicBool::compare_exchange]: the new value and, as Rust returns it,
    [Ok(previous)] when the exchange took place and [Err(previous)] when not. *)
Definition compare_exchange (cur expected new : bool) : bool * result bool bool :=
  if bool_decide (cur = expected) then (new, Ok cur) else (cur, Err cur).

(** [close]: the value a pending async read is woken with, if there is one. *)
Definition close (reason : io_result unit) (s : TcpSocket)
    : TcpSocket * option nat * io_result unit :=
  let '(flag, exchanged) := compare_exchange (closed s) false true in
  let s := set_closed flag s in
  match exchanged with
  | Ok true => (s, None, Ok tt)
  | _ =>
      let '(s, woken) :=
        if ready_reader s then
          (set_wait_ready_len 0 (set_ready_len 0 (set_ready_reader false s)), Some 0)
        else (s, None) in
      (set_close_events (close_events s ++ [reason]) s, woken, Ok tt)
  end.

(** [TcpSocket::read_buf] consumed through [copy_to_bytes(n)]; [None] is its
    panic when fewer bytes remain. *)
Definition copy_to_bytes (n : nat) (s : TcpSocket) : option (TcpSocket * list Z) :=
  if decide (n <= length (read_buf s)) then
    Some (set_read_buf (drop n (read_buf s)) s, take n (read_buf s))
  else None.

(** ** Awaiting a read

    The pool calls [recv] on each readable event and then [wakeup_read_ready].
    [await_value] runs these over the coming events until the pending read is
    woken: [inl] is the value it is woken with and the events left; [inr] means
    that the events ran out with the task still pending. *)
Fixpoint await_value (polls : list (list read_event)) (s : TcpSocket)
    : (TcpSocket * nat * list (list read_event)) + TcpSocket :=
  match polls with
  | [] => inr s
  | evs :: polls' =>
      let '(s, result) := recv evs s in
      match result with
      | Err kind =>
          (* the pool closes the connection, which wakes the read with 0 *)
          let '(s, woken, _) := close (Err kind) s in
          match woken with
          | Some n => inl (s, n, polls')
          | None => await_value polls' s
          end
      | Ok _ =>
          let '(s, woken) := wakeup_read_ready s in
          match woken with
          | Some n => inl (s, n, polls')
          | None => await_value polls' s
          end
      end
  end.

(** ** What a list of read results delivers *)

(** The bytes read before the loop of [recv] ends, and whether it ends on
    [WouldBlock]. *)
Fixpoint received (evs : list read_event) : list Z :=
  match evs with
  | RData ((_ :: _) as data) :: evs' => data ++ received evs'
  | RInterrupted :: evs' => received evs'
  | _ => []
  end.

Fixpoint ends_blocked (evs : list read_event) : bool :=
  match evs with
  | [] | RWouldBlock :: _ => true
  | RData (_ :: _) :: evs' | RInterrupted :: evs' => ends_blocked evs'
  | RData [] :: _ | RError _ :: _ => false
  end.

Lemma recv_loop_spec pending evs st :
  let '(st', would_block, result) := recv_loop pending evs st in
  rs_block st' = rs_block st ++ received evs /\
  rs_recv_len st' = rs_recv_len st + length (received evs) /\
  rs_ready_len st' =
    (if pending then rs_ready_len st + length (received evs) else rs_ready_len st) /\
  would_block = ends_blocked evs /\
  (if ends_blocked evs then result = Ok (length (rs_block st'))
   else exists kind, result = Err kind).
Proof.
  revert st; induction evs as [|[[|b data]| | |k] evs IH]; intros st; cbn.
  - destruct pending; rewrite ?app_nil_r, ?Nat.add_0_r; eauto.
  - destruct pending; rewrite ?app_nil_r, ?Nat.add_0_r; eauto 10.
  - match goal with |- context [recv_loop _ _ ?st'] => specialize (IH st') end.
    destruct (recv_loop _ _ _) as [[st3 wb] r]. cbn in IH.
    destruct IH as (-> & -> & -> & -> & IH). rewrite <-app_assoc in *. cbn in *.
    split_and!; [done|rewrite length_app; lia| |done|done].
    destruct pending; rewrite ?length_app; lia.
  - apply IH.
  - destruct pending; rewrite ?app_nil_r, ?Nat.add_0_r; eauto.
  - destruct pending; rewrite ?app_nil_r, ?Nat.add_0_r; eauto 10.
Qed.

(** The fields of the receive path after [recv] on an open connection. *)
Lemma recv_spec evs s s' result :
  closed s = false -> recv evs s = (s', result) ->
  read_buf s' = (if ends_blocked evs then read_buf s ++ received evs else read_buf s) /\
  recv_len s' = recv_len s + length (received evs) /\
  ready_len s' =
    (if ready_reader s then ready_len s + length (received evs) else ready_len s) /\
  ready_reader s' = ready_reader s /\ wait_ready_len s' = wait_ready_len s /\
  wait_recv_len s' = wait_recv_len s /\ closed s' = false /\
  (if ends_blocked evs then result = Ok (length (received evs))
   else exists kind, result = Err kind).
Proof.
  intros Hc E. unfold recv in E. rewrite Hc in E.
  match type of E with context [recv_loop ?p ?e ?st] =>
    pose proof (recv_loop_spec p e st) as L; destruct (recv_loop p e st) as [[st' wb] r] end.
  destruct L as (Lb & Lr & Lrd & -> & Lres); cbn in *. simplify_eq.
  destruct (ends_blocked evs), (is_require_recv _), (is_ok _ && _); cbn;
    rewrite ?Lb; split_and!; cbn; auto; by rewrite Lres, Lb.
Qed.

(** [wakeup_read_ready] wakes a pending read exactly when enough bytes came. *)
Lemma wakeup_read_ready_spec s :
  ready_reader s = true ->
  wakeup_read_ready s =
    if decide (wait_ready_len s <= ready_len s) then
      (set_wait_ready_len 0 (set_ready_len 0 (set_ready_reader false s)), Some (ready_len s))
    else (s, None).
Proof.
  intros H. unfold wakeup_read_ready. rewrite H. repeat case_decide; try done; lia.
Qed.

(** ** Properties of the receive path *)

(** One call of [recv] on an open connection: when it ends because the stream has no
    more data, exactly the bytes read are appended to the read buffer and their number is
    returned; when it ends with the end of the stream or an error, the bytes that came
    before it in the same call never reach the read buffer. They are counted in both cases,
    also for a pending asynchronous read. *)
Theorem recv_delivers evs s :
  closed s = false ->
  exists s' r, recv evs s = (s', r) /\
    (if ends_blocked evs
     then r = Ok (length (received evs)) /\ read_buf s' = read_buf s ++ received evs
     else (exists kind, r = Err kind) /\ read_buf s' = read_buf s) /\
    recv_len s' = recv_len s + length (received evs) /\
    ready_len s' = ready_len s + (if ready_reader s then length (received evs) else 0).
Proof.
  intros Hc. destruct (recv evs s) as [s' r] eqn:E.
  pose proof (recv_spec _ _ _ _ Hc E) as (Hb & Hl & Hr & _ & _ & _ & _ & Hres).
  exists s', r. split_and!; [done| |done|destruct (ready_reader s); lia]. by destruct (ends_blocked evs).
Qed.

Lemma recv_delivers_witness :
  exists s' r, recv [RData [1%Z; 2%Z]; RData []] (new_socket 0 0) = (s', r) /\
    ((exists kind, r = Err kind) /\ read_buf s' = []) /\ recv_len s' = 2 /\ ready_len s' = 0.
Proof. apply (recv_delivers [RData [1%Z; 2%Z]; RData []] (new_socket 0 0)). reflexivity. Defined.

Fixpoint received_all (polls : list (list read_event)) : list Z :=
  match polls with [] => [] | evs :: polls' => received evs ++ received_all polls' end.

Definition all_blocked (polls : list (list read_event)) : bool := forallb ends_blocked polls.

(** The bytes of a connection that is open: those buffered and those to come. *)
Definition stream_bytes (s : TcpSocket) (polls : list (list read_event)) : list Z :=
  read_buf s ++ received_all polls.

(** While the stream does not end, a pending read is woken with the number of
    bytes that arrived since it was set, which is at least what it waits for. *)
Lemma await_value_spec polls s :
  closed s = false -> ready_reader s = true -> all_blocked polls = true ->
  match await_value polls s with
  | inl (s', n, polls') =>
      closed s' = false /\ all_blocked polls' = true /\ ready_reader s' = false /\
      ready_len s' = 0 /\ wait_ready_len s <= n /\
      length (read_buf s') + ready_len s = length (read_buf s) + n /\
      stream_bytes s' polls' = stream_bytes s polls
  | inr _ => polls = [] \/ ready_len s + length (received_all polls) < wait_ready_len s
  end.
Proof.
  revert s; induction polls as [|evs polls IH]; intros s Hc Hr Hall; cbn; [by left|].
  cbn in Hall. apply andb_prop in Hall as [He Hall].
  destruct (recv evs s) as [s1 r] eqn:E.
  pose proof (recv_spec _ _ _ _ Hc E) as (Hb & _ & Hrl & Hrr & Hw & _ & Hc1 & Hres).
  rewrite He, Hr in *. subst r. rewrite wakeup_read_ready_spec by done.
  case_decide as Hd; cbn.
  - rewrite Hb, Hrl. unfold stream_bytes. cbn. rewrite ?Hb, length_app, app_assoc.
    split_and!; try done; lia.
  - specialize (IH s1 Hc1 Hrr Hall).
    destruct (await_value polls s1) as [[[s' n] polls']|s'].
    + rewrite Hb, Hrl, Hw, length_app in IH. unfold stream_bytes in *. cbn.
      rewrite ?Hb, <-app_assoc in IH. destruct IH as (? & ? & ? & ? & ? & ? & ->).
      split_and!; try done; lia.
    + right. rewrite Hrl, Hw in *. rewrite length_app. destruct IH as [->|]; cbn; lia.
Qed.

(** Waiting for [n] bytes on an open connection with [read_ready] either finds
    them buffered or is woken as soon as they have arrived: whenever the stream
    still carries [n] bytes, the wait ends, and afterwards at least [n] bytes are
    in the read buffer and no byte of the stream was lost or reordered. *)
Lemma read_ready_await n s polls s1 :
  closed s = false -> ready_len s = 0 -> all_blocked polls = true ->
  n <= length (stream_bytes s polls) -> length (read_buf s) < n ->
  read_ready n s = (s1, inl tt) ->
  exists s' v polls', await_value polls s1 = inl (s', v, polls') /\
    0 < v /\ length (read_buf s') = length (read_buf s) + v /\ n <= length (read_buf s') /\
    closed s' = false /\ ready_len s' = 0 /\ all_blocked polls' = true /\
    stream_bytes s' polls' = stream_bytes s polls.
Proof.
  intros Hc Hrl Hall Hn Hlt E. unfold read_ready in E. rewrite Hc in E.
  cbn in E. case_decide as Hd; [lia|]. simplify_eq.
  match goal with |- context [await_value polls ?s1] =>
    pose proof (await_value_spec polls s1 Hc eq_refl Hall) as L end.
  unfold stream_bytes in *. rewrite length_app in Hn.
  destruct (await_value _ _) as [[[s' v] polls']|s']; cbn in L.
  - destruct L as (? & ? & ? & ? & ? & ? & ?). exists s', v, polls'. split_and!; try done; lia.
  - rewrite Hrl in L. destruct L as [->|L]; cbn in *; lia.
Qed.

(** ** The connection as a byte source *)

(** A connection with the readable events to come. *)
Record TcpConn := mkTcpConn { tc_socket : TcpSocket; tc_polls : list (list read_event) }.

Definition conn_ready (n : nat) (c : TcpConn) : option (nat * TcpConn) :=
  let '(s, r) := read_ready n (tc_socket c) in
  match r with
  | inr len => Some (len, mkTcpConn s (tc_polls c))
  | inl _ =>
      match await_value (tc_polls c) s with
      | inl (s', v, polls') => Some (v, mkTcpConn s' polls')
      | inr _ => None
      end
  end.

#[export] Instance tcp_byte_source : ByteSource TcpConn := {|
  src_buffered c := read_buf (tc_socket c);
  src_ready := conn_ready;
  src_at_once n c := match (read_ready n (tc_socket c)).2 with inr _ => true | inl _ => false end;
  src_take n c :=
    match copy_to_bytes n (tc_socket c) with
    | Some (s, bs) => Some (mkTcpConn s (tc_polls c), bs)
    | None => None
    end;
  src_close kind c := mkTcpConn (close (Err kind) (tc_socket c)).1.1 (tc_polls c);
  src_stream c := stream_bytes (tc_socket c) (tc_polls c);
  src_live c := closed (tc_socket c) = false /\ ready_len (tc_socket c) = 0 /\
    all_blocked (tc_polls c) = true |}.

#[export] Instance tcp_byte_source_laws : ByteSourceLaws TcpConn.
Proof.
  split.
  - intros c. by exists (received_all (tc_polls c)).
  - intros n [s polls] (Hc & Hr & Hall) Hlt Hn. cbn in *. unfold conn_ready. cbn.
    destruct (read_ready n s) as [s1 r] eqn:E.
    assert (r = inl tt) as ->.
    { unfold read_ready in E. rewrite Hc in E. case_decide; [cbn in *; lia|by simplify_eq]. }
    destruct (read_ready_await n s polls s1 Hc Hr Hall Hn Hlt E)
      as (s' & v & polls' & -> & ? & ? & ? & ? & ? & ? & ?).
    exists v, (mkTcpConn s' polls'). split_and!; done.
  - intros n [s polls] (Hc & _) Hn. cbn in *. unfold read_ready. rewrite Hc.
    rewrite decide_False; [done|]. cbn. lia.
  - intros n [s polls] (Hc & Hr & Hall) Hn Hp. cbn in *. unfold conn_ready, read_ready. cbn. rewrite Hc.
    rewrite decide_True by done. split; [done|]. eexists. by split.
  - intros [s polls] (Hc & Hr & Hall) Hb Hs. cbn in *. unfold conn_ready, read_ready. cbn. rewrite Hc.
    rewrite decide_False by (cbn; rewrite Hb; cbn; lia). split; [done|].
    match goal with |- context [await_value polls ?s1] =>
      pose proof (await_value_spec polls s1 Hc eq_refl Hall) as L end.
    destruct (await_value _ _) as [[[s' v] polls']|s']; cbn in L.
    + destruct L as (? & ? & ? & ? & ? & ? & ?). exists v, (mkTcpConn s' polls').
      cbn. split_and!; try done. rewrite Hb in *. cbn in *. lia.
    + destruct L as [->|L]; [|lia]. unfold stream_bytes in Hs. by rewrite Hb in Hs.
  - intros n [s polls] (Hc & Hr & Hall) Hn. cbn in *. unfold copy_to_bytes.
    rewrite decide_True by done. eexists. split; [done|]. cbn. unfold stream_bytes. cbn.
    split_and!; try done. rewrite drop_app_le; done.
Qed.

(** C23: Waiting for [n] bytes on an open connection whose stream carries at least [n]
    bytes, fewer of them buffered, never stays pending: it ends with the number of
    bytes that arrived, at least [n] bytes are then buffered, and the stream (buffer
    and bytes to come) is the same, whatever the segments the bytes arrive in. *)
Theorem conn_ready_complete n s polls :
  closed s = false -> ready_len s = 0 -> all_blocked polls = true ->
  length (read_buf s) < n -> n <= length (stream_bytes s polls) ->
  exists v c', conn_ready n (mkTcpConn s polls) = Some (v, c') /\ 0 < v /\
    n <= length (read_buf (tc_socket c')) /\
    length (read_buf (tc_socket c')) = length (read_buf s) + v /\
    closed (tc_socket c') = false /\ ready_len (tc_socket c') = 0 /\
    stream_bytes (tc_socket c') (tc_polls c') = stream_bytes s polls.
Proof.
  intros Hc Hr Hall Hlt Hn.
  destruct (src_ready_wait n (mkTcpConn s polls)) as (v & c' & E & Hv & (? & ? & _) & ? & ? & ?);
    [done..|]. eauto 10.
Qed.

Lemma conn_ready_complete_witness :
  exists v c', conn_ready 3 (mkTcpConn (new_socket 0 0) [[RData [1%Z]]; [RData [2%Z]; RData [3%Z; 4%Z]]])
      = Some (v, c') /\ 0 < v /\ 3 <= length (read_buf (tc_socket c')) /\
    length (read_buf (tc_socket c')) = 0 + v /\
    closed (tc_socket c') = false /\ ready_len (tc_socket c') = 0 /\
    stream_bytes (tc_socket c') (tc_polls c') = [1%Z; 2%Z; 3%Z; 4%Z].
Proof.
  apply (conn_ready_complete 3 (new_socket 0 0) [[RData [1%Z]]; [RData [2%Z]; RData [3%Z; 4%Z]]]);
    first [reflexivity | cbn; lia].
Defined.

(** ** Properties of the send path *)

Lemma write_block_pos (l : list Z) :
  l <> [] -> 0 < Nat.min DEFAULT_WRITE_BLOCK_LEN (length l).
Proof. intros Hl. apply Nat.min_glb_lt; destruct l; [done| |done|]; cbn [length]; unfold DEFAULT_WRITE_BLOCK_LEN; lia. Qed.

Lemma send_loop_interrupted k evs st r :
  send_loop (replicate k WInterrupted ++ evs) st r = send_loop evs st r.
Proof.
  induction k as [|k IH]; [done|]. simpl. destruct st as [[|b block] pos out rq]; simpl in *; [|done].
  by destruct evs.
Qed.

(** When the stream accepts the whole block at once, after any number of
    interrupted attempts, [send] writes the first bytes of the write buffer, in
    order and at most a block of them, and leaves exactly the others. *)
Theorem send_whole_block k rest s :
  closed s = false -> write_buf s <> [] ->
  let n := Nat.min DEFAULT_WRITE_BLOCK_LEN (length (write_buf s)) in
  exists s', send (replicate k WInterrupted ++ WWrote n :: rest) s =
      Some (s', take n (write_buf s), Ok n) /\
    write_buf s' = drop n (write_buf s) /\ sent_len s' = sent_len s + n.
Proof.
  intros Hc Hne n. unfold send. rewrite Hc. fold n. rewrite send_loop_interrupted.
  assert (length (take n (write_buf s)) = n) as Hlen by (rewrite length_take; lia).
  pose proof (write_block_pos _ Hne) as Hn. fold n in Hn. clearbody n.
  destruct (take n (write_buf s)) as [|b block] eqn:Eb; [cbn in Hlen; lia|].
  destruct n as [|n'] eqn:En; [lia|]. rewrite <-En in *.
  assert (send_loop (WWrote n :: rest) (mkSendState (b :: block) 0 [] []) (Ok 0) =
          Some (mkSendState [] n (b :: block) [], Ok n)) as ->.
  { rewrite En at 1. cbn -[take drop]. rewrite <-En.
    rewrite decide_True by (cbn in Hlen; lia).
    rewrite drop_ge by (cbn in *; lia). rewrite take_ge by (cbn in *; lia).
    by destruct rest. }
  cbn -[take drop Nat.min]. rewrite app_nil_r. repeat case_decide; cbn; eauto; try lia.
Qed.

Lemma send_whole_block_witness :
  exists s', send [WInterrupted; WWrote 3] (set_write_buf [1%Z; 2%Z; 3%Z] (new_socket 0 0)) =
      Some (s', [1%Z; 2%Z; 3%Z], Ok 3) /\
    write_buf s' = [] /\ sent_len s' = 0 + 3.
Proof.
  apply (send_whole_block 1 [] (set_write_buf [1%Z; 2%Z; 3%Z] (new_socket 0 0))); done.
Defined.

(** One partial write of [n] bytes of the block followed by [WouldBlock] loses
    the bytes [n .. 2n) of the block, because [block_pos] is counted from the start
    of the block and the slice has already been advanced; when fewer than [2n]
    bytes were in the block the slice expression panics. *)
Theorem send_partial_write_loses n s :
  closed s = false ->
  let wb := write_buf s in
  let block_len := Nat.min DEFAULT_WRITE_BLOCK_LEN (length wb) in
  0 < n -> n < block_len ->
  match send [WWrote n; WWouldBlock] s with
  | Some (s', out, result) =>
      2 * n <= block_len /\ out = take n wb /\ result = Ok n /\
      write_buf s' = drop block_len wb ++ drop (2 * n) (take block_len wb)
  | None => block_len < 2 * n
  end.
Proof.
  intros Hc wb bl Hn Hlt. unfold send. rewrite Hc. fold wb bl.
  assert (length (take bl wb) = bl) as Hlen by (rewrite length_take; lia).
  clearbody bl. destruct n as [|n']; [lia|]. set (n := S n') in *.
  destruct (take bl wb) as [|b block] eqn:Eb; [cbn in Hlen; lia|].
  assert (length (drop n (b :: block)) = bl - n) as Hd by (rewrite length_drop; lia).
  assert (forall st, send_loop [WWouldBlock] st (Ok n) =
    match ss_block st with [] => Some (st, Ok n) | _ =>
      if decide (ss_block_pos st <= length (ss_block st)) then
        Some (mkSendState (ss_block st) (ss_block_pos st) (ss_out st)
                (drop (ss_block_pos st) (ss_block st)), Ok (ss_block_pos st))
      else None end) as Estep by (intros [[]]; done).
  assert (send_loop [WWrote n; WWouldBlock] (mkSendState (b :: block) 0 [] []) (Ok 0) =
    send_loop [WWouldBlock] (mkSendState (drop n (b :: block)) n (take n (b :: block)) []) (Ok n)) as ->.
  { cbn -[take drop]. rewrite decide_True by (cbn in Hlen; lia). done. }
  rewrite Estep. cbn [ss_block ss_block_pos ss_out].
  destruct (drop n (b :: block)) as [|c tl] eqn:Ed; [cbn in Hd; lia|]. rewrite <-Ed in *.
  case_decide as Hle; rewrite Hd in Hle; [|lia].
  assert (take n (b :: block) = take n wb) as Et.
  { rewrite <-Eb, take_take. f_equal. lia. }
  cbn -[take drop Nat.min]. rewrite drop_drop, Et. replace (n + n) with (2 * n) by lia.
  fold wb. repeat case_decide; cbn -[take drop Nat.min]; split_and!; try done; lia.
Qed.

Lemma send_partial_write_loses_witness :
  send [WWrote 1; WWouldBlock] (set_write_buf [1%Z; 2%Z; 3%Z] (new_socket 0 0)) <> None /\
  match send [WWrote 1; WWouldBlock] (set_write_buf [1%Z; 2%Z; 3%Z] (new_socket 0 0)) with
  | Some (s', out, result) =>
      2 * 1 <= 3 /\ out = [1%Z] /\ result = Ok 1 /\ write_buf s' = [3%Z]
  | None => 3 < 2 * 1
  end.
Proof.
  split; [done|].
  apply (send_partial_write_loses 1 (set_write_buf [1%Z; 2%Z; 3%Z] (new_socket 0 0)));
    first [reflexivity | vm_compute; lia].
Defined.

(** A [WouldBlock] before anything is written puts the block back behind the
    bytes that follow it: with more than one block waiting the order of the
    outgoing bytes changes. *)
Theorem send_would_block_rotates s :
  closed s = false -> write_buf s <> [] ->
  let n := Nat.min DEFAULT_WRITE_BLOCK_LEN (length (write_buf s)) in
  exists s', send [WWouldBlock] s = Some (s', [], Ok 0) /\
    write_buf s' = drop n (write_buf s) ++ take n (write_buf s).
Proof.
  intros Hc Hne n. unfold send. rewrite Hc. fold n.
  pose proof (write_block_pos _ Hne) as Hn. fold n in Hn.
  assert (length (take n (write_buf s)) = n) as Hlen by (rewrite length_take; lia).
  clearbody n.
  destruct (take n (write_buf s)) as [|b block] eqn:Eb; [cbn in Hlen; lia|].
  cbn -[take drop Nat.min]. repeat case_decide; try lia; cbn; eauto.
Qed.

Lemma send_would_block_rotates_witness :
  exists s', send [WWouldBlock] (set_write_buf [1%Z; 2%Z] (new_socket 0 0)) = Some (s', [], Ok 0) /\
    write_buf s' = [1%Z; 2%Z].
Proof.
  apply (send_would_block_rotates (set_write_buf [1%Z; 2%Z] (new_socket 0 0))); done.
Defined.

(** ** Closing *)

(** [close] marks the connection closed, wakes a pending read with 0 and tells
    the pool; but it does so on every call, not only on the first one: the test of
    the exchange's result looks for [Ok(true)], which no exchange from [false]
    returns. *)
Theorem close_notifies_every_time reason s :
  let '(s', woken, result) := close reason s in
  closed s' = true /\ ready_reader s' = false /\ result = Ok tt /\
  woken = (if ready_reader s then Some 0 else None) /\
  close_events s' = close_events s ++ [reason].
Proof.
  unfold close, compare_exchange. destruct s as []; cbn.
  destruct closed0, ready_reader0; cbn; done.
Qed.

(** ** Unique ids (new_tcp/src/connect_pool.rs, new_tcp/src/utils.rs) *)

(** The unique id given to an accepted connection, and [close_socket], which
    takes it apart again to find the pool's channel and the token. *)
Definition socket_uid (pool_uid token : Z) : Z :=
  Z.lor (wrap64 (Z.shiftl pool_uid 56)) token.

Definition close_socket (uid : Z) (reason : io_result unit)
    (tab : gmap Z (list (Z * io_result unit))) : gmap Z (list (Z * io_result unit)) * bool :=
  let pool_uid := Z.land (Z.shiftr uid 24) 0xff in
  let token := Z.land uid 0xffffff in
  match tab !! pool_uid with
  | Some events => (<[pool_uid := events ++ [(token, reason)]]> tab, true)
  | None => (tab, false)
  end.

(** [close_socket] never addresses the token of the connection whose unique id it
    is given: tokens are slot map keys, whose version makes them at least [2^32],
    while [close_socket] keeps the low 24 bits only. *)
Theorem close_socket_wrong_token pool_uid token reason tab tab' :
  (2 ^ 32 <= token)%Z ->
  close_socket (socket_uid pool_uid token) reason tab = (tab', true) ->
  exists (k : Z) events (token' : Z),
    tab !! k = Some events /\ tab' = (<[k := events ++ [(token', reason)]]> tab) /\
    token' <> token.
Proof.
  intros Ht. unfold close_socket.
  set (k := Z.land (Z.shiftr _ _) _). destruct (tab !! k) as [evs|] eqn:Ek; [|done].
  assert (forall uid, Z.land uid 0xffffff < 2 ^ 24)%Z as Hlt.
  { intros uid. change 0xffffff%Z with (Z.ones 24). rewrite Z.land_ones by lia.
    apply Z.mod_pos_bound. lia. }
  specialize (Hlt (socket_uid pool_uid token)). clearbody k.
  generalize dependent (Z.land (socket_uid pool_uid token) 0xffffff).
  intros tok Hlt [= <-]. exists k, evs, tok. split; [done|]. split; [done|]. lia.
Qed.

Lemma close_socket_wrong_token_witness :
  let tab : gmap Z (list (Z * io_result unit)) := {[ 1%Z := [] ]} in
  let uid := socket_uid 1 (2 ^ 32 + 2 ^ 24 + 5) in
  exists (k : Z) events (token' : Z), tab !! k = Some events /\
    (close_socket uid (Ok tt) tab).1 = (<[k := events ++ [(token', Ok tt)]]> tab) /\
    token' <> (2 ^ 32 + 2 ^ 24 + 5)%Z.
Proof.
  apply (close_socket_wrong_token 1 (2 ^ 32 + 2 ^ 24 + 5)); [lia|vm_compute; reflexivity].
Defined.
