(* ===== verification/Hibernate.v ===== *)
(** * Hibernation of a connection (new_tcp/src/utils.rs, new_tcp/src/connect.rs)

    A task that awaits a [Hibernate] object sleeps until [wakeup] is called on the
    connection; the events of a hibernated connection are queued as tasks and run
    afterwards. The objects are shared, so they live in a store by address; wakers are
    the numbers of their tasks, and waking is recorded. *)

From S2P Require Import Prelude TcpSocket.

(** [InnerHibernate] without the handle, which is the connection below. *)
Record Inner := mkInner {
  ready : Ready;
  waker : option nat;
  waker_status : Z;
  value : option (io_result unit);       (* [result] *)
}.

Record HState := mkHState {
  hs_socket : TcpSocket;
  hs_objs : gmap nat Inner;
  hs_current : option nat;      (* [hibernate] *)
  hs_wakers : list nat;         (* [hibernate_wakers] *)
  hs_queue : list nat;          (* [hibernated_queue], by task *)
  hs_runners : nat;             (* tasks that run the queue *)
  hs_woken : list nat;          (* tasks woken, newest last *)
  hs_done : list nat;           (* queued tasks run, newest last *)
}.

Definition set_socket x s :=
  mkHState x (hs_objs s) (hs_current s) (hs_wakers s) (hs_queue s) (hs_runners s) (hs_woken s) (hs_done s).
Definition set_objs x s :=
  mkHState (hs_socket s) x (hs_current s) (hs_wakers s) (hs_queue s) (hs_runners s) (hs_woken s) (hs_done s).
Definition set_current x s :=
  mkHState (hs_socket s) (hs_objs s) x (hs_wakers s) (hs_queue s) (hs_runners s) (hs_woken s) (hs_done s).
Definition set_wakers x s :=
  mkHState (hs_socket s) (hs_objs s) (hs_current s) x (hs_queue s) (hs_runners s) (hs_woken s) (hs_done s).
Definition set_queue x s :=
  mkHState (hs_socket s) (hs_objs s) (hs_current s) (hs_wakers s) x (hs_runners s) (hs_woken s) (hs_done s).
Definition set_runners x s :=
  mkHState (hs_socket s) (hs_objs s) (hs_current s) (hs_wakers s) (hs_queue s) x (hs_woken s) (hs_done s).
Definition set_woken x s :=
  mkHState (hs_socket s) (hs_objs s) (hs_current s) (hs_wakers s) (hs_queue s) (hs_runners s) x (hs_done s).
Definition set_done x s :=
  mkHState (hs_socket s) (hs_objs s) (hs_current s) (hs_wakers s) (hs_queue s) (hs_runners s) (hs_woken s) x.

Definition put (h : nat) (o : Inner) (s : HState) : HState := set_objs (<[h := o]> (hs_objs s)) s.
Definition wake (ts : list nat) (s : HState) : HState := set_woken (hs_woken s ++ ts) s.

(** A connection that nobody hibernates on. *)
Definition awake (c : TcpSocket) : HState := mkHState c ∅ None [] [] 0 [] [].

(** ** The connection's side *)

Definition is_hibernated (s : HState) : bool :=
  bool_decide (is_Some (hs_current s)) || bool_decide (0 < length (hs_queue s)).

Definition push_hibernated_task (t : nat) (s : HState) : HState := set_queue (hs_queue s ++ [t]) s.

(** [run_hibernated_tasks] starts a task that runs the queue, on the runtime the
    connection was given; [runner_step] is one turn of its loop. *)
Definition run_hibernated_tasks (s : HState) : HState := set_runners (S (hs_runners s)) s.

Definition runner_step (s : HState) : HState :=
  match hs_runners s with
  | O => s
  | S n =>
      match hs_queue s with
      | t :: q => set_queue q (set_done (hs_done s ++ [t]) s)
      | [] => set_runners n s
      end
  end.

(** [hibernate]: a new object at the fresh address [h]. *)
Definition hibernate (h : nat) (r : Ready) (s : HState) : option HState :=
  if closed (hs_socket s) then None else Some (put h (mkInner r None 0 None) s).

Definition set_hibernate (h : nat) (s : HState) : HState * bool :=
  match hs_current s with
  | Some _ => (s, false)
  | None => (set_current (Some h) s, true)
  end.

Definition set_hibernate_wakers (t : nat) (s : HState) : HState := set_wakers (hs_wakers s ++ [t]) s.

(** ** The object's side *)

Inductive poll_result :=
| PollReady (r : io_result unit)
| PollPending.

(** [reregister_interest] with the poller's answer. *)
Definition reregister (r : Ready) (answer : io_result unit) (s : HState) : HState * io_result unit :=
  (set_socket (reregister_interest r (hs_socket s)) s, answer).

(** [poll] of the object [h] in the task [t]. *)
Definition poll (h t : nat) (answer : io_result unit) (s : HState) : HState * poll_result :=
  match hs_objs s !! h with
  | None => (s, PollPending)
  | Some o =>
      match value o with
      | Some r =>
          let s := put h (mkInner (ready o) (waker o) (waker_status o) None) s in
          match reregister (ready o) answer s with
          | (s, Err e) => (s, PollReady (Err e))
          | (s, Ok _) => (run_hibernated_tasks s, PollReady r)
          end
      | None =>
          match reregister (ready o) answer s with
          | (s, Err e) => (s, PollReady (Err e))
          | (s, Ok _) =>
              match set_hibernate h s with
              | (s, true) => (put h (mkInner (ready o) (Some t) (waker_status o) None) s, PollPending)
              | (s, false) =>
                  (put h (mkInner (ready o) (waker o) 1 None) (set_hibernate_wakers t s), PollPending)
              end
          end
      end
  end.

(** [Hibernate::wakeup] *)
Definition hib_wakeup (h : nat) (result : io_result unit) (s : HState) : HState * bool :=
  match hs_objs s !! h with
  | None => (s, false)
  | Some o =>
      match waker o with
      | Some t =>
          if (0 <? waker_status o)%Z then
            (wake [t] (put h (mkInner (ready o) None 0 (value o)) s), false)
          else (wake [t] (put h (mkInner (ready o) None (waker_status o) (Some result)) s), true)
      | None => (s, match value o with None => false | Some _ => true end)
      end
  end.

(** [TcpSocket::wakeup] *)
Definition wakeup (result : io_result unit) (s : HState) : HState * bool :=
  if closed (hs_socket s) then (s, true)
  else
    let '(s, r) :=
      match hs_current s with
      | Some h => hib_wakeup h result (set_current None s)
      | None => (s, false)
      end in
    if r then (set_wakers [] (wake (hs_wakers s) s), true) else (s, false).

(** [TcpSocket::close] does not look at the hibernation. *)
Definition close_socket (reason : io_result unit) (s : HState) : HState :=
  set_socket (TcpSocket.close reason (hs_socket s)).1.1 s.

(** ** Reachable states *)

Inductive hib_step : HState -> HState -> Prop :=
| hib_new h r s s' : hs_objs s !! h = None -> hibernate h r s = Some s' -> hib_step s s'
| hib_poll h t a s : hib_step s (poll h t a s).1
| hib_wake r s : hib_step s (wakeup r s).1
| hib_push t s : hib_step s (push_hibernated_task t s)
| hib_run s : hib_step s (runner_step s)
| hib_close r s : hib_step s (close_socket r s).

(** The object the connection refers to, and no other, has a waker and no result; every
    status is 0 or 1. *)
Definition hib_inv (s : HState) : Prop :=
  (forall h, hs_current s = Some h -> exists o, hs_objs s !! h = Some o /\ is_Some (waker o) /\ value o = None) /\
  (forall h o, hs_objs s !! h = Some o -> (is_Some (waker o) -> hs_current s = Some h) /\
     (waker_status o = 0 \/ waker_status o = 1)%Z).

Lemma hib_inv_same s s' :
  hs_objs s' = hs_objs s -> hs_current s' = hs_current s -> hib_inv s -> hib_inv s'.
Proof. unfold hib_inv. by intros -> ->. Qed.

(** An object without a waker that is not the current one may change freely. *)
Lemma hib_inv_put h o s :
  hs_current s <> Some h -> waker o = None -> (waker_status o = 0 \/ waker_status o = 1)%Z ->
  hib_inv s -> hib_inv (put h o s).
Proof.
  intros Hc Hw Hst [I1 I2]. split; cbn.
  - intros h' Hh'. rewrite lookup_insert_ne by congruence. auto.
  - intros h' o' [[<- <-]|[_ Hl]]%lookup_insert_Some; [|eauto]. rewrite Hw. split; [by intros [? ?]|done].
Qed.

Lemma poll_inv h t a s : hib_inv s -> hib_inv (poll h t a s).1.
Proof.
  intros I. pose proof I as [I1 I2]. unfold poll, reregister.
  destruct (hs_objs s !! h) as [o|] eqn:Eo; [|done]. destruct (I2 _ _ Eo) as [Iw Ist].
  destruct (value o) as [r|] eqn:Ev.
  - assert (hs_current s <> Some h) as Hc.
    { intros Hh. destruct (I1 _ Hh) as (o' & ? & _ & ?). congruence. }
    assert (waker o = None) as Hw by (destruct (waker o); [by destruct (Hc (Iw ltac:(by eexists)))|done]).
    destruct a; cbn; (eapply hib_inv_same; [..|by apply (hib_inv_put h (mkInner (ready o) (waker o) (waker_status o) None) s)]); done.
  - destruct a; [|by eapply hib_inv_same]. unfold set_hibernate. cbn.
    destruct (hs_current s) as [h0|] eqn:Ec; cbn.
    + destruct (decide (h0 = h)) as [->|Hne].
      * destruct (I1 h eq_refl) as (o' & Eo' & Hw & _). assert (o' = o) as -> by congruence. split; cbn.
        -- intros h'. rewrite Ec. intros [= <-]. rewrite lookup_insert_eq. eauto.
        -- intros h' o' [[<- <-]|[_ Hl]]%lookup_insert_Some; rewrite Ec; cbn; eauto.
      * assert (waker o = None) as Hw.
        { destruct (waker o); [|done]. specialize (Iw ltac:(by eexists)). congruence. }
        eapply hib_inv_same; [..|apply (hib_inv_put h (mkInner (ready o) (waker o) 1 None) s)]; cbn; auto; congruence.
    + split; cbn.
      * intros h' [= <-]. rewrite lookup_insert_eq. eauto.
      * intros h' o' [[<- <-]|[Hne Hl]]%lookup_insert_Some; [done|]. destruct (I2 _ _ Hl) as [Hw ?].
        split; [|done]. intros Hs. by specialize (Hw Hs).
Qed.

Lemma wakeup_inv r s : hib_inv s -> hib_inv (wakeup r s).1.
Proof.
  intros I. pose proof I as [I1 I2]. unfold wakeup. destruct (closed (hs_socket s)); [done|].
  destruct (hs_current s) as [h|] eqn:Ec; [|done].
  destruct (I1 h eq_refl) as (o & Eo & [t Ht] & _). unfold hib_wakeup. cbn. rewrite Eo, Ht.
  assert (forall o', waker o' = None -> (waker_status o' = 0 \/ waker_status o' = 1)%Z ->
    hib_inv (put h o' (set_current None s))) as Hp.
  { intros o' Hw Hst. split; cbn; [done|]. intros h' o'' [[<- <-]|[Hne Hl]]%lookup_insert_Some.
    - rewrite Hw. split; [by intros [? ?]|done].
    - destruct (I2 _ _ Hl) as [Hw' ?]. split; [|done]. intros [= ->]%Hw'. done. }
  destruct (I2 _ _ Eo) as [_ Ist]. destruct (0 <? waker_status o)%Z; cbn.
  - eapply hib_inv_same; [..|apply (Hp (mkInner (ready o) None 0 (value o)))]; cbn; auto.
  - eapply hib_inv_same; [..|apply (Hp (mkInner (ready o) None (waker_status o) (Some r)))]; cbn; auto.
Qed.

Lemma hib_step_inv s s' : hib_step s s' -> hib_inv s -> hib_inv s'.
Proof.
  intros [h r s0 s1 Hf Hh| | | | |]; intros I; try (by eapply hib_inv_same).
  - unfold hibernate in Hh. destruct (closed (hs_socket s0)); simplify_eq.
    apply hib_inv_put; cbn; auto. intros Hc. destruct I as [I1 _]. destruct (I1 _ Hc) as (o & ? & _). congruence.
  - by apply poll_inv.
  - by apply wakeup_inv.
  - eapply hib_inv_same; [..|exact I]; unfold runner_step; by repeat case_match.
Qed.

Lemma hib_reachable_inv c s : rtc hib_step (awake c) s -> hib_inv s.
Proof.
  intros Hr. eapply (rtc_ind_r hib_inv (awake c)); [split; cbn; [done|by intros ??; rewrite lookup_empty]| |exact Hr].
  intros; by eapply hib_step_inv.
Qed.

(** ** Waking up *)

Lemma closed_reregister r s : closed (reregister_interest r s) = closed s.
Proof. by destruct r. Qed.

(** On an open connection, in any state that can come about, the task that hibernates
    on it is woken by at most two calls of [wakeup]: the first one wakes it, and when it
    reports success the task's next poll yields exactly the result given, with the
    other hibernating tasks woken behind it in order; when it reports that it was blocked,
    the task goes back to sleep and a second call succeeds and delivers its result. *)
Theorem wakeup_within_two c s h r :
  rtc hib_step (awake c) s -> closed (hs_socket s) = false -> hs_current s = Some h ->
  exists t ts, hs_woken (wakeup r s).1 = hs_woken s ++ t :: ts /\
    if (wakeup r s).2
    then ts = hs_wakers s /\ (poll h t (Ok tt) (wakeup r s).1).2 = PollReady r
    else let s2 := poll h t (Ok tt) (wakeup r s).1 in
         s2.2 = PollPending /\ (wakeup r s2.1).2 = true /\
         (poll h t (Ok tt) (wakeup r s2.1).1).2 = PollReady r.
Proof.
  intros Hr Hcl Hc. destruct (hib_reachable_inv _ _ Hr) as [I1 _].
  destruct (I1 _ Hc) as (o & Eo & [t Ht] & Ev). exists t.
  destruct (0 <? waker_status o)%Z eqn:Est.
  - assert (wakeup r s = (wake [t] (put h (mkInner (ready o) None 0 (value o)) (set_current None s)), false)) as ->.
    { unfold wakeup. rewrite Hcl, Hc. unfold hib_wakeup. cbn [set_current hs_objs]. by rewrite Eo, Ht, Est. }
    exists []. cbn [fst snd]. split; [done|].
    assert (poll h t (Ok tt) (wake [t] (put h (mkInner (ready o) None 0 (value o)) (set_current None s))) =
      (put h (mkInner (ready o) (Some t) 0 None) (set_current (Some h) (set_socket (reregister_interest (ready o) (hs_socket s))
        (wake [t] (put h (mkInner (ready o) None 0 (value o)) (set_current None s))))), PollPending)) as ->.
    { unfold poll. cbn. rewrite lookup_insert_eq. cbn. by rewrite Ev. }
    cbn zeta. cbn [fst snd]. split; [done|]. unfold wakeup. cbn. rewrite closed_reregister, Hcl.
    unfold hib_wakeup. cbn. rewrite lookup_insert_eq. cbn. split; [done|].
    unfold poll. cbn. by rewrite lookup_insert_eq.
  - assert (wakeup r s = (set_wakers [] (wake (hs_wakers s) (wake [t]
      (put h (mkInner (ready o) None (waker_status o) (Some r)) (set_current None s)))), true)) as ->.
    { unfold wakeup. rewrite Hcl, Hc. unfold hib_wakeup. cbn [set_current hs_objs]. by rewrite Eo, Ht, Est. }
    exists (hs_wakers s). cbn [fst snd]. split; [cbn; by rewrite <-app_assoc|]. split; [done|].
    unfold poll. cbn. by rewrite lookup_insert_eq.
Qed.

(** ** Closing *)

(** The object [h] of a closed connection waits for a result. *)
Definition stranded (h : nat) (s : HState) : Prop :=
  closed (hs_socket s) = true /\ exists o, hs_objs s !! h = Some o /\ value o = None.

Lemma closed_close reason s : closed (TcpSocket.close reason s).1.1 = true.
Proof. unfold TcpSocket.close, compare_exchange. by destruct s as [? ? ? ? ? ? ? ? [] ? ? ? ? ? [] ? ? ?]. Qed.

Lemma stranded_same h s s' :
  closed (hs_socket s') = closed (hs_socket s) -> hs_objs s' = hs_objs s -> stranded h s -> stranded h s'.
Proof. unfold stranded. by intros -> ->. Qed.

Lemma stranded_put h h' o s : value o = None -> stranded h s -> stranded h (put h' o s).
Proof.
  intros Hv (Hc & o' & Eo & Ev). split; [done|]. cbn. destruct (decide (h' = h)) as [->|].
  - rewrite lookup_insert_eq. eauto.
  - rewrite lookup_insert_ne by done. eauto.
Qed.

Lemma stranded_poll h h' t a s : stranded h s -> stranded h (poll h' t a s).1.
Proof.
  intros Hs. unfold poll, reregister. destruct (hs_objs s !! h') as [o|]; [|done].
  assert (forall w n s', closed (hs_socket s') = closed (hs_socket s) ->
    hs_objs s' = <[h' := mkInner (ready o) w n None]> (hs_objs s) -> stranded h s') as Hput.
  { intros w n s' E1 E2. eapply (stranded_same h (put h' (mkInner (ready o) w n None) s)); [done..|].
    by apply stranded_put. }
  destruct (value o); destruct a; cbn; try (eapply Hput; [|done]; cbn; by rewrite ?closed_reregister).
  - unfold set_hibernate. cbn. destruct (hs_current s); cbn; (eapply Hput; [|done]); cbn; by rewrite closed_reregister.
  - eapply stranded_same; [..|exact Hs]; cbn; by rewrite ?closed_reregister.
Qed.

Lemma stranded_step h s s' : hib_step s s' -> stranded h s -> stranded h s'.
Proof.
  intros [h' r s0 s1 Hf Hh| | | | |]; intros Hs; try done.
  - unfold hibernate in Hh. by rewrite (proj1 Hs) in Hh.
  - by apply stranded_poll.
  - unfold wakeup. by rewrite (proj1 Hs).
  - eapply stranded_same; [..|exact Hs]; unfold runner_step; by repeat case_match.
  - destruct Hs as [_ Ho]. split; [apply closed_close|done].
Qed.

(** A task that hibernates when its connection is closed sleeps for ever: whatever
    happens afterwards, every call of [wakeup] reports success and every poll of the task
    is pending (unless the poller refuses the connection). *)
Theorem closed_hibernation_strands s h o s' t r :
  closed (hs_socket s) = true -> hs_objs s !! h = Some o -> value o = None -> rtc hib_step s s' ->
  wakeup r s' = (s', true) /\ (poll h t (Ok tt) s').2 = PollPending.
Proof.
  intros Hc Eo Ev Hr.
  assert (stranded h s') as (Hc' & o' & Eo' & Ev').
  { eapply (rtc_ind_r (stranded h) s); [by split; eauto| |exact Hr]. intros; by eapply stranded_step. }
  split; [unfold wakeup; by rewrite Hc'|]. unfold poll, reregister. rewrite Eo', Ev'.
  destruct (set_hibernate _ _) as [? []]; done.
Qed.

(** The tasks queued during the hibernation run in their order. *)
Lemma runner_fifo s : 0 < hs_runners s ->
  let s' := Nat.iter (length (hs_queue s)) runner_step s in
  hs_done s' = hs_done s ++ hs_queue s /\ hs_queue s' = [].
Proof.
  remember (hs_queue s) as q eqn:Eq. revert s Eq; induction q as [|t q IH]; intros s Eq Hr.
  { cbn. by rewrite app_nil_r. }
  cbn [length]. rewrite Nat.iter_succ_r.
  assert (runner_step s = set_queue q (set_done (hs_done s ++ [t]) s)) as ->.
  { unfold runner_step. rewrite <-Eq. by destruct (hs_runners s); [lia|]. }
  destruct (IH (set_queue q (set_done (hs_done s ++ [t]) s)) eq_refl Hr) as [-> ->]. cbn. by rewrite <-app_assoc.
Qed.

(** ** Witnesses *)

(** Two tasks hibernate on a connection, the second one behind the first. *)
Definition two_sleepers : HState :=
  let s := put 0 (mkInner RdWritable None 0 None) (awake (new_socket 0 0)) in
  let s := (poll 0 10 (Ok tt) s).1 in
  let s := put 1 (mkInner RdWritable None 0 None) s in
  (poll 1 11 (Ok tt) s).1.

Lemma two_sleepers_reachable : rtc hib_step (awake (new_socket 0 0)) two_sleepers.
Proof.
  eapply rtc_l; [by apply (hib_new 0 RdWritable)|]. eapply rtc_l; [apply (hib_poll 0 10 (Ok tt))|].
  eapply rtc_l; [by apply (hib_new 1 RdWritable)|]. eapply rtc_l; [apply (hib_poll 1 11 (Ok tt))|].
  apply rtc_refl.
Qed.

Lemma wakeup_within_two_witness :
  exists t ts, hs_woken (wakeup (Ok tt) two_sleepers).1 = [] ++ t :: ts /\
    if (wakeup (Ok tt) two_sleepers).2
    then ts = [11] /\ (poll 0 t (Ok tt) (wakeup (Ok tt) two_sleepers).1).2 = PollReady (Ok tt)
    else let s2 := poll 0 t (Ok tt) (wakeup (Ok tt) two_sleepers).1 in
         s2.2 = PollPending /\ (wakeup (Ok tt) s2.1).2 = true /\
         (poll 0 t (Ok tt) (wakeup (Ok tt) s2.1).1).2 = PollReady (Ok tt).
Proof.
  apply (wakeup_within_two (new_socket 0 0) two_sleepers 0 (Ok tt) two_sleepers_reachable); reflexivity.
Defined.

(** A polled object that was passed over needs the second call. *)
Example blocked_sleeper :
  let s := (poll 1 11 (Ok tt) (wakeup (Ok tt) two_sleepers).1).1 in
  hs_current s = Some 1 /\ (wakeup (Ok tt) s).2 = false.
Proof. done. Qed.

Lemma closed_hibernation_strands_witness :
  let s := close_socket (Ok tt) two_sleepers in
  wakeup (Ok tt) (wakeup (Ok tt) s).1 = ((wakeup (Ok tt) s).1, true) /\
  (poll 0 10 (Ok tt) (wakeup (Ok tt) s).1).2 = PollPending.
Proof.
  apply (closed_hibernation_strands (close_socket (Ok tt) two_sleepers) 0 (mkInner RdWritable (Some 10) 0 None));
    [reflexivity..|]. apply rtc_once. apply hib_wake.
Defined.
