(* ===== verification/TcpPool.v ===== *)
(** * The connection pool (new_tcp/src/connect_pool.rs)

    One turn of the event loop of the pool with its handlers, the tasks they start on the
    runtime and the callbacks of the application. The poller, the keys of the slot map and
    of the timer, and which timers are due are answers from outside; a connection is kept
    by its token also after it has left the table, since tasks and handles hold it. *)

From S2P Require Import Prelude ByteSource TcpSocket Hibernate.

(** ** Data *)

(** [std::net::IpAddr] by its bits, and an address with its port. *)
Inductive IpAddr := IpV4 (a : Z) | IpV6 (a : Z).

#[export] Instance IpAddr_eq_dec : EqDecision IpAddr.
Proof. solve_decision. Defined.
#[export] Instance IpAddr_countable : Countable IpAddr.
Proof.
  refine (inj_countable' (fun i => match i with IpV4 a => inl a | IpV6 a => inr a end)
    (fun s => match s with inl a => IpV4 a | inr a => IpV6 a end) _). by intros [].
Defined.

Definition Addr : Type := IpAddr * Z.

(** What a timer carries; the pointer in it. *)
Definition SocketEvent : Type := Z.

(** A connection as the pool sees it: the socket with its hibernation, and the fields
    that the pool sets. *)
Record Conn := mkConn {
  conn : HState;
  local : Addr;
  remote : Addr;
  token : option Z;
  uid : option Z;
  timer_handle : option Z;
  has_handle : bool;
}.

(** [TcpSocket::new] as the acceptor calls it. *)
Definition new_conn (l r : Addr) (id : Z) (read_limit write_limit : nat) : Conn :=
  mkConn (awake (new_socket read_limit write_limit)) l r (Some id) None None false.

Definition set_conn x c := mkConn x (local c) (remote c) (token c) (uid c) (timer_handle c) (has_handle c).
Definition set_token x c := mkConn (conn c) (local c) (remote c) x (uid c) (timer_handle c) (has_handle c).
Definition set_timer_handle x c := mkConn (conn c) (local c) (remote c) (token c) (uid c) x (has_handle c).
Definition remove_handle c := mkConn (conn c) (local c) (remote c) (token c) (uid c) (timer_handle c) false.

Definition sock (c : Conn) : TcpSocket := hs_socket (conn c).
Definition set_sock (s : TcpSocket) (c : Conn) : Conn := set_conn (set_socket s (conn c)) c.

(** What the application sees: its callbacks, the values that pending reads are woken
    with, and the bytes that reach the stream. *)
Inductive Callback :=
| Connected
| Readed
| Writed
| Closed (r : io_result unit)
| Timeouted (e : SocketEvent)
| Woken (n : nat)
| Sent (bytes : list Z).

(** Tasks on the runtime. [TFinish] is what is left of a task behind its callback. *)
Inductive Task :=
| TConnected (k : Z)
| TReadable (k : Z)
| TWritable (k : Z)
| TFinish (k : Z) (e : ErrorKind)
| TClosed (k : Z) (r : io_result unit)
| TRemoveHandle (k : Z).

(** The table has [false] for a slot without a connection. *)
Record Pool := mkPool {
  pool_uid : Z;
  socket_recv : list Conn;
  sockets : gmap Z bool;
  conns : gmap Z Conn;
  addr_map : gmap Addr Z;
  poller : gmap Z Interest;
  write_recv : list (Z * list Z);
  close_recv : list (Z * io_result unit);
  timer_recv : list (Z * option (Z * SocketEvent));
  timer : gmap Z (Z * SocketEvent);
  tasks : list Task;
  log : list (Z * Callback);
}.

Definition set_socket_recv x p := mkPool (pool_uid p) x (sockets p) (conns p) (addr_map p) (poller p) (write_recv p) (close_recv p) (timer_recv p) (timer p) (tasks p) (log p).
Definition set_sockets x p := mkPool (pool_uid p) (socket_recv p) x (conns p) (addr_map p) (poller p) (write_recv p) (close_recv p) (timer_recv p) (timer p) (tasks p) (log p).
Definition set_conns x p := mkPool (pool_uid p) (socket_recv p) (sockets p) x (addr_map p) (poller p) (write_recv p) (close_recv p) (timer_recv p) (timer p) (tasks p) (log p).
Definition set_addr_map x p := mkPool (pool_uid p) (socket_recv p) (sockets p) (conns p) x (poller p) (write_recv p) (close_recv p) (timer_recv p) (timer p) (tasks p) (log p).
Definition set_poller x p := mkPool (pool_uid p) (socket_recv p) (sockets p) (conns p) (addr_map p) x (write_recv p) (close_recv p) (timer_recv p) (timer p) (tasks p) (log p).
Definition set_write_recv x p := mkPool (pool_uid p) (socket_recv p) (sockets p) (conns p) (addr_map p) (poller p) x (close_recv p) (timer_recv p) (timer p) (tasks p) (log p).
Definition set_close_recv x p := mkPool (pool_uid p) (socket_recv p) (sockets p) (conns p) (addr_map p) (poller p) (write_recv p) x (timer_recv p) (timer p) (tasks p) (log p).
Definition set_timer_recv x p := mkPool (pool_uid p) (socket_recv p) (sockets p) (conns p) (addr_map p) (poller p) (write_recv p) (close_recv p) x (timer p) (tasks p) (log p).
Definition set_timer x p := mkPool (pool_uid p) (socket_recv p) (sockets p) (conns p) (addr_map p) (poller p) (write_recv p) (close_recv p) (timer_recv p) x (tasks p) (log p).
Definition set_tasks x p := mkPool (pool_uid p) (socket_recv p) (sockets p) (conns p) (addr_map p) (poller p) (write_recv p) (close_recv p) (timer_recv p) (timer p) x (log p).
Definition set_log x p := mkPool (pool_uid p) (socket_recv p) (sockets p) (conns p) (addr_map p) (poller p) (write_recv p) (close_recv p) (timer_recv p) (timer p) (tasks p) x.

(** [TcpSocketPool::with_capacity] *)
Definition new_pool (uid : Z) : Pool := mkPool uid [] ∅ ∅ ∅ ∅ [] [] [] ∅ [] [].

Definition spawn (t : Task) (p : Pool) : Pool := set_tasks (tasks p ++ [t]) p.
Definition ran (k : Z) (e : Callback) (p : Pool) : Pool := set_log (log p ++ [(k, e)]) p.

(** What the poller waits for, after it accepted to reregister a stream. *)
Definition registered (k : Z) (i : Interest) (p : Pool) : Pool := set_poller (alter (fun _ => i) k (poller p)) p.

(** The connection of a slot. *)
Definition get_socket (k : Z) (p : Pool) : option Conn :=
  match sockets p !! k with Some true => conns p !! k | _ => None end.

(** Stores a connection; what it sent to its listeners goes to the channels of the pool. *)
Definition put_conn (k : Z) (c : Conn) (p : Pool) : Pool :=
  let s := sock c in
  set_conns (<[k := set_sock (set_write_events [] (set_close_events [] s)) c]> (conns p))
    (set_write_recv (write_recv p ++ (pair k <$> write_events s))
      (set_close_recv (close_recv p ++ (pair k <$> close_events s)) p)).

(** [SocketHandle::close], [TcpSocket::close] *)
Definition close_conn (k : Z) (reason : io_result unit) (p : Pool) : Pool :=
  match conns p !! k with
  | None => p
  | Some c =>
      let '(s, woken, _) := TcpSocket.close reason (sock c) in
      let p := put_conn k (set_sock s c) p in
      match woken with Some n => ran k (Woken n) p | None => p end
  end.

(** The end of a read or write task: a connection that failed is closed, if it is still
    in the table. *)
Definition close_failed (k : Z) (reason : option ErrorKind) (p : Pool) : Pool :=
  match reason, get_socket k p with
  | Some e, Some _ => close_conn k (Err e) p
  | _, _ => p
  end.

(** ** Accepted connections *)

Definition accept_one (register : Z -> io_result unit) (p : Pool) (kc : Z * Conn) : Pool :=
  let '(k, c) := kc in
  let p := set_sockets (<[k := false]> (sockets p)) p in
  let p := set_addr_map (<[remote c := k]> (addr_map p)) p in
  match register k with
  | Err _ => p
  | Ok _ =>
      let p := set_poller (<[k := interest (sock c)]> (poller p)) p in
      let c := mkConn (conn c) (local c) (remote c) (Some k) (Some (socket_uid (pool_uid p) k)) (timer_handle c) true in
      spawn (TConnected k) (set_sockets (<[k := true]> (sockets p)) (set_conns (<[k := c]> (conns p)) p))
  end.

(** [handle_accepted]; [keys] are those of the slot map, one for each connection. *)
Definition handle_accepted (keys : list Z) (register : Z -> io_result unit) (p : Pool) : Pool :=
  foldl (accept_one register) (set_socket_recv [] p) (zip keys (socket_recv p)).

(** ** Writing *)

Definition write_one (reregister : Z -> io_result unit) (p : Pool) (m : Z * list Z) : Pool :=
  let '(k, buf) := m in
  match get_socket k p with
  | None => p
  | Some c =>
      let p := match reregister k with
               | Err e => close_conn k (Err e) p
               | Ok _ => registered k (interest_add (interest (sock c)) WRITABLE) p
               end in
      match conns p !! k with
      | Some c => put_conn k (set_sock (set_write_buf (write_buf (sock c) ++ buf) (sock c)) c) p
      | None => p
      end
  end.

(** [handle_write_event] *)
Definition handle_write_event (reregister : Z -> io_result unit) (p : Pool) : Pool :=
  foldl (write_one reregister) (set_write_recv [] p) (write_recv p).

(** ** Events of the poller *)

Record PollEvent := mkPollEvent { event_token : Z; is_readable : bool; is_writable : bool }.

Definition poll_one (p : Pool) (e : PollEvent) : Pool :=
  match get_socket (event_token e) p with
  | None => p
  | Some _ =>
      if is_readable e then spawn (TReadable (event_token e)) p
      else if is_writable e then spawn (TWritable (event_token e)) p
      else p
  end.

(** [handle_poll_events] *)
Definition handle_poll_events (events : list PollEvent) (p : Pool) : Pool := foldl poll_one p events.

(** The tasks that hibernation queues. *)
Definition READED_TASK : nat := 0.
Definition WRITED_TASK : nat := 1.
Definition queued_callback (t : nat) : Callback := if bool_decide (t = READED_TASK) then Readed else Writed.

(** Registers the events the connection waits for. *)
Definition reregistered (reregister : Z -> io_result unit) (k : Z) (s : TcpSocket) (p : Pool) : Pool * option ErrorKind :=
  match reregister k with
  | Ok _ => (registered k (interest s) p, None)
  | Err e => (p, Some e)
  end.

(** The callback of an event, or its place in the queue of the hibernation. *)
Definition call_back (k : Z) (t : nat) (c : Conn) (reason : option ErrorKind) (p : Pool) : outcome Pool :=
  if negb (has_handle c) then Panic
  else if is_hibernated (conn c) then
    Done (close_failed k reason (put_conn k (set_conn (push_hibernated_task t (conn c)) c) p))
  else
    let p := ran k (queued_callback t) p in
    Done match reason with Some e => spawn (TFinish k e) p | None => p end.

(** The task of a readable event. *)
Definition read_task (k : Z) (evs : list read_event) (reregister : Z -> io_result unit) (p : Pool) : outcome Pool :=
  match conns p !! k with
  | None => Done p
  | Some c =>
      let '(s, result) := recv evs (sock c) in
      let c := set_sock s c in
      let p := put_conn k c p in
      match result with
      | Err e => Done (close_failed k (Some e) p)
      | Ok _ =>
          let '(p, reason) := reregistered reregister k s p in
          if ready_reader s then
            let '(s, woken) := wakeup_read_ready s in
            let p := put_conn k (set_sock s c) p in
            let p := match woken with Some n => ran k (Woken n) p | None => p end in
            Done (close_failed k reason p)
          else call_back k READED_TASK c reason p
      end
  end.

(** The task of a writable event. *)
Definition write_task (k : Z) (evs : list write_event) (reregister : Z -> io_result unit) (p : Pool) : outcome Pool :=
  match conns p !! k with
  | None => Done p
  | Some c =>
      match send evs (sock c) with
      | None => Panic
      | Some (s, out, result) =>
          let c := set_sock s c in
          let p := ran k (Sent out) (put_conn k c p) in
          match result with
          | Err e => Done (close_failed k (Some e) p)
          | Ok _ =>
              let '(p, reason) := reregistered reregister k s p in
              call_back k WRITED_TASK c reason p
          end
      end
  end.

(** ** Closing *)

(** [handle_close_event] over the events that were drained; [deregister] is the answer of
    the poller. *)
Fixpoint close_events_loop (deregister : Z -> io_result unit) (events : list (Z * io_result unit)) (p : Pool) : outcome Pool :=
  match events with
  | [] => Done p
  | (k, reason) :: events =>
      match sockets p !! k, conns p !! k with
      | None, _ => Done p
      | Some true, Some c =>
          let p := set_sockets (delete k (sockets p)) p in
          let p := set_addr_map (delete (remote c) (addr_map p)) p in
          let r := deregister k in
          let p := set_poller (delete k (poller p)) p in
          let p := match timer_handle c with Some h => set_timer (delete h (timer p)) p | None => p end in
          let p := put_conn k (set_timer_handle None c) p in
          if has_handle c then
            let result := match reason with Err e => Err e | Ok _ => r end in
            close_events_loop deregister events (spawn (TClosed k result) p)
          else Panic
      | _, _ => Panic
      end
  end.

Definition handle_close_event (deregister : Z -> io_result unit) (p : Pool) : outcome Pool :=
  close_events_loop deregister (close_recv p) (set_close_recv [] p).

(** ** Timers *)

(** A message of the timer channel; [h] is the key a new timer gets. *)
Definition timer_message (p : Pool) (hm : Z * (Z * option (Z * SocketEvent))) : Pool :=
  let '(h, (k, opt)) := hm in
  match get_socket k p with
  | None => p
  | Some c =>
      if closed (sock c) then p
      else
        let p := match timer_handle c with Some h => set_timer (delete h (timer p)) p | None => p end in
        match opt with
        | Some (timeout, event) =>
            put_conn k (set_timer_handle (Some h) c) (set_timer (<[h := (k, event)]> (timer p)) p)
        | None => put_conn k (set_timer_handle None c) p
        end
  end.

(** A timer that is due. *)
Definition timer_due (p : Pool) (h : Z) : outcome Pool :=
  match timer p !! h with
  | None => Done p
  | Some (k, event) =>
      let p := set_timer (delete h (timer p)) p in
      match get_socket k p with
      | None => Done p
      | Some c =>
          if closed (sock c) then Done p
          else
            let p := put_conn k (set_timer_handle None c) p in
            if has_handle c then Done (ran k (Timeouted event) p) else Panic
      end
  end.

Fixpoint timers_due (due : list Z) (p : Pool) : outcome Pool :=
  match due with
  | [] => Done p
  | h :: due => p ← timer_due p h; timers_due due p
  end.

(** [handle_timer]; [handles] are the keys of new timers, one for each message. *)
Definition handle_timer (handles due : list Z) (p : Pool) : outcome Pool :=
  timers_due due (foldl timer_message (set_timer_recv [] p) (zip handles (timer_recv p))).

(** ** The event loop *)

Inductive PollResult := PollEvents (events : list PollEvent) | PollInterrupted | PollFailed.

(** The answers from outside in one turn. *)
Record Turn := mkTurn {
  turn_keys : list Z;
  turn_register : Z -> io_result unit;
  turn_reregister : Z -> io_result unit;
  turn_poll : PollResult;
  turn_deregister : Z -> io_result unit;
  turn_handles : list Z;
  turn_due : list Z;
}.

(** [event_loop]: the boolean says that the loop goes on. *)
Definition event_loop (t : Turn) (p : Pool) : outcome (Pool * bool) :=
  let p := handle_accepted (turn_keys t) (turn_register t) p in
  let p := handle_write_event (turn_reregister t) p in
  match turn_poll t with
  | PollFailed => Done (p, false)
  | PollInterrupted => Done (p, true)
  | PollEvents events =>
      let p := handle_poll_events events p in
      p ← handle_close_event (turn_deregister t) p;
      p ← handle_timer (turn_handles t) (turn_due t) p;
      Done (p, true)
  end.

(** ** Tasks *)

Definition run_task (revs : list read_event) (wevs : list write_event) (reregister : Z -> io_result unit) (t : Task)
    (p : Pool) : outcome Pool :=
  match t with
  | TConnected k => Done (ran k Connected p)
  | TReadable k => read_task k revs reregister p
  | TWritable k => write_task k wevs reregister p
  | TFinish k e => Done (close_failed k (Some e) p)
  | TClosed k r => Done (spawn (TRemoveHandle k) (ran k (Closed r) p))
  | TRemoveHandle k => Done match conns p !! k with Some c => put_conn k (remove_handle c) p | None => p end
  end.

(** ** What the application does with a handle *)

Inductive AppOp :=
| AppWrite (buf : list Z)
| AppReadReady (n : nat)
| AppTake (n : nat)
| AppReregister (r : Ready) (answer : io_result unit)
| AppHibernate (h : nat) (r : Ready)
| AppPoll (h t : nat) (answer : io_result unit)
| AppWakeup (r : io_result unit)
| AppRun.

Definition app_state (op : AppOp) (s : HState) : HState :=
  match op with
  | AppWrite buf => set_socket (write_ready buf (hs_socket s)).1 s
  | AppReadReady n => set_socket (read_ready n (hs_socket s)).1 s
  | AppTake n => match copy_to_bytes n (hs_socket s) with Some (x, _) => set_socket x s | None => s end
  | AppReregister r answer => (reregister r answer s).1
  | AppHibernate h r => default s (hibernate h r s)
  | AppPoll h t answer => (Hibernate.poll h t answer s).1
  | AppWakeup r => (wakeup r s).1
  | AppRun => runner_step s
  end.

(** The callbacks that a turn of the queue runs. *)
Definition app_callbacks (op : AppOp) (k : Z) (s : HState) : list (Z * Callback) :=
  match op, hs_runners s, hs_queue s with
  | AppRun, S _, t :: _ => [(k, queued_callback t)]
  | _, _, _ => []
  end.

(** Whether the operation reregisters the stream. *)
Definition app_registers (op : AppOp) (s : HState) : bool :=
  match op with
  | AppReregister _ answer => is_ok answer
  | AppPoll h _ answer => is_ok answer && bool_decide (is_Some (hs_objs s !! h))
  | _ => false
  end.

Definition app (k : Z) (op : AppOp) (p : Pool) : Pool :=
  match conns p !! k with
  | None => p
  | Some c =>
      let s := app_state op (conn c) in
      let p := put_conn k (set_conn s c) p in
      let p := if app_registers op (conn c) then registered k (interest (hs_socket s)) p else p in
      set_log (log p ++ app_callbacks op k (conn c)) p
  end.

(** [SocketHandle::set_timeout] and [unset_timeout] *)
Definition app_timer (k : Z) (opt : option (Z * SocketEvent)) (p : Pool) : Pool :=
  set_timer_recv (timer_recv p ++ [(k, opt)]) p.

(** [close_socket] of utils.rs, for a pool that the id leads to. *)
Definition close_by_uid (uid : Z) (reason : io_result unit) (p : Pool) : Pool :=
  set_close_recv (close_recv p ++ [(Z.land uid 0xffffff, reason)]) p.

(** ** Reachable states *)

(** A key that the slot map has not given before; its version is in the upper word. *)
Definition fresh_key (p : Pool) (k : Z) : Prop := sockets p !! k = None /\ conns p !! k = None /\ (2 ^ 32 <= k)%Z.

(** A key that the timer has not given before. *)
Definition fresh_timer (p : Pool) (h : Z) : Prop :=
  timer p !! h = None /\ forall k c, conns p !! k = Some c -> timer_handle c <> Some h.

(** A connection as the acceptor routes it. *)
Definition arrives (c : Conn) : Prop :=
  timer_handle c = None /\ closed (sock c) = false /\ write_events (sock c) = [] /\ close_events (sock c) = [].

(** The keys that the slot map and the timer give in a turn are fresh. *)
Definition turn_ok (t : Turn) (p : Pool) : Prop :=
  NoDup (turn_keys t) /\ Forall (fresh_key p) (turn_keys t) /\ length (turn_keys t) = length (socket_recv p) /\
  NoDup (turn_handles t) /\ length (turn_handles t) = length (timer_recv p) /\
  forall events q, turn_poll t = PollEvents events ->
    handle_close_event (turn_deregister t) (handle_poll_events events
      (handle_write_event (turn_reregister t) (handle_accepted (turn_keys t) (turn_register t) p))) = Done q ->
    Forall (fresh_timer q) (turn_handles t).

(** The turns of the loop, the tasks in any order, and the application, interleaved. *)
Inductive pool_step : Pool -> Pool -> Prop :=
| step_turn t p p' b : turn_ok t p -> event_loop t p = Done (p', b) -> pool_step p p'
| step_arrive c p : arrives c -> pool_step p (set_socket_recv (socket_recv p ++ [c]) p)
| step_task revs wevs reregister t pre post p p' :
    tasks p = pre ++ t :: post -> run_task revs wevs reregister t (set_tasks (pre ++ post) p) = Done p' -> pool_step p p'
| step_app k op p : pool_step p (app k op p)
| step_close k reason p : pool_step p (close_conn k reason p)
| step_timer k opt p : pool_step p (app_timer k opt p)
| step_uid uid reason p : pool_step p (close_by_uid uid reason p).

(** ** The invariant *)

Definition closed_log (l : list (Z * Callback)) : list Z :=
  omap (fun e => match e.2 with Closed _ => Some e.1 | _ => None end) l.
Definition closed_tasks (l : list Task) : list Z :=
  omap (fun t => match t with TClosed k _ => Some k | _ => None end) l.

(** The connections whose closing has been called back, or will be. *)
Definition closing (p : Pool) : list Z := closed_log (log p) ++ closed_tasks (tasks p).

(** No timeout is called back behind the closing. *)
Definition log_ok (l : list (Z * Callback)) : Prop :=
  forall pre post k e, l = pre ++ (k, Timeouted e) :: post -> k ∉ closed_log pre.

Record pool_inv (p : Pool) : Prop := {
  inv_conn k c : conns p !! k = Some c ->
    token c = Some k /\ uid c = Some (socket_uid (pool_uid p) k) /\
    write_events (sock c) = [] /\ close_events (sock c) = [] /\ sockets p !! k <> Some false;
  inv_keys k : is_Some (sockets p !! k) -> (2 ^ 32 <= k)%Z;
  inv_slot k : sockets p !! k = Some true -> is_Some (conns p !! k);
  inv_gone k c : conns p !! k = Some c -> sockets p !! k = None -> closed (sock c) = true /\ timer_handle c = None;
  inv_handle k c : conns p !! k = Some c -> has_handle c = false -> sockets p !! k = None;
  inv_close k r : (k, r) ∈ close_recv p -> (k < 2 ^ 32)%Z \/ exists c, conns p !! k = Some c /\ closed (sock c) = true;
  inv_timer h k e : timer p !! h = Some (k, e) ->
    sockets p !! k = Some true /\ exists c, conns p !! k = Some c /\ timer_handle c = Some h;
  inv_armed k c h : conns p !! k = Some c -> timer_handle c = Some h ->
    closed (sock c) = true \/ exists e, timer p !! h = Some (k, e);
  inv_unique k k' c c' h : conns p !! k = Some c -> conns p !! k' = Some c' ->
    timer_handle c = Some h -> timer_handle c' = Some h -> k = k';
  inv_poller k : is_Some (poller p !! k) <-> sockets p !! k = Some true;
  inv_once : NoDup (closing p);
  inv_closing k : k ∈ closing p -> sockets p !! k = None /\ is_Some (conns p !! k);
  inv_remove k : TRemoveHandle k ∈ tasks p -> k ∈ closing p;
  inv_log : log_ok (log p);
  inv_recv : Forall arrives (socket_recv p);
}.

(** What an operation may do to a connection in the table. *)
Definition conn_le (c c' : Conn) : Prop :=
  token c' = token c /\ uid c' = uid c /\ timer_handle c' = timer_handle c /\ has_handle c' = has_handle c /\
  (closed (sock c) = true -> closed (sock c') = true) /\ (close_events (sock c') <> [] -> closed (sock c') = true).

Lemma new_pool_inv u : pool_inv (new_pool u).
Proof.
  split; cbn; intros; rewrite ?lookup_empty, ?elem_of_nil in *; try done; try (by constructor); try (by destruct H).
  by intros [|] ? ? ?.
Qed.

Lemma put_conn_core k c0 c p :
  conns p !! k = Some c0 -> token c = token c0 -> uid c = uid c0 -> timer_handle c = timer_handle c0 ->
  (has_handle c = false -> sockets p !! k = None) -> (closed (sock c0) = true -> closed (sock c) = true) ->
  (close_events (sock c) <> [] -> closed (sock c) = true) -> pool_inv p -> pool_inv (put_conn k c p).
Proof.
  intros Hk Et Eu Eh Ehh Hcl Hev I.
  pose proof (inv_conn p I k c0 Hk) as (It & Iu & _ & _ & Is).
  assert (forall k' c', conns (put_conn k c p) !! k' = Some c' -> exists c0', conns p !! k' = Some c0' /\
    token c' = token c0' /\ uid c' = uid c0' /\ timer_handle c' = timer_handle c0' /\
    (has_handle c' = false -> sockets p !! k' = None) /\ (closed (sock c0') = true -> closed (sock c') = true) /\
    (k' <> k -> c' = c0') /\ (k' = k -> write_events (sock c') = [] /\ close_events (sock c') = [])) as Hc.
  { intros k' c' Hk'. cbn in Hk'. apply lookup_insert_Some in Hk' as [[<- <-]|[Hne Hk']].
    - exists c0. by split_and!.
    - exists c'. split_and!; try done. by eapply inv_handle. }
  assert (forall k', is_Some (conns p !! k') -> exists c', conns (put_conn k c p) !! k' = Some c' /\
    forall c0', conns p !! k' = Some c0' -> (closed (sock c0') = true -> closed (sock c') = true) /\ timer_handle c' = timer_handle c0') as Hc'.
  { intros k' [c1 Hk1]. cbn. destruct (decide (k' = k)) as [->|Hne].
    - rewrite lookup_insert_eq. eexists. split; [done|]. intros c0' E. rewrite Hk in E. by injection E as <-.
    - rewrite lookup_insert_ne by done. eexists. split; [done|]. intros c0' E. rewrite Hk1 in E. by injection E as <-. }
  destruct I as [I1 I2 I3 I4 I5 I6 I7 I8 I8' I9 I10 I11 I12 I13 I14]. split; try done.
  - intros k' c' Hk'. destruct (Hc _ _ Hk') as (c0' & E & -> & -> & _ & _ & _ & Hne & Heq).
    destruct (I1 _ _ E) as (? & ? & ? & ? & ?). split_and!; try done.
    all: destruct (decide (k' = k)) as [->|?]; [by apply Heq|by rewrite Hne].
  - intros k' Hk'. destruct (Hc' k' (I3 k' Hk')) as (c' & -> & _). by eexists.
  - intros k' c' Hk' Hs. destruct (Hc _ _ Hk') as (c0' & E & _ & _ & -> & _ & Hm & _). destruct (I4 _ _ E Hs). auto.
  - intros k' c' Hk' Hh. destruct (Hc _ _ Hk') as (c0' & E & _ & _ & _ & Eh' & _). by apply Eh'.
  - intros k' r Hr. cbn in Hr. apply elem_of_app in Hr as [Hr|Hr].
    + destruct (I6 _ _ Hr) as [?|(c1 & E & Ecl)]; [by left|right]. destruct (Hc' k') as (c' & E' & Hm); [by eexists|].
      exists c'. split; [exact E'|]. by apply (Hm c1 E).
    + right. apply list_elem_of_fmap in Hr as (r' & [= -> ->] & Hin). eexists. cbn. rewrite lookup_insert_eq. split; [done|].
      apply Hev. by intros E; rewrite E in Hin; apply elem_of_nil in Hin.
  - intros h k' e Ht. destruct (I7 _ _ _ Ht) as (Hs & c1 & E & Eh'). split; [done|].
    destruct (Hc' k') as (c' & E' & Hm); [by eexists|]. exists c'. split; [done|]. destruct (Hm c1 E) as [_ ->]. done.
  - intros k' c' h Hk' Hh. destruct (Hc _ _ Hk') as (c0' & E & _ & _ & Eh' & _ & Hm & _). rewrite Eh' in Hh.
    destruct (I8 _ _ _ E Hh); eauto.
  - intros k1 k2 c1 c2 h Hk1 Hk2 Hh1 Hh2. destruct (Hc _ _ Hk1) as (c1' & E1 & _ & _ & Eh1 & _). destruct (Hc _ _ Hk2) as (c2' & E2 & _ & _ & Eh2 & _).
    rewrite Eh1 in Hh1. rewrite Eh2 in Hh2. eauto.
  - intros k' Hin. destruct (I11 _ Hin) as [? Hs]. split; [done|]. destruct (Hc' k' Hs) as (c' & -> & _). by eexists.
Qed.

Lemma put_conn_inv k c0 c p : conns p !! k = Some c0 -> conn_le c0 c -> pool_inv p -> pool_inv (put_conn k c p).
Proof.
  intros Hk (? & ? & ? & Hh & ? & ?) I. eapply put_conn_core; try done. rewrite Hh. by eapply inv_handle.
Qed.

Lemma closed_log_app l l' : closed_log (l ++ l') = closed_log l ++ closed_log l'.
Proof. apply omap_app. Qed.

Lemma closed_tasks_app l l' : closed_tasks (l ++ l') = closed_tasks l ++ closed_tasks l'.
Proof. apply omap_app. Qed.

Lemma log_ok_snoc l k e :
  log_ok l -> (forall t, e = Timeouted t -> k ∉ closed_log l) -> log_ok (l ++ [(k, e)]).
Proof.
  intros Hl He pre post k' t E. destruct post as [|x post _] using rev_ind.
  - apply app_inj_tail in E as [-> [= -> ->]]. by apply (He t).
  - rewrite app_comm_cons, app_assoc in E. apply app_inj_tail in E as [-> _]. by eapply Hl.
Qed.

(** A callback that is neither a closing nor a timeout. *)
Definition harmless (e : Callback) : Prop := match e with Closed _ | Timeouted _ => False | _ => True end.

Lemma ran_inv k e p : harmless e -> pool_inv p -> pool_inv (ran k e p).
Proof.
  intros He I. assert (closing (ran k e p) = closing p) as Ec.
  { unfold closing. cbn. rewrite closed_log_app. destruct e; try done; cbn; by rewrite app_nil_r. }
  destruct I. split; try done; rewrite ?Ec; try done. by apply log_ok_snoc; [|intros t ->].
Qed.

(** A task that is about neither the closing nor the handle. *)
Definition plain_task (t : Task) : Prop := match t with TClosed _ _ | TRemoveHandle _ => False | _ => True end.

Lemma spawn_inv t p : plain_task t -> pool_inv p -> pool_inv (spawn t p).
Proof.
  intros Ht I. assert (closing (spawn t p) = closing p) as Ec.
  { unfold closing. cbn. rewrite closed_tasks_app. destruct t; try done; cbn; by rewrite app_nil_r. }
  destruct I. split; try done; rewrite ?Ec; try done. intros k [Hk|Hk]%elem_of_app; [by eauto|].
  apply list_elem_of_singleton in Hk. by subst t.
Qed.

Lemma registered_inv k i p : pool_inv p -> pool_inv (registered k i p).
Proof. intros []. split; try done. intros k'. cbn. rewrite <-inv_poller0. by rewrite lookup_alter_is_Some. Qed.

Lemma sock_set_sock s c : sock (set_sock s c) = s.
Proof. done. Qed.

Lemma conn_le_sock c s :
  (closed (sock c) = true -> closed s = true) -> (close_events s <> [] -> closed s = true) -> conn_le c (set_sock s c).
Proof. intros. by split_and!. Qed.

Lemma close_spec reason s : closed (TcpSocket.close reason s).1.1 = true.
Proof. apply closed_close. Qed.

Lemma close_conn_inv k reason p : pool_inv p -> pool_inv (close_conn k reason p).
Proof.
  intros I. unfold close_conn. destruct (conns p !! k) as [c|] eqn:Ec; [|done].
  pose proof (close_spec reason (sock c)) as Hcl. destruct (TcpSocket.close reason (sock c)) as [[s woken] r]. cbn in Hcl.
  assert (pool_inv (put_conn k (set_sock s c) p)) as I' by (eapply put_conn_inv; [done| |done]; by apply conn_le_sock).
  by destruct woken; [apply ran_inv|].
Qed.

Lemma close_failed_inv k reason p : pool_inv p -> pool_inv (close_failed k reason p).
Proof. intros I. unfold close_failed. destruct reason; [|done]. destruct (get_socket k p); [by apply close_conn_inv|done]. Qed.

(** ** What operations leave as it is *)

(** The same flag and the same notices of closing. *)
Definition same_closing (s s' : TcpSocket) : Prop := closed s' = closed s /\ close_events s' = close_events s.

Lemma recv_same evs s : same_closing s (recv evs s).1 /\ (is_ok (recv evs s).2 = true -> closed s = false).
Proof.
  unfold recv. destruct (closed s) eqn:Ec; [by split|].
  destruct (recv_loop _ _ _) as [[st wb] r]. cbv zeta. split; [|done]. unfold same_closing.
  by destruct wb; destruct (is_require_recv _); destruct (_ && _); cbn.
Qed.

Lemma send_same evs s s' out r :
  send evs s = Some (s', out, r) -> same_closing s s' /\ (is_ok r = true -> closed s = false).
Proof.
  unfold send. destruct (closed s) eqn:Ec; [intros [= <- <- <-]; by split|].
  destruct (send_loop _ _ _) as [[st res]|]; [|done]. cbv zeta. intros [= <- <- <-]. split; [|done].
  unfold same_closing. by repeat case_decide.
Qed.

Lemma wakeup_same s : same_closing s (wakeup_read_ready s).1.
Proof. unfold wakeup_read_ready. by repeat case_match. Qed.

Lemma hib_poll_same h t a s : same_closing (hs_socket s) (hs_socket (Hibernate.poll h t a s).1).
Proof.
  assert (forall r, same_closing (hs_socket s) (reregister_interest r (hs_socket s))) as Hr by (by intros []).
  unfold Hibernate.poll, reregister, set_hibernate. by repeat (case_match; simplify_eq/=).
Qed.

Lemma hib_wakeup_same r s : hs_socket (wakeup r s).1 = hs_socket s.
Proof. unfold wakeup, hib_wakeup. by repeat (case_match; simplify_eq/=). Qed.

Lemma app_state_same op s : same_closing (hs_socket s) (hs_socket (app_state op s)).
Proof.
  destruct op as [buf|n|n|r a|h r|h t a|r|]; cbn.
  - unfold write_ready. by destruct (closed (hs_socket s)) eqn:E.
  - unfold read_ready. by repeat case_match.
  - unfold copy_to_bytes. by repeat case_match; simplify_eq/=.
  - by destruct r.
  - unfold hibernate. by destruct (closed (hs_socket s)).
  - apply hib_poll_same.
  - by rewrite hib_wakeup_same.
  - unfold runner_step. by repeat case_match.
Qed.

Lemma conn_le_same c c' :
  close_events (sock c) = [] -> token c' = token c -> uid c' = uid c -> timer_handle c' = timer_handle c ->
  has_handle c' = has_handle c -> same_closing (sock c) (sock c') -> conn_le c c'.
Proof. intros He ? ? ? ? [Hc Hs]. split_and!; try done; by rewrite ?Hc, ?Hs. Qed.

(** A connection whose closing does not change is stored. *)
Lemma put_same_inv k c0 c p :
  conns p !! k = Some c0 -> token c = token c0 -> uid c = uid c0 -> timer_handle c = timer_handle c0 ->
  has_handle c = has_handle c0 -> same_closing (sock c0) (sock c) -> pool_inv p -> pool_inv (put_conn k c p).
Proof.
  intros Hk ? ? ? ? Hs I. eapply put_conn_inv; [done| |done]. apply conn_le_same; try done. by destruct (inv_conn p I k c0 Hk) as (_ & _ & _ & ? & _).
Qed.

Lemma put_conn_lookup k c p :
  conns (put_conn k c p) !! k = Some (set_sock (set_write_events [] (set_close_events [] (sock c))) c).
Proof. apply lookup_insert_eq. Qed.

Lemma app_inv k op p : pool_inv p -> pool_inv (app k op p).
Proof.
  intros I. unfold app. destruct (conns p !! k) as [c|] eqn:Ec; [|done]. cbv zeta.
  assert (pool_inv (put_conn k (set_conn (app_state op (conn c)) c) p)) as I1.
  { eapply put_same_inv; try done. apply app_state_same. }
  assert (pool_inv (if app_registers op (conn c) then registered k (interest (hs_socket (app_state op (conn c))))
    (put_conn k (set_conn (app_state op (conn c)) c) p) else put_conn k (set_conn (app_state op (conn c)) c) p)) as I2
    by (destruct (app_registers op (conn c)); [by apply registered_inv|done]).
  unfold app_callbacks. destruct op; destruct (hs_runners (conn c)); destruct (hs_queue (conn c)) as [|u q];
    try (by destruct I2; split; cbn; rewrite ?app_nil_r; unfold closing; cbn; rewrite ?app_nil_r).
  apply ran_inv; [|done]. unfold queued_callback. by case_bool_decide.
Qed.

(** ** Tasks *)

(** The fields of the pool are the same, and the flag of closing. *)
Definition alike (c c' : Conn) : Prop :=
  token c' = token c /\ uid c' = uid c /\ timer_handle c' = timer_handle c /\ has_handle c' = has_handle c /\
  same_closing (sock c) (sock c').

Lemma alike_sock c s : same_closing (sock c) s -> alike c (set_sock s c).
Proof. intros. by split_and!. Qed.

Lemma alike_trans c1 c2 c3 : alike c1 c2 -> alike c2 c3 -> alike c1 c3.
Proof. intros (? & ? & ? & ? & ? & ?) (? & ? & ? & ? & ? & ?). split_and!; try congruence. split; congruence. Qed.

Lemma put_alike k c0 c p : conns p !! k = Some c0 -> alike c0 c -> pool_inv p -> pool_inv (put_conn k c p).
Proof. intros Hk (? & ? & ? & ? & ?). by eapply put_same_inv. Qed.

Lemma put_conn_alike k c p : close_events (sock c) = [] -> exists c', conns (put_conn k c p) !! k = Some c' /\ alike c' c.
Proof. intros He. eexists. split; [apply put_conn_lookup|]. by split_and!. Qed.

(** A connection that is open has its handle, and its slot. *)
Lemma open_handle k c p : pool_inv p -> conns p !! k = Some c -> closed (sock c) = false -> has_handle c = true.
Proof.
  intros I Hk Hc. destruct (has_handle c) eqn:Hh; [done|]. destruct (inv_gone p I k c Hk (inv_handle p I k c Hk Hh)). congruence.
Qed.

Lemma reregistered_inv rr k s p : pool_inv p ->
  pool_inv (reregistered rr k s p).1 /\ conns (reregistered rr k s p).1 = conns p.
Proof. intros I. unfold reregistered. destruct (rr k); cbn; split; try done. by apply registered_inv. Qed.

Lemma queued_harmless t : harmless (queued_callback t).
Proof. unfold queued_callback. by case_bool_decide. Qed.

Lemma call_back_inv k t c c0 reason p :
  pool_inv p -> conns p !! k = Some c0 -> alike c0 c -> has_handle c = true ->
  exists p', call_back k t c reason p = Done p' /\ pool_inv p'.
Proof.
  intros I Hk Ha Hh. unfold call_back. rewrite Hh. cbn [negb].
  destruct (is_hibernated (conn c)); eexists; (split; [done|]).
  - apply close_failed_inv. eapply put_alike; [done| |done]. eapply alike_trans; [done|]. by split_and!.
  - assert (pool_inv (ran k (queued_callback t) p)) as I' by (apply ran_inv; [apply queued_harmless|done]).
    destruct reason; [by apply spawn_inv|done].
Qed.

Lemma woken_inv k (w : option nat) p : pool_inv p -> pool_inv (match w with Some n => ran k (Woken n) p | None => p end).
Proof. intros I. destruct w; [by apply ran_inv|done]. Qed.

Lemma read_task_inv k evs rr p : pool_inv p -> exists p', read_task k evs rr p = Done p' /\ pool_inv p'.
Proof.
  intros I. unfold read_task. destruct (conns p !! k) as [c|] eqn:Hk; [|by eexists].
  destruct (recv_same evs (sock c)) as [Hs Ho]. destruct (recv evs (sock c)) as [s r]. cbn [fst snd] in Hs, Ho.
  pose proof (inv_conn p I k c Hk) as (_ & _ & _ & He & _).
  assert (alike c (set_sock s c)) as Ha by by apply alike_sock.
  assert (pool_inv (put_conn k (set_sock s c) p)) as I1 by by eapply put_alike.
  destruct r as [n|e]; [|eexists; split; [done|]; by apply close_failed_inv].
  destruct (put_conn_alike k (set_sock s c) p) as (c1 & Hk1 & Ha1); [cbn; destruct Hs as [_ ->]; done|].
  destruct (reregistered_inv rr k s _ I1) as [I2 Ec]. destruct (reregistered rr k s _) as [p2 reason]. cbn [fst] in I2, Ec.
  rewrite <-Ec in Hk1. destruct (ready_reader s).
  - pose proof (wakeup_same s) as Hw. destruct (wakeup_read_ready s) as [s' w]. cbn [fst] in Hw. eexists. split; [done|].
    apply close_failed_inv, woken_inv. eapply put_alike; [done| |done]. eapply alike_trans; [done|]. by apply alike_sock.
  - eapply call_back_inv; [done..|]. cbn. apply (open_handle k c p); auto.
Qed.

Lemma write_task_inv k evs rr p : pool_inv p ->
  (exists p', write_task k evs rr p = Done p' /\ pool_inv p') \/
  (write_task k evs rr p = Panic /\ exists c, conns p !! k = Some c /\ send evs (sock c) = None).
Proof.
  intros I. unfold write_task. destruct (conns p !! k) as [c|] eqn:Hk; [|left; by eexists].
  destruct (send evs (sock c)) as [[[s out] r]|] eqn:Es; [left|right; eauto].
  destruct (send_same _ _ _ _ _ Es) as [Hs Ho]. pose proof (inv_conn p I k c Hk) as (_ & _ & _ & He & _).
  assert (alike c (set_sock s c)) as Ha by by apply alike_sock.
  assert (pool_inv (ran k (Sent out) (put_conn k (set_sock s c) p))) as I1 by (apply ran_inv; [done|]; by eapply put_alike).
  destruct r as [n|e]; [|eexists; split; [done|]; by apply close_failed_inv].
  destruct (put_conn_alike k (set_sock s c) p) as (c1 & Hk1 & Ha1); [cbn; destruct Hs as [_ ->]; done|].
  destruct (reregistered_inv rr k s _ I1) as [I2 Ec]. destruct (reregistered rr k s _) as [p2 reason]. cbn [fst] in I2, Ec.
  eapply call_back_inv; [done|by rewrite Ec|done|]. cbn. apply (open_handle k c p); auto.
Qed.

(** A task that is about to run is taken from its place. *)
Lemma take_task_inv t pre post p : tasks p = pre ++ t :: post -> plain_task t -> pool_inv p -> pool_inv (set_tasks (pre ++ post) p).
Proof.
  intros Et Ht I. assert (closing (set_tasks (pre ++ post) p) = closing p) as Ec.
  { unfold closing. cbn. rewrite Et, !closed_tasks_app. by destruct t. }
  destruct I. split; try done; rewrite ?Ec; try done. cbn. intros k Hk. apply inv_remove0. rewrite Et.
  apply elem_of_app. apply elem_of_app in Hk as [?|?]; [by left|right; by right].
Qed.

Lemma closed_task_inv k r pre post p :
  tasks p = pre ++ TClosed k r :: post -> pool_inv p ->
  pool_inv (spawn (TRemoveHandle k) (ran k (Closed r) (set_tasks (pre ++ post) p))).
Proof.
  intros Et I. set (p' := spawn _ _). assert (closing p' ≡ₚ closing p) as Ep.
  { unfold closing, p'. cbn. rewrite Et, closed_log_app, !closed_tasks_app. cbn. rewrite app_nil_r, <-app_assoc.
    apply Permutation_app_head. cbn. apply Permutation_middle. }
  assert (k ∈ closing p') as Hk.
  { rewrite Ep. unfold closing. rewrite Et, closed_tasks_app. cbn. set_solver. }
  destruct I. split; try done.
  - by rewrite Ep.
  - intros k'. rewrite Ep. apply inv_closing0.
  - intros k' Hk'. subst p'. cbn in Hk'. apply elem_of_app in Hk' as [Hk'|Hk'].
    + rewrite Ep. apply inv_remove0. rewrite Et. apply elem_of_app. apply elem_of_app in Hk' as [?|?]; [by left|right; by right].
    + apply list_elem_of_singleton in Hk' as [= ->]. done.
  - cbn. by apply log_ok_snoc.
Qed.

Lemma remove_handle_inv k c pre post p :
  tasks p = pre ++ TRemoveHandle k :: post -> conns p !! k = Some c -> pool_inv p ->
  pool_inv (put_conn k (remove_handle c) (set_tasks (pre ++ post) p)).
Proof.
  intros Et Hk I. pose proof (inv_conn p I k c Hk) as (_ & _ & _ & He & _).
  assert (sockets p !! k = None) as Hs by (apply inv_closing, inv_remove; [done..|]; rewrite Et; set_solver).
  eapply put_conn_core; try done.
  assert (closing (set_tasks (pre ++ post) p) = closing p) as Ec by (unfold closing; cbn; by rewrite Et, !closed_tasks_app).
  destruct I. split; try done; rewrite ?Ec; try done. cbn. intros k' Hk'. apply inv_remove0. rewrite Et.
  apply elem_of_app. apply elem_of_app in Hk' as [?|?]; [by left|right; by right].
Qed.

Lemma run_task_inv revs wevs rr t pre post p :
  tasks p = pre ++ t :: post -> pool_inv p ->
  (exists p', run_task revs wevs rr t (set_tasks (pre ++ post) p) = Done p' /\ pool_inv p') \/
  (run_task revs wevs rr t (set_tasks (pre ++ post) p) = Panic /\
   exists k c, t = TWritable k /\ conns p !! k = Some c /\ send wevs (sock c) = None).
Proof.
  intros Et I. pose proof (take_task_inv t pre post p Et) as It. destruct t as [k|k|k|k e|k r|k]; cbn [run_task].
  - left. eexists. split; [done|]. apply ran_inv; [done|by apply It].
  - left. apply read_task_inv. by apply It.
  - destruct (write_task_inv k wevs rr (set_tasks (pre ++ post) p)) as [?|(? & c & ? & ?)]; [by apply It|by left|right].
    split; [done|]. by exists k, c.
  - left. eexists. split; [done|]. apply close_failed_inv. by apply It.
  - left. eexists. split; [done|]. by eapply closed_task_inv.
  - left. eexists. split; [done|]. cbn. destruct (conns p !! k) as [c|] eqn:Hk; [by apply remove_handle_inv|].
    destruct (inv_closing p I k) as [_ [? ?]]; [|congruence]. apply inv_remove; [done|]. rewrite Et. set_solver.
Qed.

(** ** Handlers *)

Lemma get_socket_some k c p : get_socket k p = Some c -> sockets p !! k = Some true /\ conns p !! k = Some c.
Proof. unfold get_socket. by destruct (sockets p !! k) as [[]|]. Qed.

Lemma accept_one_inv register p k c : fresh_key p k -> arrives c -> pool_inv p -> pool_inv (accept_one register p (k, c)).
Proof.
  intros (Hs & Hk & Hv) (Ht & Hcl & Hw & He) I. unfold accept_one. cbv zeta.
  set (q := set_addr_map _ _). assert (pool_inv q) as Iq.
  { destruct I. split; try done; subst q; cbn.
    - intros k' c' Hk'. destruct (inv_conn0 _ _ Hk') as (? & ? & ? & ? & ?). split_and!; try done.
      destruct (decide (k' = k)) as [->|]; [congruence|]. by rewrite lookup_insert_ne.
    - intros k'. destruct (decide (k' = k)) as [->|]; [done|]. rewrite lookup_insert_ne by done. auto.
    - intros k'. destruct (decide (k' = k)) as [->|]; [by rewrite lookup_insert_eq|]. rewrite lookup_insert_ne by done. auto.
    - intros k' c' Hk'. destruct (decide (k' = k)) as [->|]; [congruence|]. rewrite lookup_insert_ne by done. eauto.
    - intros k' c' Hk'. destruct (decide (k' = k)) as [->|]; [congruence|]. rewrite lookup_insert_ne by done. eauto.
    - intros h k' e Hh. destruct (inv_timer0 _ _ _ Hh) as (? & c' & ? & ?). split; [|eauto].
      rewrite lookup_insert_ne; [done|]. intros ->. congruence.
    - intros k'. rewrite inv_poller0. destruct (decide (k' = k)) as [->|]; [rewrite lookup_insert_eq; by split; congruence|]. by rewrite lookup_insert_ne.
    - intros k' Hk'. destruct (inv_closing0 _ Hk') as [? [? ?]]. rewrite lookup_insert_ne by congruence. eauto. }
  destruct (register k); [|done]. apply spawn_inv; [done|]. cbn.
  destruct I. split; try done; cbn; clear Iq q.
  - intros k' c' [[<- <-]|[Hne Hk']]%lookup_insert_Some; [rewrite lookup_insert_eq; by split_and!|].
    rewrite !lookup_insert_ne by done. eauto.
  - intros k'. destruct (decide (k' = k)) as [->|]; [done|]. rewrite !lookup_insert_ne by done. auto.
  - intros k'. destruct (decide (k' = k)) as [->|]; [rewrite !lookup_insert_eq; by eexists|]. rewrite !lookup_insert_ne by done. auto.
  - intros k' c' [[<- <-]|[Hne Hk']]%lookup_insert_Some; [by rewrite lookup_insert_eq|]. rewrite !lookup_insert_ne by done. eauto.
  - intros k' c' [[<- <-]|[Hne Hk']]%lookup_insert_Some; [done|]. rewrite !lookup_insert_ne by done. eauto.
  - intros k' r Hr. destruct (inv_close0 _ _ Hr) as [?|(c' & ? & ?)]; [by left|right]. exists c'. split; [|done].
    rewrite lookup_insert_ne by congruence. done.
  - intros h k' e Hh. destruct (inv_timer0 _ _ _ Hh) as (? & c' & ? & ?). rewrite !lookup_insert_ne by congruence. eauto.
  - intros k' c' h [[<- <-]|[Hne Hk']]%lookup_insert_Some; [by cbn; rewrite Ht|]. eauto.
  - intros k1 k2 c1 c2 h [[<- <-]|[? Hk1]]%lookup_insert_Some [[<- <-]|[? Hk2]]%lookup_insert_Some; cbn; rewrite ?Ht; try done. eauto.
  - intros k'. destruct (decide (k' = k)) as [->|]; [rewrite !lookup_insert_eq; by split|]. rewrite !lookup_insert_ne by done. apply inv_poller0.
  - intros k' Hk'. destruct (inv_closing0 _ Hk') as [? [? ?]]. rewrite !lookup_insert_ne by congruence. eauto.
Qed.

Lemma accept_one_fresh register p k c k' : k' <> k -> fresh_key p k' -> fresh_key (accept_one register p (k, c)) k'.
Proof.
  intros Hne (Hs & Hk & Hv). unfold accept_one. cbv zeta. split_and!; [| |done]; destruct (register k); cbn; by rewrite ?lookup_insert_ne.
Qed.

Lemma accept_loop_inv register ks cs p :
  NoDup ks -> Forall (fresh_key p) ks -> Forall arrives cs -> pool_inv p ->
  pool_inv (foldl (accept_one register) p (zip ks cs)).
Proof.
  revert cs p. induction ks as [|k ks IH]; intros cs p Hnd Hf Ha I; [done|]. destruct cs as [|c cs]; [done|]. cbn [zip zip_with foldl].
  apply NoDup_cons in Hnd as [Hk Hnd]. apply Forall_cons in Hf as [Hf1 Hf]. apply Forall_cons in Ha as [Ha1 Ha].
  apply IH; [done| |done|by apply accept_one_inv].
  apply Forall_forall. intros k' Hin. apply accept_one_fresh; [by intros ->|]. by eapply Forall_forall in Hf.
Qed.

Lemma write_one_inv rr p m : pool_inv p -> pool_inv (write_one rr p m).
Proof.
  intros I. destruct m as [k buf]. unfold write_one. destruct (get_socket k p) as [c|] eqn:Hg; [|done]. cbv zeta.
  set (q := match rr k with Ok _ => _ | Err _ => _ end). assert (pool_inv q) as Iq by (subst q; destruct (rr k); [by apply registered_inv|by apply close_conn_inv]).
  clearbody q. destruct (conns q !! k) as [c'|] eqn:Hk; [|done]. eapply put_alike; [done| |done]. by apply alike_sock.
Qed.

Lemma poll_one_inv p e : pool_inv p -> pool_inv (poll_one p e).
Proof. intros I. unfold poll_one. by repeat case_match; try apply spawn_inv. Qed.

Lemma foldl_inv {A B} (P : A -> Prop) (f : A -> B -> A) l a : (forall a b, P a -> P (f a b)) -> P a -> P (foldl f a l).
Proof. intros Hf. revert a. induction l as [|b l IH]; intros a Ha; cbn; auto. Qed.

(** The connection gives its timer up. *)
Definition unset_timer (k : Z) (c : Conn) (p : Pool) : Pool :=
  put_conn k (set_timer_handle None c) match timer_handle c with Some h => set_timer (delete h (timer p)) p | None => p end.

Lemma unset_timer_spec k c p :
  conns p !! k = Some c -> pool_inv p ->
  pool_inv (unset_timer k c p) /\ conns (unset_timer k c p) = <[k := set_timer_handle None c]> (conns p) /\
  sockets (unset_timer k c p) = sockets p /\ (forall h, timer p !! h = None -> timer (unset_timer k c p) !! h = None).
Proof.
  intros Hk I. pose proof (inv_conn p I k c Hk) as (Et & Eu & Ew & Ec & Es).
  assert (conns (unset_timer k c p) = <[k := set_timer_handle None c]> (conns p)) as Econ.
  { unfold unset_timer, put_conn. destruct (timer_handle c); cbn; f_equal; unfold sock in *; cbn in *;
      destruct c as [[s ? ? ? ? ? ? ?] ? ? ? ? ? ?]; cbn in *; destruct s; cbn in *; by subst. }
  assert (forall q, pool_inv q -> conns q = conns p -> write_recv (put_conn k (set_timer_handle None c) q) = write_recv q /\
    close_recv (put_conn k (set_timer_handle None c) q) = close_recv q) as Hch.
  { intros q _ _. unfold put_conn. cbn. unfold sock in *. cbn. rewrite Ew, Ec. cbn. by rewrite !app_nil_r. }
  split; [|split; [done|split; [by unfold unset_timer; destruct (timer_handle c)|]]]; last first.
  { intros h Hh. unfold unset_timer. destruct (timer_handle c) as [h'|]; [|done]. cbn.
    destruct (decide (h = h')) as [->|]; [by rewrite lookup_delete_eq|by rewrite lookup_delete_ne]. }
  assert (forall h k' e, timer (unset_timer k c p) !! h = Some (k', e) <-> timer p !! h = Some (k', e) /\ timer_handle c <> Some h) as Htm.
  { intros h k' e. unfold unset_timer. destruct (timer_handle c) as [h'|]; cbn; [|naive_solver].
    rewrite lookup_delete_Some. naive_solver. }
  assert (close_recv (unset_timer k c p) = close_recv p) as Ecr.
  { unfold unset_timer, put_conn. destruct (timer_handle c); cbn; unfold sock in *; cbn; rewrite Ec; cbn; by rewrite app_nil_r. }
  assert (closing (unset_timer k c p) = closing p /\ log (unset_timer k c p) = log p /\ tasks (unset_timer k c p) = tasks p /\
    poller (unset_timer k c p) = poller p /\ sockets (unset_timer k c p) = sockets p /\ socket_recv (unset_timer k c p) = socket_recv p /\
    pool_uid (unset_timer k c p) = pool_uid p)
    as (Ecl & Elog & Etk & Epo & Eso & Esr & Epu) by (by unfold unset_timer; destruct (timer_handle c)).
  destruct I. split; rewrite ?Econ, ?Ecr, ?Ecl, ?Elog, ?Etk, ?Epo, ?Eso, ?Esr, ?Epu; try done.
  - intros k' c' [[<- <-]|[Hne Hk']]%lookup_insert_Some; [by split_and!|eauto].
  - intros k' Hk'. destruct (decide (k' = k)) as [->|]; [rewrite lookup_insert_eq; by eexists|]. rewrite lookup_insert_ne by done. auto.
  - intros k' c' [[<- <-]|[Hne Hk']]%lookup_insert_Some Hs; [|eauto]. destruct (inv_gone0 _ _ Hk Hs). by split.
  - intros k' c' [[<- <-]|[Hne Hk']]%lookup_insert_Some; eauto.
  - intros k' r Hr. destruct (inv_close0 _ _ Hr) as [?|(c' & Hk' & ?)]; [by left|right].
    destruct (decide (k' = k)) as [->|]; [rewrite lookup_insert_eq; eexists; split; [done|]; simplify_eq; done|]. rewrite lookup_insert_ne by done. eauto.
  - intros h k' e [Hh Hne]%Htm. destruct (inv_timer0 _ _ _ Hh) as (? & c' & Hk' & ?). split; [done|]. exists c'. split; [|done].
    rewrite lookup_insert_ne; [done|]. intros ->. congruence.
  - intros k' c' h [[<- <-]|[Hne Hk']]%lookup_insert_Some Hh; [done|]. destruct (inv_armed0 _ _ _ Hk' Hh) as [?|[e He]]; [by left|right].
    exists e. apply Htm. split; [done|]. intros Hch'. apply Hne. by eapply inv_unique0.
  - intros k1 k2 c1 c2 h [[<- <-]|[? Hk1]]%lookup_insert_Some [[<- <-]|[? Hk2]]%lookup_insert_Some; try done. eauto.
  - intros k' Hk'. destruct (inv_closing0 _ Hk') as [? [? ?]]. split; [done|]. destruct (decide (k' = k)) as [->|]; [rewrite lookup_insert_eq; by eexists|].
    rewrite lookup_insert_ne by done. by eexists.
Qed.

(** A connection without a timer gets a new one. *)
Lemma push_timer_inv k c h e p :
  sockets p !! k = Some true -> conns p !! k = Some c -> timer_handle c = None -> fresh_timer p h -> pool_inv p ->
  pool_inv (set_conns (<[k := set_timer_handle (Some h) c]> (conns p)) (set_timer (<[h := (k, e)]> (timer p)) p)).
Proof.
  intros Hs Hk Hn [Hh Hf] I. destruct I. split; try done; cbn.
  - intros k' c' [[<- <-]|[Hne Hk']]%lookup_insert_Some; [exact (inv_conn0 _ _ Hk)|eauto].
  - intros k' Hk'. destruct (decide (k' = k)) as [->|]; [rewrite lookup_insert_eq; by eexists|]. rewrite lookup_insert_ne by done. auto.
  - intros k' c' [[<- <-]|[Hne Hk']]%lookup_insert_Some; [congruence|eauto].
  - intros k' c' [[<- <-]|[Hne Hk']]%lookup_insert_Some; [|eauto]. cbn. eauto.
  - intros k' r Hr. destruct (inv_close0 _ _ Hr) as [?|(c' & Hk' & ?)]; [by left|right].
    destruct (decide (k' = k)) as [->|]; [rewrite lookup_insert_eq; eexists; split; [done|]; by simplify_eq|]. rewrite lookup_insert_ne by done. eauto.
  - intros h' k' e' [[<- [= <- <-]]|[Hne Hh']]%lookup_insert_Some; [split; [done|]; rewrite lookup_insert_eq; by eexists|].
    destruct (inv_timer0 _ _ _ Hh') as (? & c' & Hk' & Hc'). split; [done|]. destruct (decide (k' = k)) as [->|].
    + congruence.
    + rewrite lookup_insert_ne by done. eauto.
  - intros k' c' h' [[<- <-]|[Hne Hk']]%lookup_insert_Some; [intros [= <-]; right; exists e; by rewrite lookup_insert_eq|].
    intros Hh'. destruct (inv_armed0 _ _ _ Hk' Hh') as [?|[e' ?]]; [by left|right]. exists e'. rewrite lookup_insert_ne; [done|]. congruence.
  - intros k1 k2 c1 c2 h' [[<- <-]|[? Hk1]]%lookup_insert_Some [[<- <-]|[? Hk2]]%lookup_insert_Some; cbn; try done.
    + intros [= <-] Hh2. by destruct (Hf _ _ Hk2).
    + intros Hh1 [= <-]. by destruct (Hf _ _ Hk1).
    + eauto.
  - intros k' Hk'. destruct (inv_closing0 _ Hk') as [? [? ?]]. split; [done|]. rewrite lookup_insert_ne by congruence. by eexists.
Qed.

Lemma put_quiet k c p :
  write_events (sock c) = [] -> close_events (sock c) = [] -> put_conn k c p = set_conns (<[k := c]> (conns p)) p.
Proof.
  intros Hw Hc. unfold put_conn. rewrite Hw, Hc. cbn. rewrite !app_nil_r.
  assert (set_sock (set_write_events [] (set_close_events [] (sock c))) c = c) as ->; [|by destruct p].
  unfold set_sock, sock in *. destruct c as [[s ? ? ? ? ? ? ?] ? ? ? ? ? ?]. cbn in *. destruct s. cbn in *. by subst.
Qed.

Lemma timer_message_inv p h m : fresh_timer p h -> pool_inv p -> pool_inv (timer_message p (h, m)).
Proof.
  intros Hf I. destruct m as [k opt]. unfold timer_message. destruct (get_socket k p) as [c|] eqn:Hg; [|done].
  apply get_socket_some in Hg as [Hs Hk]. destruct (closed (sock c)); [done|]. cbv zeta.
  destruct (unset_timer_spec k c p Hk I) as (I' & Ec & Es & Ht). pose proof (inv_conn p I k c Hk) as (_ & _ & Hw & He & _).
  destruct opt as [[timeout e]|]; [|exact I'].
  assert (pool_inv (set_conns (<[k := set_timer_handle (Some h) (set_timer_handle None c)]> (conns (unset_timer k c p)))
    (set_timer (<[h := (k, e)]> (timer (unset_timer k c p))) (unset_timer k c p)))) as I2.
  { apply push_timer_inv; [by rewrite Es|by rewrite Ec, lookup_insert_eq|done| |done]. destruct Hf as [Hh Hf].
    split; [by apply Ht|]. rewrite Ec. intros k' c' [[<- <-]|[? Hk']]%lookup_insert_Some; [done|eauto]. }
  rewrite Ec, insert_insert_eq in I2. rewrite put_quiet by done. unfold unset_timer in I2. rewrite put_quiet in I2 by done.
  by destruct (timer_handle c).
Qed.

Lemma timer_message_fresh p h m h' : h' <> h -> fresh_timer p h' -> pool_inv p -> fresh_timer (timer_message p (h, m)) h'.
Proof.
  intros Hne [Hh Hf] I. destruct m as [k opt]. unfold timer_message. destruct (get_socket k p) as [c|] eqn:Hg; [|done].
  apply get_socket_some in Hg as [Hs Hk]. destruct (closed (sock c)); [done|]. cbv zeta.
  destruct (unset_timer_spec k c p Hk I) as (I' & Ec & Es & Ht). pose proof (inv_conn p I k c Hk) as (_ & _ & Hw & He & _).
  assert (forall o, o <> Some h' -> forall k' c', <[k := set_timer_handle o c]> (conns p) !! k' = Some c' -> timer_handle c' <> Some h') as Hc.
  { intros o Ho k' c' [[<- <-]|[? Hk']]%lookup_insert_Some; [done|eauto]. }
  destruct opt as [[timeout e]|].
  - rewrite put_quiet by done. split; cbn.
    + rewrite lookup_insert_ne by done. destruct (timer_handle c) as [h0|]; [|done]. cbn.
      apply lookup_delete_None. by right.
    + destruct (timer_handle c); cbn; apply Hc; congruence.
  - split; [by apply Ht|]. fold (unset_timer k c p). rewrite Ec. by apply Hc.
Qed.

Lemma timer_loop_inv hs ms p :
  NoDup hs -> Forall (fresh_timer p) hs -> pool_inv p -> pool_inv (foldl timer_message p (zip hs ms)).
Proof.
  revert ms p. induction hs as [|h hs IH]; intros ms p Hnd Hf I; [done|]. destruct ms as [|m ms]; [done|]. cbn [zip zip_with foldl].
  apply NoDup_cons in Hnd as [Hh Hnd]. apply Forall_cons in Hf as [Hf1 Hf]. apply IH; [done| |by apply timer_message_inv].
  apply Forall_forall. intros h' Hin. apply timer_message_fresh; [by intros ->| |done]. by eapply Forall_forall in Hf.
Qed.

(** The timer of a connection that is closing fires without effect. *)
Lemma drop_timer_inv h k e c p :
  timer p !! h = Some (k, e) -> conns p !! k = Some c -> closed (sock c) = true -> pool_inv p -> pool_inv (set_timer (delete h (timer p)) p).
Proof.
  intros Hh Hk Hcl I. destruct I. split; try done; cbn.
  - intros h' k' e' [_ Hh']%lookup_delete_Some. eauto.
  - intros k' c' h' Hk' Hc'. destruct (inv_armed0 _ _ _ Hk' Hc') as [?|[e' He']]; [by left|].
    destruct (decide (h' = h)) as [->|]; [left|right; exists e'; by rewrite lookup_delete_ne].
    by simplify_eq.
Qed.

Lemma timer_due_inv p h : pool_inv p -> exists p', timer_due p h = Done p' /\ pool_inv p'.
Proof.
  intros I. unfold timer_due. destruct (timer p !! h) as [[k e]|] eqn:Hh; [|by eexists]. cbv zeta.
  destruct (inv_timer p I _ _ _ Hh) as (Hs & c & Hk & Hc).
  assert (get_socket k (set_timer (delete h (timer p)) p) = Some c) as -> by (unfold get_socket; cbn; by rewrite Hs, Hk).
  destruct (closed (sock c)) eqn:Hcl; [eexists; split; [done|]; by eapply drop_timer_inv|].
  rewrite (open_handle k c p I Hk Hcl). eexists. split; [done|].
  destruct (unset_timer_spec k c p Hk I) as (I' & _ & Es & _). unfold unset_timer in I', Es. rewrite Hc in I', Es.
  destruct I'. split; try done.
  - unfold closing. cbn [ran log set_log tasks]. rewrite closed_log_app. cbn [closed_log omap list_omap]. rewrite app_nil_r. exact inv_once0.
  - intros k'. unfold closing. cbn [ran log set_log tasks]. rewrite closed_log_app. cbn [closed_log omap list_omap]. rewrite app_nil_r. apply inv_closing0.
  - intros k' Hk'. unfold closing. cbn [ran log set_log tasks]. rewrite closed_log_app. cbn [closed_log omap list_omap]. rewrite app_nil_r. by apply inv_remove0.
  - cbn. apply log_ok_snoc; [done|]. intros t _ Hin. destruct (inv_closing p I k) as [? _]; [|congruence].
    unfold closing. apply elem_of_app. by left.
Qed.

Lemma timers_due_inv due p : pool_inv p -> exists p', timers_due due p = Done p' /\ pool_inv p'.
Proof.
  revert p. induction due as [|h due IH]; intros p I; [by eexists|]. cbn.
  destruct (timer_due_inv p h I) as (p1 & -> & I1). by apply IH.
Qed.

(** A closed connection without a timer leaves the table, and its closing is called back. *)
Lemma remove_slot_inv k c a r p :
  sockets p !! k = Some true -> conns p !! k = Some c -> closed (sock c) = true -> timer_handle c = None -> pool_inv p ->
  pool_inv (spawn (TClosed k r) (set_poller (delete k (poller p)) (set_addr_map a (set_sockets (delete k (sockets p)) p)))).
Proof.
  intros Hs Hk Hcl Ht I. set (p' := spawn _ _). assert (closing p' = closing p ++ [k]) as Ec.
  { unfold closing, p'. cbn. by rewrite closed_tasks_app, app_assoc. }
  assert (k ∉ closing p) as Hnk by (intros Hin; destruct (inv_closing p I k Hin); congruence).
  destruct I. split; try done; rewrite ?Ec; subst p'; cbn.
  - intros k' c' Hk'. destruct (inv_conn0 _ _ Hk') as (? & ? & ? & ? & ?). split_and!; try done. by intros [_ ?]%lookup_delete_Some.
  - intros k' [x [_ ?]%lookup_delete_Some]. by apply inv_keys0.
  - intros k' [_ ?]%lookup_delete_Some. auto.
  - intros k' c' Hk'. destruct (decide (k' = k)) as [->|]; [intros _; by simplify_eq|]. rewrite lookup_delete_ne by done. eauto.
  - intros k' c' Hk' Hh. apply lookup_delete_None. right. eauto.
  - intros h k' e Hh. destruct (inv_timer0 _ _ _ Hh) as (? & c' & Hk' & ?). rewrite lookup_delete_ne by congruence. eauto.
  - intros k'. destruct (decide (k' = k)) as [->|]; [rewrite !lookup_delete_eq; by split; [intros []|]|]. rewrite !lookup_delete_ne by done. apply inv_poller0.
  - apply NoDup_app. split_and!; [done| |apply NoDup_singleton]. intros k' Hin ->%list_elem_of_singleton. done.
  - intros k' [Hin| ->%list_elem_of_singleton]%elem_of_app; [|by rewrite lookup_delete_eq].
    destruct (inv_closing0 _ Hin). split; [apply lookup_delete_None; by right|done].
  - intros k' [Hk'|[=]%list_elem_of_singleton]%elem_of_app. apply elem_of_app. left. auto.
Qed.

Lemma close_loop_inv dereg events p :
  (forall k r, (k, r) ∈ events -> (k < 2 ^ 32)%Z \/ exists c, conns p !! k = Some c /\ closed (sock c) = true) ->
  pool_inv p -> exists p', close_events_loop dereg events p = Done p' /\ pool_inv p'.
Proof.
  revert p. induction events as [|[k reason] events IH]; intros p Hev I; [by eexists|]. cbn [close_events_loop].
  destruct (Hev k reason) as [Hk|(c & Hk & Hcl)]; [by left| |].
  { destruct (sockets p !! k) eqn:Hs; [|by eexists]. pose proof (inv_keys p I k ltac:(by eexists)). lia. }
  rewrite Hk. pose proof (inv_conn p I k c Hk) as (_ & _ & Hw & He & Hns). destruct (sockets p !! k) as [[]|] eqn:Hs; [|done|by eexists].
  cbv zeta. destruct (has_handle c) eqn:Hh; [|pose proof (inv_handle p I k c Hk Hh); congruence].
  destruct (unset_timer_spec k c p Hk I) as (I' & Ec & Es & _).
  set (r := match reason with Ok _ => _ | Err _ => _ end).
  assert (pool_inv (spawn (TClosed k r) (set_poller (delete k (poller (unset_timer k c p)))
    (set_addr_map (delete (remote c) (addr_map p)) (set_sockets (delete k (sockets (unset_timer k c p))) (unset_timer k c p)))))) as I2.
  { eapply (remove_slot_inv k (set_timer_handle None c)); [by rewrite Es|by rewrite Ec, lookup_insert_eq|done|done|done]. }
  match goal with |- context [close_events_loop dereg events ?q] => assert (pool_inv q) as I3; [|apply IH; [|exact I3]] end.
  - unfold unset_timer in I2. destruct (timer_handle c); exact I2.
  - intros k' r' Hin. destruct (Hev k' r') as [?|(c' & Hk' & Hcl')]; [by right|by left|right].
    rewrite !put_quiet by done. destruct (timer_handle c); cbn.
    all: destruct (decide (k' = k)) as [->|]; [rewrite lookup_insert_eq; eexists; split; [done|]; by simplify_eq|rewrite lookup_insert_ne by done; eauto].
Qed.

(** ** Turns *)

Lemma handle_accepted_inv keys register p :
  NoDup keys -> Forall (fresh_key p) keys -> pool_inv p -> pool_inv (handle_accepted keys register p).
Proof.
  intros Hnd Hf I. apply accept_loop_inv; [done|done|by apply inv_recv|]. destruct I. by split.
Qed.

Lemma handle_write_event_inv rr p : pool_inv p -> pool_inv (handle_write_event rr p).
Proof. intros I. unfold handle_write_event. apply foldl_inv; [intros ? ?; apply write_one_inv|]. destruct I. by split. Qed.

Lemma handle_poll_events_inv events p : pool_inv p -> pool_inv (handle_poll_events events p).
Proof. intros I. unfold handle_poll_events. apply foldl_inv; [intros ? ?; apply poll_one_inv|done]. Qed.

Lemma handle_close_event_inv dereg p : pool_inv p -> exists p', handle_close_event dereg p = Done p' /\ pool_inv p'.
Proof.
  intros I. apply close_loop_inv; [exact (inv_close p I)|]. destruct I. split; try done. cbn. intros k r Hin. by apply elem_of_nil in Hin.
Qed.

Lemma handle_timer_inv hs due p :
  NoDup hs -> Forall (fresh_timer p) hs -> pool_inv p -> exists p', handle_timer hs due p = Done p' /\ pool_inv p'.
Proof.
  intros Hnd Hf I. apply timers_due_inv. apply timer_loop_inv; [done|done|]. destruct I. by split.
Qed.

Lemma event_loop_inv t p : turn_ok t p -> pool_inv p -> exists p' b, event_loop t p = Done (p', b) /\ pool_inv p'.
Proof.
  intros (Hnd & Hf & _ & Hnd' & _ & Hq) I. unfold event_loop. cbv zeta.
  pose proof (handle_write_event_inv (turn_reregister t) _ (handle_accepted_inv _ (turn_register t) _ Hnd Hf I)) as I1.
  destruct (turn_poll t) as [events| |] eqn:Ep; [|by eexists _, _..].
  destruct (handle_close_event_inv (turn_deregister t) _ (handle_poll_events_inv events _ I1)) as (q & E & I2). rewrite E. cbn.
  destruct (handle_timer_inv (turn_handles t) (turn_due t) q Hnd' (Hq events q eq_refl E) I2) as (q' & -> & I3). by eexists _, _.
Qed.

Lemma tcp_pool_step_inv p p' : pool_step p p' -> pool_inv p -> pool_inv p'.
Proof.
  intros [t p0 p0' b Ht E|c p0 Hc|revs wevs rr t pre post p0 p0' Et E|k op p0|k reason p0|k opt p0|u reason p0] I.
  - destruct (event_loop_inv t p0 Ht I) as (q & b' & E' & I'). rewrite E in E'. by injection E' as <- <-.
  - destruct I. split; try done. cbn. apply Forall_app. by split; [|constructor].
  - destruct (run_task_inv revs wevs rr t pre post p0 Et I) as [(q & E' & I')|[E' _]]; rewrite E in E'; by simplify_eq.
  - by apply app_inv.
  - by apply close_conn_inv.
  - destruct I. by split.
  - destruct I. split; try done. cbn. intros k r [Hin|Hin]%elem_of_app; [eauto|].
    apply list_elem_of_singleton in Hin as [= -> ->]. left. change 0xffffff%Z with (Z.ones 24). rewrite Z.land_ones by lia.
    pose proof (Z.mod_pos_bound u (2 ^ 24)). lia.
Qed.

Definition pool_reachable (u : Z) (p : Pool) : Prop := rtc pool_step (new_pool u) p.

Lemma tcp_pool_reachable_inv u p : pool_reachable u p -> pool_inv p.
Proof. intros Hr. eapply (rtc_ind_r pool_inv (new_pool u)); [apply new_pool_inv| |exact Hr]. intros. by eapply tcp_pool_step_inv. Qed.

(** ** Properties *)

(** C32: In every state that the pool can come to, whatever the turns of the loop, the order
    of the tasks and the application do: a connection in the table knows its token and its
    unique id, has its handle, is registered at the poller, and its channels are
    empty; at most one timer runs for it, the one whose handle it keeps; and a timer or a
    registration belongs to a connection in the table. *)
Theorem pool_well_formed u p (Hr : pool_reachable u p) :
  (forall k, sockets p !! k = Some true -> exists c,
    conns p !! k = Some c /\ token c = Some k /\ uid c = Some (socket_uid (pool_uid p) k) /\ has_handle c = true /\
    is_Some (poller p !! k) /\ write_events (sock c) = [] /\ close_events (sock c) = [] /\
    (forall h e, timer p !! h = Some (k, e) -> timer_handle c = Some h) /\
    (forall h, timer_handle c = Some h -> closed (sock c) = false -> exists e, timer p !! h = Some (k, e))) /\
  (forall k, is_Some (poller p !! k) -> sockets p !! k = Some true) /\
  (forall h k e, timer p !! h = Some (k, e) -> sockets p !! k = Some true) /\
  (forall k c, conns p !! k = Some c -> sockets p !! k = None -> closed (sock c) = true).
Proof.
  pose proof (tcp_pool_reachable_inv u p Hr) as I. split_and!.
  - intros k Hs. destruct (inv_slot p I k Hs) as [c Hk]. exists c. destruct (inv_conn p I k c Hk) as (? & ? & ? & ? & ?).
    split_and!; try done.
    + destruct (has_handle c) eqn:Hh; [done|]. pose proof (inv_handle p I k c Hk Hh). congruence.
    + by apply inv_poller.
    + intros h e Hh. destruct (inv_timer p I h k e Hh) as (_ & c' & ? & ?). by simplify_eq.
    + intros h Hh Hc. destruct (inv_armed p I k c h Hk Hh) as [?|?]; [congruence|done].
  - intros k. by apply inv_poller.
  - intros h k e Hh. by destruct (inv_timer p I h k e Hh).
  - intros k c Hk Hs. by destruct (inv_gone p I k c Hk Hs).
Qed.

(** C33: No turn of the event loop panics, in any state the pool can come to: the slot of a
    close event is filled, and every connection that an event, a timer or a closing is
    called back for still has its handle. A task panics only in the slice of [send]. *)
Theorem pool_never_panics u p (Hr : pool_reachable u p) :
  (forall t, turn_ok t p -> exists p' b, event_loop t p = Done (p', b)) /\
  (forall revs wevs rr t pre post, tasks p = pre ++ t :: post ->
    (exists p', run_task revs wevs rr t (set_tasks (pre ++ post) p) = Done p') \/
    exists k c, t = TWritable k /\ conns p !! k = Some c /\ send wevs (sock c) = None).
Proof.
  pose proof (tcp_pool_reachable_inv u p Hr) as I. split.
  - intros t Ht. destruct (event_loop_inv t p Ht I) as (p' & b & ? & _). eauto.
  - intros revs wevs rr t pre post Et. destruct (run_task_inv revs wevs rr t pre post p Et I) as [(p' & ? & _)|[_ ?]]; eauto.
Qed.

(** C34: The application is told at most once that a connection has closed, the connection
    has left the table and the poller by then, and no timeout of the connection is called
    back behind it. *)
Theorem closed_called_once u p (Hr : pool_reachable u p) :
  NoDup (closed_log (log p)) /\
  (forall k, k ∈ closed_log (log p) -> sockets p !! k = None /\ poller p !! k = None) /\
  (forall pre post k e, log p = pre ++ (k, Timeouted e) :: post -> k ∉ closed_log pre).
Proof.
  pose proof (tcp_pool_reachable_inv u p Hr) as I. split_and!.
  - pose proof (inv_once p I) as Hn. by apply NoDup_app in Hn as [? _].
  - intros k Hin. destruct (inv_closing p I k) as [Hs _]; [apply elem_of_app; by left|]. split; [done|].
    apply eq_None_not_Some. intros Hp%(inv_poller p I). congruence.
  - exact (inv_log p I).
Qed.

(** ** Closing *)

(** What the application is told of a close event. *)
Definition told (dereg : Z -> io_result unit) (e : Z * io_result unit) : Task :=
  TClosed e.1 match e.2 with Err x => Err x | Ok _ => dereg e.1 end.

Lemma close_loop_spec dereg events p :
  (forall k r, (k, r) ∈ events -> (k < 2 ^ 32)%Z \/ exists c, conns p !! k = Some c /\ closed (sock c) = true) -> pool_inv p ->
  exists pre post p', events = pre ++ post /\ close_events_loop dereg events p = Done p' /\ pool_inv p' /\ NoDup pre.*1 /\
    (forall k, k ∈ pre.*1 -> sockets p !! k = Some true) /\
    (forall e, head post = Some e -> e.1 ∈ pre.*1 \/ sockets p !! e.1 = None) /\
    (forall k, sockets p' !! k = if decide (k ∈ pre.*1) then None else sockets p !! k) /\
    tasks p' = tasks p ++ (told dereg <$> pre) /\ close_recv p' = close_recv p.
Proof.
  revert p. induction events as [|[k reason] events IH]; intros p Hev I.
  { exists [], [], p. cbn. rewrite app_nil_r. split_and!; try done; [constructor|set_solver]. }
  destruct (sockets p !! k) as [b|] eqn:Hs; last first.
  { exists [], ((k, reason) :: events), p. cbn. rewrite Hs, app_nil_r. split_and!; try done; [constructor|set_solver|].
    intros e [= <-]. by right. }
  pose proof (inv_keys p I k ltac:(by eexists)) as Hv. destruct (Hev k reason) as [?|(c & Hk & Hcl)]; [by left|lia|].
  pose proof (inv_conn p I k c Hk) as (_ & _ & Hw & He & Hns). destruct b; [|congruence].
  pose proof (close_loop_inv dereg [(k, reason)] p) as Hone. destruct Hone as (p1 & E1 & I1); [|done|].
  { intros k' r' [= -> ->]%list_elem_of_singleton. right. eauto. }
  cbn in E1 |- *. rewrite Hs, Hk in E1 |- *. destruct (has_handle c); [|done]. injection E1 as E1.
  match type of E1 with ?x = _ => change (close_events_loop dereg events _) with (close_events_loop dereg events x) end. rewrite E1.
  assert (sockets p1 = delete k (sockets p) /\ tasks p1 = tasks p ++ [told dereg (k, reason)] /\ close_recv p1 = close_recv p /\
    forall k' c', conns p !! k' = Some c' -> closed (sock c') = true -> exists c1, conns p1 !! k' = Some c1 /\ closed (sock c1) = true)
    as (Es & Et & Er & Hm).
  { subst p1. rewrite put_quiet by done. destruct (timer_handle c); (split_and!; [done..|]); cbn; intros k' c' Hk' Hc';
      (destruct (decide (k' = k)) as [->|]; [rewrite lookup_insert_eq; eexists; split; [done|]; by simplify_eq|rewrite lookup_insert_ne by done; eauto]). }
  destruct (IH p1) as (pre & post & p' & -> & E & I' & Hnd & Hin & Hpost & Hsock & Ht & Hr); [|done|].
  { intros k' r' Hin. destruct (Hev k' r') as [?|(c' & Hk' & Hc')]; [by right|by left|right]. by eapply Hm. }
  clear E1. assert (k ∉ pre.*1) as Hk'. { intros H%Hin. by rewrite Es, lookup_delete_eq in H. }
  exists ((k, reason) :: pre), post, p'. split_and!; [done|done|done|by constructor| | | |by rewrite Ht, Et, <-app_assoc|congruence].
  - intros k' [->|Hk1]%elem_of_cons; [done|]. apply Hin in Hk1. rewrite Es in Hk1. by apply lookup_delete_Some in Hk1 as [_ ?].
  - intros e Hh. destruct (Hpost e Hh) as [?|Hn]; [left; cbn; set_solver|]. rewrite Es in Hn.
    apply lookup_delete_None in Hn as [->|?]; [left; cbn; set_solver|by right].
  - intros k'. rewrite Hsock, Es. cbn. destruct (decide (k' = k)) as [->|Hne].
    + rewrite lookup_delete_eq. repeat case_decide; set_solver.
    + rewrite lookup_delete_ne by done. repeat case_decide; set_solver.
Qed.

(** C35: The close events that have come are handled in their order up to the first one whose
    connection has left the table: the connections before it leave the table with their
    timers and the application is told with the reason, the events from there on are
    lost, although the connections they name stay. *)
Theorem close_events_in_order u p dereg (Hr : pool_reachable u p) :
  exists pre post p', close_recv p = pre ++ post /\ handle_close_event dereg p = Done p' /\ NoDup pre.*1 /\
    (forall e, head post = Some e -> e.1 ∈ pre.*1 \/ sockets p !! e.1 = None) /\
    (forall k, k ∈ pre.*1 -> sockets p !! k = Some true) /\
    (forall k, sockets p' !! k = if decide (k ∈ pre.*1) then None else sockets p !! k) /\
    (forall h k e, timer p' !! h = Some (k, e) -> k ∉ pre.*1) /\
    tasks p' = tasks p ++ (told dereg <$> pre) /\ close_recv p' = [].
Proof.
  pose proof (tcp_pool_reachable_inv u p Hr) as I.
  destruct (close_loop_spec dereg (close_recv p) (set_close_recv [] p)) as (pre & post & p' & ? & ? & I' & ? & ? & ? & Hs & ? & ?);
    [exact (inv_close p I)|destruct I; split; try done; cbn; by intros k r Hin%elem_of_nil|].
  exists pre, post, p'. split_and!; try done. intros h k e Hh. destruct (inv_timer p' I' h k e Hh) as [Hk _].
  rewrite Hs in Hk. by case_decide.
Qed.

(** A call of [close_socket] with a unique id undoes the closings behind it: the token
    it sends has the low 24 bits only, which no connection has, and the handler ends
    there. A connection that is closed next stays in the table, open for the poller, and
    the application is not told. *)
Theorem close_by_uid_strands u p id reason k c dereg (Hr : pool_reachable u p)
    (Hk : sockets p !! k = Some true) (Hc : conns p !! k = Some c) (Hq : close_recv p = []) :
  let p1 := close_conn k (Ok tt) (close_by_uid id reason p) in
  close_recv p1 <> [] /\
  exists p2, handle_close_event dereg p1 = Done p2 /\ sockets p2 !! k = Some true /\ is_Some (poller p2 !! k) /\
    tasks p2 = tasks p /\ close_recv p2 = [].
Proof.
  pose proof (tcp_pool_reachable_inv u p Hr) as I. set (p0 := close_by_uid id reason p). cbv zeta.
  assert (sockets p !! Z.land id 0xffffff = None) as Hs.
  { destruct (sockets p !! Z.land id 0xffffff) eqn:Hs; [|done]. pose proof (inv_keys p I _ ltac:(by eexists)) as Hv.
    change 0xffffff%Z with (Z.ones 24) in Hv. rewrite Z.land_ones in Hv by lia. pose proof (Z.mod_pos_bound id (2 ^ 24)). lia. }
  assert (exists evs, close_recv (close_conn k (Ok tt) p0) = (Z.land id 0xffffff, reason) :: evs /\
    sockets (close_conn k (Ok tt) p0) = sockets p /\ poller (close_conn k (Ok tt) p0) = poller p /\ tasks (close_conn k (Ok tt) p0) = tasks p)
    as (evs & Ev & Es & Ep & Et).
  { unfold close_conn. change (conns p0) with (conns p). rewrite Hc. destruct (TcpSocket.close _ _) as [[s w] r].
    eexists. destruct w; cbn; rewrite Hq; by split_and!. }
  split; [by rewrite Ev|]. unfold handle_close_event. rewrite Ev. cbn. rewrite Es, Hs. eexists. split; [done|].
  cbn. rewrite Es, Ep, Et. split_and!; try done. by apply inv_poller.
Qed.

(** ** Writing *)

(** The bytes that the messages of a channel have for a connection. *)
Definition bytes_for (k : Z) (ms : list (Z * list Z)) : list Z := concat (snd <$> filter (fun m => m.1 = k) ms).

Definition buffered (buf : list Z) (c : Conn) : Conn := set_sock (set_write_buf (write_buf (sock c) ++ buf) (sock c)) c.

Lemma buffered_buffered a b c : buffered b (buffered a c) = buffered (a ++ b) c.
Proof. unfold buffered, sock, set_sock. destruct c as [[s ? ? ? ? ? ? ?] ? ? ? ? ? ?]. cbn. by rewrite app_assoc. Qed.

Lemma buffered_nil c : buffered [] c = c.
Proof. unfold buffered, sock, set_sock. destruct c as [[s ? ? ? ? ? ? ?] ? ? ? ? ? ?]. cbn. rewrite app_nil_r. by destruct s. Qed.

Lemma write_one_spec p k c m :
  pool_inv p -> get_socket k p = Some c ->
  get_socket k (write_one (fun _ => Ok tt) p m) = Some (if decide (m.1 = k) then buffered m.2 c else c).
Proof.
  intros I [Hs Hk]%get_socket_some. destruct m as [k' buf]. unfold write_one.
  destruct (get_socket k' p) as [c'|] eqn:Hg; last first.
  { case_decide as Hd; [cbn in Hd; subst; unfold get_socket in Hg; by rewrite Hs, Hk in Hg|]. unfold get_socket. by rewrite Hs. }
  apply get_socket_some in Hg as [Hs' Hk']. cbv zeta. cbn [registered set_poller conns]. rewrite Hk'.
  pose proof (inv_conn p I k' c' Hk') as (_ & _ & Hw & He & _). rewrite put_quiet by done.
  unfold get_socket. cbn. rewrite Hs. case_decide as Hd.
  - subst k'. rewrite lookup_insert_eq. by simplify_eq.
  - by rewrite lookup_insert_ne.
Qed.

Lemma write_loop_spec ms p k c :
  pool_inv p -> get_socket k p = Some c ->
  get_socket k (foldl (write_one (fun _ => Ok tt)) p ms) = Some (buffered (bytes_for k ms) c).
Proof.
  revert p c. induction ms as [|m ms IH]; intros p c I Hg; [unfold bytes_for; cbn; by rewrite buffered_nil|]. cbn [foldl].
  rewrite (IH _ (if decide (m.1 = k) then buffered m.2 c else c)); [|by apply write_one_inv|by apply write_one_spec].
  unfold bytes_for. rewrite filter_cons. case_decide; [|done]. cbn [fmap list_fmap concat]. by rewrite buffered_buffered.
Qed.

(** C36: What the handles of a connection have written is put behind its write buffer in the
    order of the calls, and the next time the stream is writable and takes a block, the
    first 4096 bytes of it all go out in one piece; the application is told, and
    what is left stays buffered. *)
Theorem written_bytes_sent u p k c (Hr : pool_reachable u p) (Hg : get_socket k p = Some c)
    (Hopen : closed (sock c) = false) (Hawake : is_hibernated (conn c) = false) :
  let all := write_buf (sock c) ++ bytes_for k (write_recv p) in
  let n := Nat.min DEFAULT_WRITE_BLOCK_LEN (length all) in
  all <> [] ->
  exists c', get_socket k (handle_write_event (fun _ => Ok tt) p) = Some c' /\ write_buf (sock c') = all /\
    forall q, conns q !! k = Some c' -> exists q' c2,
      write_task k [WWrote n] (fun _ => Ok tt) q = Done q' /\
      log q' = log q ++ [(k, Sent (take n all)); (k, Writed)] /\
      conns q' !! k = Some c2 /\ write_buf (sock c2) = drop n all.
Proof.
  intros all n Hne. pose proof (tcp_pool_reachable_inv u p Hr) as I. exists (buffered (bytes_for k (write_recv p)) c).
  split; [apply write_loop_spec; [destruct I; by split|done]|]. split; [done|]. intros q Hq. unfold write_task. rewrite Hq.
  destruct (send_whole_block 0 [] (sock (buffered (bytes_for k (write_recv p)) c))) as (s' & E & Hw & _); [done|done|].
  change (replicate 0 WInterrupted ++ ?l) with l in E. change (write_buf (sock (buffered _ c))) with all in E, Hw. fold n in E, Hw. rewrite E.
  destruct (send_same _ _ _ _ _ E) as [[_ He] _]. apply get_socket_some in Hg as [Hs Hk].
  unfold reregistered, call_back. cbn.
  assert (has_handle c = true) as -> by by apply (open_handle k c p).
  cbn. assert (is_hibernated (set_socket s' (set_socket (set_write_buf (write_buf (sock c) ++ bytes_for k (write_recv p)) (sock c)) (conn c))) = false) as ->
    by exact Hawake.
  eexists _, _. split; [done|]. cbn. rewrite <-app_assoc. split; [done|]. split; [apply lookup_insert_eq|]. exact Hw.
Qed.

(** The unique ids of connections tell the pool and the connection apart, and are machine
    words, as long as the version in the key of the slot stays below 2^24. *)
Theorem uid_injective u1 u2 k1 k2
    (Hu1 : (0 <= u1 < 2 ^ 8)%Z) (Hu2 : (0 <= u2 < 2 ^ 8)%Z) (Hk1 : (0 <= k1 < 2 ^ 56)%Z) (Hk2 : (0 <= k2 < 2 ^ 56)%Z) :
  (socket_uid u1 k1 = socket_uid u2 k2 -> u1 = u2 /\ k1 = k2) /\ (0 <= socket_uid u1 k1 < 2 ^ 64)%Z.
Proof.
  assert (forall u k, (0 <= u < 2 ^ 8)%Z -> (0 <= k < 2 ^ 56)%Z -> socket_uid u k = (u * 2 ^ 56 + k)%Z) as E.
  { intros u k Hu Hk. unfold socket_uid, wrap. rewrite Z.shiftl_mul_pow2, Z.mod_small by lia. apply lor_disjoint; lia. }
  rewrite !E by done. split; [|lia]. intros Heq. assert (u1 = u2) by lia. split; lia.
Qed.
