(* ===== verification/TcpPoolSample.v ===== *)
(** * The connection pool on a concrete run

    A connection is accepted, gets a timer, is closed and leaves the pool; the theorems of
    [TcpPool] are applied to the states of the run. *)

From S2P Require Import Prelude ByteSource TcpSocket Hibernate TcpPool.

#[local] Open Scope Z_scope.

Definition all_ok (k : Z) : io_result unit := Ok tt.

Definition KEY : Z := 2 ^ 32 + 1.
Definition KEY2 : Z := 2 ^ 32 + 2.

Definition peer : Conn := set_token None (new_conn (IpV4 1, 80) (IpV4 2, 5000) 9 4096 4096).
Definition peer2 : Conn := set_token None (new_conn (IpV4 1, 80) (IpV4 2, 5001) 9 4096 4096).

(** A turn without events of the poller. *)
Definition quiet_turn (keys handles due : list Z) : Turn := mkTurn keys all_ok all_ok (PollEvents []) all_ok handles due.

Definition after_turn (t : Turn) (p : Pool) : Pool := match event_loop t p with Done (p, _) => p | _ => p end.

Definition pool0 : Pool := set_socket_recv [peer; peer2] (new_pool 1).
Definition pool1 : Pool := after_turn (quiet_turn [KEY; KEY2] [] []) pool0.
Definition pool2 : Pool := app KEY (AppWrite [1; 2; 3]) (app_timer KEY (Some (100, 7)) pool1).
Definition pool3 : Pool := after_turn (quiet_turn [] [5] []) pool2.
Definition pool4 : Pool := close_conn KEY (Ok tt) pool3.
Definition pool5 : Pool := after_turn (quiet_turn [] [] []) pool4.
Definition pool6 : Pool := set_tasks [TConnected KEY; TConnected KEY2] pool5.
Definition pool7 : Pool := spawn (TRemoveHandle KEY) (ran KEY (Closed (Ok tt)) pool6).

Lemma turn_step t p :
  turn_ok t p -> match event_loop t p with Done _ => true | _ => false end = true -> pool_step p (after_turn t p).
Proof.
  intros Ht Hq. unfold after_turn. destruct (event_loop t p) as [[q' b]| | |] eqn:E; try done. by eapply step_turn.
Qed.

Lemma quiet_turn_ok keys p :
  NoDup keys -> Forall (fresh_key p) keys -> length keys = length (socket_recv p) -> timer_recv p = [] -> turn_ok (quiet_turn keys [] []) p.
Proof. intros ? ? ? Ht. unfold turn_ok. cbn. rewrite Ht. split_and!; try done. constructor. Qed.

Lemma pool1_reachable : pool_reachable 1 pool1.
Proof.
  eapply rtc_l; [apply (step_arrive peer); by split_and!|]. eapply rtc_l; [apply (step_arrive peer2); by split_and!|].
  apply rtc_once, (turn_step (quiet_turn [KEY; KEY2] [] []) pool0).
  - apply quiet_turn_ok; [|by repeat constructor|done|done].
    apply NoDup_cons. split; [|apply NoDup_singleton]. intros ?%list_elem_of_singleton. done.
  - by vm_compute.
Qed.

Lemma pool3_reachable : pool_reachable 1 pool3.
Proof.
  refine (rtc_r _ pool2 _ (rtc_r _ (app_timer KEY (Some (100, 7)) pool1) _ (rtc_r _ pool1 _ pool1_reachable _) _) _).
  - exact (step_timer KEY (Some (100, 7)) pool1).
  - exact (step_app KEY (AppWrite [1; 2; 3]) (app_timer KEY (Some (100, 7)) pool1)).
  - refine (turn_step (quiet_turn [] [5] []) pool2 _ _); [|by vm_compute].
    unfold turn_ok. split_and!; [constructor|constructor|by vm_compute|apply NoDup_singleton|by vm_compute|].
    intros events q [= <-] E. vm_compute in E. injection E as <-. constructor; [|constructor]. split; [reflexivity|].
    apply (bool_decide_unpack (map_Forall (fun _ c => timer_handle c <> Some 5) _)). by vm_compute.
Qed.

Lemma pool4_reachable : pool_reachable 1 pool4.
Proof. exact (rtc_r _ pool3 _ pool3_reachable (step_close KEY (Ok tt) pool3)). Qed.

Lemma pool7_reachable : pool_reachable 1 pool7.
Proof.
  refine (rtc_r _ pool5 _ (rtc_r _ pool4 _ pool4_reachable (turn_step (quiet_turn [] [] []) pool4 _ _)) _).
  - apply quiet_turn_ok; [constructor|constructor|by vm_compute|by vm_compute].
  - by vm_compute.
  - refine (step_task [] [] all_ok (TClosed KEY (Ok tt)) [TConnected KEY; TConnected KEY2] [] pool5 _ _ _); by vm_compute.
Qed.

(** ** The theorems on the run *)

Lemma pool_well_formed_witness :
  (forall k, sockets pool3 !! k = Some true -> exists c,
    conns pool3 !! k = Some c /\ token c = Some k /\ uid c = Some (socket_uid (pool_uid pool3) k) /\ has_handle c = true /\
    is_Some (poller pool3 !! k) /\ write_events (sock c) = [] /\ close_events (sock c) = [] /\
    (forall h e, timer pool3 !! h = Some (k, e) -> timer_handle c = Some h) /\
    (forall h, timer_handle c = Some h -> closed (sock c) = false -> exists e, timer pool3 !! h = Some (k, e))) /\
  (forall k, is_Some (poller pool3 !! k) -> sockets pool3 !! k = Some true) /\
  (forall h k e, timer pool3 !! h = Some (k, e) -> sockets pool3 !! k = Some true) /\
  (forall k c, conns pool3 !! k = Some c -> sockets pool3 !! k = None -> closed (sock c) = true).
Proof. exact (pool_well_formed 1 pool3 pool3_reachable). Defined.

(** The timer that was set runs for the connection. *)
Example pool3_timer : timer pool3 !! 5 = Some (KEY, 7).
Proof. by vm_compute. Qed.

Lemma pool_never_panics_witness :
  (forall t, turn_ok t pool4 -> exists p' b, event_loop t pool4 = Done (p', b)) /\
  (forall revs wevs rr t pre post, tasks pool4 = pre ++ t :: post ->
    (exists p', run_task revs wevs rr t (set_tasks (pre ++ post) pool4) = Done p') \/
    exists k c, t = TWritable k /\ conns pool4 !! k = Some c /\ send wevs (sock c) = None).
Proof. exact (pool_never_panics 1 pool4 pool4_reachable). Defined.

Lemma closed_called_once_witness :
  NoDup (closed_log (log pool7)) /\
  (forall k, k ∈ closed_log (log pool7) -> sockets pool7 !! k = None /\ poller pool7 !! k = None) /\
  (forall pre post k e, log pool7 = pre ++ (k, Timeouted e) :: post -> k ∉ closed_log pre).
Proof. exact (closed_called_once 1 pool7 pool7_reachable). Defined.

(** The closing was called back, and the timer of the connection is gone. *)
Example pool7_closed : closed_log (log pool7) = [KEY] /\ timer pool7 !! 5 = None.
Proof. by vm_compute. Qed.

Lemma close_events_in_order_witness :
  exists pre post p', close_recv pool4 = pre ++ post /\ handle_close_event all_ok pool4 = Done p' /\ NoDup pre.*1 /\
    (forall e, head post = Some e -> e.1 ∈ pre.*1 \/ sockets pool4 !! e.1 = None) /\
    (forall k, k ∈ pre.*1 -> sockets pool4 !! k = Some true) /\
    (forall k, sockets p' !! k = if decide (k ∈ pre.*1) then None else sockets pool4 !! k) /\
    (forall h k e, timer p' !! h = Some (k, e) -> k ∉ pre.*1) /\
    tasks p' = tasks pool4 ++ (told all_ok <$> pre) /\ close_recv p' = [].
Proof. exact (close_events_in_order 1 pool4 all_ok pool4_reachable). Defined.

(** A connection that is closed twice hides the closing of the one behind it. *)
Example closed_twice_starves :
  match handle_close_event all_ok (close_conn KEY2 (Ok tt) (close_conn KEY (Ok tt) pool4)) with
  | Done p => sockets p !! KEY2 = Some true /\ close_recv p = []
  | _ => False
  end.
Proof. by vm_compute. Qed.

Definition conn3 : Conn := match conns pool3 !! KEY with Some c => c | None => peer end.

Lemma close_by_uid_strands_witness :
  let p1 := close_conn KEY (Ok tt) (close_by_uid (socket_uid 1 KEY) (Ok tt) pool3) in
  close_recv p1 <> [] /\
  exists p2, handle_close_event all_ok p1 = Done p2 /\ sockets p2 !! KEY = Some true /\ is_Some (poller p2 !! KEY) /\
    tasks p2 = tasks pool3 /\ close_recv p2 = [].
Proof. apply (close_by_uid_strands 1 pool3 (socket_uid 1 KEY) (Ok tt) KEY conn3 all_ok pool3_reachable); by vm_compute. Defined.

Definition conn2 : Conn := match conns pool2 !! KEY with Some c => c | None => peer end.

Lemma pool2_reachable : pool_reachable 1 pool2.
Proof.
  refine (rtc_r _ (app_timer KEY (Some (100, 7)) pool1) _ (rtc_r _ pool1 _ pool1_reachable _) _).
  - exact (step_timer KEY (Some (100, 7)) pool1).
  - exact (step_app KEY (AppWrite [1; 2; 3]) (app_timer KEY (Some (100, 7)) pool1)).
Qed.

Lemma written_bytes_sent_witness :
  exists c', get_socket KEY (handle_write_event (fun _ => Ok tt) pool2) = Some c' /\ write_buf (sock c') = [1; 2; 3] /\
    forall q, conns q !! KEY = Some c' -> exists q' c2,
      write_task KEY [WWrote 3] (fun _ => Ok tt) q = Done q' /\
      log q' = log q ++ [(KEY, Sent [1; 2; 3]); (KEY, Writed)] /\
      conns q' !! KEY = Some c2 /\ write_buf (sock c2) = [].
Proof.
  apply (written_bytes_sent 1 pool2 KEY conn2 pool2_reachable); [by vm_compute|by vm_compute|by vm_compute|].
  vm_compute. discriminate.
Defined.

Lemma uid_injective_witness :
  (socket_uid 1 KEY = socket_uid 2 KEY2 -> 1 = 2 /\ KEY = KEY2) /\ 0 <= socket_uid 1 KEY < 2 ^ 64.
Proof. apply (uid_injective 1 2 KEY KEY2); unfold KEY, KEY2; lia. Defined.

(** The 257th pool takes the ids of the first one. *)
Example uid_wraps : socket_uid 256 KEY = socket_uid 0 KEY.
Proof. reflexivity. Qed.
