(* ===== verification/TcpServer.v ===== *)
(** * Listening sockets, routing and services (new_tcp/src/acceptor.rs, server.rs, lib.rs)

    The configuration of a listener and its addresses, the acceptor that takes
    connections and hands them to the pools through the driver, and the table of services
    by port that the pools call back. Channels are lists, by the number of the channel;
    a channel whose receivers are gone is not there. *)

From S2P Require Import Prelude ByteSource TcpSocket Hibernate TcpPool TcpPoolSample.

#[local] Open Scope Z_scope.

(** ** Configuration (lib.rs) *)

Definition DEFAULT_TCP_IP_V4 : string := "0.0.0.0".
Definition DEFAULT_TCP_IP_V6 : string := "::".
Definition DEFAULT_TCP_PORT : Z := 38080.
Definition DEFAULT_BUFFER_SIZE : Z := 16384.

Record SocketOption := mkSocketOption {
  recv_buffer_size : Z;
  send_buffer_size : Z;
  read_buffer_capacity : Z;
  write_buffer_capacity : Z;
}.

Definition default_option : SocketOption :=
  mkSocketOption DEFAULT_BUFFER_SIZE DEFAULT_BUFFER_SIZE DEFAULT_BUFFER_SIZE 16.

(** The configurations of rustls, by their pointers. *)
Inductive TlsConfig := TlsEmpty | TlsServer (config : Z) | TlsClient (config : Z).

Inductive SocketConfig :=
| Raw (ports : list Z) (o : SocketOption)
| Tls (ports : list (Z * TlsConfig)) (o : SocketOption)
| RawIpv4 (ip : IpAddr) (ports : list Z) (o : SocketOption)
| TlsIpv4 (ip : IpAddr) (ports : list (Z * TlsConfig)) (o : SocketOption)
| RawIpv6 (ip : Z) (ports : list Z) (o : SocketOption)
| TlsIpv6 (ip : Z) (ports : list (Z * TlsConfig)) (o : SocketOption).

(** [Ipv4Addr::from_str] and [Ipv6Addr::from_str]. *)
Class IpApi := {
  parse_v4 : string -> option Z;
  parse_v6 : string -> option Z;
}.

Section config.
Context `{IpApi}.

Definition parse_ip (ip : string) : outcome IpAddr :=
  match parse_v4 ip with
  | Some a => Done (IpV4 a)
  | None => match parse_v6 ip with Some a => Done (IpV6 a) | None => Panic end
  end.

(** [SocketConfig::new] *)
Definition new_config (ip : string) (ports : list Z) : outcome SocketConfig :=
  if bool_decide (ip = DEFAULT_TCP_IP_V6) then Done (Raw ports default_option)
  else addr ← parse_ip ip; Done (RawIpv4 addr ports default_option).

Definition with_tls (ip : string) (ports : list (Z * TlsConfig)) : outcome SocketConfig :=
  if bool_decide (ip = DEFAULT_TCP_IP_V6) then Done (Tls ports default_option)
  else addr ← parse_ip ip; Done (TlsIpv4 addr ports default_option).

(** [SocketConfig::default] *)
Definition default_config : outcome SocketConfig := new_config DEFAULT_TCP_IP_V4 [DEFAULT_TCP_PORT].

(** [Ipv4Addr::to_ipv6_mapped] *)
Definition to_ipv6_mapped (a : Z) : Z := Z.lor (Z.shiftl 0xffff 32) a.

Definition ipv6_of (ip : IpAddr) : Z := match ip with IpV4 a => to_ipv6_mapped a | IpV6 a => a end.

Definition into_ipv6 (c : SocketConfig) : SocketConfig :=
  match c with
  | RawIpv4 ip ports o => RawIpv6 (ipv6_of ip) ports o
  | TlsIpv4 ip ports o => TlsIpv6 (ipv6_of ip) ports o
  | _ => c
  end.

Definition option_of (c : SocketConfig) : SocketOption :=
  match c with
  | Raw _ o | Tls _ o | RawIpv4 _ _ o | TlsIpv4 _ _ o | RawIpv6 _ _ o | TlsIpv6 _ _ o => o
  end.

Definition set_option (recv send read write : Z) (c : SocketConfig) : SocketConfig :=
  let o := mkSocketOption recv send read write in
  match c with
  | Raw ports _ => Raw ports o
  | Tls ports _ => Tls ports o
  | RawIpv4 ip ports _ => RawIpv4 ip ports o
  | TlsIpv4 ip ports _ => TlsIpv4 ip ports o
  | RawIpv6 ip ports _ => RawIpv6 ip ports o
  | TlsIpv6 ip ports _ => TlsIpv6 ip ports o
  end.

(** The default addresses of both families. *)
Definition both_addrs (p : Z * TlsConfig) : list (Addr * TlsConfig) :=
  [((IpV4 (default 0 (parse_v4 DEFAULT_TCP_IP_V4)), p.1), p.2); ((IpV6 (default 0 (parse_v6 DEFAULT_TCP_IP_V6)), p.1), p.2)].

(** [addrs] *)
Definition addrs (c : SocketConfig) : list (Addr * TlsConfig) :=
  match c with
  | Raw ports _ => ports ≫= (fun p => both_addrs (p, TlsEmpty))
  | Tls ports _ => ports ≫= both_addrs
  | RawIpv4 ip ports _ => (fun p => ((ip, p), TlsEmpty)) <$> ports
  | TlsIpv4 ip ports _ => (fun p => ((ip, p.1), p.2)) <$> ports
  | RawIpv6 ip ports _ => (fun p => ((IpV6 ip, p), TlsEmpty)) <$> ports
  | TlsIpv6 ip ports _ => (fun p => ((IpV6 ip, p.1), p.2)) <$> ports
  end.

(** [configs] *)
Definition configs (c : SocketConfig) : list (Addr * SocketOption * TlsConfig) :=
  (fun a => (a.1, option_of c, a.2)) <$> addrs c.
End config.

(** ** The driver (lib.rs) *)

(** Channels of connections by number. *)
Abbreviation Channels := (gmap nat (list Conn)).

Record SocketDriver := mkSocketDriver {
  driver_addrs : gmap Addr nat;
  count : Z;
  router : list nat;
}.

(** [SocketDriver::new] *)
Definition new_driver (bind : list (Addr * nat)) : SocketDriver :=
  mkSocketDriver (foldl (fun m e => <[e.2.1 := e.1]> m) ∅ (imap pair bind)) 0 bind.*2.

Definition get_addrs (d : SocketDriver) : list Addr := (map_to_list (driver_addrs d)).*1.

(** [route]: the channels in turn; none is a remainder by zero. *)
Definition route (d : SocketDriver) (c : Conn) (chs : Channels) : outcome (SocketDriver * Channels * io_result unit) :=
  match token c with
  | None => Done (d, chs, Err Interrupted)
  | Some _ =>
      let c := set_token None c in
      let d' := mkSocketDriver (driver_addrs d) (wrap64 (count d + 1)) (router d) in
      match router d !! Z.to_nat (count d mod Z.of_nat (length (router d))) with
      | None => Panic
      | Some ch =>
          match chs !! ch with
          | Some q => Done (d', <[ch := q ++ [c]]> chs, Ok tt)
          | None => Done (d', chs, Err BrokenPipe)
          end
      end
  end.

(** ** The acceptor (acceptor.rs) *)

Inductive AcceptorCmd := CmdContinue | CmdPause (time : Z) | CmdClose (reason : string).

(** A listening socket with its address and TLS configuration; the drivers of all
    contexts are clones of one, whose counter they share. *)
Record AcceptorContext := mkAcceptorContext { listen_addr : Addr; tls_cfg : TlsConfig }.

Record Acceptor := mkAcceptor {
  contexts : gmap Z (option AcceptorContext);
  listeners : gmap Addr Z;
  listening : gmap Z Interest;              (* registered at the poller *)
  acceptor_driver : SocketDriver;
  commands : list AcceptorCmd;
}.

Definition set_contexts x a := mkAcceptor x (listeners a) (listening a) (acceptor_driver a) (commands a).
Definition set_listeners x a := mkAcceptor (contexts a) x (listening a) (acceptor_driver a) (commands a).
Definition set_listening x a := mkAcceptor (contexts a) (listeners a) x (acceptor_driver a) (commands a).
Definition set_driver x a := mkAcceptor (contexts a) (listeners a) (listening a) x (commands a).
Definition set_commands x a := mkAcceptor (contexts a) (listeners a) (listening a) (acceptor_driver a) x.

(** One address of [Acceptor::bind]; [keys] are those of the slot map. *)
Fixpoint bind_loop (bind : Addr -> io_result unit) (register : Z -> io_result unit) (l : list (Z * (Addr * TlsConfig)))
    (len : nat) (a : Acceptor) : outcome (Acceptor * nat) :=
  match l with
  | [] => Done (a, len)
  | (k, (addr, cfg)) :: l =>
      match bind addr with
      | Err _ => Panic
      | Ok _ =>
          let a := set_contexts (<[k := None]> (contexts a)) a in
          let a := set_listeners (<[addr := k]> (listeners a)) a in
          match register k with
          | Err _ => bind_loop bind register l (pred len) a
          | Ok _ =>
              let a := set_listening (<[k := READABLE]> (listening a)) a in
              bind_loop bind register l len (set_contexts (<[k := Some (mkAcceptorContext addr cfg)]> (contexts a)) a)
          end
      end
  end.

(** [Acceptor::bind] *)
Definition acceptor_bind (bind : Addr -> io_result unit) (register : Z -> io_result unit) (keys : list Z)
    (l : list (Addr * TlsConfig)) (d : SocketDriver) : outcome (io_result Acceptor) :=
  '(a, len) ← bind_loop bind register (zip keys l) (length l) (mkAcceptor ∅ ∅ ∅ d []);
  Done (if bool_decide (len = 0)%nat then Err AddrNotAvailable else Ok a).

(** A result of [accept] of the kernel: the peer, and the local address of the listener. *)
Inductive accept_event := AInterrupted | AError (e : ErrorKind) | AStream (remote : Addr) (local : io_result Addr).

(** [accept]; [None] when the attempts given end before the call does. *)
Fixpoint accept (evs : list accept_event) (id : Z) (read_limit write_limit : nat) : option (io_result Conn) :=
  match evs with
  | [] => None
  | AInterrupted :: evs => accept evs id read_limit write_limit
  | AError e :: _ => Some (Err e)
  | AStream remote (Ok local) :: _ => Some (Ok (new_conn local remote id read_limit write_limit))
  | AStream _ (Err e) :: _ => Some (Err e)
  end.

Record ListenEvent := mkListenEvent { listen_token : Z; listen_readable : bool; listen_accepts : list accept_event }.

(** What the loop does after an event. *)
Inductive listen_end := GoesOn | Exits.

(** One event of [listen_loop]. *)
Definition listen_event (read_limit write_limit : nat) (a : Acceptor) (chs : Channels) (e : ListenEvent)
    : outcome (Acceptor * Channels * listen_end) :=
  let k := listen_token e in
  match contexts a !! k with
  | Some (Some context) =>
      if listen_readable e then
        match accept (listen_accepts e) k read_limit write_limit with
        | None => Blocked
        | Some (Ok socket) =>
            '(d, chs, r) ← route (acceptor_driver a) socket chs;
            let a := set_driver d a in
            match r with
            | Err _ => Done (a, chs, Exits)
            | Ok _ => Done (set_listening (alter (fun _ => READABLE) k (listening a)) a, chs, GoesOn)
            end
        | Some (Err WouldBlock) => Done (a, chs, GoesOn)
        | Some (Err _) =>
            let a := set_contexts (delete k (contexts a)) a in
            let a := set_listening (delete k (listening a)) a in
            Done (set_listeners (delete (listen_addr context) (listeners a)) a, chs, GoesOn)
        end
      else Done (a, chs, GoesOn)
  | _ => Done (a, chs, GoesOn)
  end.

Fixpoint listen_events (read_limit write_limit : nat) (es : list ListenEvent) (a : Acceptor) (chs : Channels)
    : outcome (Acceptor * Channels * listen_end) :=
  match es with
  | [] => Done (a, chs, GoesOn)
  | e :: es =>
      '(a, chs, r) ← listen_event read_limit write_limit a chs e;
      match r with Exits => Done (a, chs, Exits) | GoesOn => listen_events read_limit write_limit es a chs end
  end.

(** A turn of [listen_loop]; the boolean says that the loop goes on. *)
Inductive listen_poll := LEvents (es : list ListenEvent) | LInterrupted | LFailed.

Definition listen_turn (read_limit write_limit : nat) (poll : listen_poll) (a : Acceptor) (chs : Channels)
    : outcome (Acceptor * Channels * bool) :=
  match poll with
  | LFailed => Done (a, chs, false)
  | LInterrupted => Done (a, chs, true)
  | LEvents es =>
      let '(stop, a) := match commands a with
                        | CmdClose _ :: cmds => (true, set_commands cmds a)
                        | _ :: cmds => (false, set_commands cmds a)
                        | [] => (false, a)
                        end in
      if stop : bool then Done (a, chs, false)
      else
        '(a, chs, r) ← listen_events read_limit write_limit es a chs;
        Done (a, chs, match r with Exits => false | GoesOn => true end)
  end.

(** ** Services by port (server.rs) *)

Inductive SocketStatus :=
| StConnected (r : io_result unit)
| StReaded (r : io_result unit)
| StWrited (r : io_result unit)
| StClosed (r : io_result unit)
| StTimeout (e : SocketEvent).

Section services.
Context {S : Type}.

(** [PortsAdapter] *)
Abbreviation PortsAdapter := (gmap Z S).

Definition new_ports : PortsAdapter := ∅.
Definition ports (t : PortsAdapter) : list Z := (map_to_list t).*1.
Definition set_service (port : Z) (s : S) (t : PortsAdapter) : PortsAdapter := <[port := s]> t.
Definition unset_service (port : Z) (t : PortsAdapter) : PortsAdapter * option S := (delete port t, t !! port).

(** The callbacks of the adapter: the service of the local port and the status it gets;
    [None] when the port has none. *)
Definition serve (t : PortsAdapter) (c : Conn) (status : SocketStatus) : option (S * SocketStatus) :=
  (fun s => (s, status)) <$> t !! (local c).2.

Definition connected (t : PortsAdapter) (c : Conn) (r : io_result unit) := serve t c (StConnected r).
Definition readed (t : PortsAdapter) (c : Conn) (r : io_result unit) := serve t c (StReaded r).
Definition writed (t : PortsAdapter) (c : Conn) (r : io_result unit) := serve t c (StWrited r).
Definition closed_callback (t : PortsAdapter) (c : Conn) (r : io_result unit) := serve t c (StClosed r).
Definition timeouted (t : PortsAdapter) (c : Conn) (e : SocketEvent) := serve t c (StTimeout e).

(** The callback of an entry in the log of the pool. *)
Definition adapter_call (t : PortsAdapter) (c : Conn) (e : Callback) : option (S * SocketStatus) :=
  match e with
  | Connected => connected t c (Ok tt)
  | Readed => readed t c (Ok tt)
  | Writed => writed t c (Ok tt)
  | Closed r => closed_callback t c r
  | Timeouted e => timeouted t c e
  | Woken _ | Sent _ => None
  end.
End services.

(** ** Binding a listener (server.rs) *)

(** The state of [SocketListener::bind] when it has started: the acceptor, the pools by
    their number, and the one channel from which they take connections. *)
Record Server := mkServer { acceptor : Acceptor; pools : list Pool; accepted : Channels }.

(** The channel of all addresses. *)
Definition THE_CHANNEL : nat := 0%nat.

(** [SocketListener::bind]: a pool for each runtime, whose id is a byte. *)
Definition listener_bind `{IpApi} (runtimes : nat) (config : SocketConfig) (bind : Addr -> io_result unit)
    (register : Z -> io_result unit) (keys : list Z) : outcome (io_result Server) :=
  if bool_decide (runtimes = 0)%nat then Done (Err Other)
  else
    let l := addrs config in
    let driver := new_driver ((fun a => (a.1, THE_CHANNEL)) <$> l) in
    r ← acceptor_bind bind register keys l driver;
    Done (a ← r; Ok (mkServer a ((fun i => new_pool (Z.of_nat i mod 256)) <$> seq 0 runtimes) {[ THE_CHANNEL := [] ]})).

(** [try_iter] of the pool [i]: it takes all that the channel has. *)
Definition pool_takes (i : nat) (s : Server) : Server :=
  let q := default [] (accepted s !! THE_CHANNEL) in
  mkServer (acceptor s) (alter (fun p => set_socket_recv (socket_recv p ++ q) p) i (pools s))
    (<[THE_CHANNEL := []]> (accepted s)).

(** ** Events of timers (lib.rs) *)

Section event.
Context {A : Type}.

(** The boxes that are allocated, by address; an event is the address of its box, 0 for
    none. Reading a box that was freed is undefined: [None]. *)
Abbreviation Boxes := (gmap Z A).

Definition event_empty : SocketEvent := 0.
Definition event_is_empty (e : SocketEvent) : bool := bool_decide (e = 0).

(** [SocketEvent::get] frees the box and leaves the pointer. *)
Definition event_get (e : SocketEvent) (h : Boxes) : option (Boxes * option A) :=
  if event_is_empty e then Some (h, None)
  else match h !! e with Some x => Some (delete e h, Some x) | None => None end.

(** [SocketEvent::set]; [fresh] is the address of the new box. *)
Definition event_set (fresh : Z) (x : A) (e : SocketEvent) (h : Boxes) : SocketEvent * Boxes * bool :=
  if event_is_empty e then (fresh, <[fresh := x]> h, true) else (e, h, false).

(** [SocketEvent::remove] *)
Definition event_remove (e : SocketEvent) (h : Boxes) : option (SocketEvent * Boxes * option A) :=
  if event_is_empty e then Some (e, h, None)
  else '(h, x) ← event_get e h; Some (event_empty, h, x).

(** What is set is got back once; the pointer stays, and a second [get], or a [remove]
    behind it, reads the freed box, while [remove] leaves an empty event. *)
Lemma event_taken_once fresh x h :
  fresh <> 0 ->
  let '(e, h1, r) := event_set fresh x event_empty h in
  r = true /\
  (exists h2, event_get e h1 = Some (h2, Some x) /\ event_is_empty e = false /\ event_get e h2 = None /\ event_remove e h2 = None) /\
  (exists h2, event_remove e h1 = Some (event_empty, h2, Some x) /\ event_get event_empty h2 = Some (h2, None)).
Proof.
  intros Hf. unfold event_set, event_remove, event_get. assert (event_is_empty fresh = false) as E by by apply bool_decide_eq_false.
  change (event_is_empty event_empty) with true. cbn. rewrite E, lookup_insert_eq. split_and!; [done| |].
  - eexists. split; [done|]. rewrite lookup_delete_eq. by split_and!.
  - eexists. by split.
Qed.
End event.

(** ** Properties *)

Lemma accept_stream n remote local rest k rl wl :
  accept (replicate n AInterrupted ++ AStream remote (Ok local) :: rest) k rl wl = Some (Ok (new_conn local remote k rl wl)).
Proof. by induction n. Qed.

Lemma route_to ch d c chs q k :
  token c = Some k -> router d <> [] -> Forall (eq ch) (router d) -> chs !! ch = Some q ->
  exists d', route d c chs = Done (d', <[ch := q ++ [set_token None c]]> chs, Ok tt).
Proof.
  intros Ht Hne Hr Hq. unfold route. rewrite Ht.
  assert (0 < Z.of_nat (length (router d))) as Hlen by (destruct (router d); [done|cbn; lia]).
  pose proof (Z.mod_pos_bound (count d) _ Hlen) as Hm.
  destruct (lookup_lt_is_Some_2 (router d) (Z.to_nat (count d mod Z.of_nat (length (router d))))) as [ch' Hch]; [lia|].
  rewrite Hch. eapply Forall_lookup_1 in Hr as <-; [|exact Hch]. rewrite Hq. by eexists.
Qed.

(** A peer that connects to a listening address is called back at the service of the
    port: in the turn the kernel reports it, however often the call was interrupted, the
    acceptor puts the connection into the channel of the pools and listens on; a pool that
    takes it gives it a slot and a token, registers it for reading and starts the callback,
    which the adapter passes to the service. *)
Theorem accepted_served {S : Type} (services : gmap Z S) s n rl wl a chs ch k ctx l r p key
    (Hctx : contexts a !! k = Some (Some ctx)) (Hcmd : commands a = [])
    (Hne : router (acceptor_driver a) <> []) (Hall : Forall (eq ch) (router (acceptor_driver a))) (Hch : chs !! ch = Some [])
    (Hserv : services !! l.2 = Some s) :
  exists a' c, listen_turn rl wl (LEvents [mkListenEvent k true (replicate n AInterrupted ++ [AStream r (Ok l)])]) a chs =
      Done (a', <[ch := [c]]> chs, true) /\ contexts a' = contexts a /\ dom (listening a') = dom (listening a) /\
    let p1 := handle_accepted [key] (fun _ => Ok tt) (set_socket_recv [c] p) in
    exists c', get_socket key p1 = Some c' /\ local c' = l /\ remote c' = r /\ token c' = Some key /\
      poller p1 !! key = Some READABLE /\ tasks p1 = tasks p ++ [TConnected key] /\
      (forall revs wevs rr q, run_task revs wevs rr (TConnected key) q = Done (ran key Connected q)) /\
      adapter_call services c' Connected = Some (s, StConnected (Ok tt)).
Proof.
  destruct (route_to ch (acceptor_driver a) (new_conn l r k rl wl) chs [] k) as [d' E]; [done..|].
  eexists _, _. split; [|split_and!].
  - unfold listen_turn. rewrite Hcmd. cbn -[accept]. unfold listen_event. cbn -[accept]. rewrite Hctx, accept_stream, E. cbn. reflexivity.
  - reflexivity.
  - cbn. apply set_eq. intros k'. rewrite !elem_of_dom. by rewrite lookup_alter_is_Some.
  - cbv zeta. eexists. split; [unfold get_socket; cbn; rewrite !lookup_insert_eq; reflexivity|]. split_and!; try done; [apply lookup_insert_eq|].
    cbn. unfold connected, serve. cbn. by rewrite Hserv.
Qed.

(** One connection that cannot be accepted, because the peer is gone again or the
    process is out of descriptors, takes the listener away: its slot, its registration and
    its address are gone, nothing puts them back, and every later event for it is
    ignored. *)
Theorem listener_lost rl wl a chs k ctx e n
    (Hctx : contexts a !! k = Some (Some ctx)) (Herr : e <> WouldBlock) :
  exists a', listen_event rl wl a chs (mkListenEvent k true (replicate n AInterrupted ++ [AError e])) = Done (a', chs, GoesOn) /\
    contexts a' !! k = None /\ listening a' !! k = None /\ listeners a' !! listen_addr ctx = None /\
    forall chs' readable evs, listen_event rl wl a' chs' (mkListenEvent k readable evs) = Done (a', chs', GoesOn).
Proof.
  assert (accept (replicate n AInterrupted ++ [AError e]) k rl wl = Some (Err e)) as E by by induction n.
  eexists. split; [unfold listen_event; cbn [listen_token listen_readable listen_accepts]; rewrite Hctx, E; by destruct e|].
  cbn. rewrite !lookup_delete_eq. split_and!; try done. intros. unfold listen_event. cbn. by rewrite lookup_delete_eq.
Qed.

(** A server from [bind] has a pool for each runtime, and the channel; an address whose
    listener cannot be bound is a panic. *)
Lemma listener_bind_pools `{IpApi} runtimes config bind register keys s :
  listener_bind runtimes config bind register keys = Done (Ok s) ->
  length (pools s) = runtimes /\ accepted s !! THE_CHANNEL = Some [] /\
  forall i p, pools s !! i = Some p -> pool_uid p = Z.of_nat i mod 256.
Proof.
  unfold listener_bind. case_bool_decide; [done|]. cbv zeta.
  destruct (acceptor_bind _ _ _ _ _) as [[a|e]| | |]; try done. cbn. intros [= <-]. cbn. split_and!.
  - by rewrite length_map, length_seq.
  - done.
  - intros i p. rewrite list_lookup_fmap. intros (j & [Hj _]%lookup_seq & ->)%fmap_Some. by subst j.
Qed.

(** ** A listener on one port *)

Definition sample_context : AcceptorContext := mkAcceptorContext (IpV4 0, 80) TlsEmpty.
Definition sample_acceptor : Acceptor :=
  mkAcceptor {[ KEY := Some sample_context ]} {[ (IpV4 0, 80) := KEY ]} {[ KEY := READABLE ]} (new_driver [((IpV4 0, 80), THE_CHANNEL)]) [].
Definition sample_services : gmap Z string := set_service 80 "http" ∅.

Lemma accepted_served_witness :
  exists a' c, listen_turn 4096 4096 (LEvents [mkListenEvent KEY true [AInterrupted; AStream (IpV4 2, 5000) (Ok (IpV4 1, 80))]])
      sample_acceptor {[ THE_CHANNEL := [] ]} =
      Done (a', <[THE_CHANNEL := [c]]> {[ THE_CHANNEL := [] ]}, true) /\ contexts a' = contexts sample_acceptor /\
    dom (listening a') = dom (listening sample_acceptor) /\
    let p1 := handle_accepted [KEY2] (fun _ => Ok tt) (set_socket_recv [c] (new_pool 0)) in
    exists c', get_socket KEY2 p1 = Some c' /\ local c' = (IpV4 1, 80) /\ remote c' = (IpV4 2, 5000) /\ token c' = Some KEY2 /\
      poller p1 !! KEY2 = Some READABLE /\ tasks p1 = tasks (new_pool 0) ++ [TConnected KEY2] /\
      (forall revs wevs rr q, run_task revs wevs rr (TConnected KEY2) q = Done (ran KEY2 Connected q)) /\
      adapter_call sample_services c' Connected = Some ("http"%string, StConnected (Ok tt)).
Proof.
  apply (accepted_served sample_services "http"%string 1 4096 4096 sample_acceptor {[ THE_CHANNEL := [] ]} THE_CHANNEL KEY sample_context
    (IpV4 1, 80) (IpV4 2, 5000) (new_pool 0) KEY2); [reflexivity|reflexivity|done|by repeat constructor|reflexivity|reflexivity].
Defined.

Lemma listener_lost_witness :
  exists a', listen_event 4096 4096 sample_acceptor ∅ (mkListenEvent KEY true [AInterrupted; AError ConnectionAborted]) = Done (a', ∅, GoesOn) /\
    contexts a' !! KEY = None /\ listening a' !! KEY = None /\ listeners a' !! (IpV4 0, 80) = None /\
    forall chs' readable evs, listen_event 4096 4096 a' chs' (mkListenEvent KEY readable evs) = Done (a', chs', GoesOn).
Proof. apply (listener_lost 4096 4096 sample_acceptor ∅ KEY sample_context ConnectionAborted 1); [reflexivity|done]. Defined.
