(* ===== verification/TlsSocket.v ===== *)
(** * The TLS connection (new_tcp/src/tls_connect.rs)

    [TlsSocket] has the fields of [TcpSocket] and a session of the package rustls, which
    is the class [TlsApi]: it takes the bytes of the stream, gives the plain text, and
    turns what is written into bytes for the stream. One readable event is one [read] of
    the kernel, one call of [write_tls] is one [write]. *)

From S2P Require Import Prelude ByteSource TcpServer TcpSocket.

(** ** The session of rustls *)

(** [tls_read] is [read_tls] of bytes that came, [tls_process] is [process_new_packets]
    with the length of the plain text to read, [tls_reader] is [reader().read_exact] of
    that length, [tls_write_all] is [writer().write_all], and [tls_write] is [write_tls]
    with the kernel's answer and what reached the stream. *)
Class TlsApi (T : Type) := {
  server_connection : Z -> option T;
  tls_read : list Z -> T -> T;
  tls_process : T -> T * option nat;
  tls_reader : nat -> T -> option (T * list Z);
  tls_wants_read : T -> bool;
  tls_wants_write : T -> bool;
  tls_is_handshaking : T -> bool;
  tls_set_buffer_limit : nat -> T -> T;
  tls_write_all : list Z -> T -> T * io_result unit;
  tls_write : write_event -> T -> T * list Z * io_result nat;
  tls_close_notify : T -> T;
}.

Section tls.
Context {T : Type} `{TlsApi T}.

Record TlsSocket := mkTlsSocket { base : TcpSocket; tls_connect : T }.

Definition on_base (f : TcpSocket -> TcpSocket) (s : TlsSocket) : TlsSocket := mkTlsSocket (f (base s)) (tls_connect s).
Definition set_tls (t : T) (s : TlsSocket) : TlsSocket := mkTlsSocket (base s) t.

(** [event_set] *)
Definition event_set (s : TlsSocket) : Interest :=
  match tls_wants_read (tls_connect s), tls_wants_write (tls_connect s) with
  | true, true => READ_WRITE
  | _, true => WRITABLE
  | _, _ => READABLE
  end.

(** [TlsSocket::new]: a configuration of a client, or none, is a panic. *)
Definition new_tls_socket (readed_read_size_limit readed_write_size_limit : nat) (cfg : TlsConfig) : outcome TlsSocket :=
  match cfg with
  | TlsServer config =>
      t ← lift (server_connection config);
      let s := mkTlsSocket (new_socket readed_read_size_limit readed_write_size_limit) t in
      Done (on_base (set_interest (event_set s)) s)
  | TlsClient _ | TlsEmpty => Panic
  end.

(** ** Receiving *)

(** [do_tls_write] *)
Definition do_tls_write (ev : write_event) (s : TlsSocket) : TlsSocket * list Z * io_result nat :=
  let '(t, out, r) := tls_write ev (tls_connect s) in (set_tls t s, out, r).

(** [do_tls_read]: a packet that cannot be processed is answered with an alert. *)
Definition do_tls_read (rev : read_event) (wev : write_event) (s : TlsSocket) : TlsSocket * list Z * io_result nat :=
  match rev with
  | RData [] => (s, [], Err ConnectionAborted)
  | RData data =>
      match tls_process (tls_read data (tls_connect s)) with
      | (t, Some _) => (set_tls t s, [], Ok (length data))
      | (t, None) =>
          match do_tls_write wev (set_tls t s) with
          | (s, out, Err e) => (s, out, Err e)
          | (s, out, Ok _) => (s, out, Ok (length data))
          end
      end
  | RWouldBlock => (s, [], Ok 0)
  | RInterrupted => (s, [], Err Interrupted)
  | RError e => (s, [], Err e)
  end.

(** [try_plain_read] *)
Definition try_plain_read (s : TlsSocket) : outcome (TlsSocket * io_result nat) :=
  match tls_process (tls_connect s) with
  | (t, None) => Done (set_tls t s, Err ConnectionAborted)
  | (t, Some n) =>
      if decide (0 < n) then
        r ← lift (tls_reader n t);
        let '(t, block) := r in
        let b := base s in
        let b := set_recv_len (recv_len b + n) b in
        let b := if ready_reader b then set_ready_len (ready_len b + n) b else b in
        let b := set_read_buf (read_buf b ++ block) b in
        let b := if decide (readed_read_limit b < readed b) then set_readed 0 b else b in
        Done (mkTlsSocket b t, Ok n)
      else Done (set_tls t s, Ok 0)
  end.

(** [recv] *)
Definition recv (rev : read_event) (wev : write_event) (s : TlsSocket) : outcome (TlsSocket * list Z * io_result nat) :=
  match do_tls_read rev wev s with
  | (s, out, Err e) => Done (s, out, Err e)
  | (s, out, Ok _) =>
      r ← try_plain_read s;
      let '(s, result) := r in
      let s := on_base (set_interest (event_set s)) s in
      let s := if negb (tls_is_handshaking (tls_connect s)) && negb (is_require_recv (base s))
               then on_base (set_interest WRITABLE) s else s in
      Done (s, out, result)
  end.

(** ** Sending *)

(** [try_plain_write]: a block that the session does not take at once is put back. *)
Definition try_plain_write (s : TlsSocket) : TlsSocket * io_result nat :=
  let b := base s in
  let block_len := Nat.min DEFAULT_WRITE_BLOCK_LEN (length (write_buf b)) in
  let block := take block_len (write_buf b) in
  let b := set_write_buf (drop block_len (write_buf b)) b in
  match tls_write_all block (tls_set_buffer_limit (2 * block_len) (tls_connect s)) with
  | (t, Ok _) =>
      let b := set_sent_len (sent_len b + block_len) (set_readed_write_len (readed_write_len b + block_len) b) in
      let b := if decide (0 < block_len /\ readed_write_limit b < readed_write_len b) then set_readed_write_len 0 b else b in
      (mkTlsSocket b t, Ok block_len)
  | (t, Err WouldBlock) => (mkTlsSocket (set_write_buf (write_buf b ++ block) b) t, Ok 0)
  | (t, Err e) => (mkTlsSocket b t, Err e)
  end.

(** [send] *)
Definition send (wev : write_event) (s : TlsSocket) : TlsSocket * list Z * io_result nat :=
  match try_plain_write s with
  | (s, Err e) => (s, [], Err e)
  | (s, Ok _) =>
      let '(s, out, result) := do_tls_write wev s in
      let s := on_base (set_interest (event_set s)) s in
      let s :=
        if tls_is_handshaking (tls_connect s) then s
        else if decide (0 < length (write_buf (base s)) \/ sent_len (base s) < wait_sent_len (base s))
        then on_base (set_interest WRITABLE) s
        else on_base (set_interest READABLE) s in
      (s, out, result)
  end.

(** ** The other operations of the connection *)

(** [read_ready] does not look whether the connection is closed. *)
Definition read_ready (adjust : nat) (s : TlsSocket) : TlsSocket * (unit + nat) :=
  let b := set_wait_recv_len (wait_recv_len (base s) + adjust) (base s) in
  let b := set_interest (interest_add (interest b) READABLE) b in
  let remaining := length (read_buf b) in
  if decide (adjust <= remaining /\ 0 < remaining) then (mkTlsSocket b (tls_connect s), inr remaining)
  else (mkTlsSocket (set_wait_ready_len (adjust - remaining) (set_ready_reader true b)) (tls_connect s), inl tt).

(** [wakeup_read_ready] *)
Definition wakeup_read_ready (s : TlsSocket) : TlsSocket * option nat :=
  let '(b, woken) := TcpSocket.wakeup_read_ready (base s) in (mkTlsSocket b (tls_connect s), woken).

(** [write_ready], [set_timeout], [unset_timeout], [reregister_interest] *)
Definition write_ready (buf : list Z) (s : TlsSocket) : TlsSocket * io_result unit :=
  let '(b, r) := TcpSocket.write_ready buf (base s) in (mkTlsSocket b (tls_connect s), r).
Definition set_timeout (timeout : Z) (s : TlsSocket) : TlsSocket := on_base (TcpSocket.set_timeout timeout) s.
Definition unset_timeout (s : TlsSocket) : TlsSocket := on_base TcpSocket.unset_timeout s.
Definition reregister_interest (ready : Ready) (s : TlsSocket) : TlsSocket := on_base (TcpSocket.reregister_interest ready) s.

(** [close]: the pool is told only when the closing alert could be written. *)
Definition close (reason : io_result unit) (wev : write_event) (s : TlsSocket)
    : TlsSocket * list Z * option nat * io_result unit :=
  let '(flag, exchanged) := compare_exchange (closed (base s)) false true in
  let s := on_base (set_closed flag) s in
  match exchanged with
  | Ok true => (s, [], None, Ok tt)
  | _ =>
      let '(s, woken) :=
        if ready_reader (base s) then
          (on_base (fun b => set_wait_ready_len 0 (set_ready_len 0 (set_ready_reader false b))) s, Some 0)
        else (s, None) in
      match do_tls_write wev (set_tls (tls_close_notify (tls_connect s)) s) with
      | (s, out, Err _) => (s, out, woken, Err BrokenPipe)
      | (s, out, Ok _) => (on_base (fun b => set_close_events (close_events b ++ [reason]) b) s, out, woken, Ok tt)
      end
  end.

(** [copy_to_bytes] of the read buffer. *)
Definition copy_to_bytes (n : nat) (s : TlsSocket) : option (TlsSocket * list Z) :=
  match TcpSocket.copy_to_bytes n (base s) with
  | Some (b, bs) => Some (mkTlsSocket b (tls_connect s), bs)
  | None => None
  end.

(** ** Awaiting a read

    The readable events to come, each with the kernel's answer should something be
    written meanwhile; as [await_value] of the plain connection. *)
Definition tls_poll : Type := read_event * write_event.

Fixpoint tls_await (polls : list tls_poll) (s : TlsSocket)
    : outcome ((TlsSocket * nat * list tls_poll) + TlsSocket) :=
  match polls with
  | [] => Done (inr s)
  | (rev, wev) :: polls' =>
      r ← recv rev wev s;
      match r with
      | (s, _, Err kind) =>
          let '(s, _, woken, _) := close (Err kind) wev s in
          match woken with
          | Some n => Done (inl (s, n, polls'))
          | None => tls_await polls' s
          end
      | (s, _, Ok _) =>
          let '(s, woken) := wakeup_read_ready s in
          match woken with
          | Some n => Done (inl (s, n, polls'))
          | None => tls_await polls' s
          end
      end
  end.
End tls.
Arguments mkTlsSocket {T}.

(** ** What the session promises

    [tls_ready] is the plain text that can be read now, [tls_plain t c] what is unread
    and what the bytes [c] to come decrypt to, [None] when they are no whole packets of
    this session; [tls_pending] waits to be written to the stream, and [tls_peer t p] says
    that [p] is the session of the peer. *)
Class TlsLaws (T : Type) `{TlsApi T} := {
  tls_ready : T -> list Z;
  tls_plain : T -> list Z -> option (list Z);
  tls_pending : T -> list Z;
  tls_peer : T -> T -> Prop;
  plain_read c1 c2 t : tls_plain (tls_read c1 t) c2 = tls_plain t (c1 ++ c2);
  plain_process t c : is_Some (tls_plain t c) -> exists t',
    tls_process t = (t', Some (length (tls_ready t'))) /\ forall c', tls_plain t' c' = tls_plain t c';
  plain_all t t' n p : tls_process t = (t', Some n) -> tls_plain t' [] = Some p -> p = tls_ready t';
  plain_reader t : exists t', tls_reader (length (tls_ready t)) t = Some (t', tls_ready t) /\
    forall c, tls_plain t c = app (tls_ready t) <$> tls_plain t' c;
  wants_write t : tls_wants_write t = negb (bool_decide (tls_pending t = []));
  limit_pending n t : tls_pending (tls_set_buffer_limit n t) = tls_pending t;
  limit_peer n t p : tls_peer t p -> tls_peer (tls_set_buffer_limit n t) p;
  write_all_peer b t t' p q : tls_peer t p -> tls_plain p (tls_pending t) = Some q ->
    tls_write_all b t = (t', Ok tt) -> tls_peer t' p /\ tls_plain p (tls_pending t') = Some (q ++ b);
  write_all_hands b t : tls_is_handshaking (tls_write_all b t).1 = tls_is_handshaking t;
  limit_hands n t : tls_is_handshaking (tls_set_buffer_limit n t) = tls_is_handshaking t;
  write_all_kinds b t t' e : tls_write_all b t = (t', Err e) -> e <> WouldBlock;
  write_ok ev t t' out n : tls_write ev t = (t', out, Ok n) ->
    tls_pending t = out ++ tls_pending t' /\ tls_is_handshaking t' = tls_is_handshaking t /\
    (forall p, tls_peer t p -> tls_peer t' (tls_read out p));
  write_wrote n t : 0 < n <= length (tls_pending t) -> exists t', tls_write (WWrote n) t = (t', take n (tls_pending t), Ok n);
  write_refused ev e t : tls_pending t <> [] ->
    ev = WWouldBlock /\ e = WouldBlock \/ ev = WInterrupted /\ e = Interrupted \/ ev = WError e ->
    tls_write ev t = (t, [], Err e);
  notify_pending t : tls_pending (tls_close_notify t) <> [];
}.

Section receiving.
Context {T : Type} `{TlsLaws T}.
Implicit Types s : TlsSocket (T := T).

(** The bytes to come, and events that do not end the connection. *)
Fixpoint cipher (polls : list tls_poll) : list Z :=
  match polls with
  | [] => []
  | (RData data, _) :: polls => data ++ cipher polls
  | _ :: polls => cipher polls
  end.
Definition poll_open (p : tls_poll) : bool :=
  match p.1 with RData (_ :: _) | RWouldBlock => true | _ => false end.
Definition poll_bytes (p : tls_poll) : list Z := match p.1 with RData data => data | _ => [] end.

Lemma cipher_cons p polls : cipher (p :: polls) = poll_bytes p ++ cipher polls.
Proof. by destruct p as [[] ?]. Qed.

(** All the plain text of the bytes received has been read. *)
Definition drained s : Prop := forall p, tls_plain (tls_connect s) [] = Some p -> p = [].

(** A session that goes on with the plain text [p] behind what was read. *)
Definition reads_on s s' (bytes p : list Z) : Prop :=
  forall c, tls_plain (tls_connect s) (bytes ++ c) = app p <$> tls_plain (tls_connect s') c.

Lemma fmap_app_nil (o : option (list Z)) : app [] <$> o = o.
Proof. by destruct o. Qed.

Lemma try_plain_read_ok s c : is_Some (tls_plain (tls_connect s) c) -> exists s' p,
  try_plain_read s = Done (s', Ok (length p)) /\ reads_on s s' [] p /\ drained s' /\
  read_buf (base s') = read_buf (base s) ++ p /\ closed (base s') = closed (base s) /\
  ready_reader (base s') = ready_reader (base s) /\ wait_ready_len (base s') = wait_ready_len (base s) /\
  recv_len (base s') = recv_len (base s) + length p /\
  ready_len (base s') = ready_len (base s) + (if ready_reader (base s) then length p else 0).
Proof.
  intros Hc. destruct (plain_process _ _ Hc) as (t' & Ep & Hp). unfold try_plain_read. rewrite Ep.
  case_decide as Hn.
  - destruct (plain_reader t') as (t2 & -> & Hr). cbn.
    eexists _, (tls_ready t'). split; [reflexivity|].
    assert (forall p, tls_plain t2 [] = Some p -> p = []) as Hd.
    { intros p Hq. pose proof (Hr []) as Hr0. rewrite Hq in Hr0. apply (plain_all _ _ _ _ Ep) in Hr0.
      rewrite <- (app_nil_r (tls_ready t')) in Hr0 at 2. by apply app_inv_head in Hr0. }
    destruct (ready_reader (base s)) eqn:Er; case_decide; cbn; rewrite ?Er; split_and!; try done; try lia;
      intros c'; cbn; by rewrite <- Hp, Hr.
  - exists (set_tls t' s), []. assert (tls_ready t' = []) as E by (destruct (tls_ready t'); [done|cbn in Hn; lia]).
    cbn. rewrite app_nil_r, !Nat.add_0_r. split_and!; try done.
    + intros c'. by rewrite fmap_app_nil, Hp.
    + intros p Hq. cbn in Hq. by rewrite (plain_all _ _ _ _ Ep Hq).
    + by destruct (ready_reader (base s)); rewrite Nat.add_0_r.
Qed.

Lemma do_tls_read_ok rev wev s c :
  poll_open (rev, wev) = true -> is_Some (tls_plain (tls_connect s) (poll_bytes (rev, wev) ++ c)) ->
  exists s' n, do_tls_read rev wev s = (s', [], Ok n) /\ base s' = base s /\
    forall c', tls_plain (tls_connect s') c' = tls_plain (tls_connect s) (poll_bytes (rev, wev) ++ c').
Proof.
  intros Ho Hc. destruct rev as [[|b data]| | |e]; try done; cbn in *.
  - assert (is_Some (tls_plain (tls_read (b :: data) (tls_connect s)) c)) as Hc2 by by rewrite plain_read.
    destruct (plain_process _ _ Hc2) as (t' & -> & Hp).
    eexists _, _. split; [reflexivity|]. split; [done|]. intros c'. cbn. by rewrite Hp, plain_read.
  - by exists s, 0.
Qed.

(** One readable event of an open connection. *)
Lemma recv_ok rev wev s c :
  poll_open (rev, wev) = true -> is_Some (tls_plain (tls_connect s) (poll_bytes (rev, wev) ++ c)) ->
  exists s' p, recv rev wev s = Done (s', [], Ok (length p)) /\ reads_on s s' (poll_bytes (rev, wev)) p /\ drained s' /\
  read_buf (base s') = read_buf (base s) ++ p /\ closed (base s') = closed (base s) /\
  ready_reader (base s') = ready_reader (base s) /\ wait_ready_len (base s') = wait_ready_len (base s) /\
  recv_len (base s') = recv_len (base s) + length p /\
  ready_len (base s') = ready_len (base s) + (if ready_reader (base s) then length p else 0).
Proof.
  intros Ho Hc. destruct (do_tls_read_ok rev wev s c Ho Hc) as (s1 & n & E1 & Hb & H1).
  destruct (try_plain_read_ok s1 c) as (s2 & p & E2 & H2 & Hd & F); [by rewrite H1|].
  rewrite Hb in F. unfold recv. rewrite E1, E2. cbn.
  assert (reads_on s s2 (poll_bytes (rev, wev)) p) as Hon by (intros c'; rewrite <- H2, <- H1; done).
  destruct (negb _ && negb _); eexists _, p; (split; [reflexivity|]); cbn; by split_and!; destruct_and! F.
Qed.

(** While the connection stays open, a pending read is woken when its bytes have come. *)
Lemma tls_await_spec polls s p :
  closed (base s) = false -> ready_reader (base s) = true -> forallb poll_open polls = true ->
  tls_plain (tls_connect s) (cipher polls) = Some p ->
  exists o, tls_await polls s = Done o /\
  match o with
  | inl (s', v, polls') =>
      closed (base s') = false /\ forallb poll_open polls' = true /\ ready_reader (base s') = false /\
      ready_len (base s') = 0 /\ wait_ready_len (base s) <= v /\ drained s' /\
      length (read_buf (base s')) + ready_len (base s) = length (read_buf (base s)) + v /\
      exists p', tls_plain (tls_connect s') (cipher polls') = Some p' /\ read_buf (base s') ++ p' = read_buf (base s) ++ p
  | inr _ => polls = [] \/ ready_len (base s) + length p < wait_ready_len (base s)
  end.
Proof.
  revert s p. induction polls as [|[rev wev] polls IH]; intros s p Hc Hr Ho Hp; [eexists; split; [done|by left]|].
  cbn in Ho. apply andb_prop in Ho as [Ho Hos]. rewrite cipher_cons in Hp.
  destruct (recv_ok rev wev s (cipher polls) Ho) as (s1 & q & E & Hon & Hd & Hb & Hc1 & Hr1 & Hw & _ & Hl); [by rewrite Hp|].
  pose proof (Hon (cipher polls)) as Hq. rewrite Hp in Hq.
  destruct (tls_plain (tls_connect s1) (cipher polls)) as [p1|] eqn:Hp1; [|done]. cbn in Hq. simplify_eq.
  rewrite Hr in Hl. cbn. rewrite E. cbn. unfold wakeup_read_ready.
  rewrite wakeup_read_ready_spec by congruence. case_decide as Hle.
  - eexists; split; [done|]. cbn. split_and!; try done; try congruence; try lia.
    + rewrite Hb, length_app. lia.
    + exists p1. split; [done|]. by rewrite Hb, app_assoc.
  - destruct s1 as [b1 t1]. cbn in *. destruct (IH (mkTlsSocket b1 t1) p1) as (o & Eo & Hs); cbn; [congruence..|done|done|].
    exists o. split; [done|]. destruct o as [[[s' v] polls']|s']; cbn in *.
    + rewrite Hb, Hw, Hl, length_app in Hs. destruct Hs as (? & ? & ? & ? & ? & ? & ? & p' & ? & ?).
      split_and!; try done; try lia. exists p'. split; [done|]. by rewrite app_assoc.
    + right. rewrite length_app, <- Hw. destruct Hs as [->|]; [|lia]. apply Hd in Hp1 as ->. cbn. lia.
Qed.
End receiving.

(** ** The connection as a byte source *)

(** A connection with the events to come, the kernel's answer to the closing alert, and
    the reasons [close] was called with. *)
Record TlsConn (T : Type) := mkTlsConn {
  tn_socket : TlsSocket (T := T);
  tn_polls : list tls_poll;
  tn_alert : write_event;
  tn_closes : list (io_result unit);
}.
Arguments mkTlsConn {T}.
Arguments tn_socket {T} t.
Arguments tn_polls {T} t.
Arguments tn_alert {T} t.
Arguments tn_closes {T} t.

Section conn.
Context {T : Type} `{TlsLaws T}.
Implicit Types c : TlsConn T.

Definition with_socket (s : TlsSocket (T := T)) c : TlsConn T := mkTlsConn s (tn_polls c) (tn_alert c) (tn_closes c).

(** [read_ready] and the await: a task of the pool that panics leaves the reader pending. *)
Definition tls_ready_await (n : nat) c : option (nat * TlsConn T) :=
  let '(s, r) := read_ready n (tn_socket c) in
  match r with
  | inr len => Some (len, with_socket s c)
  | inl _ =>
      match tls_await (tn_polls c) s with
      | Done (inl (s, v, polls)) => Some (v, mkTlsConn s polls (tn_alert c) (tn_closes c))
      | _ => None
      end
  end.

Definition tls_close_conn (reason : io_result unit) c : TlsConn T * io_result unit :=
  let '(s, _, _, r) := close reason (tn_alert c) (tn_socket c) in
  (mkTlsConn s (tn_polls c) (tn_alert c) (tn_closes c ++ [reason]), r).

Definition tls_stream c : list Z :=
  read_buf (base (tn_socket c)) ++ default [] (tls_plain (tls_connect (tn_socket c)) (cipher (tn_polls c))).

Definition tls_live c : Prop :=
  closed (base (tn_socket c)) = false /\ ready_len (base (tn_socket c)) = 0 /\ forallb poll_open (tn_polls c) = true /\
  is_Some (tls_plain (tls_connect (tn_socket c)) (cipher (tn_polls c))) /\ drained (tn_socket c).

#[export] Instance tls_byte_source : ByteSource (TlsConn T) := {|
  src_buffered c := read_buf (base (tn_socket c));
  src_ready := tls_ready_await;
  src_at_once n c := match (read_ready n (tn_socket c)).2 with inr _ => true | inl _ => false end;
  src_take n c :=
    match copy_to_bytes n (tn_socket c) with
    | Some (s, bs) => Some (with_socket s c, bs)
    | None => None
    end;
  src_close kind c := (tls_close_conn (Err kind) c).1;
  src_stream := tls_stream;
  src_live := tls_live |}.

#[export] Instance tls_transport : Transport (TlsConn T) := {|
  tr_write_ready buf c := let '(s, r) := write_ready buf (tn_socket c) in (with_socket s c, r);
  tr_close := tls_close_conn;
  tr_is_security _ := true;
  tr_is_closed c := closed (base (tn_socket c));
  tr_set_timeout ms _ c := with_socket (set_timeout ms (tn_socket c)) c;
  tr_written c := write_events (base (tn_socket c));
  tr_closes := tn_closes |}.

(** A wait that is not answered at once. *)
Lemma tls_wait n c : tls_live c -> ~ (n <= length (read_buf (base (tn_socket c))) /\ 0 < length (read_buf (base (tn_socket c)))) ->
  match tls_ready_await n c with
  | Some (v, c') => tls_live c' /\ tls_stream c' = tls_stream c /\ n <= length (read_buf (base (tn_socket c))) + v /\
      length (read_buf (base (tn_socket c'))) = length (read_buf (base (tn_socket c))) + v
  | None => tls_stream c = read_buf (base (tn_socket c)) \/ length (tls_stream c) < n
  end.
Proof.
  intros (Hc & Hr & Ho & [p Hp] & Hd) Hn. unfold tls_ready_await, read_ready. cbn. rewrite decide_False by done. unfold tls_stream.
  match goal with |- context [tls_await _ ?s] => destruct (tls_await_spec (tn_polls c) s p) as (o & -> & Hs); [done..|] end.
  destruct o as [[[s' v] polls']|s']; cbn in *.
  - destruct Hs as (? & ? & ? & ? & ? & ? & ? & p' & Hp' & Hst). rewrite Hp, Hp'. split_and!; try done; try lia.
  - rewrite Hp. cbn. destruct Hs as [Hs|]; [left|right; rewrite length_app; lia].
    rewrite Hs in Hp. apply Hd in Hp as ->. apply app_nil_r.
Qed.

#[export] Instance tls_byte_source_laws : ByteSourceLaws (TlsConn T).
Proof.
  split; cbn.
  - intros c. by eexists.
  - intros n c Hl Hlt Hn. pose proof (tls_wait n c Hl ltac:(lia)) as W. destruct (tls_ready_await n c) as [[v c']|].
    + destruct W as (? & ? & ? & ?). exists v, c'. split_and!; try done; lia.
    + destruct W as [W|W]; [rewrite W in Hn|]; lia.
  - intros n c Hl Hlt. unfold read_ready. cbn. by rewrite decide_False by lia.
  - intros n c Hl Hn Hp. unfold tls_ready_await, read_ready. cbn. rewrite decide_True by done. split; [done|]. by eexists.
  - intros c Hl Hb Hs. split; [unfold read_ready; cbn; rewrite decide_False; [done|rewrite Hb; cbn; lia]|].
    pose proof (tls_wait 0 c Hl ltac:(rewrite Hb; cbn; lia)) as W. destruct (tls_ready_await 0 c) as [[v c']|].
    + destruct W as (? & ? & ? & W). rewrite Hb in W. exists v, c'. by split_and!.
    + destruct W as [W|W]; [rewrite Hb in W; by rewrite W in Hs|lia].
  - intros n c Hl Hn. unfold copy_to_bytes, TcpSocket.copy_to_bytes. rewrite decide_True by done. eexists. split; [done|].
    split_and!; [done|done|]. unfold tls_stream. cbn. by rewrite drop_app_le.
Qed.

#[export] Instance tls_transport_laws : TransportLaws (TlsConn T).
Proof.
  split.
  - intros buf c c'. cbn. unfold write_ready, TcpSocket.write_ready. destruct (closed _); [done|]. by intros [= <-].
  - intros buf c Hc. cbn in *. unfold write_ready, TcpSocket.write_ready. rewrite Hc. by eexists.
  - by intros c (Hc & _).
  - intros buf [[b t] polls a l] c' e. cbn. unfold write_ready, TcpSocket.write_ready. cbn. destruct (closed b); [|done]. by intros [= <- <-].
  - intros reason c. cbn. unfold tls_close_conn, close, compare_exchange, do_tls_write. cbn. destruct c as [[b t] polls a l]. cbn.
    destruct b as [? ? ? ? ? ? ? ? [] ? ? ? ? ? [] ? ? ?]; cbn; destruct (tls_write _ _) as [[? ?] [?|?]]; done.
  - by intros ms ev [[[] t] polls a l].
Qed.

(** C24: Waiting for [n] bytes on an open TLS connection whose plain text still has them ends,
    however the encrypted bytes are cut: then at least [n] bytes are buffered, as many
    came as the value says, and nothing of the plain text is lost or reordered. *)
Theorem tls_ready_complete n c :
  tls_live c -> length (read_buf (base (tn_socket c))) < n -> n <= length (tls_stream c) ->
  exists v c', tls_ready_await n c = Some (v, c') /\ 0 < v /\ n <= length (read_buf (base (tn_socket c'))) /\
    length (read_buf (base (tn_socket c'))) = length (read_buf (base (tn_socket c))) + v /\
    closed (base (tn_socket c')) = false /\ tls_stream c' = tls_stream c.
Proof.
  intros Hl Hlt Hn. pose proof (src_ready_wait n c) as W.
  destruct (W Hl Hlt Hn) as (v & c' & ? & ? & Hl' & ? & ? & ?).
  exists v, c'. split_and!; try done. by destruct Hl'.
Qed.
End conn.

(** ** Sending and closing *)

Section sending.
Context {T : Type} `{TlsLaws T}.
Implicit Types s : TlsSocket (T := T).

(** The writable events of a connection, as long as [send] succeeds. *)
Fixpoint send_events (evs : list write_event) (s : TlsSocket (T := T)) : option (TlsSocket (T := T) * list Z) :=
  match evs with
  | [] => Some (s, [])
  | ev :: evs =>
      match send ev s with
      | (s, out, Ok _) => '(s, out') ← send_events evs s; Some (s, out ++ out')
      | (_, _, Err _) => None
      end
  end.

Lemma send_ok ev s s' out n p q :
  send ev s = (s', out, Ok n) -> tls_peer (tls_connect s) p -> tls_plain p (tls_pending (tls_connect s)) = Some q ->
  exists taken, write_buf (base s) = taken ++ write_buf (base s') /\
    tls_peer (tls_connect s') (tls_read out p) /\
    tls_plain (tls_read out p) (tls_pending (tls_connect s')) = Some (q ++ taken) /\
    tls_is_handshaking (tls_connect s') = tls_is_handshaking (tls_connect s) /\
    (taken = write_buf (base s) \/ length taken = DEFAULT_WRITE_BLOCK_LEN).
Proof.
  intros E Hp Hq. unfold send, try_plain_write in E. set (m := Nat.min _ _) in *.
  set (block := take m (write_buf (base s))) in *.
  assert (block = write_buf (base s) \/ length block = DEFAULT_WRITE_BLOCK_LEN) as Hlen.
  { destruct (decide (length (write_buf (base s)) <= DEFAULT_WRITE_BLOCK_LEN)) as [Hle|Hle].
    - left. unfold block. apply take_ge. unfold m. by rewrite Nat.min_r.
    - right. unfold block. rewrite length_take. unfold m. apply not_le in Hle. unfold DEFAULT_WRITE_BLOCK_LEN in *. lia. }
  assert (write_buf (base s) = block ++ drop m (write_buf (base s))) as Htd by (symmetry; apply take_drop).
  clearbody block m.
  destruct (tls_write_all _ _) as [t1 [u|e]] eqn:Ew.
  2:{ pose proof (write_all_kinds _ _ _ _ Ew). by destruct e. }
  pose proof (write_all_hands block (tls_set_buffer_limit (2 * m) (tls_connect s))) as Hh. rewrite Ew, limit_hands in Hh. cbn in Hh.
  destruct u, (write_all_peer _ _ _ p q (limit_peer _ _ _ Hp) ltac:(by rewrite limit_pending) Ew) as [Hp1 Hq1].
  exists block. unfold do_tls_write in E. cbn in E. destruct (tls_write ev t1) as [[t2 out2] [n2|e2]] eqn:E2.
  2:{ repeat case_match; simplify_eq. }
  destruct (write_ok _ _ _ _ _ E2) as (Hpend & Hh2 & Hpeer). specialize (Hpeer _ Hp1).
  assert (out = out2 /\ tls_connect s' = t2 /\ write_buf (base s') = drop m (write_buf (base s))) as (-> & -> & ->).
  { repeat (case_match || case_decide); simplify_eq/=; repeat (case_match || case_decide); done. }
  split_and!; try done.
  - by rewrite plain_read, <- Hpend.
  - by rewrite Hh2.
Qed.

(** C25: What a TLS connection sends is what was written: however the kernel cuts the
    bytes, as long as [send] succeeds, the session of the peer makes of the bytes that
    reached the stream and of those that wait exactly the plain text taken from the write
    buffer, in order. *)
Theorem tls_sent_roundtrip evs s s' out p q :
  tls_peer (tls_connect s) p -> tls_plain p (tls_pending (tls_connect s)) = Some q ->
  send_events evs s = Some (s', out) ->
  exists taken, write_buf (base s) = taken ++ write_buf (base s') /\
    tls_plain p (out ++ tls_pending (tls_connect s')) = Some (q ++ taken).
Proof.
  revert s out p q. induction evs as [|ev evs IH]; intros s out p q Hp Hq E; cbn in E.
  - simplify_eq. exists []. by rewrite app_nil_r.
  - destruct (send ev s) as [[s1 out1] [n|]] eqn:E1; [|done]. 
    destruct (send_ok _ _ _ _ _ _ _ E1 Hp Hq) as (taken & Hb & Hp1 & Hq1 & _).
    destruct (send_events evs s1) as [[s2 out2]|] eqn:E2; cbn in E; simplify_eq.
    destruct (IH _ _ _ _ Hp1 Hq1 E2) as (taken2 & Hb2 & Hq2). exists (taken ++ taken2).
    rewrite <- !app_assoc, <- Hb2. split; [done|]. by rewrite <- plain_read, Hq2, app_assoc.
Qed.

(** The last bytes of a message can stay behind: when the kernel takes only a part of
    what the session has encrypted, and nothing else is to be written, the connection
    listens to readable events only, although the session wants to write. *)
Theorem tls_tail_waits s t n :
  let wb := write_buf (base s) in
  tls_is_handshaking (tls_connect s) = false -> length wb <= DEFAULT_WRITE_BLOCK_LEN ->
  wait_sent_len (base s) <= sent_len (base s) + length wb ->
  tls_write_all wb (tls_set_buffer_limit (2 * length wb) (tls_connect s)) = (t, Ok tt) ->
  0 < n < length (tls_pending t) ->
  exists s', send (WWrote n) s = (s', take n (tls_pending t), Ok n) /\
    tls_pending (tls_connect s') = drop n (tls_pending t) /\ tls_wants_write (tls_connect s') = true /\
    write_buf (base s') = [] /\ interest (base s') = READABLE.
Proof.
  intros wb Hh Hl Hw Ew Hn. destruct (write_wrote n t ltac:(lia)) as [t' E'].
  destruct (write_ok _ _ _ _ _ E') as (Hp & Hh' & _).
  assert (tls_pending t' = drop n (tls_pending t)) as Hp'.
  { rewrite <- (take_drop n (tls_pending t)) in Hp at 1. by apply app_inv_head in Hp. }
  pose proof (write_all_hands wb (tls_set_buffer_limit (2 * length wb) (tls_connect s))) as Hh2.
  rewrite Ew, limit_hands in Hh2. cbn in Hh2.
  unfold send, try_plain_write. fold wb. rewrite Nat.min_r by done. rewrite take_ge, drop_ge, Ew by lia.
  unfold do_tls_write. cbn [tls_connect]. rewrite E'. cbn [on_base set_tls tls_connect base]. rewrite Hh', Hh2, Hh.
  eexists. split; [reflexivity|].
  assert (tls_wants_write t' = true) as Hww.
  { rewrite wants_write, Hp'. apply negb_true_iff, bool_decide_eq_false. intros Hnil%(f_equal length). rewrite length_drop in Hnil. cbn in Hnil. lia. }
  clearbody wb. clear -Hp' Hww Hw. destruct (base s). cbn in *.
  match goal with |- context [if decide (0 < length wb /\ ?P) then _ else _] => destruct (decide (0 < length wb /\ P)) end;
    cbn in *; (rewrite decide_False by lia); done.
Qed.

(** A TLS connection whose closing alert the kernel does not take is marked as closed
    and the reader is woken, but the pool is never told: the call fails, and so does every
    other one while the kernel refuses. *)
Theorem tls_close_strands s reasons e :
  exists s', foldl (fun s reason => (close reason (WError e) s).1.1.1) s reasons = s' /\
    close_events (base s') = close_events (base s) /\
    forall reason, exists s2 woken, close reason (WError e) s' = (s2, [], woken, Err BrokenPipe) /\
      closed (base s2) = true /\ ready_reader (base s2) = false /\ close_events (base s2) = close_events (base s).
Proof.
  assert (forall s reason, exists s2 woken, close reason (WError e) s = (s2, [], woken, Err BrokenPipe) /\
    closed (base s2) = true /\ ready_reader (base s2) = false /\ close_events (base s2) = close_events (base s)) as Hone.
  { intros [b t] reason. unfold close, compare_exchange, do_tls_write.
    destruct b as [? ? ? ? ? ? ? ? [] ? ? ? ? ? [] ? ? ?]; cbn;
      rewrite (write_refused (WError e) e) by (try apply notify_pending; auto); cbn; eauto 10. }
  eexists. split; [done|]. assert (close_events (base (foldl (fun s reason => (close reason (WError e) s).1.1.1) s reasons)) = close_events (base s)) as Hall.
  { revert s. induction reasons as [|r rs IH]; intros s; cbn; [done|]. rewrite IH. destruct (Hone s r) as (? & ? & -> & _ & _ & ?). done. }
  split; [done|]. intros reason. rewrite <- Hall. apply Hone.
Qed.

(** A kernel whose buffer is full makes [send] fail, and the pool close the connection:
    the plain connection waits for the next event instead. *)
Lemma tls_would_block_fails s t :
  let m := Nat.min DEFAULT_WRITE_BLOCK_LEN (length (write_buf (base s))) in
  tls_write_all (take m (write_buf (base s))) (tls_set_buffer_limit (2 * m) (tls_connect s)) = (t, Ok tt) ->
  tls_pending t <> [] -> exists s', send WWouldBlock s = (s', [], Err WouldBlock).
Proof.
  intros m Ew Hp. unfold send, try_plain_write. fold m. rewrite Ew. unfold do_tls_write. cbn [tls_connect].
  rewrite (write_refused WWouldBlock WouldBlock) by auto. eauto.
Qed.

(** Nobody wakes a task that waits for bytes of a TLS connection that is closed already. *)
Lemma tls_closed_read_pends s n :
  closed (base s) = true -> read_buf (base s) = [] ->
  exists s', read_ready n s = (s', inl tt) /\ ready_reader (base s') = true /\ closed (base s') = true.
Proof.
  intros Hc Hb. unfold read_ready. cbn. rewrite Hb. rewrite decide_False by (cbn; lia). eauto.
Qed.
End sending.
