(* ===== verification/QuicSocket.v ===== *)
(** * A QUIC connection (quic/src/connect.rs)

    A connection has a main stream and expanding streams, each with its buffers and
    counters, around the state machine of the package quinn-proto, which is the class
    [QuinnApi]. The connection never works on the network itself: it sends events to its
    pool ([QuicPool]), which are kept here in the order they are sent. The hibernation is a copy of
    that of a TCP connection, see [Hibernate]; here it is the cell and the queue. *)

From stdpp Require Import sorting.
From S2P Require Import Prelude.

Definition DEFAULT_READ_BLOCK_LEN : nat := 4096.
Definition DEFAULT_WRITE_BLOCK_LEN : nat := 4096.
Definition MIN_READED_READ_BUF_SIZE_LIMIT : nat := DEFAULT_READ_BLOCK_LEN.
Definition MIN_READED_WRITE_BUF_SIZE_LIMIT : nat := DEFAULT_WRITE_BLOCK_LEN.
Definition DEAFULT_READED_READ_BUF_SIZE_LIMIT : nat := Z.to_nat (64 * 1024).
Definition DEAFULT_READED_WRITE_BUF_SIZE_LIMIT : nat := Z.to_nat (64 * 1024).

(** ** Status and readiness (quic/src/utils.rs) *)

Inductive QuicSocketStatus := UdpAccepted | Handshaking | Connecting | Connected | Closeing | Disconnect.

Definition status_of (b : Z) : QuicSocketStatus :=
  match b with 0 => UdpAccepted | 1 => Handshaking | 2 => Connecting | 3 => Connected | 4 => Closeing | _ => Disconnect end%Z.
Definition status_to (s : QuicSocketStatus) : Z :=
  match s with UdpAccepted => 0 | Handshaking => 1 | Connecting => 2 | Connected => 3 | Closeing => 4 | Disconnect => 5 end.

(** The bits of [QuicSocketReady]; [ready_of] panics on any other number. *)
Inductive QuicSocketReady := Readable | Writable | ReadWrite.
Definition ready_to (r : QuicSocketReady) : Z := match r with Readable => 1 | Writable => 2 | ReadWrite => 3 end.
Definition ready_of (b : Z) : outcome QuicSocketReady :=
  match b with 1 => Done Readable | 2 => Done Writable | 3 => Done ReadWrite | _ => Panic end%Z.
Definition is_readable (r : QuicSocketReady) : bool := negb (Z.land (ready_to r) (ready_to Readable) =? 0)%Z.
Definition is_writable (r : QuicSocketReady) : bool := negb (Z.land (ready_to r) (ready_to Writable) =? 0)%Z.
Definition ready_add (a b : QuicSocketReady) : outcome QuicSocketReady := ready_of (Z.lor (ready_to a) (ready_to b)).
Definition ready_remove (a b : QuicSocketReady) : outcome QuicSocketReady :=
  ready_of (Z.land (ready_to a) (Z.lnot (ready_to b) mod 256)).

(** ** The state machine of quinn-proto *)

(** Why no more chunks come now. *)
Inductive ReadEnd := ReadBlocked | ReadFinished | ReadFailed.
Inductive WriteResult := Wrote (n : nat) | WriteBlocked | WriteFailed.

Inductive Dir := Bi | Uni.
#[export] Instance Dir_eq_dec : EqDecision Dir.
Proof. solve_decision. Defined.

(** [recv_open] is [recv_stream(id).read(false)], [recv_chunks] what [next] gives until it
    gives no chunk: chunks with their offsets in the stream, in any order. *)
Class QuinnApi (C : Type) := {
  recv_open : Z -> C -> C * bool;
  recv_chunks : Z -> C -> C * (list (Z * list Z) * ReadEnd);
  send_write : Z -> list Z -> C -> C * WriteResult;
  streams_open : Dir -> C -> C * option Z;
  streams_accept : Dir -> C -> C * option Z;
  send_streams : C -> nat;
  recv_stop : Z -> Z -> C -> C * bool;
  send_finish : Z -> C -> C * bool;
  conn_close : Z -> Z -> C -> C;
}.

(** ** Streams *)

Record QuicStream := mkQuicStream {
  stream_type : Dir;
  wait_recv_len : nat;
  recv_len : nat;
  read_len : nat;
  readed_read_limit : nat;
  readed : nat;
  read_buf : list Z;
  wait_ready_len : nat;
  ready_len : nat;
  ready_reader : bool;                 (* [Option<AsyncValue>] is [Some] *)
  wait_sent_len : nat;
  sent_len : nat;
  write_len : nat;
  readed_write_limit : nat;
  readed_write_len : nat;
  write_buf : list Z;
}.

(** [QuicStream::new] *)
Definition new_stream (d : Dir) (read_limit write_limit : nat) : QuicStream :=
  mkQuicStream d 0 0 DEFAULT_READ_BLOCK_LEN read_limit 0 [] 0 0 false 0 0 DEFAULT_WRITE_BLOCK_LEN write_limit 0 [].

Section setters.
Implicit Types t : QuicStream.
Definition add_wait_recv n t := mkQuicStream (stream_type t) (wait_recv_len t + n) (recv_len t) (read_len t) (readed_read_limit t) (readed t) (read_buf t) (wait_ready_len t) (ready_len t) (ready_reader t) (wait_sent_len t) (sent_len t) (write_len t) (readed_write_limit t) (readed_write_len t) (write_buf t).
Definition add_recv n t := mkQuicStream (stream_type t) (wait_recv_len t) (recv_len t + n) (read_len t) (readed_read_limit t) (readed t) (read_buf t) (wait_ready_len t) (if ready_reader t then ready_len t + n else ready_len t) (ready_reader t) (wait_sent_len t) (sent_len t) (write_len t) (readed_write_limit t) (readed_write_len t) (write_buf t).
Definition set_read_len n t := mkQuicStream (stream_type t) (wait_recv_len t) (recv_len t) n (readed_read_limit t) (readed t) (read_buf t) (wait_ready_len t) (ready_len t) (ready_reader t) (wait_sent_len t) (sent_len t) (write_len t) (readed_write_limit t) (readed_write_len t) (write_buf t).
Definition set_readed n t := mkQuicStream (stream_type t) (wait_recv_len t) (recv_len t) (read_len t) (readed_read_limit t) n (read_buf t) (wait_ready_len t) (ready_len t) (ready_reader t) (wait_sent_len t) (sent_len t) (write_len t) (readed_write_limit t) (readed_write_len t) (write_buf t).
Definition set_read_buf b t := mkQuicStream (stream_type t) (wait_recv_len t) (recv_len t) (read_len t) (readed_read_limit t) (readed t) b (wait_ready_len t) (ready_len t) (ready_reader t) (wait_sent_len t) (sent_len t) (write_len t) (readed_write_limit t) (readed_write_len t) (write_buf t).
Definition set_reader (wait ready : nat) (r : bool) t := mkQuicStream (stream_type t) (wait_recv_len t) (recv_len t) (read_len t) (readed_read_limit t) (readed t) (read_buf t) wait ready r (wait_sent_len t) (sent_len t) (write_len t) (readed_write_limit t) (readed_write_len t) (write_buf t).
Definition add_wait_sent n t := mkQuicStream (stream_type t) (wait_recv_len t) (recv_len t) (read_len t) (readed_read_limit t) (readed t) (read_buf t) (wait_ready_len t) (ready_len t) (ready_reader t) (wait_sent_len t + n) (sent_len t) (write_len t) (readed_write_limit t) (readed_write_len t) (write_buf t).
Definition add_sent n t := mkQuicStream (stream_type t) (wait_recv_len t) (recv_len t) (read_len t) (readed_read_limit t) (readed t) (read_buf t) (wait_ready_len t) (ready_len t) (ready_reader t) (wait_sent_len t) (sent_len t + n) (write_len t) (readed_write_limit t) (readed_write_len t + n) (write_buf t).
Definition set_write_len n t := mkQuicStream (stream_type t) (wait_recv_len t) (recv_len t) (read_len t) (readed_read_limit t) (readed t) (read_buf t) (wait_ready_len t) (ready_len t) (ready_reader t) (wait_sent_len t) (sent_len t) n (readed_write_limit t) (readed_write_len t) (write_buf t).
Definition set_readed_write n t := mkQuicStream (stream_type t) (wait_recv_len t) (recv_len t) (read_len t) (readed_read_limit t) (readed t) (read_buf t) (wait_ready_len t) (ready_len t) (ready_reader t) (wait_sent_len t) (sent_len t) (write_len t) (readed_write_limit t) n (write_buf t).
Definition set_write_buf b t := mkQuicStream (stream_type t) (wait_recv_len t) (recv_len t) (read_len t) (readed_read_limit t) (readed t) (read_buf t) (wait_ready_len t) (ready_len t) (ready_reader t) (wait_sent_len t) (sent_len t) (write_len t) (readed_write_limit t) (readed_write_len t) b.
End setters.

(** ** The connection *)

(** [quinn_proto::Transmit] *)
Record Transmit := mkTransmit { contents : list Z; segment_size : option nat; destination : string * Z }.

(** The events a connection sends to its pool; the pool also gets accepted connections,
    received datagrams and what the listener sends. A timer's event is a client id, or empty. *)
Inductive QuicEvent :=
| ConnectionSend (handle : Z) (t : Transmit)
| StreamOpen (handle : Z) (d : Dir) (result : nat)
| StreamReady (handle id : Z) (ready : QuicSocketReady)
| StreamWrite (handle id : Z) (buf : list Z)
| Timeout (handle : Z) (t : option (Z * option string))
| StreamClose (handle : Z) (id : option Z) (code : Z)
| ConnectionClose (handle : Z).

(** A callback that waits for the end of the hibernation. *)
Inductive Deferred := DeferredReaded (id : Z) (n : nat) | DeferredWrited (id : Z).

Record QuicSocket (C : Type) := mkQuicSocket {
  uid : Z;                               (* [handle.0] *)
  qs_status : Z;
  is_client : bool;
  udp_handle : Z;
  clock : Z;
  connect : C;
  read_limit : nat;
  write_limit : nat;
  main_stream_id : option Z;
  main_stream : QuicStream;
  expanding_streams : gmap Z QuicStream;
  expired : option Z;
  timer_ref : option Z;
  timer_handle : option Z;
  socket_handle : option Z;              (* a handle with the local address of a UDP handle *)
  event_send : bool;
  close_reason : option (Z * io_result unit);
  hibernate : option nat;                (* the hibernation object *)
  hibernated_queue : list Deferred;
  events : list QuicEvent;
}.
Arguments mkQuicSocket {C}.
Arguments uid {C} q.
Arguments qs_status {C} q.
Arguments is_client {C} q.
Arguments udp_handle {C} q.
Arguments clock {C} q.
Arguments connect {C} q.
Arguments read_limit {C} q.
Arguments write_limit {C} q.
Arguments main_stream_id {C} q.
Arguments main_stream {C} q.
Arguments expanding_streams {C} q.
Arguments expired {C} q.
Arguments timer_ref {C} q.
Arguments timer_handle {C} q.
Arguments socket_handle {C} q.
Arguments event_send {C} q.
Arguments close_reason {C} q.
Arguments hibernate {C} q.
Arguments hibernated_queue {C} q.
Arguments events {C} q.

(** [Vec::dedup]: of equal neighbours one is kept. *)
Fixpoint dedup (l : list Z) : list Z :=
  match l with
  | x :: (y :: _) as l' => if (x =? y)%Z then dedup l' else x :: dedup l'
  | _ => l
  end.

Section socket.
Context {C : Type} `{QuinnApi C}.
Implicit Types s : QuicSocket C.

(** [QuicSocket::new] *)
Definition new_socket (udp handle : Z) (c : C) (read_limit write_limit : nat) (clock : Z) : QuicSocket C :=
  let read_limit := if decide (read_limit < MIN_READED_READ_BUF_SIZE_LIMIT) then DEAFULT_READED_READ_BUF_SIZE_LIMIT else read_limit in
  let write_limit := if decide (write_limit < MIN_READED_WRITE_BUF_SIZE_LIMIT) then DEAFULT_READED_WRITE_BUF_SIZE_LIMIT else write_limit in
  mkQuicSocket handle (status_to UdpAccepted) false udp clock c read_limit write_limit None
    (new_stream Bi read_limit write_limit) ∅ None None None None false None None [] [].

Definition set_qs_status x s := mkQuicSocket (uid s) x (is_client s) (udp_handle s) (clock s) (connect s) (read_limit s) (write_limit s) (main_stream_id s) (main_stream s) (expanding_streams s) (expired s) (timer_ref s) (timer_handle s) (socket_handle s) (event_send s) (close_reason s) (hibernate s) (hibernated_queue s) (events s).
Definition set_udp_handle x s := mkQuicSocket (uid s) (qs_status s) (is_client s) x (clock s) (connect s) (read_limit s) (write_limit s) (main_stream_id s) (main_stream s) (expanding_streams s) (expired s) (timer_ref s) (timer_handle s) (socket_handle s) (event_send s) (close_reason s) (hibernate s) (hibernated_queue s) (events s).
Definition set_connect (x : C) s := mkQuicSocket (uid s) (qs_status s) (is_client s) (udp_handle s) (clock s) x (read_limit s) (write_limit s) (main_stream_id s) (main_stream s) (expanding_streams s) (expired s) (timer_ref s) (timer_handle s) (socket_handle s) (event_send s) (close_reason s) (hibernate s) (hibernated_queue s) (events s).
Definition set_main x y s := mkQuicSocket (uid s) (qs_status s) (is_client s) (udp_handle s) (clock s) (connect s) (read_limit s) (write_limit s) x y (expanding_streams s) (expired s) (timer_ref s) (timer_handle s) (socket_handle s) (event_send s) (close_reason s) (hibernate s) (hibernated_queue s) (events s).
Definition set_expanding x s := mkQuicSocket (uid s) (qs_status s) (is_client s) (udp_handle s) (clock s) (connect s) (read_limit s) (write_limit s) (main_stream_id s) (main_stream s) x (expired s) (timer_ref s) (timer_handle s) (socket_handle s) (event_send s) (close_reason s) (hibernate s) (hibernated_queue s) (events s).
Definition set_timer_ref x s := mkQuicSocket (uid s) (qs_status s) (is_client s) (udp_handle s) (clock s) (connect s) (read_limit s) (write_limit s) (main_stream_id s) (main_stream s) (expanding_streams s) (expired s) x (timer_handle s) (socket_handle s) (event_send s) (close_reason s) (hibernate s) (hibernated_queue s) (events s).
Definition set_expired x s := mkQuicSocket (uid s) (qs_status s) (is_client s) (udp_handle s) (clock s) (connect s) (read_limit s) (write_limit s) (main_stream_id s) (main_stream s) (expanding_streams s) x (timer_ref s) (timer_handle s) (socket_handle s) (event_send s) (close_reason s) (hibernate s) (hibernated_queue s) (events s).
Definition set_timer_handle x s := mkQuicSocket (uid s) (qs_status s) (is_client s) (udp_handle s) (clock s) (connect s) (read_limit s) (write_limit s) (main_stream_id s) (main_stream s) (expanding_streams s) (expired s) (timer_ref s) x (socket_handle s) (event_send s) (close_reason s) (hibernate s) (hibernated_queue s) (events s).
Definition put_socket_handle x s := mkQuicSocket (uid s) (qs_status s) (is_client s) (udp_handle s) (clock s) (connect s) (read_limit s) (write_limit s) (main_stream_id s) (main_stream s) (expanding_streams s) (expired s) (timer_ref s) (timer_handle s) x (event_send s) (close_reason s) (hibernate s) (hibernated_queue s) (events s).
Definition set_event_sent x s := mkQuicSocket (uid s) (qs_status s) (is_client s) (udp_handle s) (clock s) (connect s) (read_limit s) (write_limit s) (main_stream_id s) (main_stream s) (expanding_streams s) (expired s) (timer_ref s) (timer_handle s) (socket_handle s) x (close_reason s) (hibernate s) (hibernated_queue s) (events s).
Definition set_close_reason x s := mkQuicSocket (uid s) (qs_status s) (is_client s) (udp_handle s) (clock s) (connect s) (read_limit s) (write_limit s) (main_stream_id s) (main_stream s) (expanding_streams s) (expired s) (timer_ref s) (timer_handle s) (socket_handle s) (event_send s) x (hibernate s) (hibernated_queue s) (events s).
Definition set_hibernation x y s := mkQuicSocket (uid s) (qs_status s) (is_client s) (udp_handle s) (clock s) (connect s) (read_limit s) (write_limit s) (main_stream_id s) (main_stream s) (expanding_streams s) (expired s) (timer_ref s) (timer_handle s) (socket_handle s) (event_send s) (close_reason s) x y (events s).
Definition set_events x s := mkQuicSocket (uid s) (qs_status s) (is_client s) (udp_handle s) (clock s) (connect s) (read_limit s) (write_limit s) (main_stream_id s) (main_stream s) (expanding_streams s) (expired s) (timer_ref s) (timer_handle s) (socket_handle s) (event_send s) (close_reason s) (hibernate s) (hibernated_queue s) x.
Definition enable_client s := mkQuicSocket (uid s) (qs_status s) true (udp_handle s) (clock s) (connect s) (read_limit s) (write_limit s) (main_stream_id s) (main_stream s) (expanding_streams s) (expired s) (timer_ref s) (timer_handle s) (socket_handle s) (event_send s) (close_reason s) (hibernate s) (hibernated_queue s) (events s).
(** [set_socket_handle]: the event sender is unwrapped. *)
Definition set_socket_handle s : outcome (QuicSocket C) :=
  if event_send s then Done (put_socket_handle (Some (udp_handle s)) s) else Panic.

(** Sending an event; without a sender nothing is sent. *)
Definition notify (e : QuicEvent) s : QuicSocket C := if event_send s then set_events (events s ++ [e]) s else s.

Definition is_closeing s : bool := match status_of (qs_status s) with Closeing => true | _ => false end.
Definition is_closed s : bool := (3 <? qs_status s)%Z.
Definition get_status s : QuicSocketStatus := status_of (qs_status s).

(** ** The streams of a connection *)

Definition is_main (id : Z) s : bool := match main_stream_id s with Some m => (id =? m)%Z | None => false end.

(** [get_stream], and a change of the stream that it finds. *)
Definition get_stream (id : Z) s : option QuicStream :=
  if is_main id s then Some (main_stream s) else expanding_streams s !! id.
Definition on_stream (id : Z) (f : QuicStream -> QuicStream) s : QuicSocket C :=
  if is_main id s then set_main (main_stream_id s) (f (main_stream s)) s
  else set_expanding (alter f id (expanding_streams s)) s.

(** [get_stream_ids]: [ids.sort()] and [ids.dedup()]. *)
Definition get_stream_ids s : list Z :=
  dedup (merge_sort Z.le (match main_stream_id s with Some m => [m] | None => [] end ++ (map_to_list (expanding_streams s)).*1)).

Definition accept_main_streams (id : Z) s : QuicSocket C := set_main (Some id) (main_stream s) s.
Definition open_main_streams s : QuicSocket C * io_result unit :=
  match streams_open Bi (connect s) with
  | (c, Some id) => (accept_main_streams id (set_connect c s), Ok tt)
  | (c, None) => (set_connect c s, Err ConnectionAborted)
  end.
(** [accept_expanding_streams], [add_expanding_stream] *)
Definition add_expanding_stream (id : Z) (d : Dir) s : QuicSocket C :=
  set_expanding (<[id := new_stream d (read_limit s) (write_limit s)]> (expanding_streams s)) s.

(** [open_expanding_stream]: the event is sent and the task waits for the pool to set [result]. *)
Definition open_expanding_stream (d : Dir) (result : nat) s : QuicSocket C * io_result unit :=
  if event_send s then (notify (StreamOpen (uid s) d result) s, Ok tt) else (s, Err ConnectionAborted).

(** The pending read of a stream is given 0. *)
Definition wake_stream (id : Z) s : QuicSocket C * bool :=
  match get_stream id s with
  | Some t => if ready_reader t then (on_stream id (set_reader 0 0 false) s, true) else (s, false)
  | None => (s, false)
  end.

(** [close_expanding_stream]; the id of the main stream is unwrapped. *)
Definition close_expanding_stream (id : Z) s : outcome (QuicSocket C * bool * io_result unit) :=
  if is_closed s then Done (s, false, Ok tt)
  else
    m ← lift (main_stream_id s);
    if (m =? id)%Z then Done (s, false, Err BrokenPipe)
    else let '(s, woken) := wake_stream id s in Done (notify (StreamClose (uid s) (Some id) 0) s, woken, Ok tt).

Definition set_timeout (timeout : Z) (event : option string) s : QuicSocket C := notify (Timeout (uid s) (Some (timeout, event))) s.
Definition unset_timeout s : QuicSocket C := notify (Timeout (uid s) None) s.
Definition set_ready (id : Z) (r : QuicSocketReady) s : QuicSocket C := notify (StreamReady (uid s) id r) s.
Definition write_transmit (t : Transmit) s : QuicSocket C := notify (ConnectionSend (uid s) t) s.

(** [send_transmit] to the UDP socket [write]: a transmit with segments is cut into
    datagrams. A segment of size 0 makes the loop endless. *)
Fixpoint segments (fuel size : nat) (bin : list Z) : outcome (list (list Z)) :=
  match fuel with
  | O => NoFuel
  | S fuel =>
      if decide (size < length bin) then l ← segments fuel size (drop size bin); Done (take size bin :: l)
      else Done [bin]
  end.
Fixpoint write_all (write : list Z -> bool) (l : list (list Z)) : list (list Z) * io_result unit :=
  match l with
  | [] => ([], Ok tt)
  | bin :: l => if write bin then let '(out, r) := write_all write l in (bin :: out, r) else ([], Err Other)
  end.
Definition send_transmit (write : list Z -> bool) (t : Transmit) : outcome (list (list Z) * io_result unit) :=
  match segment_size t with
  | Some size => l ← segments (S (length (contents t))) size (contents t); Done (write_all write l)
  | None => Done (write_all write [contents t])
  end.

Definition get_read_block_len (id : Z) s : option nat := read_len <$> get_stream id s.
Definition set_read_block_len (id : Z) (n : nat) s : QuicSocket C := on_stream id (set_read_len n) s.
Definition get_write_block_len (id : Z) s : option nat := write_len <$> get_stream id s.
Definition set_write_block_len (id : Z) (n : nat) s : QuicSocket C := on_stream id (set_write_len n) s.
Definition is_require_recv (id : Z) s : bool :=
  match get_stream id s with Some t => bool_decide (recv_len t < wait_recv_len t) | None => false end.

(** ** Receiving *)

(** [blocks.sort_by]: stable, by the offset. *)
Fixpoint insert_chunk (x : Z * list Z) (l : list (Z * list Z)) : list (Z * list Z) :=
  match l with
  | [] => [x]
  | y :: l' => if (x.1 <=? y.1)%Z then x :: l else y :: insert_chunk x l'
  end.
Definition sort_chunks (l : list (Z * list Z)) : list (Z * list Z) := foldr insert_chunk [] l.
Definition chunks_len (l : list (Z * list Z)) : nat := sum_list (length ∘ snd <$> l).

(** The stream that [recv] reads for: without a main stream there is none. *)
Definition recv_target (id : Z) s : option QuicStream := match main_stream_id s with Some _ => get_stream id s | None => None end.

(** The counter of the bytes read so far starts again behind the limit. *)
Definition drop_readed (id : Z) s : QuicSocket C :=
  on_stream id (fun t => if decide (readed_read_limit t < readed t) then set_readed 0 t else t) s.

(** [recv] creates a stream that the other end has opened. *)
Definition ensure_expanding (id : Z) s : QuicSocket C :=
  match expanding_streams s !! id with Some _ => s | None => add_expanding_stream id Bi s end.

(** [recv] *)
Definition recv (id : Z) s : QuicSocket C * io_result nat :=
  if is_closed s then (s, Err ConnectionAborted)
  else
    let s := ensure_expanding id s in
    match recv_open id (connect s) with
    | (c, false) => (set_connect c s, Err ConnectionAborted)
    | (c, true) =>
        let s := set_connect c s in
        match recv_target id s with
        | None => (drop_readed id s, Ok 0)
        | Some t =>
            let '(c, (blocks, stop)) := recv_chunks id (connect s) in
            let s := on_stream id (add_recv (chunks_len blocks)) (set_connect c s) in
            let '(s, result) :=
              match stop with
              | ReadBlocked => (on_stream id (fun t => set_read_buf (read_buf t ++ concat (sort_chunks blocks).*2) t) s, Ok (chunks_len blocks))
              | _ => (s, Err ConnectionAborted)
              end in
            let s := if is_require_recv id s then set_ready id Readable s else s in
            (match result with Ok _ => drop_readed id s | Err _ => s end, result)
        end
    end.

(** [read_ready]: bytes that are there ([inr]), or a reader that waits ([inl]). *)
Definition read_ready (id : Z) (adjust : nat) s : QuicSocket C * (unit + nat) :=
  if is_closed s then (s, inr 0)
  else match get_stream id s with
       | None => (s, inr 0)
       | Some _ =>
           let s := set_ready id Readable (on_stream id (add_wait_recv adjust) s) in
           let remaining := match get_stream id s with Some t => length (read_buf t) | None => 0 end in
           if decide (adjust <= remaining /\ 0 < remaining) then (s, inr remaining)
           else (on_stream id (fun t => set_reader (adjust - remaining) (ready_len t) true t) s, inl tt)
       end.

Definition is_wait_wakeup_read_ready (id : Z) s : bool :=
  match get_stream id s with Some t => ready_reader t | None => false end.

(** [wakeup_read_ready]: the value the pending read is given. *)
Definition wakeup_read_ready (id : Z) s : QuicSocket C * option nat :=
  match get_stream id s with
  | Some t =>
      if decide (wait_ready_len t = 0 \/ wait_ready_len t <= ready_len t) then
        if ready_reader t then (on_stream id (set_reader 0 0 false) s, Some (ready_len t)) else (s, None)
      else (s, None)
  | None => (s, None)
  end.

Definition read_buffer_remaining (id : Z) s : option nat := length ∘ read_buf <$> get_stream id s.

(** [buf.copy_to_bytes(n)] of the read buffer: a panic when there are fewer bytes. *)
Definition copy_to_bytes (id : Z) (n : nat) s : outcome (QuicSocket C * list Z) :=
  t ← lift (get_stream id s);
  if decide (n <= length (read_buf t)) then Done (on_stream id (set_read_buf (drop n (read_buf t))) s, take n (read_buf t))
  else Panic.

(** ** Sending *)

(** The loop over a block: what the connection takes, and the counters. After a part the
    rest is cut again by all that was sent before; a cut behind the end is a panic. *)
Fixpoint send_loop (fuel : nat) (id : Z) (block : list Z) (pos : nat) (result : io_result nat) s
    : outcome (QuicSocket C * nat * io_result nat) :=
  match block with
  | [] => Done (s, pos, result)
  | _ =>
      match fuel with
      | O => NoFuel
      | S fuel =>
          let '(c, r) := send_write id block (connect s) in
          let s := set_connect c s in
          match r with
          | Wrote O => Done (s, pos, Err WriteZero)
          | Wrote n =>
              let s := on_stream id (add_sent n) s in
              let pos := pos + n in
              if decide (pos <= length block) then send_loop fuel id (drop pos block) pos (Ok pos) s else Panic
          | WriteBlocked =>
              if decide (pos <= length block)
              then Done (on_stream id (fun t => set_write_buf (write_buf t ++ drop pos block) t) s, pos, Ok pos)
              else Panic
          | WriteFailed => Done (s, pos, Err ConnectionAborted)
          end
      end
  end.

(** [send] *)
Definition send (id : Z) s : outcome (QuicSocket C * io_result nat) :=
  match get_status s, get_stream id s with
  | Disconnect, _ => Done (s, Err ConnectionAborted)
  | _, None => Done (s, Ok 0)
  | _, Some t =>
      let block_len := Nat.min (write_len t) (length (write_buf t)) in
      let block := take block_len (write_buf t) in
      let s := on_stream id (set_write_buf (drop block_len (write_buf t))) s in
      '(s, pos, result) ← send_loop (length block) id block 0 (Ok 0) s;
      let s := on_stream id (fun t => if decide (0 < pos /\ readed_write_limit t < readed_write_len t) then set_readed_write 0 t else t) s in
      let more := match get_stream id s with
                  | Some t => bool_decide (0 < length (write_buf t) \/ sent_len t < wait_sent_len t)
                  | None => false
                  end in
      Done (set_ready id (if decide (pos < block_len) then Writable else if more then Writable else Readable) s, result)
  end.

(** [write_ready]: the bytes go to the pool, which puts them into the write buffer. *)
Definition write_ready (id : Z) (buf : list Z) s : QuicSocket C * io_result unit :=
  if is_closed s then (s, Err ConnectionAborted)
  else match get_stream id s with
       | Some _ => (notify (StreamWrite (uid s) id buf) (on_stream id (add_wait_sent (length buf)) s), Ok tt)
       | None => (s, Ok tt)
       end.

(** ** Hibernation *)

Definition is_hibernated s : bool := match hibernate s with Some _ => true | None => bool_decide (0 < length (hibernated_queue s)) end.
Definition set_hibernate (h : nat) s : QuicSocket C * bool :=
  match hibernate s with Some _ => (s, false) | None => (set_hibernation (Some h) (hibernated_queue s) s, true) end.
Definition push_hibernated_task (t : Deferred) s : QuicSocket C := set_hibernation (hibernate s) (hibernated_queue s ++ [t]) s.

(** ** Closing *)

Fixpoint wake_streams (ids : list Z) s : QuicSocket C * list Z :=
  match ids with
  | [] => (s, [])
  | id :: ids =>
      let '(s, woken) := wake_stream id s in
      let '(s, l) := wake_streams ids s in (s, if woken : bool then id :: l else l)
  end.

(** [close]: the loop ends at the first status it sees, since nobody else changes it; the
    streams whose reads are woken with 0. *)
Definition close (code : Z) (reason : io_result unit) s : QuicSocket C * list Z * io_result unit :=
  if is_closed s then (s, [], Ok tt)
  else
    let s := set_qs_status 4 s in
    let '(s, woken) := wake_streams (get_stream_ids s) s in
    (notify (StreamClose (uid s) None code) (set_close_reason (Some (code, reason)) s), woken, Ok tt).

Definition is_send_finished s : bool := bool_decide (send_streams (connect s) = 0).

Fixpoint shutdown_streams (ids : list Z) (code : Z) s : QuicSocket C * io_result unit :=
  match ids with
  | [] => (s, Ok tt)
  | id :: ids =>
      let '(c, stopped) := recv_stop id code (connect s) in
      let s := set_connect c s in
      if negb stopped then (s, Err Other)
      else
        let '(c, finished) := send_finish id (connect s) in
        let s := set_connect c s in
        if negb finished then (s, Err Other)
        else shutdown_streams ids code (set_expanding (delete id (expanding_streams s)) s)
  end.
(** [shutdown]: all streams, the last one first, or one. *)
Definition shutdown (id : option Z) (code : Z) s : QuicSocket C * io_result unit :=
  shutdown_streams (match id with Some id => [id] | None => reverse (get_stream_ids s) end) code s.

(** [force_close] *)
Definition force_close (code : Z) s : QuicSocket C := set_connect (conn_close (clock s) code (connect s)) (set_expanding ∅ s).
End socket.

(** ** The streams of a connection are separate *)

Section stream_lemmas.
Context {C : Type} `{QuinnApi C}.
Implicit Types s : QuicSocket C.

Lemma get_on_stream id f s : get_stream id (on_stream id f s) = f <$> get_stream id s.
Proof.
  unfold get_stream, on_stream. destruct (is_main id s) eqn:E; unfold is_main in *; cbn.
  - by rewrite E.
  - by rewrite E, lookup_alter_eq.
Qed.

Lemma get_on_stream_ne id id' f s : id <> id' -> get_stream id' (on_stream id f s) = get_stream id' s.
Proof.
  intros Hne. unfold get_stream, on_stream, is_main. destruct (main_stream_id s) as [m|] eqn:E; cbn.
  - destruct (Z.eqb_spec id m) as [->|]; cbn; rewrite ?E.
    + by destruct (Z.eqb_spec id' m).
    + by rewrite lookup_alter_ne.
  - by rewrite E, lookup_alter_ne.
Qed.

Lemma get_set_connect id c s : get_stream id (set_connect c s) = get_stream id s.
Proof. done. Qed.
Lemma get_notify id e s : get_stream id (notify e s) = get_stream id s.
Proof. unfold notify. by case_step. Qed.
Lemma get_set_ready id id' r s : get_stream id (set_ready id' r s) = get_stream id s.
Proof. apply get_notify. Qed.

Lemma get_add_main id d s : is_main id s = true -> get_stream id (add_expanding_stream id d s) = Some (main_stream s).
Proof. unfold get_stream. intros E. unfold is_main in *. cbn. by rewrite E. Qed.
Lemma get_add_expanding_ne id id' d s :
  id <> id' -> get_stream id' (add_expanding_stream id d s) = get_stream id' s.
Proof. intros. unfold get_stream, is_main. cbn. case_step; [by rewrite lookup_insert_ne|]. by rewrite lookup_insert_ne. Qed.

(** What [recv] and [wake_stream] keep of a connection. *)
Record kept s s' : Prop := mk_kept {
  kept_status : qs_status s' = qs_status s;
  kept_main : main_stream_id s' = main_stream_id s;
  kept_uid : uid s' = uid s;
  kept_sender : event_send s' = event_send s;
  kept_handle : socket_handle s' = socket_handle s;
  kept_hibernated : is_hibernated s' = is_hibernated s;
}.
#[export] Instance kept_preorder : PreOrder kept.
Proof. split; [by intros s|]. intros s s' s'' [??????] [??????]. split; congruence. Qed.

Lemma kept_on_stream id f s : kept s (on_stream id f s).
Proof. unfold on_stream. by case_step. Qed.
Lemma kept_set_connect c s : kept s (set_connect c s).
Proof. done. Qed.
Lemma kept_notify e s : kept s (notify e s).
Proof. unfold notify. by case_step. Qed.
Lemma kept_closed s s' : kept s s' -> is_closed s' = is_closed s.
Proof. intros K. pose proof (kept_status _ _ K) as E. unfold is_closed. by rewrite E. Qed.
Lemma kept_closed_false s s' : kept s s' -> is_closed s = false -> is_closed s' = false.
Proof. intros K. by rewrite (kept_closed _ _ K). Qed.

Lemma connect_on_stream id f s : connect (on_stream id f s) = connect s.
Proof. unfold on_stream. by case_step. Qed.
Lemma connect_notify e s : connect (notify e s) = connect s.
Proof. unfold notify. by case_step. Qed.
End stream_lemmas.

#[export] Hint Resolve kept_on_stream kept_set_connect kept_notify : pinet.
Hint Rewrite @get_on_stream @get_set_connect @get_notify @get_set_ready : quic_get.

(** ** The chunks of a stream *)

Definition chunk_le : relation (Z * list Z) := fun x y => (x.1 <= y.1)%Z.

Lemma insert_chunk_perm x l : insert_chunk x l ≡ₚ x :: l.
Proof. induction l as [|y l IH]; cbn; [done|]. case_match; [done|]. rewrite IH. apply Permutation_swap. Qed.
Lemma sort_chunks_perm l : sort_chunks l ≡ₚ l.
Proof. induction l as [|x l IH]; cbn; [done|]. by rewrite insert_chunk_perm, IH. Qed.

Lemma insert_chunk_sorted x l : StronglySorted chunk_le l -> StronglySorted chunk_le (insert_chunk x l).
Proof.
  induction 1 as [|y l Hl IH Hy]; cbn; [repeat constructor|].
  destruct (Z.leb_spec (x.1) (y.1)) as [Hxy|Hxy].
  - constructor; [by constructor|]. constructor; [done|].
    eapply Forall_impl; [exact Hy|]. intros z; unfold chunk_le. lia.
  - constructor; [done|]. rewrite insert_chunk_perm. constructor; [|done]. unfold chunk_le. lia.
Qed.
Lemma sort_chunks_sorted l : StronglySorted chunk_le (sort_chunks l).
Proof. induction l; cbn; [constructor|by apply insert_chunk_sorted]. Qed.

(** [data] in chunks that are not empty, the first one at [off]. *)
Fixpoint contiguous (off : Z) (l : list (Z * list Z)) (data : list Z) : Prop :=
  match l with
  | [] => data = []
  | (o, b) :: l => o = off /\ b <> [] /\ exists rest, data = b ++ rest /\ contiguous (off + Z.of_nat (length b)) l rest
  end.

Lemma contiguous_data off l data : contiguous off l data -> concat l.*2 = data.
Proof.
  revert off data. induction l as [|[o b] l IH]; cbn; [done|].
  intros off data (_ & _ & rest & -> & Hl). f_equal. by eapply IH.
Qed.

Lemma contiguous_bound off l data x : contiguous off l data -> x ∈ l -> (off <= x.1)%Z.
Proof.
  revert off data. induction l as [|[o b] l IH]; cbn; [set_solver|].
  intros off data (-> & _ & rest & _ & Hl) [->|Hx]%elem_of_cons; cbn; [lia|].
  specialize (IH _ _ Hl Hx). lia.
Qed.

Lemma contiguous_sorted off l data : contiguous off l data -> StronglySorted (fun x y => x.1 < y.1)%Z l.
Proof.
  revert off data. induction l as [|[o b] l IH]; [constructor|].
  intros off data (-> & Hb & rest & _ & Hl). constructor; [by eapply IH|].
  apply Forall_forall. intros x Hx. pose proof (contiguous_bound _ _ _ _ Hl Hx).
  destruct b; [done|]. cbn in *. lia.
Qed.

Lemma contiguous_app off l1 l2 data : contiguous off (l1 ++ l2) data ->
  exists d1 d2, data = d1 ++ d2 /\ contiguous off l1 d1 /\ contiguous (off + Z.of_nat (length d1)) l2 d2.
Proof.
  revert off data. induction l1 as [|[o b] l1 IH]; cbn; intros off data Hc.
  - exists [], data. rewrite Z.add_0_r. done.
  - destruct Hc as (-> & Hb & rest & -> & (d1 & d2 & -> & H1 & H2)%IH).
    exists (b ++ d1), d2. rewrite (assoc_L (++)), length_app, Nat2Z.inj_add, Z.add_assoc. naive_solver.
Qed.

Lemma strict_offset_unique l (x y : Z * list Z) :
  StronglySorted (fun x y => x.1 < y.1)%Z l -> x ∈ l -> y ∈ l -> x.1 = y.1 -> x = y.
Proof.
  induction 1 as [|z l Hl IH Hz]; [set_solver|]. rewrite Forall_forall in Hz. intros Hx Hy E.
  apply elem_of_cons in Hx as [->|Hx], Hy as [->|Hy]; [done| | |by apply IH].
  - specialize (Hz _ Hy). lia.
  - specialize (Hz _ Hx). lia.
Qed.

(** A call sorts its chunks, in whatever order they come. *)
Lemma sort_contiguous off l blocks data :
  contiguous off l data -> blocks ≡ₚ l -> concat (sort_chunks blocks).*2 = data.
Proof.
  intros Hc Hp. assert (sort_chunks blocks = l) as ->; [|by eapply contiguous_data].
  pose proof (contiguous_sorted _ _ _ Hc) as Hs.
  apply (StronglySorted_unique_strong chunk_le); [|apply sort_chunks_sorted| |by rewrite sort_chunks_perm].
  - intros x y Hx Hy Hxy Hyx. rewrite (sort_chunks_perm blocks), Hp in Hx.
    eapply strict_offset_unique; [done..|]. unfold chunk_le in *. lia.
  - clear -Hs. induction Hs as [|x l Hl IH Hx]; constructor; [done|].
    eapply Forall_impl; [exact Hx|]. unfold chunk_le. cbn. lia.
Qed.

(** ** Receiving *)

Section recv_lemmas.
Context {C : Type} `{QuinnApi C}.
Implicit Types s : QuicSocket C.

Lemma ensure_kept id s : kept s (ensure_expanding id s) /\ connect (ensure_expanding id s) = connect s.
Proof. unfold ensure_expanding. by case_step. Qed.
Lemma ensure_same id t s : get_stream id s = Some t -> get_stream id (ensure_expanding id s) = Some t.
Proof.
  unfold ensure_expanding. case_step; [done|]. destruct (is_main id s) eqn:E.
  - rewrite get_add_main by done. unfold get_stream. by rewrite E.
  - unfold get_stream. rewrite E. congruence.
Qed.
Lemma ensure_other id id' s : id <> id' -> get_stream id' (ensure_expanding id s) = get_stream id' s.
Proof. intros. unfold ensure_expanding. case_step; [done|]. by apply get_add_expanding_ne. Qed.

(** The stream after a call that has received [blocks]. *)
Definition received (blocks : list (Z * list Z)) (t : QuicStream) : QuicStream :=
  let t := set_read_buf (read_buf t ++ concat (sort_chunks blocks).*2) (add_recv (chunks_len blocks) t) in
  if decide (readed_read_limit t < readed t) then set_readed 0 t else t.

Lemma received_buf blocks t : read_buf (received blocks t) = read_buf t ++ concat (sort_chunks blocks).*2.
Proof. unfold received. cbn. by case_step. Qed.
Lemma received_len blocks t : recv_len (received blocks t) = recv_len t + chunks_len blocks.
Proof. unfold received. cbn. by case_step. Qed.
Lemma received_reader blocks t :
  ready_reader (received blocks t) = ready_reader t /\ wait_ready_len (received blocks t) = wait_ready_len t
  /\ ready_len (received blocks t) = if ready_reader t then ready_len t + chunks_len blocks else ready_len t.
Proof. unfold received. cbn. by case_step. Qed.

(** A change of one stream and of the package's state. *)
Record changed (id : Z) (t : QuicStream) (c : C) s s' : Prop := mk_changed {
  changed_kept : kept s s';
  changed_connect : connect s' = c;
  changed_stream : get_stream id s' = Some t;
  changed_other : forall id', id <> id' -> get_stream id' s' = get_stream id' s;
}.

Lemma recv_received id m s t c1 c2 blocks :
  is_closed s = false -> main_stream_id s = Some m -> get_stream id s = Some t ->
  recv_open id (connect s) = (c1, true) -> recv_chunks id c1 = (c2, (blocks, ReadBlocked)) ->
  exists s', recv id s = (s', Ok (chunks_len blocks)) /\ changed id (received blocks t) c2 s s'.
Proof.
  intros Hcl Hm Ht Ho Hc. unfold recv. rewrite Hcl.
  destruct (ensure_kept id s) as [K Kc]. pose proof (ensure_same _ _ _ Ht) as Hs.
  rewrite Kc, Ho. unfold recv_target. cbn. rewrite (kept_main _ _ K), Hm, get_set_connect, Hs, Hc.
  eexists; split; [reflexivity|]. split.
  - etrans; [exact K|]. unfold drop_readed. etrans; [|apply kept_on_stream].
    case_step; [etrans; [|apply kept_notify]|]; (etrans; [|apply kept_on_stream]); (etrans; [|apply kept_on_stream]); done.
  - unfold drop_readed, set_ready. rewrite connect_on_stream. case_step; rewrite ?connect_notify, !connect_on_stream; done.
  - unfold drop_readed. rewrite get_on_stream. case_step; rewrite ?get_set_ready, !get_on_stream, !get_set_connect, Hs; done.
  - intros id' Hne. unfold drop_readed. rewrite get_on_stream_ne by done.
    case_step; rewrite ?get_set_ready, !get_on_stream_ne, !get_set_connect by done; by apply ensure_other.
Qed.

(** A call that ends otherwise: the chunks are counted, and gone. *)
Lemma recv_ended id m s t c1 c2 blocks stop :
  is_closed s = false -> main_stream_id s = Some m -> get_stream id s = Some t ->
  recv_open id (connect s) = (c1, true) -> recv_chunks id c1 = (c2, (blocks, stop)) -> stop <> ReadBlocked ->
  exists s', recv id s = (s', Err ConnectionAborted) /\ changed id (add_recv (chunks_len blocks) t) c2 s s'.
Proof.
  intros Hcl Hm Ht Ho Hc Hstop. unfold recv. rewrite Hcl.
  destruct (ensure_kept id s) as [K Kc]. pose proof (ensure_same _ _ _ Ht) as Hs.
  rewrite Kc, Ho. unfold recv_target. cbn. rewrite (kept_main _ _ K), Hm, get_set_connect, Hs, Hc.
  destruct stop; [done|..]; (eexists; split; [reflexivity|]; split;
    [ etrans; [exact K|]; case_step; [etrans; [|apply kept_notify]|]; (etrans; [|apply kept_on_stream]); done
    | unfold set_ready; case_step; by rewrite ?connect_notify, ?connect_on_stream
    | case_step; by rewrite ?get_set_ready, get_on_stream, !get_set_connect, Hs
    | intros id' Hne; case_step; rewrite ?get_set_ready, get_on_stream_ne, !get_set_connect by done; by apply ensure_other ]).
Qed.

(** ** Several calls *)

(** The calls of [recv] as the stream becomes readable. *)
Fixpoint recv_all (n : nat) (id : Z) s : option (QuicSocket C) :=
  match n with
  | O => Some s
  | S n => match recv id s with (s, Ok _) => recv_all n id s | (_, Err _) => None end
  end.

(** What the package hands out to these calls, the stream being open. *)
Inductive delivers (id : Z) : C -> list (list (Z * list Z)) -> C -> Prop :=
| delivers_nil c : delivers id c [] c
| delivers_cons c c1 c2 c3 b bs : recv_open id c = (c1, true) -> recv_chunks id c1 = (c2, (b, ReadBlocked)) ->
    delivers id c2 bs c3 -> delivers id c (b :: bs) c3.

Definition received_all (batches : list (list (Z * list Z))) (t : QuicStream) : QuicStream :=
  foldl (fun t b => received b t) t batches.

Lemma received_all_buf batches t :
  read_buf (received_all batches t) = read_buf t ++ concat ((fun b => concat (sort_chunks b).*2) <$> batches).
Proof.
  unfold received_all. revert t. induction batches as [|b bs IH]; intros t; cbn; [by rewrite app_nil_r|].
  rewrite IH, received_buf. by rewrite (assoc_L (++)).
Qed.

Lemma received_all_len batches t :
  recv_len (received_all batches t) = recv_len t + sum_list (chunks_len <$> batches).
Proof.
  unfold received_all. revert t. induction batches as [|b bs IH]; intros t; cbn; [by rewrite Nat.add_0_r|].
  rewrite IH, received_len. lia.
Qed.

Lemma received_all_reader batches t :
  ready_reader t = true ->
  ready_reader (received_all batches t) = true /\ wait_ready_len (received_all batches t) = wait_ready_len t
  /\ ready_len (received_all batches t) = ready_len t + sum_list (chunks_len <$> batches).
Proof.
  unfold received_all. revert t. induction batches as [|b bs IH]; intros t Ht; cbn; [by rewrite Nat.add_0_r|].
  destruct (received_reader b t) as (H1 & H2 & H3). rewrite Ht in *.
  destruct (IH (received b t)) as (-> & -> & ->); [done|]. rewrite H2, H3. split_and!; [done..|lia].
Qed.

Lemma recv_all_delivers id m s t c batches c' :
  is_closed s = false -> main_stream_id s = Some m -> get_stream id s = Some t -> connect s = c ->
  delivers id c batches c' ->
  exists s', recv_all (length batches) id s = Some s' /\ changed id (received_all batches t) c' s s'.
Proof.
  intros Hcl Hm Ht Hc Hd. revert s t Hcl Hm Ht Hc. induction Hd as [c|c c1 c2 c3 b bs Ho Hb Hd IH]; intros s t Hcl Hm Ht Hc.
  - exists s. split; [done|]. by split.
  - subst c. destruct (recv_received _ _ _ _ _ _ _ Hcl Hm Ht Ho Hb) as (s1 & E & K). cbn. rewrite E.
    destruct (IH s1 (received b t)) as (s' & E' & K').
    + by eapply kept_closed_false; [apply K|].
    + by rewrite (kept_main _ _ (changed_kept _ _ _ _ _ K)).
    + apply K.
    + apply K.
    + exists s'. split; [done|]. destruct K as [K1 _ _ K4], K' as [K1' K2' K3' K4']. split; [by etrans|done|done|].
      intros id' Hne. by rewrite K4', K4.
Qed.

Lemma sort_batches off parts data batches :
  contiguous off (concat parts) data -> Forall2 (≡ₚ) batches parts ->
  concat ((fun b => concat (sort_chunks b).*2) <$> batches) = data.
Proof.
  intros Hc Hf. revert off data Hc. induction Hf as [|b l bs ls Hbl Hf IH]; cbn; [done|].
  intros off data (d1 & d2 & -> & H1 & H2)%contiguous_app. f_equal; [|by eapply IH].
  by eapply sort_contiguous.
Qed.
Lemma chunks_len_data l : chunks_len l = length (concat l.*2).
Proof. induction l as [|[o b] l IH]; [done|]. unfold chunks_len in *. cbn. by rewrite IH, length_app. Qed.
Lemma chunks_total batches parts off data :
  Forall2 (≡ₚ) batches parts -> contiguous off (concat parts) data -> sum_list (chunks_len <$> batches) = length data.
Proof.
  intros Hp Hc. rewrite <-(contiguous_data _ _ _ Hc). clear Hc. induction Hp as [|b l bs ls Hbl Hp IH]; [done|].
  cbn. rewrite fmap_app, concat_app, length_app, <-IH. f_equal. rewrite chunks_len_data.
  apply Permutation_length. by rewrite Hbl.
Qed.
End recv_lemmas.

(** ** Theorems on receiving *)

Section recv_theorems.
Context {C : Type} `{QuinnApi C}.
Implicit Types s : QuicSocket C.

(** C26: A stream whose chunks are handed out call by call, those of one call in any order,
    is put into its read buffer in the order of the stream, its counter of received bytes
    grows by as much, and no other stream of the connection is touched. *)
Theorem quic_stream_in_order id m s t batches parts off data c' :
  is_closed s = false -> main_stream_id s = Some m -> get_stream id s = Some t ->
  delivers id (connect s) batches c' ->
  Forall2 (≡ₚ) batches parts -> contiguous off (concat parts) data ->
  exists s' t', recv_all (length batches) id s = Some s' /\ get_stream id s' = Some t'
    /\ read_buf t' = read_buf t ++ data /\ recv_len t' = recv_len t + length data
    /\ (forall id', id <> id' -> get_stream id' s' = get_stream id' s).
Proof.
  intros Hcl Hm Ht Hd Hp Hc. destruct (recv_all_delivers id m s t _ _ _ Hcl Hm Ht eq_refl Hd) as (s' & E & K).
  exists s', (received_all batches t). split_and!; [done|apply K| | |apply K].
  - rewrite received_all_buf. by erewrite sort_batches.
  - by erewrite received_all_len, chunks_total.
Qed.

(** The chunks are put in order within a call only: the start of a stream that comes a
    call later than what follows it is behind it in the read buffer. *)
Theorem quic_order_across_calls id m s t off x y c' :
  is_closed s = false -> main_stream_id s = Some m -> get_stream id s = Some t ->
  delivers id (connect s) [[((off + Z.of_nat (length x))%Z, y)]; [(off, x)]] c' ->
  exists s' t', recv_all 2 id s = Some s' /\ get_stream id s' = Some t' /\ read_buf t' = read_buf t ++ y ++ x.
Proof.
  intros Hcl Hm Ht Hd. destruct (recv_all_delivers id m s t _ _ _ Hcl Hm Ht eq_refl Hd) as (s' & E & K).
  eexists s', _. split_and!; [exact E|apply K|]. rewrite received_all_buf. cbn. by rewrite !app_nil_r.
Qed.

(** What comes in one call together with the end of the stream is counted and thrown
    away, and a read that waits for it is not woken. *)
Theorem quic_tail_lost id m s t c1 c2 blocks stop :
  is_closed s = false -> main_stream_id s = Some m -> get_stream id s = Some t -> ready_reader t = true ->
  recv_open id (connect s) = (c1, true) -> recv_chunks id c1 = (c2, (blocks, stop)) -> stop <> ReadBlocked ->
  exists s' t', recv id s = (s', Err ConnectionAborted) /\ get_stream id s' = Some t'
    /\ read_buf t' = read_buf t /\ recv_len t' = recv_len t + chunks_len blocks /\ ready_reader t' = true.
Proof.
  intros Hcl Hm Ht Hr Ho Hc Hs. destruct (recv_ended _ _ _ _ _ _ _ _ Hcl Hm Ht Ho Hc Hs) as (s' & E & K).
  by exists s', (add_recv (chunks_len blocks) t); split_and!; [|apply K|..].
Qed.

Lemma read_ready_waits id t adjust s : is_closed s = false -> get_stream id s = Some t ->
  (adjust <= length (read_buf t) /\ 0 < length (read_buf t) -> False) ->
  exists s' t', read_ready id adjust s = (s', inl tt) /\ changed id t' (connect s) s s'
    /\ ready_reader t' = true /\ wait_ready_len t' = adjust - length (read_buf t) /\ ready_len t' = ready_len t
    /\ read_buf t' = read_buf t.
Proof.
  intros Hcl Ht Hn. unfold read_ready. rewrite Hcl, Ht, get_set_ready, get_on_stream, Ht. cbn.
  destruct (decide _) as [[]|_]; [by destruct Hn|].
  eexists _, (set_reader (adjust - length (read_buf t)) (ready_len t) true (add_wait_recv adjust t)).
  split; [reflexivity|]. split; [|by split_and!]. split.
  - etrans; [|apply kept_on_stream]. etrans; [|apply kept_notify]. apply kept_on_stream.
  - unfold set_ready. by rewrite connect_on_stream, connect_notify, connect_on_stream.
  - by rewrite get_on_stream, get_set_ready, get_on_stream, Ht.
  - intros id' Hne. by rewrite get_on_stream_ne, get_set_ready, get_on_stream_ne.
Qed.

(** A read that waits for bytes is given what has come since it began as soon as
    that is enough, whatever the calls that brought it, and keeps waiting before that. *)
Theorem quic_ready_complete id m adjust s t batches c' :
  is_closed s = false -> main_stream_id s = Some m -> get_stream id s = Some t -> ready_len t = 0 ->
  (adjust <= length (read_buf t) /\ 0 < length (read_buf t) -> False) ->
  delivers id (connect s) batches c' ->
  let total := sum_list (chunks_len <$> batches) in
  exists s1 s2, read_ready id adjust s = (s1, inl tt) /\ recv_all (length batches) id s1 = Some s2
    /\ (wakeup_read_ready id s2).2 = (if decide (adjust - length (read_buf t) <= total) then Some total else None)
    /\ is_wait_wakeup_read_ready id (wakeup_read_ready id s2).1 = bool_decide (total < adjust - length (read_buf t)).
Proof.
  intros Hcl Hm Ht H0 Hn Hd total.
  destruct (read_ready_waits _ _ _ _ Hcl Ht Hn) as (s1 & t1 & E1 & K & Hr & Hw & Hl & _).
  destruct (recv_all_delivers id m s1 t1 (connect s) batches c') as (s2 & E2 & K2).
  { by eapply kept_closed_false; [apply K|]. }
  { by rewrite (kept_main _ _ (changed_kept _ _ _ _ _ K)). }
  { apply K. } { apply K. } { done. }
  exists s1, s2. split_and!; [done..| |].
  all: destruct (received_all_reader batches t1 Hr) as (R1 & R2 & R3); unfold wakeup_read_ready, is_wait_wakeup_read_ready;
    rewrite (changed_stream _ _ _ _ _ K2), R1, R2, R3, Hw, Hl, H0; fold total; cbn.
  - repeat case_decide; try done; lia.
  - case_decide; cbn.
    + rewrite get_on_stream, (changed_stream _ _ _ _ _ K2). cbn. symmetry. apply bool_decide_eq_false. lia.
    + rewrite (changed_stream _ _ _ _ _ K2), R1. symmetry. apply bool_decide_eq_true. lia.
Qed.
End recv_theorems.

(** ** Sending *)

Section send_lemmas.
Context {C : Type} `{QuinnApi C}.
Implicit Types s : QuicSocket C.

(** The fuel is enough: a call of the loop takes at least a byte of the block. *)
Lemma send_loop_fuel fuel id block pos r s : length block <= fuel -> send_loop fuel id block pos r s <> NoFuel.
Proof.
  revert block pos r s. induction fuel as [|fuel IH]; intros block pos r s Hl.
  - destruct block; cbn in Hl; [done|lia].
  - destruct block as [|b block]; [done|]. cbn [send_loop].
    destruct (send_write _ _ _) as [c [[|n]| |]]; [done| | |done].
    + case_decide; [|done]. apply IH. rewrite length_drop. cbn [length] in *. lia.
    + by case_decide.
Qed.

Lemma send_loop_nil fuel id pos r s : send_loop fuel id [] pos r s = Done (s, pos, r).
Proof. by destruct fuel. Qed.

Lemma send_loop_wrote fuel id block pos r s c n :
  block <> [] -> 0 < fuel -> send_write id block (connect s) = (c, Wrote n) -> 0 < n ->
  send_loop fuel id block pos r s =
    if decide (pos + n <= length block)
    then send_loop (pred fuel) id (drop (pos + n) block) (pos + n) (Ok (pos + n)) (on_stream id (add_sent n) (set_connect c s))
    else Panic.
Proof. intros Hne Hf Hw Hn. destruct fuel, block, n; try lia; [done|]. cbn [send_loop]. by rewrite Hw. Qed.
Lemma send_loop_blocked fuel id block pos r s c :
  block <> [] -> 0 < fuel -> send_write id block (connect s) = (c, WriteBlocked) ->
  send_loop fuel id block pos r s =
    if decide (pos <= length block)
    then Done (on_stream id (fun t => set_write_buf (write_buf t ++ drop pos block) t) (set_connect c s), pos, Ok pos)
    else Panic.
Proof. intros Hne Hf Hw. destruct fuel, block; try lia; [done|]. cbn [send_loop]. by rewrite Hw. Qed.
Lemma nonempty_len {A} (l : list A) : l <> [] -> 0 < length l.
Proof. destruct l; cbn; [done|lia]. Qed.

Definition block_of (t : QuicStream) : list Z := take (Nat.min (write_len t) (length (write_buf t))) (write_buf t).
Definition behind_block (t : QuicStream) : list Z := drop (Nat.min (write_len t) (length (write_buf t))) (write_buf t).

Lemma block_and_behind t : block_of t ++ behind_block t = write_buf t.
Proof. apply take_drop. Qed.
Lemma block_len t : length (block_of t) = Nat.min (write_len t) (length (write_buf t)).
Proof. unfold block_of. rewrite length_take. lia. Qed.

(** After the loop only the counter of a cleaned buffer and the events change. *)
Definition sent_stream (pos : nat) (t : QuicStream) : QuicStream :=
  if decide (0 < pos /\ readed_write_limit t < readed_write_len t) then set_readed_write 0 t else t.
Lemma sent_stream_buf pos t : write_buf (sent_stream pos t) = write_buf t.
Proof. unfold sent_stream. by case_decide. Qed.
Lemma sent_stream_len pos t : write_len (sent_stream pos t) = write_len t.
Proof. unfold sent_stream. by case_decide. Qed.

Lemma send_loop_done id s t s1 t1 c pos r :
  get_status s <> Disconnect -> get_stream id s = Some t ->
  send_loop (length (block_of t)) id (block_of t) 0 (Ok 0) (on_stream id (set_write_buf (behind_block t)) s) = Done (s1, pos, r) ->
  changed id t1 c s s1 ->
  exists s', send id s = Done (s', r) /\ changed id (sent_stream pos t1) c s s'.
Proof.
  intros Hst Ht E K. unfold send. rewrite Ht. fold (block_of t) (behind_block t).
  destruct (get_status s) eqn:Es; try done; (rewrite E; cbn; eexists; split; [reflexivity|]; split;
   [ etrans; [apply K|]; etrans; [|apply kept_notify]; apply kept_on_stream
   | unfold set_ready; rewrite connect_notify, connect_on_stream; apply K
   | rewrite get_set_ready, get_on_stream, (changed_stream _ _ _ _ _ K); done
   | intros id' Hne; rewrite get_set_ready, get_on_stream_ne by done; by apply K ]).
Qed.

Lemma changed_refl id t s : get_stream id s = Some t -> changed id t (connect s) s s.
Proof. by split. Qed.
Lemma changed_on id t f c s s' : changed id t c s s' -> changed id (f t) c s (on_stream id f s').
Proof.
  intros K. split.
  - etrans; [apply K|]. apply kept_on_stream.
  - rewrite connect_on_stream. apply K.
  - by rewrite get_on_stream, (changed_stream _ _ _ _ _ K).
  - intros id' Hne. rewrite get_on_stream_ne by done. by apply K.
Qed.
Lemma changed_package id t c c' s s' : changed id t c s s' -> changed id t c' s (set_connect c' s').
Proof. intros [K _ Kt Ko]. split; [etrans; [exact K|done]|done|exact Kt|exact Ko]. Qed.

(** The stream once [n] bytes of its block are sent. *)
Definition block_taken (n : nat) (t : QuicStream) : QuicStream := add_sent n (set_write_buf (behind_block t) t).

Lemma send_whole id s t c :
  get_status s <> Disconnect -> get_stream id s = Some t -> block_of t <> [] ->
  send_write id (block_of t) (connect s) = (c, Wrote (length (block_of t))) ->
  exists s', send id s = Done (s', Ok (length (block_of t)))
    /\ changed id (sent_stream (length (block_of t)) (block_taken (length (block_of t)) t)) c s s'.
Proof.
  intros Hst Ht Hne Hw. pose proof (nonempty_len _ Hne). eapply send_loop_done; [done|done| |].
  - erewrite send_loop_wrote; [|done|done|by rewrite connect_on_stream|done].
    rewrite decide_True, drop_ge, send_loop_nil by lia. reflexivity.
  - apply (changed_on id _ (add_sent _)), (changed_package _ _ (connect s)).
    by apply (changed_on id t (set_write_buf (behind_block t))), changed_refl.
Qed.
End send_lemmas.

(** ** Theorems on sending *)

Section send_theorems.
Context {C : Type} `{QuinnApi C}.
Implicit Types s : QuicSocket C.

(** A block that the connection refuses is put behind what is left in the write
    buffer, so its bytes keep their place only when the buffer was one block. *)
Theorem quic_blocked_rotates id s t c :
  get_status s <> Disconnect -> get_stream id s = Some t -> block_of t <> [] ->
  send_write id (block_of t) (connect s) = (c, WriteBlocked) ->
  exists s' t', send id s = Done (s', Ok 0) /\ get_stream id s' = Some t'
    /\ write_buf t' = behind_block t ++ block_of t
    /\ (length (write_buf t) <= write_len t -> write_buf t' = write_buf t).
Proof.
  intros Hst Ht Hne Hw. pose proof (nonempty_len _ Hne).
  edestruct (send_loop_done id s t) as (s' & E & K); [done..| | |].
  { erewrite send_loop_blocked; [|done|done|by rewrite connect_on_stream]. rewrite decide_True by lia. reflexivity. }
  { eapply changed_on, changed_package, changed_on, changed_refl, Ht. }
  eexists s', _. split; [exact E|]. split; [apply K|]. rewrite sent_stream_buf. cbn. rewrite drop_0. split; [done|].
  intros Hle. unfold behind_block, block_of. rewrite Nat.min_r by done. by rewrite drop_all, firstn_all.
Qed.

(** C27: When the connection takes the first [n] bytes of a block and then refuses, the next
    [n] bytes are lost, and the call panics when fewer are left. *)
Theorem quic_partial_write id s t c1 c2 n :
  get_status s <> Disconnect -> get_stream id s = Some t -> 0 < n < length (block_of t) ->
  send_write id (block_of t) (connect s) = (c1, Wrote n) ->
  send_write id (drop n (block_of t)) c1 = (c2, WriteBlocked) ->
  if decide (2 * n <= length (block_of t)) then
    exists s' t', send id s = Done (s', Ok n) /\ get_stream id s' = Some t' /\ connect s' = c2
      /\ write_buf t' = behind_block t ++ drop (2 * n) (block_of t)
  else send id s = Panic.
Proof.
  intros Hst Ht Hn Hw Hb. assert (block_of t <> []) as Hne by (intros E; rewrite E in Hn; cbn in Hn; lia).
  assert (drop n (block_of t) <> []) as Hne' by (intros E%(f_equal length); rewrite length_drop in E; cbn in E; lia).
  assert (send_loop (length (block_of t)) id (block_of t) 0 (Ok 0) (on_stream id (set_write_buf (behind_block t)) s) =
    send_loop (pred (length (block_of t))) id (drop n (block_of t)) n (Ok n)
      (on_stream id (add_sent n) (set_connect c1 (on_stream id (set_write_buf (behind_block t)) s)))) as E1.
  { erewrite send_loop_wrote; [|done|lia|by rewrite connect_on_stream|lia]. by rewrite decide_True by (cbn; lia). }
  erewrite (send_loop_blocked (pred _)) in E1; [|done|lia|by rewrite connect_on_stream].
  rewrite length_drop in E1. case_decide as D.
  - rewrite decide_True by lia. edestruct (send_loop_done id s t) as (s' & E & K); [done..|exact E1| |].
    { eapply changed_on, changed_package, changed_on, changed_package, changed_on, changed_refl, Ht. }
    eexists s', _. split; [exact E|]. split; [apply K|]. split; [apply K|]. rewrite sent_stream_buf. cbn.
    rewrite drop_drop. do 2 f_equal. lia.
  - rewrite decide_False by lia. unfold send. rewrite Ht. fold (block_of t) (behind_block t).
    destruct (get_status s); [| | | | |done]; by rewrite E1.
Qed.

Lemma send_empty id s t :
  get_status s <> Disconnect -> get_stream id s = Some t -> block_of t = [] ->
  exists s', send id s = Done (s', Ok 0) /\ changed id (sent_stream 0 (set_write_buf (behind_block t) t)) (connect s) s s'.
Proof.
  intros Hst Ht E0. eapply send_loop_done; [done|done|by rewrite E0|].
  by apply (changed_on id t (set_write_buf (behind_block t))), changed_refl.
Qed.

(** A call of a connection that takes every block whole. *)
Lemma send_step (sent : C -> list Z) id s t :
  (forall c b, b <> [] -> exists c', send_write id b c = (c', Wrote (length b)) /\ sent c' = sent c ++ b) ->
  get_status s <> Disconnect -> get_stream id s = Some t ->
  exists s' t' c k, send id s = Done (s', Ok k) /\ changed id t' c s s' /\ write_buf t' = behind_block t
    /\ write_len t' = write_len t /\ sent c = sent (connect s) ++ block_of t.
Proof.
  intros Hw Hst Ht. destruct (decide (block_of t = [])) as [E0|Hne].
  - destruct (send_empty _ _ _ Hst Ht E0) as (s' & E & K). eexists s', _, _, _. split; [exact E|]. split; [exact K|].
    rewrite sent_stream_buf, sent_stream_len, E0, app_nil_r. done.
  - destruct (Hw (connect s) _ Hne) as (c & Ew & Es). destruct (send_whole id s t c) as (s' & E & K); [done..|].
    eexists s', _, _, _. split; [exact E|]. split; [exact K|]. by rewrite sent_stream_buf, sent_stream_len.
Qed.

Lemma min_take {A} (w k : nat) (l : list A) :
  take (Nat.min w (length l)) l ++ take k (drop (Nat.min w (length l)) l) = take (w + k) l.
Proof.
  destruct (decide (w <= length l)).
  - by rewrite Nat.min_l, take_take_drop by done.
  - rewrite Nat.min_r, firstn_all, drop_all, take_nil, app_nil_r by lia. by rewrite take_ge by lia.
Qed.
Lemma min_drop {A} (w k : nat) (l : list A) : drop (Nat.min w (length l) + k) l = drop (w + k) l.
Proof. destruct (decide (w <= length l)); [by rewrite Nat.min_l|]. by rewrite !drop_ge by lia. Qed.

(** The calls of [send] as the stream becomes writable. *)
Fixpoint send_all (n : nat) (id : Z) s : outcome (QuicSocket C) :=
  match n with
  | O => Done s
  | S n => '(s, r) ← send id s; match r with Ok _ => send_all n id s | Err _ => Done s end
  end.

(** A connection that takes every block whole is given the write buffer in order,
    a block with each call. *)
Theorem quic_sent_in_order (sent : C -> list Z) id n s t :
  (forall c b, b <> [] -> exists c', send_write id b c = (c', Wrote (length b)) /\ sent c' = sent c ++ b) ->
  get_status s <> Disconnect -> get_stream id s = Some t ->
  exists s' t', send_all n id s = Done s' /\ get_stream id s' = Some t'
    /\ sent (connect s') = sent (connect s) ++ take (n * write_len t) (write_buf t)
    /\ write_buf t' = drop (n * write_len t) (write_buf t).
Proof.
  intros Hw. revert s t. induction n as [|n IH]; intros s t Hst Ht.
  { exists s, t. by rewrite app_nil_r. }
  destruct (send_step sent id s t Hw Hst Ht) as (s1 & t1 & c & k & E & K & Eb & El & Es).
  destruct (IH s1 t1) as (s' & t' & E' & Ht' & Es' & Eb').
  - unfold get_status in *. by rewrite (kept_status _ _ (changed_kept _ _ _ _ _ K)).
  - apply K.
  - exists s', t'. cbn. rewrite E. split; [exact E'|]. split; [done|].
    rewrite Es', Eb', Eb, El, (changed_connect _ _ _ _ _ K), Es. unfold behind_block, block_of.
    by rewrite drop_drop, <-(assoc_L (++)), min_take, min_drop.
Qed.
End send_theorems.

(** ** Closing *)

Lemma strict_nodup l : StronglySorted Z.lt l -> NoDup l.
Proof.
  induction 1 as [|x l Hl IH Hx]; constructor; [|done]. intros Hin. rewrite Forall_forall in Hx. specialize (Hx _ Hin). lia.
Qed.
Lemma dedup_elem x l : x ∈ dedup l <-> x ∈ l.
Proof.
  induction l as [|y l IH]; [done|]. destruct l as [|z l]; [done|]. cbn [dedup] in *.
  destruct (Z.eqb_spec y z) as [->|]; rewrite ?elem_of_cons, IH; set_solver.
Qed.
Lemma dedup_sorted l : StronglySorted Z.le l -> StronglySorted Z.lt (dedup l).
Proof.
  induction 1 as [|x l Hl IH Hx]; [constructor|]. destruct l as [|y l]; [repeat constructor|]. cbn [dedup] in *.
  destruct (Z.eqb_spec x y); [done|]. constructor; [done|]. apply Forall_forall. intros z Hz. apply (dedup_elem z (y :: l)) in Hz.
  inversion_clear Hl as [|?? ? Hy]. inversion_clear Hx. rewrite Forall_forall in Hy.
  apply elem_of_cons in Hz as [->|Hz]; [lia|]. specialize (Hy _ Hz). lia.
Qed.

Section close_lemmas.
Context {C : Type} `{QuinnApi C}.
Implicit Types s : QuicSocket C.

Lemma stream_ids_elem id s : id ∈ get_stream_ids s <-> is_Some (get_stream id s).
Proof.
  unfold get_stream_ids. rewrite dedup_elem, (merge_sort_Permutation Z.le), elem_of_app.
  assert (forall m : gmap Z QuicStream, id ∈ (map_to_list m).*1 <-> is_Some (m !! id)) as ->.
  { intros m. rewrite list_elem_of_fmap. split.
    - intros ([k t] & -> & Ht%elem_of_map_to_list). by exists t.
    - intros [t Ht]. exists (id, t). by rewrite elem_of_map_to_list. }
  unfold get_stream, is_main. destruct (main_stream_id s) as [m|]; [|set_solver].
  destruct (Z.eqb_spec id m); set_solver.
Qed.
Lemma stream_ids_sorted s : StronglySorted Z.lt (get_stream_ids s).
Proof. apply dedup_sorted, StronglySorted_merge_sort; intros ?**; lia. Qed.

Definition waits (id : Z) s : bool := is_wait_wakeup_read_ready id s.

Lemma wake_stream_waits id s : (wake_stream id s).2 = waits id s /\ waits id (wake_stream id s).1 = false
  /\ kept s (wake_stream id s).1 /\ (forall id', id <> id' -> get_stream id' (wake_stream id s).1 = get_stream id' s).
Proof.
  unfold wake_stream, waits, is_wait_wakeup_read_ready. destruct (get_stream id s) as [t|] eqn:E; cbn; [|by rewrite E].
  destruct (ready_reader t) eqn:Er; cbn; [|by rewrite E, Er]. rewrite get_on_stream, E. split_and!; [done..| |].
  - apply kept_on_stream.
  - intros id' Hne. by rewrite get_on_stream_ne.
Qed.

Lemma filter_waits (ids : list Z) s s' : (forall id, id ∈ ids -> get_stream id s' = get_stream id s) ->
  filter (fun id => waits id s' = true) ids = filter (fun id => waits id s = true) ids.
Proof.
  induction ids as [|id ids IH]; intros Hg; [done|]. rewrite !filter_cons, IH by set_solver.
  assert (waits id s' = waits id s) as ->; [|done].
  unfold waits, is_wait_wakeup_read_ready. by rewrite (Hg id) by set_solver.
Qed.

Lemma wake_streams_waits (ids : list Z) s : StronglySorted Z.lt ids ->
  (wake_streams ids s).2 = filter (fun id => waits id s = true) ids /\ kept s (wake_streams ids s).1
  /\ (forall id, id ∈ ids -> waits id (wake_streams ids s).1 = false)
  /\ (forall id, id ∉ ids -> get_stream id (wake_streams ids s).1 = get_stream id s).
Proof.
  intros Hs. revert s. induction Hs as [|id ids Hs IH Hid]; intros s; [set_solver|]. cbn.
  destruct (wake_stream_waits id s) as (W1 & W2 & W3 & W4). destruct (wake_stream id s) as [s1 w]. cbn in *.
  destruct (IH s1) as (I1 & I2 & I3 & I4). destruct (wake_streams ids s1) as [s2 l]. cbn in *.
  assert (id ∉ ids) as Hni by (intros Hin; rewrite Forall_forall in Hid; specialize (Hid _ Hin); lia).
  assert (filter (fun id => waits id s1 = true) ids = filter (fun id => waits id s = true) ids) as Hf.
  { apply filter_waits. intros id' Hin. apply W4. by intros ->. }
  split_and!.
  - subst w l. rewrite Hf. by destruct (waits id s).
  - by etrans.
  - intros id' [->|Hin]%elem_of_cons; [|by apply I3]. unfold waits, is_wait_wakeup_read_ready in *. by rewrite I4.
  - intros id' [Hne Hn]%not_elem_of_cons. by rewrite I4, W4.
Qed.
(** A change of a stream is none of the list. *)
Lemma stream_ids_on_stream id f s : get_stream_ids (on_stream id f s) = get_stream_ids s.
Proof.
  apply (StronglySorted_unique_strong Z.lt); [intros; lia|apply stream_ids_sorted..|].
  apply NoDup_Permutation; [by apply strict_nodup, stream_ids_sorted..|]. intros id'. rewrite !stream_ids_elem.
  destruct (decide (id = id')) as [<-|Hne]; [by rewrite get_on_stream, fmap_is_Some|by rewrite get_on_stream_ne].
Qed.
End close_lemmas.

Section close_theorems.
Context {C : Type} `{QuinnApi C}.
Implicit Types s : QuicSocket C.

(** The streams of a connection are listed in order of their ids, each once. *)
Theorem quic_stream_ids s :
  StronglySorted Z.lt (get_stream_ids s) /\ forall id, id ∈ get_stream_ids s <-> is_Some (get_stream id s).
Proof. split; [apply stream_ids_sorted|]. intros id. apply stream_ids_elem. Qed.

(** Closing gives 0 to exactly the reads that wait, in order of their streams, leaves none
    waiting, keeps the reason, tells the pool, and a second call does nothing. *)
Theorem quic_close_wakes code reason s :
  is_closed s = false ->
  exists s', close code reason s = (s', filter (fun id => waits id s = true) (get_stream_ids s), Ok tt)
    /\ get_status s' = Closeing /\ close_reason s' = Some (code, reason) /\ (forall id, waits id s' = false)
    /\ (event_send s = true -> last (events s') = Some (StreamClose (uid s) None code))
    /\ forall code' reason', close code' reason' s' = (s', [], Ok tt).
Proof.
  intros Hcl. unfold close at 1. rewrite Hcl.
  change (get_stream_ids s) with (get_stream_ids (set_qs_status 4 s)).
  destruct (wake_streams_waits _ (set_qs_status 4 s) (stream_ids_sorted (set_qs_status 4 s))) as (W1 & W2 & W3 & W4).
  destruct (wake_streams _ _) as [s1 woken]. cbn in W1, W2, W3, W4. subst woken. destruct W2 as [Kst Km Ku Ks _ _]. cbn in *.
  eexists. split; [reflexivity|]. unfold notify; cbn. rewrite Ks.
  assert (forall id, waits id s1 = false) as Hw.
  { intros id. destruct (decide (id ∈ get_stream_ids (set_qs_status 4 s))) as [Hin|Hni]; [by apply W3|].
    unfold waits, is_wait_wakeup_read_ready. rewrite W4 by done.
    destruct (get_stream id (set_qs_status 4 s)) eqn:E; [|done]. destruct Hni. apply stream_ids_elem. by rewrite E. }
  split_and!.
  - unfold get_status. by destruct (event_send s); cbn; rewrite Kst.
  - by destruct (event_send s).
  - intros id. by destruct (event_send s); apply Hw.
  - intros ->. cbn. by rewrite last_snoc, Ku.
  - intros code' reason'. unfold close, is_closed. by destruct (event_send s); cbn; rewrite Kst.
Qed.
End close_theorems.

(** ** Datagrams *)

Section segment_theorems.

(** A transmit with segments is cut into datagrams of the size of a segment, the last
    one not longer, whose bytes are its contents; a size of 0 never ends. *)
Theorem quic_segments (size : nat) (bin : list Z) :
  (0 < size -> exists l x, segments (S (length bin)) size bin = Done (l ++ [x]) /\ concat (l ++ [x]) = bin
    /\ Forall (fun b => length b = size) l /\ length x <= size)
  /\ (size = 0 -> bin <> [] -> forall fuel, segments fuel size bin = NoFuel).
Proof.
  split.
  - intros Hs. assert (forall fuel, length bin < fuel -> exists l x, segments fuel size bin = Done (l ++ [x])
      /\ concat (l ++ [x]) = bin /\ Forall (fun b => length b = size) l /\ length x <= size) as Hf; [|apply Hf; lia].
    intros fuel. revert bin. induction fuel as [|fuel IH]; intros bin Hl; [lia|]. cbn [segments]. case_decide as D.
    + destruct (IH (drop size bin)) as (l & x & E & Ec & Hall & Hx); [rewrite length_drop; lia|].
      exists (take size bin :: l), x. rewrite E. cbn. rewrite Ec, take_drop. split_and!; [done..| |done].
      constructor; [rewrite length_take; lia|done].
    + exists [], bin. cbn. rewrite app_nil_r. split_and!; [done..|constructor|lia].
  - intros -> Hb fuel. induction fuel as [|fuel IH]; [done|]. cbn [segments].
    rewrite decide_True by (destruct bin; cbn; [done|lia]). rewrite drop_0, IH. done.
Qed.
End segment_theorems.
