(* ===== verification/QuicPool.v ===== *)
(** * A pool of QUIC connections (quic/src/connect_pool.rs)

    One turn of the event loop of a pool with its handlers, the tasks they start and the
    callbacks of the application, around the package quinn-proto ([QuinnApi], [QuinnPoll]).
    A connection is kept by an address of its own: the table leads from the handles of the
    package, which it gives again, to the addresses, and tasks and handles hold an address
    also after its connection has left the table. *)

From S2P Require Import Prelude QuicSocket.

(** ** The package, as the pool drives it *)

Inductive AppEvent :=
| HandshakeDataReady
| ConnectionConnected
| ConnectionLost
| StreamWritable (id : Z)
| StreamOpened (d : Dir)
| DatagramReceived
| StreamReadable (id : Z)
| StreamAvailable (d : Dir)
| StreamFinished (id : Z)
| StreamStopped (id code : Z).

(** [E] are the events for a connection, [X] those for the endpoint, which are drained. *)
Class QuinnPoll (C E X : Type) := {
  handle_event : E -> C -> C;
  conn_timeout : Z -> C -> C;
  poll_transmit : Z -> nat -> C -> C * option Transmit;
  poll_timeout : C -> C * option Z;
  endpoint_events : C -> C * list X;
  poll_app : C -> C * option AppEvent;
  ping : C -> C;
}.

(** ** Data *)

Inductive PoolEvent (C E : Type) :=
| Accepted (s : QuicSocket C)
| ConnectionReceived (handle : Z) (e : E)
| OfSocket (e : QuicEvent)
| RebindUdp (udp : Z).
Arguments Accepted {C E} s.
Arguments ConnectionReceived {C E} handle e.
Arguments OfSocket {C E} e.
Arguments RebindUdp {C E} udp.

(** What the application and the UDP socket see. *)
Inductive Callback :=
| Connected
| OpenedStream (id : Z) (d : Dir)
| Readed (id : Z) (n : nat)
| Writed (id : Z)
| Closed (id : option Z) (code : Z) (r : io_result unit)
| Timeouted (e : string)
| Woken (id : Z) (n : nat)
| Datagrams (l : list (list Z)).

(** Tasks on the runtime; [TWriting] is what is left of a task behind a callback. *)
Inductive Task :=
| TCall (a : nat) (c : Callback)
| TReadable (a : nat) (id : Z)
| TWritable (a : nat)
| TWriting (a : nat) (ids : list Z)
| TRemoveHandle (a : nat).

(** A timer: its delay, the handle of the connection, the event or the empty one. *)
Record TimerItem := mkTimerItem { delay : Z; timer_conn : Z; timer_event : option string }.

Record Pool (C E X : Type) := mkPool {
  pool_clock : Z;
  sockets : gmap Z nat;
  conns : gmap nat (QuicSocket C);
  next : nat;                            (* the next address *)
  channel : list (PoolEvent C E);
  timer : gmap Z TimerItem;
  timer_keys : Z;                        (* the next key of the timer *)
  expireds : gmap Z Z;
  results : gmap nat (io_result Z);      (* of the streams to open *)
  polled : list (nat * list X);
  tasks : list Task;
  log : list (nat * Callback);
}.
Arguments mkPool {C E X}.
Arguments pool_clock {C E X} p.
Arguments sockets {C E X} p.
Arguments conns {C E X} p.
Arguments next {C E X} p.
Arguments channel {C E X} p.
Arguments timer {C E X} p.
Arguments timer_keys {C E X} p.
Arguments expireds {C E X} p.
Arguments results {C E X} p.
Arguments polled {C E X} p.
Arguments tasks {C E X} p.
Arguments log {C E X} p.

Section pool.
Context {C E X : Type} `{QuinnApi C} `{QuinnPoll C E X}.
Notation Pool := (Pool C E X).
Implicit Types p : Pool.
Implicit Types s : QuicSocket C.

Definition set_sockets x p : Pool := mkPool (pool_clock p) x (conns p) (next p) (channel p) (timer p) (timer_keys p) (expireds p) (results p) (polled p) (tasks p) (log p).
Definition set_conns x p : Pool := mkPool (pool_clock p) (sockets p) x (next p) (channel p) (timer p) (timer_keys p) (expireds p) (results p) (polled p) (tasks p) (log p).
Definition set_channel x p : Pool := mkPool (pool_clock p) (sockets p) (conns p) (next p) x (timer p) (timer_keys p) (expireds p) (results p) (polled p) (tasks p) (log p).
Definition set_expireds x p : Pool := mkPool (pool_clock p) (sockets p) (conns p) (next p) (channel p) (timer p) (timer_keys p) x (results p) (polled p) (tasks p) (log p).
Definition set_results x p : Pool := mkPool (pool_clock p) (sockets p) (conns p) (next p) (channel p) (timer p) (timer_keys p) (expireds p) x (polled p) (tasks p) (log p).
Definition set_polled x p : Pool := mkPool (pool_clock p) (sockets p) (conns p) (next p) (channel p) (timer p) (timer_keys p) (expireds p) (results p) x (tasks p) (log p).
Definition set_tasks x p : Pool := mkPool (pool_clock p) (sockets p) (conns p) (next p) (channel p) (timer p) (timer_keys p) (expireds p) (results p) (polled p) x (log p).
Definition set_log x p : Pool := mkPool (pool_clock p) (sockets p) (conns p) (next p) (channel p) (timer p) (timer_keys p) (expireds p) (results p) (polled p) (tasks p) x.
Definition set_timer x k p : Pool := mkPool (pool_clock p) (sockets p) (conns p) (next p) (channel p) x k (expireds p) (results p) (polled p) (tasks p) (log p).
Definition set_next x p : Pool := mkPool (pool_clock p) (sockets p) (conns p) x (channel p) (timer p) (timer_keys p) (expireds p) (results p) (polled p) (tasks p) (log p).

(** [QuicSocketPool::new] *)
Definition new_pool (clock : Z) : Pool := mkPool clock ∅ ∅ 0 [] ∅ 0 ∅ ∅ [] [] [].

Definition spawn (t : Task) p : Pool := set_tasks (tasks p ++ [t]) p.
Definition ran (a : nat) (c : Callback) p : Pool := set_log (log p ++ [(a, c)]) p.
Definition send_event (e : PoolEvent C E) p : Pool := set_channel (channel p ++ [e]) p.

(** The connection of a handle of the package. *)
Definition get_socket (h : Z) p : option (nat * QuicSocket C) :=
  a ← sockets p !! h; s ← conns p !! a; Some (a, s).

(** Stores a connection; the events it sent go to the channel. *)
Definition put_conn (a : nat) s p : Pool :=
  set_conns (<[a := set_events [] s]> (conns p)) (set_channel (channel p ++ (OfSocket <$> events s)) p).

Definition push_timer (d h : Z) (e : option string) p : Z * Pool :=
  (timer_keys p, set_timer (<[timer_keys p := mkTimerItem d h e]> (timer p)) (timer_keys p + 1)%Z p).
Definition cancel_timer (k : Z) p : Pool := set_timer (delete k (timer p)) (timer_keys p) p.

(** [QuicSocket::close] *)
Definition close_conn (a : nat) (code : Z) (reason : io_result unit) p : Pool :=
  match conns p !! a with
  | None => p
  | Some s =>
      let '(s, woken, _) := close code reason s in
      let p := put_conn a s p in set_log (log p ++ ((fun id => (a, Woken id 0)) <$> woken)) p
  end.

(** ** Timers *)

(** [poll_timer]: a timer that is due; an empty event is one of the package's. *)
Definition timer_due (now : Z) p (k : Z) : outcome Pool :=
  match timer p !! k with
  | None => Done p
  | Some t =>
      let p := cancel_timer k p in
      match get_socket (timer_conn t) p with
      | None => Done p
      | Some (a, s) =>
          match timer_event t with
          | None => Done (set_expireds (<[timer_conn t := now]> (expireds p)) p)
          | Some e =>
              if is_closed s then Done p
              else
                let p := put_conn a (set_timer_handle None s) p in
                match socket_handle s with Some _ => Done (spawn (TCall a (Timeouted e)) p) | None => Panic end
          end
      end
  end.
Fixpoint poll_timer (now : Z) (due : list Z) p : outcome Pool :=
  match due with
  | [] => Done p
  | k :: due => p ← timer_due now p k; poll_timer now due p
  end.

(** ** The events of the channel *)

(** [handle_udp_accepted]; the address is a new one. *)
Definition handle_udp_accepted s p : Pool :=
  let s := set_event_sent true (set_qs_status 1 s) in
  set_next (S (next p)) (set_sockets (<[uid s := next p]> (sockets p)) (set_conns (<[next p := s]> (conns p)) p)).

Definition handle_connection_received (h : Z) (e : E) p : Pool :=
  match get_socket h p with
  | None => p
  | Some (a, s) => put_conn a (set_connect (handle_event e (connect s)) s) p
  end.

(** [handle_connection_sended]; [write] is the UDP socket. *)
Definition handle_connection_sended (write : list Z -> bool) (h : Z) (t : Transmit) p : outcome Pool :=
  match get_socket h p with
  | None => Done p
  | Some (a, _) => '(out, _) ← send_transmit write t; Done (ran a (Datagrams out) p)
  end.

Definition handle_stream_write_event (h id : Z) (buf : list Z) p : Pool :=
  match get_socket h p with
  | None => p
  | Some (a, s) => put_conn a (on_stream id (fun t => set_write_buf (write_buf t ++ buf) t) (set_ready id Writable s)) p
  end.

Definition handle_local_stream_open (h : Z) (d : Dir) (r : nat) p : Pool :=
  match get_socket h p with
  | None => set_results (<[r := Err ConnectionAborted]> (results p)) p
  | Some (a, s) =>
      match streams_open d (connect s) with
      | (c, Some id) => set_results (<[r := Ok id]> (results p)) (put_conn a (add_expanding_stream id d (set_connect c s)) p)
      | (c, None) => set_results (<[r := Err ConnectionAborted]> (results p)) (put_conn a (set_connect c s) p)
      end
  end.

Definition handle_streams (h id : Z) (r : QuicSocketReady) p : Pool :=
  match get_socket h p with
  | None => p
  | Some (a, _) =>
      let p := if is_readable r then spawn (TReadable a id) p else p in
      if is_writable r then spawn (TWritable a) p else p
  end.

(** [handle_stream_close]: whatever stream is asked for, the connection is closed; the
    code is that of the reason. *)
Definition handle_stream_close (h : Z) (id : option Z) p : Pool :=
  match get_socket h p with
  | None => p
  | Some (a, s) =>
      let code := match close_reason s with Some (code, _) => code | None => 0%Z end in
      put_conn a (shutdown id code (force_close code s)).1 p
  end.

Definition handle_connection_close (h : Z) p : outcome Pool :=
  match get_socket h p with
  | None => Done p
  | Some (a, s) =>
      let p := set_sockets (delete h (sockets p)) p in
      let p := match timer_ref s with Some k => cancel_timer k p | None => p end in
      let s := set_timer_ref None s in
      match socket_handle s with
      | None => Panic
      | Some _ =>
          let '(code, reason) := match close_reason s with Some e => e | None => (0%Z, Err Other) end in
          Done (spawn (TCall a (Closed (main_stream_id s) code reason)) (put_conn a (set_close_reason None s) p))
      end
  end.

(** [handle_rebind_udp] over the handles of the table. *)
Fixpoint handle_rebind_udp (udp : Z) (order : list Z) p : outcome Pool :=
  match order with
  | [] => Done p
  | h :: order =>
      match get_socket h p with
      | None => handle_rebind_udp udp order p
      | Some (a, s) =>
          match socket_handle s with
          | None => Panic
          | Some _ =>
              let s := set_udp_handle udp (put_socket_handle (Some udp) s) in
              handle_rebind_udp udp order (put_conn a (set_connect (ping (connect s)) s) p)
          end
      end
  end.

(** [handle_timeout_timer], an [async] function: what its future does. *)
Definition handle_timeout_timer (h : Z) (opt : option (Z * option string)) p : Pool :=
  match get_socket h p with
  | None => p
  | Some (a, s) =>
      if is_closed s then p
      else
        let p := match timer_handle s with Some k => cancel_timer k p | None => p end in
        match opt with
        | Some (timeout, e) =>
            let '(k, p) := push_timer timeout h e p in put_conn a (set_timer_handle (Some k) s) p
        | None => put_conn a (set_timer_handle None s) p
        end
  end.

(** A future that is dropped before it is polled. *)
Definition unpolled (future : Pool -> Pool) p : Pool := p.

(** The answers from outside in one turn. *)
Record Turn := mkTurn {
  turn_now : Z;
  turn_due : list Z;
  turn_write : list Z -> bool;
  turn_order : list Z;                   (* how the table is walked *)
  turn_fuel : nat;
}.

Definition handle_pool_event (t : Turn) (e : PoolEvent C E) p : outcome Pool :=
  match e with
  | Accepted s => Done (handle_udp_accepted s p)
  | ConnectionReceived h e => Done (handle_connection_received h e p)
  | OfSocket (ConnectionSend h tr) => handle_connection_sended (turn_write t) h tr p
  | OfSocket (StreamOpen h d r) => Done (handle_local_stream_open h d r p)
  | OfSocket (StreamReady h id r) => Done (handle_streams h id r p)
  | OfSocket (StreamWrite h id buf) => Done (handle_stream_write_event h id buf p)
  | RebindUdp udp => handle_rebind_udp udp (turn_order t) p
  | OfSocket (Timeout h o) => Done (unpolled (handle_timeout_timer h o) p)
  | OfSocket (StreamClose h id _) => Done (handle_stream_close h id p)
  | OfSocket (ConnectionClose h) => handle_connection_close h p
  end.

(** ** Driving the connections *)

(** How many datagrams a transmit counts for: a size of 0 is a division by zero. *)
Definition transmit_count (t : Transmit) : outcome nat :=
  match segment_size t with
  | None => Done 1
  | Some O => Panic
  | Some size => Done ((length (contents t) + size - 1) / size)
  end.

Fixpoint transmit_loop (fuel count : nat) s : outcome (QuicSocket C) :=
  match fuel with
  | O => NoFuel
  | S fuel =>
      match poll_transmit (clock s) 16 (connect s) with
      | (c, None) => Done (set_connect c s)
      | (c, Some t) =>
          n ← transmit_count t;
          let s := write_transmit t (set_connect c s) in
          if decide (20 < count + n) then Done s else transmit_loop fuel (count + n) s
      end
  end.

(** The timer of a connection; its delay is the time since the instant it is for. *)
Definition drive_timer (now h : Z) s p : QuicSocket C * Pool :=
  match poll_timeout (connect s) with
  | (c, None) => (set_expired None (set_connect c s), p)
  | (c, Some time) =>
      let s := set_connect c s in
      let d := Z.max 0 (now - time) in
      let '(s, p) :=
        match timer_ref s with
        | Some k =>
            if decide (expired s = Some time) then (s, p)
            else let '(k', p) := push_timer d h None (cancel_timer k p) in (set_timer_ref (Some k') s, p)
        | None => let '(k', p) := push_timer d h None p in (set_timer_ref (Some k') s, p)
        end in
      (set_expired (Some time) s, p)
  end.

(** An event of the connection at [a] for the application. *)
Definition connected_conn (a : nat) s p : outcome Pool :=
  s ← set_socket_handle s; Done (spawn (TCall a Connected) (put_conn a (set_qs_status 3 s) p)).

Definition app_event (a : nat) (h : Z) (e : AppEvent) s p : outcome Pool :=
  match e with
  | ConnectionConnected =>
      let s := set_qs_status 2 s in
      if is_client s then connected_conn a s p else Done (put_conn a s p)
  | ConnectionLost => Done (close_conn a 0 (Err ConnectionAborted) (put_conn a s p))
  | StreamOpened Bi =>
      match streams_accept Bi (connect s) with
      | (c, None) => Done (put_conn a (set_connect c s) p)
      | (c, Some id) =>
          let s := set_connect c s in
          p ← (if (id =? 0)%Z then connected_conn a (accept_main_streams id s) p
               else match socket_handle s with
                    | Some _ => Done (spawn (TCall a (OpenedStream id Bi)) (put_conn a (add_expanding_stream id Bi s) p))
                    | None => Panic
                    end);
          Done match conns p !! a with Some s => put_conn a (set_ready id Readable s) p | None => p end
      end
  | StreamReadable id => Done (put_conn a (set_ready id Readable s) p)
  | StreamFinished _ =>
      let p := put_conn a s p in
      Done (if is_send_finished s then send_event (OfSocket (ConnectionClose h)) p else p)
  | StreamStopped _ code =>
      let p := put_conn a s p in
      Done (if is_send_finished s then close_conn a (wrap 32 code) (Err ConnectionAborted) p else p)
  | _ => Done (put_conn a s p)
  end.

Fixpoint app_loop (fuel : nat) (a : nat) (h : Z) p : outcome Pool :=
  match fuel with
  | O => NoFuel
  | S fuel =>
      match conns p !! a with
      | None => Done p
      | Some s =>
          match poll_app (connect s) with
          | (c, None) => Done (put_conn a (set_connect c s) p)
          | (c, Some e) => p ← app_event a h e (set_connect c s) p; app_loop fuel a h p
          end
      end
  end.

(** The body of the loop of [poll_connection]. *)
Definition poll_one (t : Turn) (h : Z) p : outcome Pool :=
  match get_socket h p with
  | None => Done p
  | Some (a, s) =>
      let s := match expireds p !! h with
               | Some _ => set_connect (conn_timeout (pool_clock p) (connect s)) s
               | None => s
               end in
      s ← transmit_loop (turn_fuel t) 0 s;
      let '(s, p) := drive_timer (turn_now t) h s p in
      let '(c, xs) := endpoint_events (connect s) in
      let p := put_conn a (set_connect c s) (set_polled (polled p ++ [(a, xs)]) p) in
      app_loop (turn_fuel t) a h p
  end.
Fixpoint poll_connections (t : Turn) (order : list Z) p : outcome Pool :=
  match order with
  | [] => Done p
  | h :: order => p ← poll_one t h p; poll_connections t order p
  end.

(** [event_loop]: without an event the wait for one has timed out. *)
Definition event_loop (t : Turn) p : outcome Pool :=
  p ← poll_timer (turn_now t) (turn_due t) p;
  p ← match channel p with
      | [] => Done p
      | e :: rest => handle_pool_event t e (set_channel rest p)
      end;
  poll_connections t (turn_order t) p.

(** ** Tasks *)

(** The task of a readable stream: an error is kept for a closing that nobody does. *)
Definition read_task (a : nat) (id : Z) p : outcome Pool :=
  match conns p !! a with
  | None => Done p
  | Some s =>
      let '(s, r) := recv id s in
      match r with
      | Ok O => Done (put_conn a s p)
      | Ok n =>
          if is_wait_wakeup_read_ready id s then
            let '(s, woken) := wakeup_read_ready id s in
            let p := put_conn a s p in Done match woken with Some n => ran a (Woken id n) p | None => p end
          else match socket_handle s with
               | None => Panic
               | Some _ =>
                   if is_hibernated s then Done (put_conn a (push_hibernated_task (DeferredReaded id n) s) p)
                   else Done (ran a (Readed id n) (put_conn a s p))
               end
      | Err _ => Done (put_conn a s p)
      end
  end.

(** The task of a writable event sends every stream of the connection. *)
Fixpoint write_task (a : nat) (ids : list Z) p : outcome Pool :=
  match ids, conns p !! a with
  | id :: ids, Some s =>
      '(s, r) ← send id s;
      match r with
      | Err _ => write_task a ids (put_conn a s p)
      | Ok _ =>
          match socket_handle s with
          | None => Panic
          | Some _ =>
              if is_hibernated s then write_task a ids (put_conn a (push_hibernated_task (DeferredWrited id) s) p)
              else Done (spawn (TWriting a ids) (ran a (Writed id) (put_conn a s p)))
          end
      end
  | _, _ => Done p
  end.

Definition run_task (t : Task) p : outcome Pool :=
  match t with
  | TCall a c =>
      let p := ran a c p in Done match c with Closed _ _ _ => spawn (TRemoveHandle a) p | _ => p end
  | TReadable a id => read_task a id p
  | TWritable a => match conns p !! a with Some s => write_task a (get_stream_ids s) p | None => Done p end
  | TWriting a ids => write_task a ids p
  | TRemoveHandle a => Done match conns p !! a with Some s => put_conn a (put_socket_handle None s) p | None => p end
  end.

(** ** What the application does with a handle *)

Inductive AppOp :=
| AppWrite (id : Z) (buf : list Z)
| AppReadReady (id : Z) (n : nat)
| AppTake (id : Z) (n : nat)
| AppOpen (d : Dir) (r : nat)
| AppCloseStream (id : Z)
| AppReady (id : Z) (r : QuicSocketReady)
| AppTimeout (t : option (Z * option string))
| AppHibernate (h : nat)
| AppWake
| AppRun.

Definition app_state (op : AppOp) s : outcome (QuicSocket C) :=
  match op with
  | AppWrite id buf => Done (write_ready id buf s).1
  | AppReadReady id n => Done (read_ready id n s).1
  | AppTake id n => '(s, _) ← copy_to_bytes id n s; Done s
  | AppOpen d r => Done (open_expanding_stream d r s).1
  | AppCloseStream id => '(s, _, _) ← close_expanding_stream id s; Done s
  | AppReady id r => Done (set_ready id r s)
  | AppTimeout (Some (t, e)) => Done (set_timeout t e s)
  | AppTimeout None => Done (unset_timeout s)
  | AppHibernate h => Done (set_hibernate h s).1
  | AppWake => Done (set_hibernation None (hibernated_queue s) s)
  | AppRun => Done (set_hibernation (hibernate s) (tail (hibernated_queue s)) s)
  end.

(** The values and callbacks that come with it. *)
Definition app_log (op : AppOp) (a : nat) s : list (nat * Callback) :=
  match op with
  | AppRun =>
      match hibernated_queue s with
      | DeferredReaded id n :: _ => [(a, Readed id n)]
      | DeferredWrited id :: _ => [(a, Writed id)]
      | [] => []
      end
  | AppCloseStream id =>
      match close_expanding_stream id s with Done (_, true, _) => [(a, Woken id 0)] | _ => [] end
  | _ => []
  end.

Definition app (a : nat) (op : AppOp) p : outcome Pool :=
  match conns p !! a with
  | None => Done p
  | Some s => s' ← app_state op s; Done (set_log (log p ++ app_log op a s) (put_conn a s' p))
  end.

(** [SocketHandle::broadcast]: every stream of every handle is written. *)
Fixpoint broadcast_streams (a : nat) (ids : list Z) (payload : list Z) p : Pool * io_result unit :=
  match ids, conns p !! a with
  | id :: ids, Some s =>
      let '(s, r) := write_ready id payload s in
      let p := put_conn a s p in
      match r with Ok _ => broadcast_streams a ids payload p | Err e => (p, Err e) end
  | _, _ => (p, Ok tt)
  end.
Fixpoint broadcast (handles : list nat) (payload : list Z) p : Pool * io_result unit :=
  match handles with
  | [] => (p, Ok tt)
  | a :: handles =>
      let ids := match conns p !! a with Some s => get_stream_ids s | None => [] end in
      match broadcast_streams a ids payload p with
      | (p, Ok _) => broadcast handles payload p
      | (p, Err e) => (p, Err e)
      end
  end.
End pool.

(** ** Operations keep the handle of a connection *)

Section uids.
Context {C : Type} `{QuinnApi C}.
Implicit Types s : QuicSocket C.

Lemma uid_on_stream id f s : uid (on_stream id f s) = uid s.
Proof. unfold on_stream. by case_step. Qed.
Lemma uid_notify e s : uid (notify e s) = uid s.
Proof. unfold notify. by case_step. Qed.
Lemma uid_set_ready id r s : uid (set_ready id r s) = uid s.
Proof. apply uid_notify. Qed.
Hint Rewrite uid_on_stream uid_notify uid_set_ready : quic_uid.

Ltac uid_cases := repeat (autorewrite with quic_uid; cbn; first [done | case_step; simplify_eq/=]).

Lemma uid_wakeup id s : uid (wakeup_read_ready id s).1 = uid s.
Proof. unfold wakeup_read_ready. uid_cases. Qed.
Lemma uid_wake id s : uid (wake_stream id s).1 = uid s.
Proof. unfold wake_stream. uid_cases. Qed.
Lemma uid_wakes ids s : uid (wake_streams ids s).1 = uid s.
Proof.
  revert s. induction ids as [|id ids IH]; intros s; [done|]. cbn.
  pose proof (uid_wake id s) as E. destruct (wake_stream id s) as [s1 w]. specialize (IH s1).
  destruct (wake_streams ids s1) as [s2 l]. cbn in *. congruence.
Qed.
Lemma uid_close code r s : uid (close code r s).1.1 = uid s.
Proof.
  unfold close. case_step; [done|]. pose proof (uid_wakes (get_stream_ids (set_qs_status 4 s)) (set_qs_status 4 s)) as E.
  destruct (wake_streams _ _) as [s1 w]. cbn in *. by rewrite uid_notify.
Qed.
Lemma uid_shutdown ids code s : uid (shutdown_streams ids code s).1 = uid s.
Proof.
  revert s. induction ids as [|id ids IH]; intros s; [done|]. cbn. destruct (recv_stop _ _ _) as [c []]; [|done]. cbn.
  destruct (send_finish _ _) as [c' []]; [|done]. cbn. by rewrite IH.
Qed.
Lemma uid_ensure id s : uid (ensure_expanding id s) = uid s.
Proof. unfold ensure_expanding. by case_step. Qed.
Lemma uid_drop_readed id s : uid (drop_readed id s) = uid s.
Proof. apply uid_on_stream. Qed.
Lemma uid_recv id s : uid (recv id s).1 = uid s.
Proof.
  unfold recv. case_step; [done|]. destruct (recv_open _ _) as [c []]; cbn; [|apply uid_ensure].
  case_step; cbn; [|by rewrite uid_drop_readed; apply uid_ensure].
  destruct (recv_chunks _ _) as [c' [blocks stop]]. destruct stop; cbn; case_step; cbn;
    by rewrite ?uid_drop_readed, ?uid_set_ready, !uid_on_stream; apply uid_ensure.
Qed.
Lemma uid_send_loop fuel id block pos r s s' pos' r' :
  send_loop fuel id block pos r s = Done (s', pos', r') -> uid s' = uid s.
Proof.
  revert block pos r s. induction fuel as [|fuel IH]; intros block pos r s; destruct block as [|b block]; cbn [send_loop];
    intros E; simplify_eq/=; [done..|].
  destruct (send_write _ _ _) as [c [[|n]| |]]; simplify_eq/=; [done| | |done].
  - case_decide; [|done]. apply IH in E. by rewrite E, uid_on_stream.
  - case_decide; simplify_eq/=. by rewrite uid_on_stream.
Qed.
Lemma uid_send id s s' r : send id s = Done (s', r) -> uid s' = uid s.
Proof.
  unfold send. intros E. destruct (get_stream id s) as [t|]; [|by destruct (get_status s); simplify_eq].
  destruct (get_status s); [| | | | |by simplify_eq];
    (destruct (send_loop _ _ _ _ _ _) as [[[s1 pos] r1]| | |] eqn:El; simplify_eq/=; apply uid_send_loop in El;
     by rewrite uid_set_ready, uid_on_stream, El, uid_on_stream).
Qed.
Lemma uid_read_ready id n s : uid (read_ready id n s).1 = uid s.
Proof. unfold read_ready. uid_cases. Qed.
Lemma uid_write_ready id buf s : uid (write_ready id buf s).1 = uid s.
Proof. unfold write_ready. uid_cases. Qed.
End uids.

Section app_uids.
Context {C E X : Type} `{QuinnApi C} `{QuinnPoll C E X}.
Implicit Types s : QuicSocket C.

Lemma uid_app op s s' : app_state op s = Done s' -> uid s' = uid s.
Proof.
  destruct op as [id buf|id n|id n|d r|id|id r|[[t e]|]|h| |]; cbn; intros Eq; simplify_eq/=;
    try by rewrite ?uid_write_ready, ?uid_read_ready, ?uid_set_ready.
  - unfold copy_to_bytes in Eq. destruct (get_stream id s); [|done]. cbn in Eq. case_decide; simplify_eq/=. apply uid_on_stream.
  - unfold open_expanding_stream. case_step; [apply uid_notify|done].
  - unfold close_expanding_stream in Eq. case_step_in Eq; simplify_eq/=; [done|]. destruct (main_stream_id s) as [m|]; [|done]. cbn in Eq.
    case_step_in Eq; simplify_eq/=; [done|]. pose proof (uid_wake id s) as Eu. destruct (wake_stream id s) as [s1 w].
    simplify_eq/=. by rewrite uid_notify.
  - apply uid_notify.
  - apply uid_notify.
  - unfold set_hibernate. by case_step.
Qed.
End app_uids.

(** ** Reachable states *)

Section steps.
Context {C E X : Type} `{QuinnApi C} `{QuinnPoll C E X}.
Notation Pool := (Pool C E X).
Implicit Types p : Pool.
Implicit Types s : QuicSocket C.

(** The turns of the loop, what the listener sends, the tasks in any order, and the
    application, interleaved. *)
Inductive pool_step : Pool -> Pool -> Prop :=
| step_turn t p p' : event_loop t p = Done p' -> pool_step p p'
| step_arrive e p : pool_step p (send_event e p)
| step_task t pre post p p' :
    tasks p = pre ++ t :: post -> run_task t (set_tasks (pre ++ post) p) = Done p' -> pool_step p p'
| step_app a op p p' : app a op p = Done p' -> pool_step p p'
| step_close a code reason p : pool_step p (close_conn a code reason p).

Definition reachable (clock : Z) : Pool -> Prop := rtc pool_step (new_pool clock).

(** ** The invariant *)

Definition closed_log (l : list (nat * Callback)) : list nat :=
  omap (fun e => match e.2 with Closed _ _ _ => Some e.1 | _ => None end) l.
Definition closed_tasks (l : list Task) : list nat :=
  omap (fun t => match t with TCall a (Closed _ _ _) => Some a | _ => None end) l.

(** The connections whose closing has been called back, or will be. *)
Definition closing p : list nat := closed_log (log p) ++ closed_tasks (tasks p).

Record pool_inv p : Prop := {
  inv_socket h a : sockets p !! h = Some a -> exists s, conns p !! a = Some s /\ uid s = h;
  inv_next a s : conns p !! a = Some s -> a < next p;
  inv_closing a : a ∈ closing p -> a < next p /\ forall h, sockets p !! h <> Some a;
  inv_once : NoDup (closing p);
  inv_timer k t : timer p !! k = Some t -> timer_event t = None;
  inv_tasks a e : TCall a (Timeouted e) ∉ tasks p;
  inv_log a e : (a, Timeouted e) ∉ log p;
}.

Lemma q_new_pool_inv clock : pool_inv (new_pool clock).
Proof. split; cbn; intros; rewrite ?lookup_empty in *; try set_solver. constructor. Qed.

(** A task or callback that is neither a closing nor a timeout. *)
Definition plain_call (c : Callback) : Prop := match c with Closed _ _ _ | Timeouted _ => False | _ => True end.
Definition plain_task (t : Task) : Prop := match t with TCall _ c => plain_call c | _ => True end.

Lemma q_closed_log_app l l' : closed_log (l ++ l') = closed_log l ++ closed_log l'.
Proof. apply omap_app. Qed.
Lemma q_closed_tasks_app l l' : closed_tasks (l ++ l') = closed_tasks l ++ closed_tasks l'.
Proof. apply omap_app. Qed.

Lemma q_spawn_inv t p : plain_task t -> pool_inv p -> pool_inv (spawn t p).
Proof.
  intros Ht I. assert (closing (spawn t p) = closing p) as Ec.
  { unfold closing. cbn. rewrite q_closed_tasks_app. destruct t as [a []| | | |]; try done; cbn; by rewrite app_nil_r. }
  destruct I. split; try done; rewrite ?Ec; try done. intros a e [Hin|Hin]%elem_of_app; [by eapply inv_tasks0|].
  apply list_elem_of_singleton in Hin. by subst t.
Qed.

Lemma q_ran_inv a c p : plain_call c -> pool_inv p -> pool_inv (ran a c p).
Proof.
  intros Hc I. assert (closing (ran a c p) = closing p) as Ec.
  { unfold closing. cbn. rewrite q_closed_log_app. destruct c; try done; cbn; by rewrite app_nil_r. }
  destruct I. split; try done; rewrite ?Ec; try done. intros b e [Hin|Hin]%elem_of_app; [by eapply inv_log0|].
  apply list_elem_of_singleton in Hin as [= -> <-]. done.
Qed.

Lemma q_log_inv l p : Forall (fun e => plain_call e.2) l -> pool_inv p -> pool_inv (set_log (log p ++ l) p).
Proof.
  intros Hl. revert p. induction Hl as [|[a c] l Hc Hl IH]; intros p I.
  - rewrite app_nil_r. by destruct p.
  - rewrite cons_middle, (assoc_L (++)). apply (IH (ran a c p)). by apply q_ran_inv.
Qed.

(** Parts of the state that the invariant does not speak of. *)
Lemma q_channel_inv x p : pool_inv p -> pool_inv (set_channel x p).
Proof. by intros []. Qed.
Lemma q_expireds_inv x p : pool_inv p -> pool_inv (set_expireds x p).
Proof. by intros []. Qed.
Lemma q_results_inv x p : pool_inv p -> pool_inv (set_results x p).
Proof. by intros []. Qed.
Lemma q_polled_inv x p : pool_inv p -> pool_inv (set_polled x p).
Proof. by intros []. Qed.
Lemma q_cancel_inv k p : pool_inv p -> pool_inv (cancel_timer k p).
Proof. intros []. split; try done. cbn. intros k' t [_ Hk]%lookup_delete_Some. by eapply inv_timer0. Qed.
Lemma q_push_inv d h p : pool_inv p -> pool_inv (push_timer d h None p).2.
Proof. intros []. split; try done. cbn. intros k' t [[_ <-]|[_ Hk]]%lookup_insert_Some; [done|]. by eapply inv_timer0. Qed.

Lemma q_put_inv a s0 s p : conns p !! a = Some s0 -> uid s = uid s0 -> pool_inv p -> pool_inv (put_conn a s p).
Proof.
  intros Ha Hu []. split; try done; cbn.
  - intros h b Hb. destruct (inv_socket0 _ _ Hb) as (s1 & E1 & Eu). destruct (decide (a = b)) as [<-|].
    + rewrite lookup_insert_eq. eexists. split; [done|]. cbn. congruence.
    + rewrite lookup_insert_ne by done. eauto.
  - intros b s1 [[<- _]|[_ Hb]]%lookup_insert_Some; eauto.
Qed.
Lemma put_conn_lookup_same a s p : conns (put_conn a s p) !! a = Some (set_events [] s).
Proof. apply lookup_insert_eq. Qed.

Lemma get_socket_spec h a s p : get_socket h p = Some (a, s) <-> sockets p !! h = Some a /\ conns p !! a = Some s.
Proof.
  unfold get_socket. destruct (sockets p !! h) as [b|]; cbn; [|naive_solver].
  destruct (conns p !! b) as [s'|] eqn:E1; cbn; naive_solver congruence.
Qed.

Lemma q_close_conn_inv a code r p : pool_inv p -> pool_inv (close_conn a code r p).
Proof.
  intros I. unfold close_conn. destruct (conns p !! a) as [s|] eqn:Ha; [|done].
  pose proof (uid_close code r s) as Eu. destruct (close code r s) as [[s' woken] r']. cbn in *.
  apply (q_log_inv _ (put_conn a s' p)); [|by eapply q_put_inv].
  apply Forall_fmap, Forall_true. done.
Qed.
End steps.

Create HintDb quic_inv.
#[export] Hint Resolve q_spawn_inv q_ran_inv q_channel_inv q_expireds_inv q_results_inv q_polled_inv q_cancel_inv
  q_push_inv q_close_conn_inv : quic_inv.
#[export] Hint Extern 1 (plain_task _) => exact I : quic_inv.
#[export] Hint Extern 1 (plain_call _) => exact I : quic_inv.

(** ** The loop keeps the invariant *)

Section loop.
Context {C E X : Type} `{QuinnApi C} `{QuinnPoll C E X}.
Notation Pool := (Pool C E X).
Implicit Types p : Pool.
Implicit Types s : QuicSocket C.

Lemma bind_done {A B} (m : outcome A) (f : A -> outcome B) b : (m ≫= f) = Done b -> exists a, m = Done a /\ f a = Done b.
Proof. destruct m; try done. intros E1. by eexists. Qed.

Lemma q_unset_timer_inv a s p : conns p !! a = Some s -> pool_inv p -> pool_inv (put_conn a (set_timer_handle None s) p).
Proof. intros Ha. by apply (q_put_inv a s). Qed.

Lemma q_timer_due_inv now k p p' : timer_due now p k = Done p' -> pool_inv p -> pool_inv p'.
Proof.
  unfold timer_due. intros Ed I. destruct (timer p !! k) as [t|] eqn:Et; simplify_eq/=; [|done].
  destruct (get_socket _ _) as [[a s]|]; simplify_eq/=; [|by apply q_cancel_inv].
  rewrite (inv_timer _ I _ _ Et) in Ed. simplify_eq/=. by apply q_expireds_inv, q_cancel_inv.
Qed.
Lemma q_poll_timer_inv now due p p' : poll_timer now due p = Done p' -> pool_inv p -> pool_inv p'.
Proof.
  revert p. induction due as [|k due IH]; intros p Ed I; simplify_eq/=; [done|].
  apply bind_done in Ed as (q & E1 & E2). eapply IH; [exact E2|]. by eapply q_timer_due_inv.
Qed.

Lemma q_accepted_inv s p : pool_inv p -> pool_inv (handle_udp_accepted s p).
Proof.
  intros []. split; try done; cbn.
  - intros h a [[<- <-]|[Hne Ha]]%lookup_insert_Some.
    + rewrite lookup_insert_eq. by eexists.
    + destruct (inv_socket0 _ _ Ha) as (s' & E1 & E2). exists s'. split; [|done].
      rewrite lookup_insert_ne; [done|]. intros <-. apply inv_next0 in E1. lia.
  - intros a s' [[<- _]|[_ Ha]]%lookup_insert_Some; [lia|]. apply inv_next0 in Ha. lia.
  - intros a Ha. destruct (inv_closing0 _ Ha) as [Hlt Hn]. split; [lia|].
    intros h [[_ <-]|[_ Hh]]%lookup_insert_Some; [lia|]. by eapply Hn.
Qed.

Lemma q_received_inv h e p : pool_inv p -> pool_inv (handle_connection_received h e p).
Proof.
  intros I. unfold handle_connection_received. destruct (get_socket h p) as [[a s]|] eqn:Eg; [|done].
  apply get_socket_spec in Eg as [_ Ha]. by apply (q_put_inv a s).
Qed.
Lemma q_sended_inv w h t p p' : handle_connection_sended w h t p = Done p' -> pool_inv p -> pool_inv p'.
Proof.
  unfold handle_connection_sended. intros Ed I. destruct (get_socket h p) as [[a s]|]; simplify_eq/=; [|done].
  apply bind_done in Ed as ([out r] & _ & E2). simplify_eq/=. by apply q_ran_inv.
Qed.
Lemma q_write_event_inv h id buf p : pool_inv p -> pool_inv (handle_stream_write_event h id buf p).
Proof.
  intros I. unfold handle_stream_write_event. destruct (get_socket h p) as [[a s]|] eqn:Eg; [|done].
  apply get_socket_spec in Eg as [_ Ha]. apply (q_put_inv a s); [done| |done]. by rewrite uid_on_stream, uid_set_ready.
Qed.
Lemma q_open_inv h d r p : pool_inv p -> pool_inv (handle_local_stream_open h d r p).
Proof.
  intros I. unfold handle_local_stream_open. destruct (get_socket h p) as [[a s]|] eqn:Eg; [|by apply q_results_inv].
  apply get_socket_spec in Eg as [_ Ha]. destruct (streams_open _ _) as [c [id|]]; by apply q_results_inv, (q_put_inv a s).
Qed.
Lemma q_streams_inv h id r p : pool_inv p -> pool_inv (handle_streams h id r p).
Proof.
  intros I. unfold handle_streams. destruct (get_socket h p) as [[a s]|]; [|done].
  destruct (is_readable r), (is_writable r); auto with quic_inv.
Qed.
Lemma q_stream_close_inv h id p : pool_inv p -> pool_inv (handle_stream_close h id p).
Proof.
  intros I. unfold handle_stream_close. destruct (get_socket h p) as [[a s]|] eqn:Eg; [|done].
  apply get_socket_spec in Eg as [_ Ha]. apply (q_put_inv a s); [done| |done]. unfold shutdown. by rewrite uid_shutdown.
Qed.
Lemma q_rebind_inv udp order p p' : handle_rebind_udp udp order p = Done p' -> pool_inv p -> pool_inv p'.
Proof.
  revert p. induction order as [|h order IH]; intros p Ed I; simplify_eq/=; [done|].
  destruct (get_socket h p) as [[a s]|] eqn:Eg; [|by eapply IH]. apply get_socket_spec in Eg as [_ Ha].
  destruct (socket_handle s); [|done]. eapply IH; [exact Ed|]. by apply (q_put_inv a s).
Qed.

(** A closed connection is no more in the table: its closing is called back once. *)
Lemma q_connection_close_inv h p p' : handle_connection_close h p = Done p' -> pool_inv p -> pool_inv p'.
Proof.
  unfold handle_connection_close. intros Ed I. destruct (get_socket h p) as [[a s]|] eqn:Eg; simplify_eq/=; [|done].
  apply get_socket_spec in Eg as [Hh Ha]. destruct (inv_socket _ I _ _ Hh) as (s' & Ha' & <-).
  rewrite Ha in Ha'. injection Ha' as <-. destruct (socket_handle s); [|done]. destruct (match close_reason s with Some e => e | None => _ end) as [code reason].
  set (p1 := match timer_ref s with Some k => cancel_timer k _ | None => _ end) in *. simplify_eq/=.
  assert (sockets p1 = delete (uid s) (sockets p) /\ conns p1 = conns p /\ next p1 = next p /\ tasks p1 = tasks p /\ log p1 = log p
    /\ (forall k t, timer p1 !! k = Some t -> timer_event t = None)) as (Es & Ec & En & Et & El & Ht).
  { unfold p1. destruct (timer_ref s); split_and!; try done; [|apply I]. cbn. intros k t [_ Hk]%lookup_delete_Some. by eapply inv_timer. }
  assert (forall k b, delete (uid s) (sockets p) !! k = Some b -> b <> a) as Hne.
  { intros k b [Hk Hb]%lookup_delete_Some ->. destruct (inv_socket _ I _ _ Hb) as (s2 & E2 & <-). congruence. }
  assert (closing (spawn (TCall a (Closed (main_stream_id s) code reason)) (put_conn a (set_close_reason None (set_timer_ref None s)) p1))
    = closing p ++ [a]) as Ecl.
  { unfold closing. cbn. rewrite Et, El, q_closed_tasks_app. cbn. by rewrite (assoc_L (++)). }
  split; cbn [spawn put_conn set_tasks set_conns set_channel sockets conns next timer tasks log].
  - rewrite Es, Ec. intros k b Hb. specialize (Hne _ _ Hb). apply lookup_delete_Some in Hb as [_ Hb].
    destruct (inv_socket _ I _ _ Hb) as (s2 & E2 & E3). exists s2. by rewrite lookup_insert_ne.
  - rewrite Ec, En. intros b s2 [[<- _]|[_ Hb]]%lookup_insert_Some; by eapply inv_next.
  - rewrite Ecl, Es, En. intros b [Hb|Hb]%elem_of_app; [|apply list_elem_of_singleton in Hb as ->].
    + destruct (inv_closing _ I _ Hb) as [Hlt Hn]. split; [done|]. by intros k [_ Hk]%lookup_delete_Some; eapply Hn.
    + split; [by eapply inv_next|]. by intros k Hk; eapply Hne.
  - rewrite Ecl. apply NoDup_app. split_and!; [apply I| |apply NoDup_singleton].
    intros b Hb Hb'%list_elem_of_singleton. subst b. destruct (inv_closing _ I _ Hb) as [_ Hn]. by eapply Hn.
  - done.
  - rewrite Et. intros b e [Hin|Hin]%elem_of_app; [by eapply inv_tasks|]. by apply list_elem_of_singleton in Hin.
  - rewrite El. apply I.
Qed.

(** *** Driving the connections *)

Lemma uid_transmit_loop fuel count s s' : transmit_loop fuel count s = Done s' -> uid s' = uid s.
Proof.
  revert count s. induction fuel as [|fuel IH]; intros count s Ed; simplify_eq/=.
  destruct (poll_transmit _ _ _) as [c [t|]]; simplify_eq/=; [|done].
  apply bind_done in Ed as (n & _ & Ed). unfold write_transmit in Ed.
  case_decide; simplify_eq/=; [by rewrite uid_notify|]. apply IH in Ed. by rewrite Ed, uid_notify.
Qed.

Lemma drive_timer_spec now h s p : pool_inv p ->
  pool_inv (drive_timer now h s p).2 /\ conns (drive_timer now h s p).2 = conns p /\ uid (drive_timer now h s p).1 = uid s.
Proof.
  intros I. unfold drive_timer. destruct (poll_timeout _) as [c [time|]]; [|done]. cbn.
  destruct (timer_ref s) as [k|]; [case_decide|]; split_and!; try done.
  - by apply (q_push_inv _ _ (cancel_timer k p)), q_cancel_inv.
  - by apply q_push_inv.
Qed.

Lemma q_connected_inv a s0 s p p' : connected_conn a s p = Done p' -> conns p !! a = Some s0 -> uid s = uid s0 ->
  pool_inv p -> pool_inv p'.
Proof.
  unfold connected_conn, set_socket_handle. intros Ed Ha Eu I. destruct (event_send s); simplify_eq/=.
  apply q_spawn_inv; [done|]. by apply (q_put_inv a s0).
Qed.

Lemma q_put_ready_inv a id p : pool_inv p ->
  pool_inv match conns p !! a with Some s => put_conn a (set_ready id Readable s) p | None => p end.
Proof. intros I. destruct (conns p !! a) as [s|] eqn:Ha; [|done]. apply (q_put_inv a s); [done| |done]. apply uid_set_ready. Qed.

Lemma q_app_event_inv a h e s0 s p p' : app_event a h e s p = Done p' -> conns p !! a = Some s0 -> uid s = uid s0 ->
  pool_inv p -> pool_inv p'.
Proof.
  intros Ed Ha Eu I. assert (pool_inv (put_conn a s p)) as Ip by (by apply (q_put_inv a s0)).
  destruct e as [| | |id|[]| |id|d|id|id code]; simplify_eq/=; try done.
  - destruct (is_client _); [by eapply (q_connected_inv a s0)|]. simplify_eq/=. by apply (q_put_inv a s0).
  - by apply q_close_conn_inv.
  - destruct (streams_accept _ _) as [c [id|]]; [|by simplify_eq/=; apply (q_put_inv a s0)].
    apply bind_done in Ed as (q & Eq & Ed). simplify_eq/=. apply q_put_ready_inv.
    destruct (id =? 0)%Z; [by eapply (q_connected_inv a s0)|]. destruct (socket_handle s); simplify_eq/=.
    apply q_spawn_inv; [done|]. by apply (q_put_inv a s0).
  - apply (q_put_inv a s0); [done| |done]. by rewrite uid_set_ready.
  - case_match; [by apply q_channel_inv|done].
  - case_match; [by apply q_close_conn_inv|done].
Qed.

Lemma q_app_loop_inv fuel a h p p' : app_loop fuel a h p = Done p' -> pool_inv p -> pool_inv p'.
Proof.
  revert p. induction fuel as [|fuel IH]; intros p Ed I; simplify_eq/=.
  destruct (conns p !! a) as [s|] eqn:Ha; simplify_eq/=; [|done].
  destruct (poll_app _) as [c [e|]]; simplify_eq/=; [|by apply (q_put_inv a s)].
  apply bind_done in Ed as (q & Eq & Ed). eapply IH; [exact Ed|]. by eapply (q_app_event_inv a h e s).
Qed.

Lemma q_poll_one_inv t h p p' : poll_one t h p = Done p' -> pool_inv p -> pool_inv p'.
Proof.
  unfold poll_one. intros Ed I. destruct (get_socket h p) as [[a s]|] eqn:Eg; simplify_eq/=; [|done].
  apply get_socket_spec in Eg as [_ Ha]. apply bind_done in Ed as (s1 & E1 & Ed). apply uid_transmit_loop in E1.
  destruct (drive_timer_spec (turn_now t) h s1 p I) as (I2 & E2 & U2).
  destruct (drive_timer (turn_now t) h s1 p) as [s2 p2]. cbn in I2, E2, U2. destruct (endpoint_events (connect s2)) as [c xs].
  eapply q_app_loop_inv; [exact Ed|]. apply (q_put_inv a s).
  - cbn. by rewrite E2.
  - cbn. rewrite U2, E1. by case_match.
  - by apply q_polled_inv.
Qed.
Lemma q_poll_connections_inv t order p p' : poll_connections t order p = Done p' -> pool_inv p -> pool_inv p'.
Proof.
  revert p. induction order as [|h order IH]; intros p Ed I; simplify_eq/=; [done|].
  apply bind_done in Ed as (q & E1 & E2). eapply IH; [exact E2|]. by eapply q_poll_one_inv.
Qed.

Lemma q_pool_event_inv t e p p' : handle_pool_event t e p = Done p' -> pool_inv p -> pool_inv p'.
Proof.
  intros Ed I. destruct e as [s|h e|[h tr|h d r|h id r|h id buf|h o|h id code|h]|udp]; simplify_eq/=; try done.
  - by apply q_accepted_inv.
  - by apply q_received_inv.
  - by eapply q_sended_inv.
  - by apply q_open_inv.
  - by apply q_streams_inv.
  - by apply q_write_event_inv.
  - by apply q_stream_close_inv.
  - by eapply q_connection_close_inv.
  - by eapply q_rebind_inv.
Qed.

Lemma q_event_loop_inv t p p' : event_loop t p = Done p' -> pool_inv p -> pool_inv p'.
Proof.
  unfold event_loop. intros Ed I. apply bind_done in Ed as (p1 & E1 & Ed). apply bind_done in Ed as (p2 & E2 & Ed).
  eapply q_poll_connections_inv; [exact Ed|]. assert (pool_inv p1) as I1 by (by eapply q_poll_timer_inv).
  destruct (channel p1); simplify_eq/=; [done|]. eapply q_pool_event_inv; [exact E2|]. by apply q_channel_inv.
Qed.

(** *** Tasks and the application *)

Lemma q_read_task_inv a id p p' : read_task a id p = Done p' -> pool_inv p -> pool_inv p'.
Proof.
  unfold read_task. intros Ed I. destruct (conns p !! a) as [s|] eqn:Ha; simplify_eq/=; [|done].
  pose proof (uid_recv id s) as Eu. destruct (recv id s) as [s1 r]. cbn in Eu.
  assert (forall s', uid s' = uid s1 -> pool_inv (put_conn a s' p)) as Ip by (intros; apply (q_put_inv a s); congruence).
  destruct r as [[|n]|e]; simplify_eq/=; [by apply Ip| |by apply Ip].
  destruct (is_wait_wakeup_read_ready id s1).
  - pose proof (uid_wakeup id s1) as Ew. destruct (wakeup_read_ready id s1) as [s2 [w|]]; simplify_eq/=; [apply q_ran_inv; [done|]|]; by apply Ip.
  - destruct (socket_handle s1); [|done]. case_match; simplify_eq/=; [by apply Ip|]. apply q_ran_inv; [done|]. by apply Ip.
Qed.

Lemma q_write_task_inv a ids p p' : write_task a ids p = Done p' -> pool_inv p -> pool_inv p'.
Proof.
  revert p. induction ids as [|id ids IH]; intros p Ed I; simplify_eq/=; [done|].
  destruct (conns p !! a) as [s|] eqn:Ha; simplify_eq/=; [|done].
  apply bind_done in Ed as ([s1 r] & E1 & Ed). apply uid_send in E1.
  assert (forall s', uid s' = uid s1 -> pool_inv (put_conn a s' p)) as Ip by (intros; apply (q_put_inv a s); congruence).
  destruct r as [n|e]; [|eapply IH; [exact Ed|]; by apply Ip]. destruct (socket_handle s1); [|done].
  case_match; simplify_eq/=; [eapply IH; [exact Ed|]; by apply Ip|].
  apply q_spawn_inv; [done|]. apply q_ran_inv; [done|]. by apply Ip.
Qed.

(** A task that is taken from the runtime. *)
Lemma q_take_task_inv t pre post p : tasks p = pre ++ t :: post -> plain_task t -> pool_inv p -> pool_inv (set_tasks (pre ++ post) p).
Proof.
  intros Et Ht I. assert (closing (set_tasks (pre ++ post) p) = closing p) as Ec.
  { unfold closing. cbn. rewrite Et, !q_closed_tasks_app. destruct t as [a []| | | |]; done. }
  destruct I. split; try done; rewrite ?Ec; try done. cbn. intros a e Hin. apply (inv_tasks0 a e). rewrite Et. set_solver.
Qed.

Lemma q_closed_task_inv a id code r pre post p : tasks p = pre ++ TCall a (Closed id code r) :: post -> pool_inv p ->
  pool_inv (ran a (Closed id code r) (set_tasks (pre ++ post) p)).
Proof.
  intros Et I. set (p' := ran _ _ _). assert (closing p' ≡ₚ closing p) as Ep.
  { unfold closing, p'. cbn. rewrite Et, q_closed_log_app, !q_closed_tasks_app. cbn. rewrite <-(assoc_L (++)).
    apply Permutation_app_head. cbn. apply Permutation_middle. }
  destruct I. split; try done.
  - intros b. rewrite Ep. apply inv_closing0.
  - by rewrite Ep.
  - intros b e Hin. apply (inv_tasks0 b e). rewrite Et. cbn in Hin. set_solver.
  - intros b e [Hin|Hin]%elem_of_app; [by eapply inv_log0|]. by apply list_elem_of_singleton in Hin.
Qed.

Lemma q_run_task_inv t pre post p p' : tasks p = pre ++ t :: post -> run_task t (set_tasks (pre ++ post) p) = Done p' ->
  pool_inv p -> pool_inv p'.
Proof.
  intros Et Ed I. destruct t as [a c|a id|a|a ids|a].
  - simplify_eq/=. destruct c as [| | | |id code r|e| |];
      try (apply q_ran_inv; [done|]; by eapply q_take_task_inv).
    + apply q_spawn_inv; [done|]. by apply q_closed_task_inv.
    + destruct (inv_tasks _ I a e). rewrite Et. set_solver.
  - eapply q_read_task_inv; [exact Ed|]. by eapply q_take_task_inv.
  - assert (pool_inv (set_tasks (pre ++ post) p)) as I' by (by eapply q_take_task_inv).
    cbn in Ed. destruct (conns p !! a); simplify_eq/=; [|done]. by eapply q_write_task_inv.
  - eapply q_write_task_inv; [exact Ed|]. by eapply q_take_task_inv.
  - assert (pool_inv (set_tasks (pre ++ post) p)) as I' by (by eapply q_take_task_inv).
    cbn in Ed. destruct (conns p !! a) as [s|] eqn:Ha; simplify_eq/=; [|done]. by apply (q_put_inv a s).
Qed.

Lemma q_app_inv a op p p' : app a op p = Done p' -> pool_inv p -> pool_inv p'.
Proof.
  unfold app. intros Ed I. destruct (conns p !! a) as [s|] eqn:Ha; simplify_eq/=; [|done].
  apply bind_done in Ed as (s' & Es & Ed). apply uid_app in Es. simplify_eq/=.
  apply (q_log_inv _ (put_conn a s' p)); [|by apply (q_put_inv a s)].
  destruct op; cbn; try constructor; repeat case_match; repeat constructor.
Qed.

Lemma q_pool_step_inv p p' : pool_step p p' -> pool_inv p -> pool_inv p'.
Proof.
  intros [t q q' Et|e q|t pre post q q' Et Er|a op q q' Ea|a code r q] I.
  - by eapply q_event_loop_inv.
  - by apply q_channel_inv.
  - by eapply q_run_task_inv.
  - by eapply q_app_inv.
  - by apply q_close_conn_inv.
Qed.
Lemma q_reachable_inv clock p : reachable clock p -> pool_inv p.
Proof.
  assert (forall p p', rtc pool_step p p' -> pool_inv p -> pool_inv p') as Hr.
  { induction 1 as [|q1 q2 q3 Hs _ IH]; [done|]. intros I. by eapply IH, q_pool_step_inv. }
  intros Hp. eapply Hr; [exact Hp|]. apply q_new_pool_inv.
Qed.
End loop.

(** ** Theorems *)

Section pool_theorems.
Context {C E X : Type} `{QuinnApi C} `{QuinnPoll C E X}.
Notation Pool := (Pool C E X).
Implicit Types p : Pool.
Implicit Types s : QuicSocket C.

(** C29: In every state of a pool a handle of the table leads to the connection with that
    handle, the closing of a connection is called back at most once, and a connection whose
    closing has been called back is not in the table. *)
Theorem quic_closed_once clock p (Hr : reachable clock p) :
  (forall h a, sockets p !! h = Some a -> exists s, conns p !! a = Some s /\ uid s = h)
  /\ NoDup (closed_log (log p)) /\ (forall h a, a ∈ closed_log (log p) -> sockets p !! h <> Some a).
Proof.
  pose proof (q_reachable_inv _ _ Hr) as I. split_and!.
  - apply I.
  - pose proof (inv_once _ I) as N. unfold closing in N. by apply NoDup_app in N as [N _].
  - intros h a Ha. eapply (inv_closing _ I). unfold closing. set_solver.
Qed.

(** Whatever timeouts the application has set, no timeout is ever called back, since the
    loop drops the future that would set the timer. *)
Theorem quic_timeouts_never_fire clock p (Hr : reachable clock p) a e : (a, Timeouted e) ∉ log p.
Proof. apply (inv_log _ (q_reachable_inv _ _ Hr)). Qed.

(** A readable stream that has ended leaves the pool as it was: the task reports nothing,
    closes nothing, and a read that waits on the stream keeps waiting. *)
Theorem quic_read_end_ignored a id m s t c1 c2 blocks stop p :
  conns p !! a = Some s -> is_closed s = false -> main_stream_id s = Some m -> get_stream id s = Some t ->
  ready_reader t = true -> recv_open id (connect s) = (c1, true) -> recv_chunks id c1 = (c2, (blocks, stop)) ->
  stop <> ReadBlocked ->
  exists p' s', read_task a id p = Done p' /\ conns p' !! a = Some s' /\ is_wait_wakeup_read_ready id s' = true
    /\ qs_status s' = qs_status s /\ tasks p' = tasks p /\ log p' = log p /\ sockets p' = sockets p.
Proof.
  intros Ha Hcl Hm Ht Hr Ho Hc Hs. destruct (recv_ended _ _ _ _ _ _ _ _ Hcl Hm Ht Ho Hc Hs) as (s' & Er & K).
  unfold read_task. rewrite Ha, Er. eexists _, (set_events [] s'). split; [reflexivity|].
  split; [apply put_conn_lookup_same|]. split_and!; try done.
  - unfold is_wait_wakeup_read_ready. change (get_stream id (set_events [] s')) with (get_stream id s').
    by rewrite (changed_stream _ _ _ _ _ K).
  - apply (kept_status _ _ (changed_kept _ _ _ _ _ K)).
Qed.

Lemma shutdown_package (told : C -> bool) ids code s :
  (forall id code c, told c = true -> told (recv_stop id code c).1 = true) ->
  (forall id c, told c = true -> told (send_finish id c).1 = true) ->
  told (connect s) = true -> expanding_streams s = ∅ ->
  told (connect (shutdown_streams ids code s).1) = true /\ expanding_streams (shutdown_streams ids code s).1 = ∅.
Proof.
  intros Hst Hfin. revert s. induction ids as [|id ids IH]; intros s Hc He; [done|]. cbn.
  pose proof (Hst id code (connect s) Hc) as H1. destruct (recv_stop _ _ _) as [c []]; [|done]. cbn in *.
  pose proof (Hfin id c H1) as H2. destruct (send_finish _ _) as [c' []]; [|done]. cbn in *.
  apply IH; [done|]. cbn. by rewrite He, delete_empty.
Qed.

(** Closing one expanding stream closes the connection: all its expanding streams are
    gone and the package is told to close, with code 0 when nothing was wrong. *)
Theorem quic_stream_close_closes (told : C -> bool) h a id s p :
  (forall clk code c, told (conn_close clk code c) = true) ->
  (forall id code c, told c = true -> told (recv_stop id code c).1 = true) ->
  (forall id c, told c = true -> told (send_finish id c).1 = true) ->
  get_socket h p = Some (a, s) ->
  exists s', conns (handle_stream_close h id p) !! a = Some s' /\ expanding_streams s' = ∅ /\ told (connect s') = true.
Proof.
  intros H1 H2 H3 Hg. unfold handle_stream_close. rewrite Hg.
  destruct (close_reason s) as [[code r]|] eqn:Er.
  - eexists. split; [apply put_conn_lookup_same|]. split; [|]; eapply (shutdown_package told); cbn; auto.
  - eexists. split; [apply put_conn_lookup_same|]. split; [|]; eapply (shutdown_package told); cbn; auto.
Qed.

(** A connection that is told to close before it has a handle panics the pool. *)
Theorem quic_close_unconnected t h a s rest p :
  poll_timer (turn_now t) (turn_due t) p = Done p -> channel p = OfSocket (ConnectionClose h) :: rest ->
  get_socket h p = Some (a, s) -> socket_handle s = None -> event_loop t p = Panic.
Proof.
  intros Ht Hc Hg Hs. unfold event_loop. rewrite Ht. cbn. rewrite Hc. cbn. unfold handle_connection_close.
  apply get_socket_spec in Hg as [Hh Ha]. assert (get_socket h (set_channel rest p) = Some (a, s)) as ->.
  { by apply get_socket_spec. }
  cbn. destruct (timer_ref s); by rewrite Hs.
Qed.

Lemma stream_ids_notify e s : get_stream_ids (notify e s) = get_stream_ids s.
Proof. unfold notify. by case_step. Qed.
Lemma put_conn_socket h a s p : sockets p !! h = Some a -> get_socket h (put_conn a s p) = Some (a, set_events [] s).
Proof. intros Hh. apply get_socket_spec. split; [done|]. apply put_conn_lookup_same. Qed.

(** The connection once the application has written and the pool has handled the event. *)
Definition after_write (id : Z) (buf : list Z) s : QuicSocket C :=
  set_events [] (on_stream id (fun t => set_write_buf (write_buf t ++ buf) t)
    (set_ready id Writable (set_events [] (write_ready id buf s).1))).

Lemma after_write_spec id buf s t : is_closed s = false -> get_stream id s = Some t ->
  get_stream id (after_write id buf s) = Some (set_write_buf (write_buf t ++ buf) (add_wait_sent (length buf) t))
  /\ get_stream_ids (after_write id buf s) = get_stream_ids s /\ kept s (after_write id buf s)
  /\ connect (after_write id buf s) = connect s.
Proof.
  intros Hcl Ht. unfold after_write, write_ready. rewrite Hcl, Ht. cbn. set (s1 := notify _ _).
  assert (get_stream id s1 = Some (add_wait_sent (length buf) t)) as E1.
  { unfold s1. by rewrite get_notify, get_on_stream, Ht. }
  assert (kept s s1) as K1 by (etrans; [apply kept_on_stream|apply kept_notify]).
  set (s2 := set_ready id Writable (set_events [] s1)).
  assert (kept s s2) as K2 by (etrans; [exact K1|]; etrans; [|apply kept_notify]; done).
  split_and!.
  - change (get_stream id (on_stream id (fun t => set_write_buf (write_buf t ++ buf) t) s2) = Some (set_write_buf (write_buf t ++ buf) (add_wait_sent (length buf) t))).
    rewrite get_on_stream. unfold s2. rewrite get_set_ready. change (get_stream id (set_events [] s1)) with (get_stream id s1). by rewrite E1.
  - change (get_stream_ids (on_stream id (fun t => set_write_buf (write_buf t ++ buf) t) s2) = get_stream_ids s).
    rewrite stream_ids_on_stream. unfold s2, set_ready. rewrite stream_ids_notify.
    change (get_stream_ids s1 = get_stream_ids s). unfold s1. by rewrite stream_ids_notify, stream_ids_on_stream.
  - etrans; [exact K2|]. etrans; [apply (kept_on_stream id (fun t => set_write_buf (write_buf t ++ buf) t))|]. done.
  - change (connect (on_stream id (fun t => set_write_buf (write_buf t ++ buf) t) s2) = connect s).
    rewrite connect_on_stream. unfold s2, set_ready. rewrite connect_notify. cbn. unfold s1. by rewrite connect_notify, connect_on_stream.
Qed.

(** C28: With no event waiting, what the application writes on the first stream of a connection
    reaches the package behind what was in the write buffer, if both fit one block and the
    package takes that block: the write becomes an event, the event fills the buffer and
    asks for the stream to be sent, the task that follows hands the block to the package,
    empties the buffer and calls back, and goes on with the other streams. *)
Theorem quic_written_sent t0 h a s t id ids buf u c' p :
  buf <> [] -> send_write id (write_buf t ++ buf) (connect s) = (c', Wrote (length (write_buf t ++ buf))) ->
  get_socket h p = Some (a, s) -> uid s = h -> channel p = [] -> events s = [] -> qs_status s = status_to QuicSocket.Connected ->
  event_send s = true -> socket_handle s = Some u -> is_hibernated s = false ->
  get_stream id s = Some t -> get_stream_ids s = id :: ids -> length (write_buf t ++ buf) <= write_len t ->
  exists p1 p2 p3 p4 s4, app a (AppWrite id buf) p = Done p1 /\ channel p1 = [OfSocket (StreamWrite h id buf)]
    /\ handle_pool_event t0 (OfSocket (StreamWrite h id buf)) (set_channel [] p1) = Done p2
    /\ channel p2 = [OfSocket (StreamReady h id Writable)]
    /\ handle_pool_event t0 (OfSocket (StreamReady h id Writable)) (set_channel [] p2) = Done p3
    /\ tasks p3 = tasks p ++ [TWritable a] /\ run_task (TWritable a) (set_tasks (tasks p) p3) = Done p4
    /\ tasks p4 = tasks p ++ [TWriting a ids]
    /\ conns p4 !! a = Some s4 /\ connect s4 = c'
    /\ (exists t', get_stream id s4 = Some t' /\ write_buf t' = [] /\ sent_len t' = sent_len t + length (write_buf t ++ buf))
    /\ log p4 = log p ++ [(a, Writed id)].
Proof.
  intros Hbuf Hw Hg Hu Hc He Hq Hsnd Hh Hhib Ht Hids Hlen. apply get_socket_spec in Hg as [Hs Ha].
  assert (is_closed s = false) as Hcl by (unfold is_closed; by rewrite Hq).
  destruct (after_write_spec id buf s t Hcl Ht) as (G & I & K & Ec).
  assert (events (write_ready id buf s).1 = [StreamWrite h id buf]) as Ew.
  { unfold write_ready. rewrite Hcl, Ht. cbn. unfold notify, on_stream. case_step; cbn; by rewrite Hsnd; cbn; rewrite He, Hu. }
  set (s1 := (write_ready id buf s).1) in *.
  assert (event_send s1 = true /\ uid s1 = h) as [Hsnd1 Hu1].
  { unfold s1. rewrite uid_write_ready. split; [|done]. unfold write_ready. rewrite Hcl, Ht. cbn. unfold notify, on_stream. repeat case_step; done. }
  assert (get_status (after_write id buf s) <> Disconnect) as Hst.
  { unfold get_status. by rewrite (kept_status _ _ K), Hq. }
  set (t1 := set_write_buf (write_buf t ++ buf) (add_wait_sent (length buf) t)) in *.
  assert (block_of t1 = write_buf t ++ buf) as Ebl by (unfold block_of; cbn; by rewrite Nat.min_r, firstn_all by done).
  destruct (send_whole id (after_write id buf s) t1 c') as (s4 & Es & Kd); [done..| | |].
  { rewrite Ebl. by destruct (write_buf t), buf. }
  { by rewrite Ebl, Ec. }
  set (p1 := set_log (log p ++ []) (put_conn a s1 p)).
  set (s2 := on_stream id (fun t => set_write_buf (write_buf t ++ buf) t) (set_ready id Writable (set_events [] s1))).
  set (p2 := put_conn a s2 (set_channel [] p1)).
  assert (events s2 = [StreamReady h id Writable]) as E2.
  { unfold s2, on_stream, set_ready, notify. cbn. rewrite Hsnd1. case_step; cbn; by rewrite Hu1. }
  assert (get_socket h (set_channel [] p1) = Some (a, set_events [] s1)) as G1.
  { apply get_socket_spec. split; [done|]. apply put_conn_lookup_same. }
  assert (get_socket h (set_channel [] p2) = Some (a, after_write id buf s)) as G2.
  { apply get_socket_spec. split; [done|]. apply put_conn_lookup_same. }
  set (p3 := spawn (TWritable a) (set_channel [] p2)).
  exists p1, p2, p3, (spawn (TWriting a ids) (ran a (Writed id) (put_conn a s4 (set_tasks (tasks p) p3)))), (set_events [] s4).
  split_and!.
  - unfold app. by rewrite Ha.
  - cbn. by rewrite Hc, Ew.
  - cbn. unfold handle_stream_write_event. by rewrite G1.
  - cbn [p2 put_conn set_conns channel]. cbn. by rewrite E2.
  - cbn. unfold handle_streams. by rewrite G2.
  - done.
  - cbn [run_task]. assert (conns (set_tasks (tasks p) p3) !! a = Some (after_write id buf s)) as -> by apply put_conn_lookup_same.
    rewrite I, Hids. cbn [write_task].
    assert (conns (set_tasks (tasks p) p3) !! a = Some (after_write id buf s)) as -> by apply put_conn_lookup_same.
    rewrite Es. cbn [mbind outcome_bind]. pose proof (changed_kept _ _ _ _ _ Kd) as K4.
    by rewrite (kept_handle _ _ K4), (kept_handle _ _ K), Hh, (kept_hibernated _ _ K4), (kept_hibernated _ _ K), Hhib.
  - done.
  - apply put_conn_lookup_same.
  - exact (changed_connect _ _ _ _ _ Kd).
  - eexists. split; [exact (changed_stream _ _ _ _ _ Kd)|]. rewrite sent_stream_buf. split.
    + cbn. unfold behind_block. cbn. by rewrite Nat.min_r, drop_all by done.
    + unfold sent_stream. rewrite Ebl. by case_decide.
  - cbn. by rewrite app_nil_r.
Qed.

(** *** Broadcasting *)

(** A connection that takes writes. *)
Definition open_conn s : Prop := is_closed s = false /\ event_send s = true /\ events s = [].
Definition writes (payload : list Z) s (ids : list Z) : list (PoolEvent C E) :=
  (fun id => OfSocket (StreamWrite (uid s) id payload)) <$> ids.

Lemma write_ready_event id payload s t : open_conn s -> get_stream id s = Some t ->
  let '(s', r) := write_ready id payload s in
  r = Ok tt /\ events s' = [StreamWrite (uid s) id payload] /\ kept s (set_events [] s') /\ open_conn (set_events [] s')
  /\ get_stream_ids s' = get_stream_ids s.
Proof.
  intros (Hcl & Hs & He) Ht. unfold write_ready. rewrite Hcl, Ht.
  assert (kept s (notify (StreamWrite (uid s) id payload) (on_stream id (add_wait_sent (length payload)) s))) as K.
  { etrans; [apply kept_on_stream|apply kept_notify]. }
  split; [done|]. split; [|split; [etrans; [exact K|done]|split]].
  - unfold notify, on_stream. case_step; cbn; by rewrite Hs; cbn; rewrite He.
  - split; [by rewrite <-Hcl; apply (kept_closed _ _ K)|]. split; [|done]. cbn. by rewrite (kept_sender _ _ K).
  - by rewrite stream_ids_notify, stream_ids_on_stream.
Qed.

Lemma broadcast_streams_spec a ids payload s p : conns p !! a = Some s -> open_conn s ->
  (forall id, id ∈ ids -> id ∈ get_stream_ids s) ->
  exists p', broadcast_streams a ids payload p = (p', Ok tt) /\ channel p' = channel p ++ writes payload s ids
    /\ forall b, b <> a -> conns p' !! b = conns p !! b.
Proof.
  revert s p. induction ids as [|id ids IH]; intros s p Ha Ho Hids.
  { exists p. split; [done|]. by rewrite app_nil_r. }
  assert (is_Some (get_stream id s)) as [t Ht] by (apply stream_ids_elem, Hids; set_solver).
  cbn. rewrite Ha. pose proof (write_ready_event id payload s t Ho Ht) as Hw.
  destruct (write_ready id payload s) as [s1 r]. destruct Hw as (-> & He & K & Ho' & Hi).
  destruct (IH (set_events [] s1) (put_conn a s1 p)) as (p' & E1 & E2 & E3).
  - apply put_conn_lookup_same.
  - done.
  - intros id' Hin. change (id' ∈ get_stream_ids s1). rewrite Hi. apply Hids. set_solver.
  - exists p'. split; [done|]. split.
    + rewrite E2. cbn. rewrite He. cbn. unfold writes. rewrite (kept_uid _ _ K). by rewrite <-(assoc_L (++)).
    + intros b Hb. rewrite E3 by done. cbn. by rewrite lookup_insert_ne.
Qed.

(** A broadcast to open connections sends the payload to every stream of each of them,
    connection by connection, in the order of the streams. *)
Theorem quic_broadcast_all handles payload p :
  NoDup handles -> (forall a, a ∈ handles -> exists s, conns p !! a = Some s /\ open_conn s) ->
  exists p', broadcast handles payload p = (p', Ok tt) /\
    channel p' = channel p ++ concat ((fun a => match conns p !! a with Some s => writes payload s (get_stream_ids s) | None => [] end) <$> handles).
Proof.
  intros Hn. revert p. induction Hn as [|a handles Ha Hn IH]; intros p Ho.
  { exists p. by rewrite app_nil_r. }
  destruct (Ho a) as (s & Hs & Hos); [set_solver|]. cbn. rewrite Hs.
  destruct (broadcast_streams_spec a (get_stream_ids s) payload s p Hs Hos) as (p1 & E1 & E2 & E3); [done|]. rewrite E1.
  destruct (IH p1) as (p' & E' & Ec).
  { intros b Hb. rewrite E3; [apply Ho; set_solver|]. intros ->. done. }
  exists p'. split; [done|]. rewrite Ec, E2, <-(assoc_L (++)). do 3 f_equal.
  apply list_fmap_ext. intros i b Hb%list_elem_of_lookup_2. rewrite E3; [done|]. intros ->. done.
Qed.

(** A closed connection ends the broadcast: those behind it are not told. *)
Theorem quic_broadcast_stops a handles payload s id ids p :
  conns p !! a = Some s -> is_closed s = true -> events s = [] -> get_stream_ids s = id :: ids ->
  exists p', broadcast (a :: handles) payload p = (p', Err ConnectionAborted) /\ channel p' = channel p.
Proof.
  intros Ha Hcl He Hi. cbn. rewrite Ha, Hi. cbn. rewrite Ha. unfold write_ready. rewrite Hcl.
  eexists. split; [reflexivity|]. cbn. by rewrite He, app_nil_r.
Qed.
End pool_theorems.
