(* ===== verification/QuicServer.v ===== *)
(** * A QUIC listener (quic/src/server.rs, quic/src/acceptor.rs)

    The listener hands the datagrams of its UDP sockets to the endpoint of quinn-proto
    ([QuinnEndpoint]) and routes what the endpoint makes of them to its pools, whose
    channels are kept here by the numbers of the pools. *)

From S2P Require Import Prelude QuicSocket QuicPool.

(** [quinn_proto::DatagramEvent] *)
Inductive DatagramEvent (C E : Type) :=
| NewConnection (c : C)
| ConnectionEvent (e : E).
Arguments NewConnection {C E} c.
Arguments ConnectionEvent {C E} e.

(** [ep_transmits] is what [poll_transmit] gives until it gives nothing. *)
Class QuinnEndpoint (Ep C E X : Type) := {
  ep_handle : Z -> string * Z -> string -> list Z -> Ep -> Ep * option (Z * DatagramEvent C E);
  ep_event : Z -> X -> Ep -> Ep * option E;
  ep_transmits : Ep -> Ep * list Transmit;
  is_drained : X -> bool;
}.

(** A UDP socket: its number, the peer it is bound to, its local address. *)
Record UdpHandle := mkUdpHandle { udp_uid : Z; udp_remote : option (string * Z); udp_local : string * Z }.

(** The router and the table of senders hold the same channels. *)
Record QuicListener (Ep C E X : Type) := mkQuicListener {
  end_point : Ep;
  event_sents : list (list (PoolEvent C E));
  readed_read_size_limit : nat;
  readed_write_size_limit : nat;
  listener_clock : Z;
  listener_tasks : list (Z * list X);    (* on the runtime of the UDP socket *)
  closed_udps : list Z;
}.
Arguments mkQuicListener {Ep C E X}.
Arguments end_point {Ep C E X} q.
Arguments event_sents {Ep C E X} q.
Arguments readed_read_size_limit {Ep C E X} q.
Arguments readed_write_size_limit {Ep C E X} q.
Arguments listener_clock {Ep C E X} q.
Arguments listener_tasks {Ep C E X} q.
Arguments closed_udps {Ep C E X} q.

Section listener.
Context {Ep C E X : Type} `{QuinnEndpoint Ep C E X}.
Notation QuicListener := (QuicListener Ep C E X).
Implicit Types l : QuicListener.

Definition set_end_point x l : QuicListener := mkQuicListener x (event_sents l) (readed_read_size_limit l) (readed_write_size_limit l) (listener_clock l) (listener_tasks l) (closed_udps l).
Definition set_event_sents x l : QuicListener := mkQuicListener (end_point l) x (readed_read_size_limit l) (readed_write_size_limit l) (listener_clock l) (listener_tasks l) (closed_udps l).
Definition set_listener_tasks x l : QuicListener := mkQuicListener (end_point l) (event_sents l) (readed_read_size_limit l) (readed_write_size_limit l) (listener_clock l) x (closed_udps l).
Definition set_closed_udps x l : QuicListener := mkQuicListener (end_point l) (event_sents l) (readed_read_size_limit l) (readed_write_size_limit l) (listener_clock l) (listener_tasks l) x.

(** [QuicListener::new] around the endpoint, for as many pools as there are runtimes. *)
Definition new_listener (pools : nat) (ep : Ep) (read_limit write_limit : nat) (clock : Z) : QuicListener :=
  mkQuicListener ep (replicate pools []) read_limit write_limit clock [] [].

(** The pool of a connection; without pools the remainder panics. *)
Definition pool_of (h : Z) l : outcome nat :=
  match event_sents l with [] => Panic | _ => Done (Z.to_nat (h mod Z.of_nat (length (event_sents l)))) end.
Definition send_pool (i : nat) (e : PoolEvent C E) l : QuicListener :=
  set_event_sents (alter (fun c => c ++ [e]) i (event_sents l)) l.

(** [peer] *)
Definition peer (active binded : option (string * Z)) : outcome (string * Z) :=
  match active with Some a => Done a | None => lift binded end.

(** [QuicAcceptor::accept] *)
Definition accept (udp : UdpHandle) (bin : list Z) (active : option (string * Z)) l
    : outcome (QuicListener * option (Z * E)) :=
  remote ← peer active (udp_remote udp);
  match ep_handle (listener_clock l) remote (udp_local udp).1 bin (end_point l) with
  | (ep, None) => Done (set_end_point ep l, None)
  | (ep, Some (h, NewConnection c)) =>
      let l := set_end_point ep l in
      i ← pool_of h l;
      let s := new_socket (udp_uid udp) h c (readed_read_size_limit l) (readed_write_size_limit l) (listener_clock l) in
      Done (send_pool i (Accepted s) l, None)
  | (ep, Some (h, ConnectionEvent e)) => Done (set_end_point ep l, Some (h, e))
  end.

(** [handle_received] of the UDP service *)
Definition handle_received (udp : UdpHandle) (r : io_result (list Z * option (string * Z))) l : outcome QuicListener :=
  match r with
  | Err _ => Done (set_closed_udps (closed_udps l ++ [udp_uid udp]) l)
  | Ok (bin, active) =>
      '(l, o) ← accept udp bin active l;
      match o with
      | None => Done l
      | Some (h, e) => i ← pool_of h l; Done (send_pool i (ConnectionReceived h e) l)
      end
  end.

(** [EndPointPoller::poll] for the listener: a task on the runtime of the UDP socket. *)
Definition poll (h : Z) (events : list X) l : QuicListener := set_listener_tasks (listener_tasks l ++ [(h, events)]) l.

(** [handle_endpoint_events] *)
Fixpoint handle_endpoint_events (h : Z) (events : list X) l : outcome QuicListener :=
  match events with
  | [] => Done l
  | x :: events =>
      if is_drained x then handle_endpoint_events h events l
      else
        i ← pool_of h l;
        match ep_event h x (end_point l) with
        | (ep, None) => handle_endpoint_events h events (set_end_point ep l)
        | (ep, Some e) =>
            let l := send_pool i (ConnectionReceived h e) (set_end_point ep l) in
            let '(ep, ts) := ep_transmits (end_point l) in
            handle_endpoint_events h events (foldl (fun l t => send_pool i (OfSocket (ConnectionSend h t)) l) (set_end_point ep l) ts)
        end
  end.

(** ** The steps of a listener *)

Inductive listener_step : QuicListener -> QuicListener -> Prop :=
| listener_datagram udp r l l' : handle_received udp r l = Done l' -> listener_step l l'
| listener_poll h xs l : listener_step l (poll h xs l)
| listener_events pre h xs post l l' : listener_tasks l = pre ++ (h, xs) :: post ->
    handle_endpoint_events h xs (set_listener_tasks (pre ++ post) l) = Done l' -> listener_step l l'.

(** The connection that an event of a pool is about. *)
Definition event_handle (e : PoolEvent C E) : option Z :=
  match e with
  | Accepted s => Some (uid s)
  | ConnectionReceived h _ => Some h
  | OfSocket (ConnectionSend h _) => Some h
  | _ => None
  end.

(** What is sent to a pool is about connections of this pool. *)
Definition routed (n i : nat) (c : list (PoolEvent C E)) : Prop :=
  Forall (fun e => exists h, event_handle e = Some h /\ Z.to_nat (h mod Z.of_nat n) = i) c.
Definition listener_routed (n : nat) l : Prop :=
  length (event_sents l) = n /\ forall i c, event_sents l !! i = Some c -> routed n i c.

Lemma pool_of_spec n h l i : listener_routed n l -> pool_of h l = Done i -> i = Z.to_nat (h mod Z.of_nat n).
Proof. intros [<- _]. unfold pool_of. destruct (event_sents l); [done|]. by intros [= <-]. Qed.

Lemma send_pool_routed n h e l : event_handle e = Some h -> listener_routed n l ->
  listener_routed n (send_pool (Z.to_nat (h mod Z.of_nat n)) e l).
Proof.
  intros He [Hl Hr]. split; [cbn; by rewrite length_alter|]. intros j c. cbn.
  destruct (decide (j = Z.to_nat (h mod Z.of_nat n))) as [->|Hne].
  - rewrite list_lookup_alter_eq. intros (c' & Hc & ->)%fmap_Some. apply Forall_app. split; [by apply Hr|].
    apply Forall_singleton. by exists h.
  - rewrite list_lookup_alter_ne by done. apply Hr.
Qed.

Lemma accept_routed n udp bin active l l' o : accept udp bin active l = Done (l', o) -> listener_routed n l -> listener_routed n l'.
Proof.
  unfold accept. intros Ed R. apply bind_done in Ed as (remote & _ & Ed).
  destruct (ep_handle _ _ _ _ _) as [ep [[h [c|e]]|]]; simplify_eq/=; [|done..].
  apply bind_done in Ed as (i & Ei & Ed). simplify_eq/=.
  assert (listener_routed n (set_end_point ep l)) as R' by done. rewrite (pool_of_spec _ _ _ _ R' Ei).
  by apply (send_pool_routed n h).
Qed.

Lemma received_routed n udp r l l' : handle_received udp r l = Done l' -> listener_routed n l -> listener_routed n l'.
Proof.
  unfold handle_received. intros Ed R. destruct r as [[bin active]|e]; simplify_eq/=; [|done].
  apply bind_done in Ed as ([l1 o] & E1 & Ed). assert (listener_routed n l1) as R1 by (by eapply accept_routed).
  destruct o as [[h e]|]; simplify_eq/=; [|done]. apply bind_done in Ed as (i & Ei & Ed). simplify_eq/=.
  rewrite (pool_of_spec _ _ _ _ R1 Ei). by apply (send_pool_routed n h).
Qed.

Lemma endpoint_events_routed n h xs l l' : handle_endpoint_events h xs l = Done l' -> listener_routed n l -> listener_routed n l'.
Proof.
  revert l. induction xs as [|x xs IH]; intros l Ed R; simplify_eq/=; [done|].
  destruct (is_drained x); [by eapply IH|]. apply bind_done in Ed as (i & Ei & Ed). rewrite (pool_of_spec _ _ _ _ R Ei) in Ed.
  destruct (ep_event _ _ _) as [ep [e|]]; [|by eapply IH]. set (l1 := send_pool _ _ _) in Ed.
  assert (listener_routed n l1) as R1 by (by apply (send_pool_routed n h)).
  destruct (ep_transmits _) as [ep' ts]. eapply IH; [exact Ed|]. assert (listener_routed n (set_end_point ep' l1)) as R2 by done.
  clear -R2. revert R2. generalize (set_end_point ep' l1). induction ts as [|t ts IHt]; intros l2 R2; [done|].
  cbn. apply IHt. by apply (send_pool_routed n h).
Qed.

(** Whatever datagrams come and whatever the endpoint makes of them, a pool is sent only
    events of the connections that were accepted into it: those whose handle leaves its
    number as the remainder by the number of pools. *)
Theorem quic_routed_to_owner n ep r w clk l (Hr : rtc listener_step (new_listener n ep r w clk) l) :
  listener_routed n l.
Proof.
  assert (listener_routed n (new_listener n ep r w clk)) as R0.
  { split; [apply length_replicate|]. intros i c [-> _]%lookup_replicate. constructor. }
  revert R0. induction Hr as [|l0 l1 l2 Hs _ IH]; [done|].
  intros R0. apply IH. destruct Hs as [udp r0 l0 l1 Ed|h xs l0|pre h xs post l0 l1 _ Ed]; [|done|].
  - by eapply received_routed.
  - eapply endpoint_events_routed; [exact Ed|done].
Qed.

(** A listener with pools never panics on a datagram whose peer is known. *)
Theorem quic_received_done udp r l : event_sents l <> [] ->
  match r with Ok (_, None) => udp_remote udp <> None | _ => True end ->
  exists l', handle_received udp r l = Done l'.
Proof.
  intros Hne Hp. unfold handle_received. destruct r as [[bin active]|e]; [|by eexists].
  assert (exists remote, peer active (udp_remote udp) = Done remote) as [remote Er].
  { destruct active; [by eexists|]. cbn in *. destruct (udp_remote udp); [by eexists|done]. }
  assert (forall h l1, event_sents l1 = event_sents l -> exists i, pool_of h l1 = Done i) as Hpool.
  { intros h l1 E1. unfold pool_of. rewrite E1. destruct (event_sents l); [done|by eexists]. }
  unfold accept. rewrite Er. cbn. destruct (ep_handle _ _ _ _ _) as [ep [[h [c|e]]|]]; [| |by eexists].
  - destruct (Hpool h (set_end_point ep l)) as [i Ei]; [done|]. rewrite Ei. by eexists.
  - cbn. destruct (Hpool h (set_end_point ep l)) as [i Ei]; [done|]. rewrite Ei. by eexists.
Qed.
End listener.
