(* ===== verification/QuicClient.v ===== *)
(** * A QUIC client (quic/src/client.rs)

    The client connects through the endpoint of quinn-proto, hands its connections to its
    pools like a listener, and answers the calls of the application through values that are
    set once: the connecting and the closing of a connection, and the reading of a stream. *)

From S2P Require Import Prelude QuicSocket QuicPool QuicServer.

(** [QuicClientTimerEvent] *)
Inductive QuicClientTimerEvent := UdpConnect (udp : Z) | QuicConnect (h : Z).

(** [Endpoint::connect] *)
Class QuinnConnect (Ep C : Type) := {
  ep_connect : string * Z -> string -> Ep -> Ep * io_result (Z * C);
}.

(** The client around the part it shares with a listener; values by number. *)
Record QuicClient (Ep C E X : Type) := mkQuicClient {
  inner : QuicListener Ep C E X;
  udp_terminal : Z;
  connections : gmap Z nat;              (* the address of the handle's connection *)
  connect_events : gmap Z (Z * nat);
  close_events : gmap Z nat;
  client_timer : gmap Z (nat * QuicClientTimerEvent);
  client_keys : Z;
  connect_timeout : nat;
  connect_values : gmap nat (io_result nat);
  close_values : gmap nat (io_result unit);
}.
Arguments mkQuicClient {Ep C E X}.
Arguments inner {Ep C E X} q.
Arguments udp_terminal {Ep C E X} q.
Arguments connections {Ep C E X} q.
Arguments connect_events {Ep C E X} q.
Arguments close_events {Ep C E X} q.
Arguments client_timer {Ep C E X} q.
Arguments client_keys {Ep C E X} q.
Arguments connect_timeout {Ep C E X} q.
Arguments connect_values {Ep C E X} q.
Arguments close_values {Ep C E X} q.

Section client.
Context {Ep C E X : Type} `{QuinnApi C} `{QuinnPoll C E X} `{QuinnEndpoint Ep C E X} `{QuinnConnect Ep C}.
Notation QuicClient := (QuicClient Ep C E X).
Notation Pool := (Pool C E X).
Implicit Types cl : QuicClient.
Implicit Types p : Pool.
Implicit Types s : QuicSocket C.

Definition set_inner x cl : QuicClient := mkQuicClient x (udp_terminal cl) (connections cl) (connect_events cl) (close_events cl) (client_timer cl) (client_keys cl) (connect_timeout cl) (connect_values cl) (close_values cl).
Definition set_udp_terminal x cl : QuicClient := mkQuicClient (inner cl) x (connections cl) (connect_events cl) (close_events cl) (client_timer cl) (client_keys cl) (connect_timeout cl) (connect_values cl) (close_values cl).
Definition set_connections x cl : QuicClient := mkQuicClient (inner cl) (udp_terminal cl) x (connect_events cl) (close_events cl) (client_timer cl) (client_keys cl) (connect_timeout cl) (connect_values cl) (close_values cl).
Definition set_connect_events x cl : QuicClient := mkQuicClient (inner cl) (udp_terminal cl) (connections cl) x (close_events cl) (client_timer cl) (client_keys cl) (connect_timeout cl) (connect_values cl) (close_values cl).
Definition set_close_events x cl : QuicClient := mkQuicClient (inner cl) (udp_terminal cl) (connections cl) (connect_events cl) x (client_timer cl) (client_keys cl) (connect_timeout cl) (connect_values cl) (close_values cl).
Definition set_connect_values x cl : QuicClient := mkQuicClient (inner cl) (udp_terminal cl) (connections cl) (connect_events cl) (close_events cl) (client_timer cl) (client_keys cl) (connect_timeout cl) x (close_values cl).
Definition set_close_values x cl : QuicClient := mkQuicClient (inner cl) (udp_terminal cl) (connections cl) (connect_events cl) (close_events cl) (client_timer cl) (client_keys cl) (connect_timeout cl) (connect_values cl) x.
Definition set_client_timer x k cl : QuicClient := mkQuicClient (inner cl) (udp_terminal cl) (connections cl) (connect_events cl) (close_events cl) x k (connect_timeout cl) (connect_values cl) (close_values cl).

(** [with_cert_and_key] around the endpoint, the configuration of TLS aside. *)
Definition new_client (runtimes : nat) (ep : Ep) (read_limit write_limit : nat) (clock udp : Z) (timeout : nat) : io_result QuicClient :=
  match runtimes with
  | O => Err Other
  | _ =>
      let read_limit := if decide (read_limit < MIN_READED_READ_BUF_SIZE_LIMIT) then DEAFULT_READED_READ_BUF_SIZE_LIMIT else read_limit in
      let write_limit := if decide (write_limit < MIN_READED_WRITE_BUF_SIZE_LIMIT) then DEAFULT_READED_WRITE_BUF_SIZE_LIMIT else write_limit in
      Ok (mkQuicClient (new_listener runtimes ep read_limit write_limit clock) udp ∅ ∅ ∅ ∅ 0 timeout ∅ ∅)
  end.

Definition push_client_timer (d : nat) (e : QuicClientTimerEvent) cl : QuicClient :=
  set_client_timer (<[client_keys cl := (d, e)]> (client_timer cl)) (client_keys cl + 1)%Z cl.
Definition set_connect_value (v : nat) (r : io_result nat) cl : QuicClient := set_connect_values (<[v := r]> (connect_values cl)) cl.
Definition set_close_value (v : nat) (r : io_result unit) cl : QuicClient := set_close_values (<[v := r]> (close_values cl)) cl.

(** [handle_received] of the UDP service: new connections are not accepted. *)
Definition client_received (udp : UdpHandle) (r : io_result (list Z * option (string * Z))) cl : outcome QuicClient :=
  let l := inner cl in
  match r with
  | Err _ => Done (set_inner (set_closed_udps (closed_udps l ++ [udp_uid udp]) l) cl)
  | Ok (bin, active) =>
      remote ← peer active (udp_remote udp);
      match ep_handle (listener_clock l) remote (udp_local udp).1 bin (end_point l) with
      | (ep, Some (h, ConnectionEvent e)) =>
          let l := set_end_point ep l in
          i ← pool_of h l; Done (set_inner (send_pool i (ConnectionReceived h e) l) cl)
      | (ep, _) => Done (set_inner (set_end_point ep l) cl)
      end
  end.

(** [EndPointPoller::poll] and its task, as for a listener. *)
Definition client_poll (h : Z) (events : list X) cl : QuicClient := set_inner (poll h events (inner cl)) cl.
Definition client_endpoint_events (h : Z) (events : list X) cl : outcome QuicClient :=
  l ← handle_endpoint_events h events (inner cl); Done (set_inner l cl).

(** [rebind]: the new terminal, its connection to the peer, the answer of closing the old one. *)
Definition rebind (bound peer : io_result Z) (closed : io_result unit) cl : QuicClient * io_result unit :=
  match bound, peer with
  | Err e, _ | Ok _, Err e => (cl, Err e)
  | Ok terminal, Ok udp =>
      let cl := set_udp_terminal terminal cl in
      match closed with
      | Err e => (cl, Err e)
      | Ok _ => (set_inner (set_event_sents ((fun c => c ++ [RebindUdp udp]) <$> event_sents (inner cl)) (inner cl)) cl, Ok tt)
      end
  end.

(** ** Connecting *)

(** [connect] up to its task: the timeout it goes on with and the UDP connection, which
    [connect_to_peer] has given; the timer is set before that. *)
Definition connect_begin (timeout : option nat) (to_peer : io_result Z) cl : QuicClient * io_result (nat * Z) :=
  let timeout := match timeout with Some (S t) => S t | _ => connect_timeout cl end in
  let cl := push_client_timer timeout (UdpConnect (udp_terminal cl)) cl in
  match to_peer with Err e => (cl, Err e) | Ok udp => (cl, Ok (timeout, udp)) end.

(** The task of [connect], [elapsed] after it was called; the call waits for the value [v]. *)
Definition connect_task (remote : string * Z) (hostname : string) (timeout : nat) (udp : Z) (elapsed v : nat) cl : outcome QuicClient :=
  let l := inner cl in
  match ep_connect remote hostname (end_point l) with
  | (ep, Err _) => Done (set_connect_value v (Err Other) (set_inner (set_end_point ep l) cl))
  | (ep, Ok (h, c)) =>
      let l := set_end_point ep l in
      let cl := set_inner l cl in
      match timeout - elapsed with
      | O => Done (set_connect_value v (Err TimedOut) cl)
      | rest =>
          let cl := push_client_timer rest (QuicConnect h) cl in
          let cl := set_connect_events (<[h := (udp_terminal cl, v)]> (connect_events cl)) cl in
          let s := enable_client (new_socket udp h c (readed_read_size_limit l) (readed_write_size_limit l) (listener_clock l)) in
          i ← pool_of h l; Done (set_inner (send_pool i (Accepted s) l) cl)
      end
  end.

(** [connect] behind its value. *)
Definition connect_end (h : Z) (r : io_result nat) cl : QuicClient * io_result nat :=
  match r with
  | Err e => (cl, Err e)
  | Ok a => (set_connections (<[h := a]> (connections cl)) cl, Ok a)
  end.

(** A timer that is due: that of the UDP connection is [unimplemented!]. *)
Definition client_timer_due (k : Z) cl : outcome QuicClient :=
  match client_timer cl !! k with
  | None => Done cl
  | Some (_, e) =>
      let cl := set_client_timer (delete k (client_timer cl)) (client_keys cl) cl in
      match e with
      | UdpConnect _ => Panic
      | QuicConnect h =>
          match connect_events cl !! h with
          | None => Done cl
          | Some (_, v) => Done (set_connect_value v (Err TimedOut) (set_connect_events (delete h (connect_events cl)) cl))
          end
      end
  end.
Fixpoint client_poll_timer (due : list Z) cl : outcome QuicClient :=
  match due with
  | [] => Done cl
  | k :: due => cl ← client_timer_due k cl; client_poll_timer due cl
  end.

(** [handle_connected] of the client's service for the connection at [a]. *)
Definition client_connected (a : nat) (h : Z) (r : io_result unit) cl p : outcome (QuicClient * Pool) :=
  match connect_events cl !! h with
  | None => Done (cl, p)
  | Some (_, v) =>
      let cl := set_connect_events (delete h (connect_events cl)) cl in
      match r, conns p !! a with
      | Err e, _ => Done (set_connect_value v (Err e) cl, p)
      | Ok _, None => Done (cl, p)
      | Ok _, Some s =>
          match open_main_streams s with
          | (s, Err e) => Done (set_connect_value v (Err e) cl, put_conn a s p)
          | (s, Ok _) =>
              id ← lift (main_stream_id s);
              Done (set_connect_value v (Ok a) cl, put_conn a (set_ready id Readable s) p)
          end
      end
  end.

(** [handle_opened_expanding_stream] *)
Definition client_opened (a : nat) (id : Z) (d : Dir) (r : io_result unit) p : Pool :=
  match r, d, conns p !! a with
  | Ok _, Bi, Some s => put_conn a (set_ready id Readable s) p
  | _, _, _ => p
  end.

(** ** Closing *)

(** [QuicClient::is_closed] says that there is such a connection. *)
Definition client_is_closed (h : Z) cl : bool := bool_decide (is_Some (connections cl !! h)).

(** [close_connection] up to its value: the call waits for [v], or has its answer. *)
Definition close_connection (h : Z) (code : Z) (reason : io_result unit) (v : nat) cl p : QuicClient * Pool * option (io_result unit) :=
  match connections cl !! h with
  | None => (cl, p, Some (Ok tt))
  | Some a =>
      let cl := set_close_events (<[h := v]> (close_events cl)) (set_connections (delete h (connections cl)) cl) in
      (cl, close_conn a code reason p, None)
  end.

(** [handle_closed] *)
Definition client_closed (h : Z) (r : io_result unit) cl : QuicClient :=
  match close_events cl !! h with
  | None => cl
  | Some v =>
      let cl := set_close_events (delete h (close_events cl)) cl in
      set_close_value v (match r with Err _ => Err Other | Ok _ => Ok tt end) cl
  end.

(** ** Reading *)

(** [try_read_with_len] *)
Definition try_read_with_len (id : Z) (len : nat) s : QuicSocket C * option (list Z) :=
  match get_stream id s with
  | None => (s, None)
  | Some t =>
      let remaining := length (read_buf t) in
      let taken n := (on_stream id (set_read_buf (drop n (read_buf t))) s, Some (take n (read_buf t))) in
      if decide (0 < len /\ remaining < len) then (s, None)
      else if decide (len = 0 /\ 0 < remaining) then taken remaining
      else if decide (0 < len /\ len <= remaining) then taken len
      else (s, None)
  end.
Definition try_read (id : Z) s : QuicSocket C * option (list Z) := try_read_with_len id 0 s.

(** The end of [read_with_len]. *)
Definition read_copy (id : Z) (len readed : nat) s : outcome (QuicSocket C * option (list Z)) :=
  match get_stream id s with
  | None => Done (s, None)
  | Some _ => '(s, b) ← copy_to_bytes id (if decide (len = 0) then readed else len) s; Done (s, Some b)
  end.

(** [read_with_len]: the answer ([inr]), or a reader that waits and goes on with the value
    it is given. *)
Definition read_with_len (id : Z) (len : nat) s : outcome (QuicSocket C * (unit + option (list Z))) :=
  match read_buffer_remaining id s with
  | None => Done (s, inr None)
  | Some O =>
      match read_ready id len s with
      | (s, inl _) => Done (s, inl tt)
      | (s, inr O) => Done (s, inr None)
      | (s, inr readed) => '(s, r) ← read_copy id len readed s; Done (s, inr r)
      end
  | Some readed => '(s, r) ← read_copy id len readed s; Done (s, inr r)
  end.
Definition read_resumed (id : Z) (len readed : nat) s : outcome (QuicSocket C * option (list Z)) :=
  match readed with O => Done (s, None) | _ => read_copy id len readed s end.

(** ** Theorems *)

(** Connecting ends with the connection: the task registers the call and sends the
    connection, as one of a client, to the pool of its handle; when the pool reports it
    connected, the main stream is opened and the call is given the connection. *)
Theorem quic_connect_answered remote hostname timeout udp elapsed v ep h c a s c' id cl p :
  ep_connect remote hostname (end_point (inner cl)) = (ep, Ok (h, c)) -> elapsed < timeout -> event_sents (inner cl) <> [] ->
  conns p !! a = Some s -> streams_open Bi (connect s) = (c', Some id) ->
  exists cl1 cl2 p2 s' i x, connect_task remote hostname timeout udp elapsed v cl = Done cl1
    /\ event_sents (inner cl1) = alter (fun q => q ++ [Accepted x]) i (event_sents (inner cl)) /\ uid x = h /\ is_client x = true
    /\ client_connected a h (Ok tt) cl1 p = Done (cl2, p2) /\ connect_values cl2 !! v = Some (Ok a)
    /\ connect_events cl2 !! h = None /\ conns p2 !! a = Some s' /\ main_stream_id s' = Some id.
Proof.
  intros Hc Ht Hn Ha Ho. set (l := set_end_point ep (inner cl)).
  set (x := enable_client (new_socket udp h c (readed_read_size_limit l) (readed_write_size_limit l) (listener_clock l))).
  assert (exists i, pool_of h l = Done i) as [i Ei].
  { unfold pool_of. cbn. destruct (event_sents (inner cl)); [done|by eexists]. }
  set (s1 := accept_main_streams id (set_connect c' s)).
  set (cl1 := set_inner (send_pool i (Accepted x) l) (set_connect_events (<[h := (udp_terminal cl, v)]> (connect_events cl))
    (push_client_timer (timeout - elapsed) (QuicConnect h) (set_inner l cl)))).
  exists cl1, (set_connect_value v (Ok a) (set_connect_events (delete h (connect_events cl1)) cl1)), (put_conn a (set_ready id Readable s1) p),
    (set_events [] (set_ready id Readable s1)), i, x.
  split_and!; try done.
  - unfold connect_task. rewrite Hc. fold l. destruct (timeout - elapsed) as [|k] eqn:Ed; [lia|].
    change (pool_of h (inner _)) with (pool_of h l). rewrite Ei. cbn. reflexivity.
  - unfold client_connected. cbn. rewrite lookup_insert_eq, Ha. unfold open_main_streams. by rewrite Ho.
  - apply lookup_insert_eq.
  - apply lookup_delete_eq.
  - apply put_conn_lookup_same.
  - unfold set_ready, notify. by case_step.
Qed.

(** Every call of [connect] leaves a timer behind whose expiry panics the timers of the
    client, also when the connection has long been made. *)
Theorem quic_connect_timer_panics timeout to_peer cl cl' :
  client_timer cl' !! client_keys cl = client_timer (connect_begin timeout to_peer cl).1 !! client_keys cl ->
  client_timer_due (client_keys cl) cl' = Panic.
Proof.
  intros Ht. unfold client_timer_due. rewrite Ht. unfold connect_begin, push_client_timer.
  destruct to_peer; cbn; by rewrite lookup_insert_eq.
Qed.

(** A connection that is reported after its call has timed out is left as it is: the
    client neither hands it out nor closes it. *)
Theorem quic_late_connection_left k h v d udp a cl p :
  client_timer cl !! k = Some (d, QuicConnect h) -> connect_events cl !! h = Some (udp, v) ->
  exists cl', client_timer_due k cl = Done cl' /\ connect_values cl' !! v = Some (Err TimedOut)
    /\ client_connected a h (Ok tt) cl' p = Done (cl', p).
Proof.
  intros Hk Hh. unfold client_timer_due. rewrite Hk. cbn. rewrite Hh. eexists. split; [reflexivity|].
  split; [apply lookup_insert_eq|]. unfold client_connected. cbn. by rewrite lookup_delete_eq.
Qed.

(** Closing a connection of the client answers when the pool reports it closed, and a
    second call answers at once. *)
Theorem quic_close_answered h code reason v r a cl p :
  connections cl !! h = Some a ->
  exists cl1 cl2, close_connection h code reason v cl p = (cl1, close_conn a code reason p, None)
    /\ client_closed h r cl1 = cl2 /\ close_values cl2 !! v = Some (match r with Err _ => Err Other | Ok _ => Ok tt end)
    /\ forall code' reason' v' p', close_connection h code' reason' v' cl2 p' = (cl2, p', Some (Ok tt)).
Proof.
  intros Hh. unfold close_connection at 1. rewrite Hh. eexists _, _. split; [reflexivity|]. split; [reflexivity|].
  unfold client_closed. cbn. rewrite lookup_insert_eq. cbn. split; [apply lookup_insert_eq|].
  intros. unfold close_connection. cbn. by rewrite lookup_delete_eq.
Qed.

(** A read that does not wait takes what there is, exactly as many bytes as were asked
    for, or nothing. *)
Theorem quic_try_read id len s t : get_stream id s = Some t ->
  let '(s', r) := try_read_with_len id len s in
  match r with
  | None => s' = s /\ (length (read_buf t) < len \/ read_buf t = [])
  | Some b => b <> [] /\ (len = 0 /\ b = read_buf t \/ length b = len) /\
      exists t', get_stream id s' = Some t' /\ read_buf t = b ++ read_buf t'
  end.
Proof.
  intros Ht. unfold try_read_with_len. rewrite Ht. case_decide as D1; [by split; [|left; apply D1]|].
  case_decide as D2; [|case_decide as D3]; cbn.
  - rewrite firstn_all, drop_all. split; [destruct (read_buf t); cbn in *; [lia|done]|]. split; [left; split; [apply D2|done]|].
    eexists. split; [by rewrite get_on_stream, Ht|]. cbn. by rewrite app_nil_r.
  - split; [intros E1%(f_equal length); rewrite length_take in E1; cbn in E1; lia|].
    split; [right; rewrite length_take; lia|]. eexists. split; [by rewrite get_on_stream, Ht|]. cbn. by rewrite take_drop.
  - split; [done|]. destruct (read_buf t); [by right|]. cbn in *. left. lia.
Qed.

(** An asynchronous read of a number of bytes panics when the buffer holds some bytes,
    but fewer. *)
Theorem quic_short_read_panics id len s t :
  get_stream id s = Some t -> 0 < length (read_buf t) < len -> read_with_len id len s = Panic.
Proof.
  intros Ht Hl. unfold read_with_len, read_buffer_remaining. rewrite Ht. cbn.
  destruct (length (read_buf t)) as [|n] eqn:El; [lia|]. unfold read_copy, copy_to_bytes. rewrite Ht. cbn. rewrite El.
  rewrite (decide_False (P := len = 0)) by lia. by rewrite decide_False by lia.
Qed.

(** A read of [len] bytes of an empty stream waits, and once the calls that receive have
    brought as many it is given the first [len] bytes of the stream; the others stay. *)
Theorem quic_read_complete id m len s t batches parts off data c' :
  is_closed s = false -> main_stream_id s = Some m -> get_stream id s = Some t -> ready_len t = 0 -> read_buf t = [] ->
  0 < len <= length data -> delivers id (connect s) batches c' ->
  Forall2 (≡ₚ) batches parts -> contiguous off (concat parts) data ->
  exists s1 s2 s3 n s4 t4, read_with_len id len s = Done (s1, inl tt) /\ recv_all (length batches) id s1 = Some s2
    /\ wakeup_read_ready id s2 = (s3, Some n) /\ read_resumed id len n s3 = Done (s4, Some (take len data))
    /\ get_stream id s4 = Some t4 /\ read_buf t4 = drop len data.
Proof.
  intros Hcl Hm Ht Hrl Hb Hlen Hd Hp Hc.
  destruct (read_ready_waits id t len s) as (s1 & t1 & E1 & K & Hr & Hw & Hl & Hbuf); [done|done|rewrite Hb; cbn; lia|].
  rewrite Hb in Hw, Hbuf. cbn in Hw.
  destruct (recv_all_delivers id m s1 t1 (connect s) batches c') as (s2 & E2 & K2).
  { by eapply kept_closed_false; [apply K|]. }
  { by rewrite (kept_main _ _ (changed_kept _ _ _ _ _ K)). }
  { apply K. } { apply K. } { done. }
  destruct (received_all_reader batches t1 Hr) as (R1 & R2 & R3).
  assert (sum_list (chunks_len <$> batches) = length data) as Hsum by (by eapply chunks_total).
  pose proof (received_all_buf batches t1) as Rb. rewrite Hbuf, (sort_batches _ _ _ _ Hc Hp) in Rb. cbn in Rb.
  set (t2 := received_all batches t1) in *.
  set (s3 := on_stream id (set_reader 0 0 false) s2).
  assert (get_stream id s3 = Some (set_reader 0 0 false t2)) as E3.
  { unfold s3. by rewrite get_on_stream, (changed_stream _ _ _ _ _ K2). }
  exists s1, s2, s3, (length data), (on_stream id (set_read_buf (drop len data)) s3),
    (set_read_buf (drop len data) (set_reader 0 0 false t2)). split_and!.
  - unfold read_with_len, read_buffer_remaining. rewrite Ht. cbn. rewrite Hb. cbn. by rewrite E1.
  - done.
  - unfold wakeup_read_ready. rewrite (changed_stream _ _ _ _ _ K2), R1, R2, R3, Hw, Hl, Hrl, Hsum.
    by rewrite decide_True by (right; lia).
  - unfold read_resumed, read_copy, copy_to_bytes. destruct (length data) eqn:El; [lia|].
    rewrite E3. cbn. rewrite Rb, (decide_False (P := len = 0)) by lia. by rewrite decide_True by lia.
  - by rewrite get_on_stream, E3.
  - done.
Qed.
End client.
