(* ===== verification/QuicSample.v ===== *)
(** * A concrete QUIC connection

    A package that hands out scripted chunks, takes what it is told to take and records it,
    with a connection, a pool, a listener and a client around it, at which the theorems of
    [QuicSocket], [QuicPool], [QuicServer] and [QuicClient] are applied. *)

From S2P Require Import Prelude QuicSocket QuicPool QuicServer QuicClient.

(** The next batches of chunks, what the next writes take, what was sent, the streams that
    open next, whether the connection was closed, the events, the open send streams. *)
Record Pkg := mkPkg {
  pk_in : list (list (Z * list Z) * ReadEnd);
  pk_take : list nat;
  pk_sent : list Z;
  pk_ids : list Z;
  pk_closed : bool;
  pk_events : list AppEvent;
  pk_streams : nat;
}.

#[export] Instance pkg_api : QuinnApi Pkg := {
  recv_open _ c := (c, true);
  recv_chunks _ c :=
    match pk_in c with
    | [] => (c, ([], ReadBlocked))
    | b :: bs => (mkPkg bs (pk_take c) (pk_sent c) (pk_ids c) (pk_closed c) (pk_events c) (pk_streams c), b)
    end;
  send_write _ b c :=
    match pk_take c with
    | [] => (mkPkg (pk_in c) [] (pk_sent c ++ b) (pk_ids c) (pk_closed c) (pk_events c) (pk_streams c), Wrote (length b))
    | O :: ns => (mkPkg (pk_in c) ns (pk_sent c) (pk_ids c) (pk_closed c) (pk_events c) (pk_streams c), WriteBlocked)
    | n :: ns => (mkPkg (pk_in c) ns (pk_sent c ++ take n b) (pk_ids c) (pk_closed c) (pk_events c) (pk_streams c), Wrote (Nat.min n (length b)))
    end;
  streams_open _ c :=
    match pk_ids c with
    | [] => (c, None)
    | id :: ids => (mkPkg (pk_in c) (pk_take c) (pk_sent c) ids (pk_closed c) (pk_events c) (pk_streams c), Some id)
    end;
  streams_accept _ c :=
    match pk_ids c with
    | [] => (c, None)
    | id :: ids => (mkPkg (pk_in c) (pk_take c) (pk_sent c) ids (pk_closed c) (pk_events c) (pk_streams c), Some id)
    end;
  send_streams c := pk_streams c;
  recv_stop _ _ c := (c, true);
  send_finish _ c := (c, true);
  conn_close _ _ c := mkPkg (pk_in c) (pk_take c) (pk_sent c) (pk_ids c) true (pk_events c) (pk_streams c);
}.

#[export] Instance pkg_poll : QuinnPoll Pkg unit unit := {
  handle_event _ c := c;
  conn_timeout _ c := c;
  poll_transmit _ _ c := (c, None);
  poll_timeout c := (c, None);
  endpoint_events c := (c, []);
  poll_app c :=
    match pk_events c with
    | [] => (c, None)
    | e :: es => (mkPkg (pk_in c) (pk_take c) (pk_sent c) (pk_ids c) (pk_closed c) es (pk_streams c), Some e)
    end;
  ping c := c;
}.

(** A connection that is connected, with the main stream 0. *)
Definition quiet (batches : list (list (Z * list Z) * ReadEnd)) (takes : list nat) : Pkg := mkPkg batches takes [] [] false [] 1.
Definition sample_socket (c : Pkg) : QuicSocket Pkg :=
  put_socket_handle (Some 9%Z) (set_event_sent true (set_qs_status 3 (accept_main_streams 0 (new_socket 9 5 c 8192 8192 0)))).
Definition sample_stream : QuicStream := new_stream Bi 8192 8192.

Definition halves : list (list (Z * list Z)) := [[(2, [3; 4]); (0, [1; 2])]; [(4, [5])]]%Z.
Definition blocked (bs : list (list (Z * list Z))) : list (list (Z * list Z) * ReadEnd) := (fun b => (b, ReadBlocked)) <$> bs.

(** ** Receiving *)

Lemma quic_stream_in_order_witness : exists s' t',
  recv_all 2 0 (sample_socket (quiet (blocked halves) [])) = Some s' /\ get_stream 0 s' = Some t'
    /\ read_buf t' = ([] ++ [1; 2; 3; 4; 5])%Z /\ recv_len t' = 0 + 5
    /\ (forall id', 0%Z <> id' -> get_stream id' s' = get_stream id' (sample_socket (quiet (blocked halves) []))).
Proof.
  apply (quic_stream_in_order 0 0 (sample_socket (quiet (blocked halves) [])) sample_stream halves
    [[(0, [1; 2]); (2, [3; 4])]; [(4, [5])]]%Z 0 [1; 2; 3; 4; 5]%Z (quiet [] [])).
  - reflexivity.
  - reflexivity.
  - reflexivity.
  - eapply delivers_cons; [reflexivity..|]. eapply delivers_cons; [reflexivity..|]. apply delivers_nil.
  - repeat constructor.
  - cbn. split_and!; try done. exists [3; 4; 5]%Z. split_and!; try done. exists [5]%Z. split_and!; try done. by exists [].
Defined.

Definition crossed : list (list (Z * list Z)) := [[(2, [3; 4])]; [(0, [1; 2])]]%Z.

Lemma quic_order_across_calls_witness : exists s' t',
  recv_all 2 0 (sample_socket (quiet (blocked crossed) [])) = Some s' /\ get_stream 0 s' = Some t'
    /\ read_buf t' = ([] ++ [3; 4] ++ [1; 2])%Z.
Proof.
  apply (quic_order_across_calls 0 0 (sample_socket (quiet (blocked crossed) [])) sample_stream 0 [1; 2] [3; 4] (quiet [] []))%Z.
  - reflexivity.
  - reflexivity.
  - reflexivity.
  - eapply delivers_cons; [reflexivity..|]. eapply delivers_cons; [reflexivity..|]. apply delivers_nil.
Defined.

(** A read of ten bytes waits on the main stream. *)
Definition waiting_socket (c : Pkg) : QuicSocket Pkg := (read_ready 0 10 (sample_socket c)).1.
Definition waiting_stream : QuicStream := set_reader 10 0 true (add_wait_recv 10 sample_stream).
Definition last_words : list (list (Z * list Z) * ReadEnd) := [([(0, [1; 2; 3])]%Z, ReadFinished)].

Lemma quic_tail_lost_witness : exists s' t',
  recv 0 (waiting_socket (quiet last_words [])) = (s', Err ConnectionAborted) /\ get_stream 0 s' = Some t'
    /\ read_buf t' = [] /\ recv_len t' = 0 + 3 /\ ready_reader t' = true.
Proof.
  by apply (quic_tail_lost 0 0 (waiting_socket (quiet last_words [])) waiting_stream (quiet last_words []) (quiet [] [])
    [(0, [1; 2; 3])]%Z ReadFinished).
Defined.

Lemma quic_ready_complete_witness :
  exists s1 s2, read_ready 0 4 (sample_socket (quiet (blocked halves) [])) = (s1, inl tt) /\ recv_all 2 0 s1 = Some s2
    /\ (wakeup_read_ready 0 s2).2 = Some 5 /\ is_wait_wakeup_read_ready 0 (wakeup_read_ready 0 s2).1 = false.
Proof.
  apply (quic_ready_complete 0 0 4 (sample_socket (quiet (blocked halves) [])) sample_stream halves (quiet [] [])).
  - reflexivity.
  - reflexivity.
  - reflexivity.
  - reflexivity.
  - cbn. lia.
  - eapply delivers_cons; [reflexivity..|]. eapply delivers_cons; [reflexivity..|]. apply delivers_nil.
Defined.

(** ** Sending *)

Definition full_socket (n : nat) (takes : list nat) : QuicSocket Pkg :=
  on_stream 0 (set_write_len n) (on_stream 0 (set_write_buf [1; 2; 3; 4; 5; 6; 7]%Z) (sample_socket (quiet [] takes))).
Definition full_stream (n : nat) : QuicStream := set_write_len n (set_write_buf [1; 2; 3; 4; 5; 6; 7]%Z sample_stream).

Lemma quic_blocked_rotates_witness : exists s' t',
  send 0 (full_socket 5 [0]) = Done (s', Ok 0) /\ get_stream 0 s' = Some t' /\ write_buf t' = ([6; 7] ++ [1; 2; 3; 4; 5])%Z
    /\ (7 <= 5 -> write_buf t' = [1; 2; 3; 4; 5; 6; 7]%Z).
Proof.
  by apply (quic_blocked_rotates 0 (full_socket 5 [0]) (full_stream 5) (quiet [] [])).
Defined.

Lemma quic_partial_write_witness : exists s' t',
  send 0 (full_socket 5 [2; 0]) = Done (s', Ok 2) /\ get_stream 0 s' = Some t'
    /\ connect s' = mkPkg [] [] [1; 2]%Z [] false [] 1 /\ write_buf t' = ([6; 7] ++ [5])%Z.
Proof.
  apply (quic_partial_write 0 (full_socket 5 [2; 0]) (full_stream 5) (mkPkg [] [0] [1; 2]%Z [] false [] 1)
    (mkPkg [] [] [1; 2]%Z [] false [] 1) 2).
  - discriminate.
  - reflexivity.
  - cbn. lia.
  - reflexivity.
  - reflexivity.
Defined.

(** The law of a package that takes everything, as a package of its own. *)
#[local] Instance greedy_api : QuinnApi (list Z) | 100 := {
  recv_open _ c := (c, true);
  recv_chunks _ c := (c, ([], ReadBlocked));
  send_write _ b c := (c ++ b, Wrote (length b));
  streams_open _ c := (c, None);
  streams_accept _ c := (c, None);
  send_streams _ := 1;
  recv_stop _ _ c := (c, true);
  send_finish _ c := (c, true);
  conn_close _ _ c := c;
}.
Definition greedy_socket (n : nat) (buf : list Z) : QuicSocket (list Z) :=
  on_stream 0 (set_write_len n) (on_stream 0 (set_write_buf buf)
    (put_socket_handle (Some 9%Z) (set_event_sent true (set_qs_status 3 (accept_main_streams 0 (new_socket 9 5 [] 8192 8192 0)))))).

Lemma quic_sent_in_order_witness : exists s' t',
  send_all 2 0 (greedy_socket 3 [1; 2; 3; 4; 5; 6; 7]%Z) = Done s' /\ get_stream 0 s' = Some t'
    /\ connect s' = ([] ++ [1; 2; 3; 4; 5; 6])%Z /\ write_buf t' = [7]%Z.
Proof.
  apply (quic_sent_in_order (fun c => c) 0 2 (greedy_socket 3 [1; 2; 3; 4; 5; 6; 7]%Z) (full_stream 3)).
  - intros c b _. by exists (c ++ b).
  - discriminate.
  - reflexivity.
Defined.

(** ** Closing *)

Lemma quic_close_wakes_witness : exists s',
  close 7 (Err ConnectionAborted) (waiting_socket (quiet [] [])) = (s', [0]%Z, Ok tt) /\ get_status s' = Closeing
    /\ close_reason s' = Some (7%Z, Err ConnectionAborted) /\ (forall id, waits id s' = false)
    /\ (true = true -> last (events s') = Some (StreamClose 5 None 7)) /\ forall code' reason', close code' reason' s' = (s', [], Ok tt).
Proof. by apply (quic_close_wakes 7 (Err ConnectionAborted) (waiting_socket (quiet [] []))). Defined.

(** ** A pool *)

Notation SamplePool := (Pool Pkg unit unit).

Definition done_or {A} (d : A) (o : outcome A) : A := match o with Done a => a | _ => d end.

(** A turn that walks the table over the handle 5. *)
Definition sample_turn : Turn := mkTurn 0 [] (fun _ => true) [5%Z] 10.

(** A connection of the listener that connects, opens its main stream and finishes it. *)
Definition short_lived : QuicSocket Pkg :=
  new_socket 9 5 (mkPkg [] [] [] [0%Z] false [ConnectionConnected; StreamOpened Bi; StreamFinished 0] 0) 8192 8192 0.

Definition pool_arrived : SamplePool := send_event (Accepted short_lived) (new_pool 0).
Definition pool_opened : SamplePool := done_or pool_arrived (event_loop sample_turn pool_arrived).
Definition pool_timed : SamplePool := done_or pool_opened (app 0 (AppTimeout (Some (10%Z, Some "late"))) pool_opened).
Definition pool_read : SamplePool := done_or pool_timed (event_loop sample_turn pool_timed).
Definition pool_closed : SamplePool := done_or pool_read (event_loop sample_turn pool_read).
Definition pool_unpolled : SamplePool := done_or pool_closed (event_loop sample_turn pool_closed).
Definition closed_call : Callback := Closed (Some 0%Z) 0 (Err Other).
Definition pool_called : SamplePool :=
  done_or pool_unpolled (run_task (TCall 0 closed_call) (set_tasks [TCall 0 Connected; TReadable 0 0] pool_unpolled)).

Lemma sample_pool_reachable : reachable 0 pool_called.
Proof.
  eapply rtc_l; [eapply (step_arrive (Accepted short_lived))|].
  eapply rtc_l; [eapply (step_turn sample_turn _ pool_opened); vm_compute; reflexivity|].
  eapply rtc_l; [eapply (step_app 0 (AppTimeout (Some (10%Z, Some "late"))) _ pool_timed); vm_compute; reflexivity|].
  eapply rtc_l; [eapply (step_turn sample_turn _ pool_read); vm_compute; reflexivity|].
  eapply rtc_l; [eapply (step_turn sample_turn _ pool_closed); vm_compute; reflexivity|].
  eapply rtc_l; [eapply (step_turn sample_turn _ pool_unpolled); vm_compute; reflexivity|].
  eapply rtc_l; [|apply rtc_refl].
  eapply (step_task (TCall 0 closed_call) [TCall 0 Connected; TReadable 0 0] [] _ pool_called); vm_compute; reflexivity.
Qed.

Lemma quic_closed_once_witness :
  log pool_called = [(0, closed_call)] /\ sockets pool_called = ∅ /\
  ((forall h a, sockets pool_called !! h = Some a -> exists s, conns pool_called !! a = Some s /\ uid s = h)
   /\ NoDup (closed_log (log pool_called)) /\ (forall h a, a ∈ closed_log (log pool_called) -> sockets pool_called !! h <> Some a)).
Proof.
  split; [vm_compute; reflexivity|]. split; [vm_compute; reflexivity|].
  apply (quic_closed_once 0 pool_called). exact sample_pool_reachable.
Defined.

Lemma quic_timeouts_never_fire_witness : (0, Timeouted "late") ∉ log pool_called.
Proof. apply (quic_timeouts_never_fire 0 pool_called). exact sample_pool_reachable. Defined.

(** A pool with one connection at the address 0. *)
Definition pool_with (s : QuicSocket Pkg) : SamplePool := set_next 1 (set_sockets {[5%Z := 0]} (set_conns {[0 := s]} (new_pool 0))).

Lemma quic_read_end_ignored_witness : exists p' s',
  read_task 0 0 (pool_with (waiting_socket (quiet last_words []))) = Done p' /\ conns p' !! 0 = Some s'
    /\ is_wait_wakeup_read_ready 0 s' = true /\ qs_status s' = 3%Z /\ tasks p' = [] /\ log p' = [] /\ sockets p' = {[5%Z := 0]}.
Proof.
  apply (quic_read_end_ignored 0 0 0 (waiting_socket (quiet last_words [])) waiting_stream (quiet last_words []) (quiet [] [])
    [(0, [1; 2; 3])]%Z ReadFinished (pool_with (waiting_socket (quiet last_words [])))); done.
Defined.

(** Two expanding streams; the application closes one of them. *)
Definition two_streams : QuicSocket Pkg := add_expanding_stream 8 Bi (add_expanding_stream 4 Bi (sample_socket (quiet [] []))).

Lemma quic_stream_close_closes_witness : exists s',
  conns (handle_stream_close 5 (Some 4%Z) (pool_with two_streams)) !! 0 = Some s' /\ expanding_streams s' = ∅
    /\ pk_closed (connect s') = true.
Proof. by apply (quic_stream_close_closes pk_closed 5 0 (Some 4%Z) two_streams (pool_with two_streams)). Defined.

(** A connection that is still in its handshake. *)
Definition unconnected : QuicSocket Pkg := set_event_sent true (new_socket 9 5 (quiet [] []) 8192 8192 0).
Definition pool_early : SamplePool := set_channel [OfSocket (ConnectionClose 5)] (pool_with unconnected).

Lemma quic_close_unconnected_witness : event_loop sample_turn pool_early = Panic.
Proof. by apply (quic_close_unconnected sample_turn 5 0 unconnected [] pool_early). Defined.

(** Two streams that open together make one event: one of them is accepted. *)
Definition twin_pkg : Pkg := mkPkg [] [] [] [4; 8]%Z false [StreamOpened Bi] 1.
Lemma second_stream_unaccepted : exists p' s',
  poll_one sample_turn 5 (pool_with (sample_socket twin_pkg)) = Done p' /\ conns p' !! 0 = Some s'
    /\ get_stream_ids s' = [0; 4]%Z /\ pk_ids (connect s') = [8]%Z /\ tasks p' = [TCall 0 (OpenedStream 4 Bi)].
Proof. eexists _, _. split_and!; vm_compute; reflexivity. Qed.

Notation GreedyPool := (Pool (list Z) unit unit).
#[local] Instance greedy_poll : QuinnPoll (list Z) unit unit | 100 := {
  handle_event _ c := c; conn_timeout _ c := c; poll_transmit _ _ c := (c, None); poll_timeout c := (c, None);
  endpoint_events c := (c, []); poll_app c := (c, None); ping c := c;
}.
Definition greedy_pool : GreedyPool :=
  set_next 1 (set_sockets {[5%Z := 0]} (set_conns {[0 := greedy_socket 4096 [1]%Z]} (new_pool 0))).

Lemma quic_written_sent_witness : exists p1 p2 p3 p4 s4,
  app 0 (AppWrite 0 [2; 3]%Z) greedy_pool = Done p1 /\ channel p1 = [OfSocket (StreamWrite 5 0 [2; 3]%Z)]
  /\ handle_pool_event sample_turn (OfSocket (StreamWrite 5 0 [2; 3]%Z)) (set_channel [] p1) = Done p2
  /\ channel p2 = [OfSocket (StreamReady 5 0 Writable)]
  /\ handle_pool_event sample_turn (OfSocket (StreamReady 5 0 Writable)) (set_channel [] p2) = Done p3
  /\ tasks p3 = [] ++ [TWritable 0] /\ run_task (TWritable 0) (set_tasks [] p3) = Done p4
  /\ tasks p4 = [] ++ [TWriting 0 []]
  /\ conns p4 !! 0 = Some s4 /\ connect s4 = [1; 2; 3]%Z
  /\ (exists t', get_stream 0 s4 = Some t' /\ write_buf t' = [] /\ sent_len t' = 0 + 3) /\ log p4 = [] ++ [(0, Writed 0)].
Proof.
  apply (quic_written_sent sample_turn 5 0 (greedy_socket 4096 [1]%Z)
    (set_write_len 4096 (set_write_buf [1]%Z sample_stream)) 0 [] [2; 3]%Z 9 [1; 2; 3]%Z greedy_pool); try reflexivity; [done|].
  cbn. lia.
Defined.

(** ** A listener *)

(** The endpoint gives its answers one after another. *)
#[export] Instance scripted_endpoint : QuinnEndpoint (list (option (Z * DatagramEvent Pkg unit))) Pkg unit unit := {
  ep_handle _ _ _ _ ep := match ep with [] => ([], None) | o :: ep => (ep, o) end;
  ep_event _ _ ep := (ep, Some tt);
  ep_transmits ep := (ep, []);
  is_drained _ := false;
}.
Definition sample_ep : list (option (Z * DatagramEvent Pkg unit)) :=
  [Some (5%Z, NewConnection (quiet [] [])); Some (5%Z, ConnectionEvent tt)].
Definition sample_listener : QuicListener _ Pkg unit unit := new_listener 2 sample_ep 8192 8192 0.
Definition sample_udp : UdpHandle := mkUdpHandle 9 None ("::1", 443%Z).
Definition a_datagram : io_result (list Z * option (string * Z)) := Ok ([1%Z], Some ("::2", 9000%Z)).
Definition listener_one := done_or sample_listener (handle_received sample_udp a_datagram sample_listener).
Definition listener_two := done_or listener_one (handle_received sample_udp a_datagram listener_one).

Lemma quic_routed_to_owner_witness : length <$> event_sents listener_two = [0; 2] /\ listener_routed 2 listener_two.
Proof.
  split; [vm_compute; reflexivity|]. apply (quic_routed_to_owner 2 sample_ep 8192 8192 0 listener_two).
  eapply rtc_l; [eapply (listener_datagram sample_udp a_datagram _ listener_one); vm_compute; reflexivity|].
  eapply rtc_l; [eapply (listener_datagram sample_udp a_datagram _ listener_two); vm_compute; reflexivity|]. apply rtc_refl.
Defined.

Lemma quic_received_done_witness : exists l', handle_received sample_udp a_datagram sample_listener = Done l'.
Proof. by apply (quic_received_done sample_udp a_datagram sample_listener). Defined.

(** ** A client *)

Definition SampleEp : Type := list (option (Z * DatagramEvent Pkg unit)).
#[export] Instance sample_connect : QuinnConnect SampleEp Pkg := {
  ep_connect _ _ ep := (ep, Ok (5%Z, mkPkg [] [] [] [0%Z] false [] 1));
}.
Definition sample_client : QuicClient SampleEp Pkg unit unit :=
  mkQuicClient (new_listener 2 ([] : SampleEp) 8192 8192 0) 9 ∅ ∅ ∅ ∅ 0 3000 ∅ ∅.
Definition connecting : QuicSocket Pkg :=
  put_socket_handle (Some 9%Z) (set_event_sent true (set_qs_status 3 (new_socket 9 5 (mkPkg [] [] [] [0%Z] false [] 1) 8192 8192 0))).

Lemma quic_connect_answered_witness : exists cl1 cl2 p2 s' i x,
  connect_task ("::2", 443%Z) "host" 3000 9 10 7 sample_client = Done cl1
  /\ event_sents (inner cl1) = alter (fun q => q ++ [Accepted x]) i [[]; []] /\ uid x = 5%Z /\ is_client x = true
  /\ client_connected 0 5 (Ok tt) cl1 (pool_with connecting) = Done (cl2, p2) /\ connect_values cl2 !! 7 = Some (Ok 0)
  /\ connect_events cl2 !! 5%Z = None /\ conns p2 !! 0 = Some s' /\ main_stream_id s' = Some 0%Z.
Proof.
  apply (quic_connect_answered ("::2", 443%Z) "host" 3000 9 10 7 [] 5 (mkPkg [] [] [] [0%Z] false [] 1) 0 connecting (quiet [] []) 0
    sample_client (pool_with connecting)); [reflexivity|lia|discriminate|reflexivity|reflexivity].
Defined.

Lemma quic_connect_timer_panics_witness :
  client_timer_due 0 (connect_begin (Some 100) (Ok 9%Z) sample_client).1 = Panic.
Proof. by apply (quic_connect_timer_panics (Some 100) (Ok 9%Z) sample_client). Defined.

Definition waiting_client : QuicClient SampleEp Pkg unit unit :=
  set_connect_events {[5%Z := (9%Z, 7)]} (push_client_timer 2990 (QuicConnect 5) sample_client).
Lemma quic_late_connection_left_witness : exists cl',
  client_timer_due 0 waiting_client = Done cl' /\ connect_values cl' !! 7 = Some (Err TimedOut)
    /\ client_connected 0 5 (Ok tt) cl' (pool_with connecting) = Done (cl', pool_with connecting).
Proof. by apply (quic_late_connection_left 0 5 7 2990 9 0 waiting_client (pool_with connecting)). Defined.

Definition connected_client : QuicClient SampleEp Pkg unit unit := set_connections {[5%Z := 0]} sample_client.
Lemma quic_close_answered_witness : exists cl1 cl2,
  close_connection 5 1 (Ok tt) 8 connected_client (pool_with connecting) = (cl1, close_conn 0 1 (Ok tt) (pool_with connecting), None)
    /\ client_closed 5 (Ok tt) cl1 = cl2 /\ close_values cl2 !! 8 = Some (Ok tt)
    /\ forall code' reason' v' p', close_connection 5 code' reason' v' cl2 p' = (cl2, p' : SamplePool, Some (Ok tt)).
Proof. by apply (quic_close_answered 5 1 (Ok tt) 8 (Ok tt) 0 connected_client (pool_with connecting)). Defined.

Lemma quic_try_read_witness :
  let '(s', r) := try_read_with_len 0 3 (full_socket 5 []) in
  match r with None => s' = full_socket 5 [] | Some b => b <> [] end.
Proof.
  pose proof (quic_try_read 0 3 (full_socket 5 []) (full_stream 5) eq_refl) as Hr.
  destruct (try_read_with_len 0 3 (full_socket 5 [])) as [s' [b|]]; [by destruct Hr|by destruct Hr].
Defined.

Definition three_bytes : QuicSocket Pkg := on_stream 0 (set_read_buf [1; 2; 3]%Z) (sample_socket (quiet [] [])).
Lemma quic_short_read_panics_witness : read_with_len 0 5 three_bytes = Panic.
Proof. apply (quic_short_read_panics 0 5 three_bytes (set_read_buf [1; 2; 3]%Z sample_stream)); [reflexivity|cbn; lia]. Defined.

Lemma quic_read_complete_witness : exists s1 s2 s3 n s4 t4,
  read_with_len 0 4 (sample_socket (quiet (blocked halves) [])) = Done (s1, inl tt) /\ recv_all 2 0 s1 = Some s2
    /\ wakeup_read_ready 0 s2 = (s3, Some n) /\ read_resumed 0 4 n s3 = Done (s4, Some [1; 2; 3; 4]%Z)
    /\ get_stream 0 s4 = Some t4 /\ read_buf t4 = [5]%Z.
Proof.
  apply (quic_read_complete 0 0 4 (sample_socket (quiet (blocked halves) [])) sample_stream halves
    [[(0, [1; 2]); (2, [3; 4])]; [(4, [5])]]%Z 0 [1; 2; 3; 4; 5]%Z (quiet [] [])); try reflexivity.
  - cbn. lia.
  - eapply delivers_cons; [reflexivity..|]. eapply delivers_cons; [reflexivity..|]. apply delivers_nil.
  - repeat constructor.
  - cbn. split_and!; try done. exists [3; 4; 5]%Z. split_and!; try done. exists [5]%Z. split_and!; try done. by exists [].
Defined.

(** ** Broadcasting *)

Lemma quic_broadcast_all_witness : exists p',
  broadcast [0] [7%Z] (pool_with two_streams) = (p', Ok tt)
    /\ channel p' = ([] : list (PoolEvent Pkg unit)) ++ [OfSocket (StreamWrite 5 0 [7%Z]); OfSocket (StreamWrite 5 4 [7%Z]); OfSocket (StreamWrite 5 8 [7%Z])].
Proof.
  apply (quic_broadcast_all [0] [7%Z] (pool_with two_streams)).
  - apply NoDup_singleton.
  - intros a ->%list_elem_of_singleton. by exists two_streams.
Defined.

Definition closed_socket : QuicSocket Pkg := set_qs_status 4 two_streams.
Lemma quic_broadcast_stops_witness : exists p',
  broadcast [0; 1] [7%Z] (set_conns {[0 := closed_socket; 1 := two_streams]} (pool_with two_streams)) = (p', Err ConnectionAborted)
    /\ channel p' = [].
Proof.
  by apply (quic_broadcast_stops 0 [1] [7%Z] closed_socket 0 [4; 8]%Z
    (set_conns {[0 := closed_socket; 1 := two_streams]} (pool_with two_streams))).
Defined.
