(* ===== verification/SocketContext.v ===== *)
(** * The context of a connection (new_tcp/src/utils.rs)

    [SocketContext] keeps a raw pointer to an [Arc] of the layer above: the WebSocket
    session of a TCP connection, the MQTT session of a WebSocket session. The model
    has the pointed-to allocation with its strong count, and the handles that were
    given out and not dropped yet, so that what the count misses can be stated. *)

From S2P Require Import Prelude.

(** The allocation [Arc::into_raw(Arc::new(context))] made. *)
Record ArcInner (T : Type) := mkArcInner { strong : nat; data : T }.
Arguments mkArcInner {T} strong data.
Arguments strong {T} a.
Arguments data {T} a.

(** [inner] is [None] for the null pointer. *)
Record SocketContext (T : Type) := mkSocketContext { inner : option (ArcInner T) }.
Arguments mkSocketContext {T} inner.
Arguments inner {T} s.

Section ops.
Context {T : Type}.
Implicit Types c : SocketContext T.

Definition empty_context : SocketContext T := mkSocketContext None.

Definition is_empty c : bool := match inner c with None => true | Some _ => false end.

(** [Arc::from_raw] takes over the count the pointer stands for, it adds nothing. *)
Definition get c : option (ArcInner T) := inner c.

(** Dropping a [ContextHandle] turns its [Arc] into a raw pointer again: the
    strong count does not change. *)
Definition drop_handle c : SocketContext T := c.

(** [ContextHandle::as_mut] is [Arc::get_mut]: a reference when the count is 1. *)
Definition as_mut (h : option (ArcInner T)) : option T :=
  match h with
  | Some a => if decide (strong a = 1) then Some (data a) else None
  | None => None
  end.

(** Writing through the reference [as_mut] gives. *)
Definition put_mut (x : T) c : SocketContext T :=
  match inner c with
  | Some a => mkSocketContext (Some (mkArcInner (strong a) x))
  | None => c
  end.

Definition set (x : T) c : SocketContext T * bool :=
  if is_empty c then (mkSocketContext (Some (mkArcInner 1 x)), true) else (c, false).

Definition remove c : SocketContext T * result string (option T) :=
  match inner c with
  | None => (c, Ok None)
  | Some a =>
      if decide (1 < strong a)
      then (c, Err "Remove context failed, reason: context shared exist"%string)
      else if decide (strong a = 1) then (mkSocketContext None, Ok (Some (data a)))
      else (c, Err "Remove context failed, reason: invalid shared"%string)
  end.
End ops.

(** ** Reachable contexts *)

Section reach.
Context {T : Type}.

(** A context and the number of its handles that are still alive. *)
Definition ctx_state : Type := SocketContext T * nat.

Inductive ctx_step : ctx_state -> ctx_state -> Prop :=
| step_get c n a : get c = Some a -> ctx_step (c, n) (c, S n)
| step_drop c n : ctx_step (c, S n) (drop_handle c, n)
| step_set x c n : ctx_step (c, n) ((set x c).1, n)
| step_put x c n a : get c = Some a -> ctx_step (c, S n) (put_mut x c, S n)
| step_remove c n : ctx_step (c, n) ((remove c).1, n).

Definition ctx_reachable : ctx_state -> Prop := rtc ctx_step (empty_context, 0).

Definition ctx_unique (c : SocketContext T) : Prop :=
  match inner c with None => True | Some a => strong a = 1 end.

Lemma ctx_step_unique s s' : ctx_step s s' -> ctx_unique s.1 -> ctx_unique s'.1.
Proof.
  unfold ctx_unique. intros Hs Hu. destruct Hs; cbn in *; try done.
  - unfold set, is_empty. destruct (inner c) eqn:E; cbn; [by rewrite E|done].
  - unfold put_mut. destruct (inner c) eqn:E; cbn; [done|by rewrite E].
  - unfold remove. destruct (inner c) eqn:E; [|cbn; by rewrite E].
    repeat case_decide; cbn; by rewrite ?E.
Qed.

Lemma ctx_reachable_unique s : ctx_reachable s -> ctx_unique s.1.
Proof.
  unfold ctx_reachable. assert (ctx_unique (@empty_context T, 0).1) as H by done.
  intros Hr. revert H. induction Hr; eauto using ctx_step_unique.
Qed.

(** The strong count never exceeds 1, whatever the handles given out: a handle of
    a context that is set always gives the writable reference, and [remove] always
    succeeds, also while handles are alive, which its comment excludes. *)
Theorem context_count_misses_handles c n x :
  ctx_reachable (c, n) -> is_empty c = false ->
  (exists y, as_mut (get c) = Some y /\ remove c = (empty_context, Ok (Some y))) /\
  as_mut (get (put_mut x c)) = Some x.
Proof.
  intros Hr Hne. pose proof (ctx_reachable_unique _ Hr) as Hu. unfold ctx_unique in Hu; cbn in Hu.
  unfold is_empty, get, put_mut, remove in *. destruct (inner c) as [a|]; [|done].
  cbn. rewrite Hu. split; [|done]. exists (data a). done.
Qed.
End reach.

(** A context with two live handles. *)
Lemma context_count_misses_handles_witness :
  (exists y, as_mut (get (mkSocketContext (Some (mkArcInner 1 7)))) = Some y /\
     remove (mkSocketContext (Some (mkArcInner 1 7))) = (empty_context, Ok (Some y))) /\
  as_mut (get (put_mut 9 (mkSocketContext (Some (mkArcInner 1 7))))) = Some 9.
Proof.
  apply (context_count_misses_handles (mkSocketContext (Some (mkArcInner 1 7))) 2); [|done].
  eapply rtc_l; [exact (step_set 7 empty_context 0)|].
  eapply rtc_l; [exact (step_get (mkSocketContext (Some (mkArcInner 1 7))) 0 _ eq_refl)|].
  eapply rtc_l; [exact (step_get (mkSocketContext (Some (mkArcInner 1 7))) 1 _ eq_refl)|].
  apply rtc_refl.
Defined.
