(* ===== verification/RpcBase.v ===== *)
(** * Requests over MQTT (base/src, rpc/src)

    The base protocol puts a byte with a version and the way of compression in front of a
    payload, the RPC protocol the id of a request and a timeout. A connection has a
    [BaseConnect] in the context of its MQTT session and in it an [RpcConnect]; handles and
    connections share the cells of the head ([Arc<AtomicU8>]), which lie in a store, as do
    the RPC connections. The application's handlers are recorded as calls. *)

From S2P Require Import Prelude SocketContext.

(** What [MqttConnect] is used for here; a connection is named by a number. *)
Class MqttHandle (W : Type) := {
  mq_has_session : Z -> W -> bool;
  mq_uid : Z -> W -> option Z;
  mq_remote : Z -> W -> option (string * Z);
  mq_send : Z -> string -> list Z -> W -> outcome (W * io_result unit);
  mq_close : Z -> io_result unit -> W -> outcome (W * io_result unit);
}.

(** The package compress: the buffer that was filled, and whether it went well. *)
Class CompressApi := {
  compress : list Z -> list Z * bool;
  uncompress : list Z -> list Z * bool;
}.

Definition MQTT_RESPONSE_SYS_TOPIC : string := "$r".

(** ** The base protocol *)

Record BaseCells := mkBaseCells { compress_level : Z; compare : Z; version : Z }.

Record BaseConnect := mkBaseConnect {
  bc_connect : Z;
  bc_cells : nat;
  bc_context : SocketContext nat;        (* the address of an [RpcConnect] *)
}.

(** [BaseConnectHandle] *)
Record BaseConnectHandle := mkBaseConnectHandle { bh_connect : Z; bh_cells : nat }.

Record RpcConnect := mkRpcConnect { gray : Z; rpc_handle : BaseConnectHandle; rpc_timeout : Z }.

Inductive RpcCall :=
| CallConnected (uid : Z)
| CallClosed (uid : Z)
| CallRequest (rpc : nat) (topic : string) (remote : option (string * Z)) (rid : Z) (body : list Z).

Record RpcWorld (W : Type) := mkRpcWorld {
  rw_mqtt : W;
  rw_next : nat;
  rw_cells : gmap nat BaseCells;
  rw_rpcs : gmap nat RpcConnect;
  rw_sessions : gmap Z (SocketContext BaseConnect);   (* the contexts of the MQTT sessions *)
  rw_calls : list RpcCall;
}.
Arguments mkRpcWorld {W}.
Arguments rw_mqtt {W} r.
Arguments rw_next {W} r.
Arguments rw_cells {W} r.
Arguments rw_rpcs {W} r.
Arguments rw_sessions {W} r.
Arguments rw_calls {W} r.

Section base.
Context {W : Type} `{MqttHandle W} `{CompressApi}.
Implicit Types w : RpcWorld W.

Definition set_mqtt x w : RpcWorld W := mkRpcWorld x (rw_next w) (rw_cells w) (rw_rpcs w) (rw_sessions w) (rw_calls w).
Definition set_cells x w : RpcWorld W := mkRpcWorld (rw_mqtt w) (rw_next w) x (rw_rpcs w) (rw_sessions w) (rw_calls w).
Definition set_rpcs x w : RpcWorld W := mkRpcWorld (rw_mqtt w) (rw_next w) (rw_cells w) x (rw_sessions w) (rw_calls w).
Definition set_sessions x w : RpcWorld W := mkRpcWorld (rw_mqtt w) (rw_next w) (rw_cells w) (rw_rpcs w) x (rw_calls w).
Definition call (c : RpcCall) w : RpcWorld W :=
  mkRpcWorld (rw_mqtt w) (rw_next w) (rw_cells w) (rw_rpcs w) (rw_sessions w) (rw_calls w ++ [c]).
Definition next_free w : RpcWorld W :=
  mkRpcWorld (rw_mqtt w) (S (rw_next w)) (rw_cells w) (rw_rpcs w) (rw_sessions w) (rw_calls w).

(** [decode]: an empty payload makes [bin[0]] panic. *)
Definition base_decode (bin : list Z) : outcome (BaseCells * io_result (list Z)) :=
  match bin with
  | [] => Panic
  | b0 :: body =>
      let level := Z.shiftr b0 6 in
      let cells := mkBaseCells level (Z.land b0 0x20) (Z.land b0 0x1f) in
      if (level =? 0)%Z then Done (cells, Ok body)
      else match uncompress body with
           | (buf, true) => Done (cells, Ok buf)
           | (_, false) => Done (cells, Err Other)
           end
  end.

(** [encode]: the compressed body is made, but the plain one is sent. *)
Definition base_encode (level : Z) (cmp : bool) (vsn : Z) (bin : list Z) : io_result (list Z) :=
  let b := Z.lor (Z.land (Z.shiftl level 6) 0xff) (Z.land vsn 0x1f) in
  let head := [if cmp then Z.lor b 0x20 else b] in
  if (level =? 0)%Z then Ok (head ++ bin)
  else match compress bin with
       | (_, true) => Ok (head ++ bin)
       | (_, false) => Err Other
       end.

(** [handle_encode] *)
Definition handle_encode (c : BaseCells) (bin : list Z) : io_result (list Z) :=
  base_encode (compress_level c) (0 <? compare c)%Z (version c) bin.

(** [BaseConnect::new], [get_handle] *)
Definition new_base_connect (mc : Z) w : RpcWorld W * BaseConnect :=
  let a := rw_next w in
  (set_cells (<[a := mkBaseCells 0 0 0]> (rw_cells w)) (next_free w), mkBaseConnect mc a empty_context).
Definition get_handle (c : BaseConnect) : BaseConnectHandle := mkBaseConnectHandle (bc_connect c) (bc_cells c).

(** [BaseConnectHandle::send], [reply], [close]; the result of the connection is ignored. *)
Definition handle_send (h : BaseConnectHandle) (topic : string) (data : list Z) w : outcome (RpcWorld W) :=
  c ← lift (rw_cells w !! bh_cells h);
  match handle_encode c data with
  | Ok bin => r ← mq_send (bh_connect h) topic bin (rw_mqtt w); Done (set_mqtt r.1 w)
  | Err _ => Done w
  end.
Definition handle_reply (h : BaseConnectHandle) : list Z -> RpcWorld W -> outcome (RpcWorld W) :=
  handle_send h MQTT_RESPONSE_SYS_TOPIC.
Definition handle_close (h : BaseConnectHandle) (reason : option string) w : outcome (RpcWorld W) :=
  r ← mq_close (bh_connect h) (match reason with Some _ => Err Other | None => Ok tt end) (rw_mqtt w);
  Done (set_mqtt r.1 w).

(** [BaseInnerListener] and [BaseInnerService] *)
Record BaseInner := mkBaseInner {
  inner_connected : BaseConnect -> RpcWorld W -> RpcWorld W * BaseConnect * io_result unit;
  inner_closed : BaseConnect -> io_result unit -> RpcWorld W -> RpcWorld W;
  inner_request : BaseConnect -> string -> list Z -> RpcWorld W -> RpcWorld W * io_result unit;
}.
Variable inner : BaseInner.

Definition session_context (mc : Z) w : SocketContext BaseConnect := default empty_context (rw_sessions w !! mc).

(** [BaseListener::connected]; a context that is there already stays. *)
Definition base_connected (mc : Z) w : RpcWorld W * io_result unit :=
  if mq_has_session mc (rw_mqtt w) then
    let '(w, c) := new_base_connect mc w in
    let '(w, c, result) := inner_connected inner c w in
    (set_sessions (<[mc := (set c (session_context mc w)).1]> (rw_sessions w)) w, result)
  else (w, Err Other).

(** [BaseListener::closed] *)
Definition base_closed (mc : Z) (reason : io_result unit) w : RpcWorld W :=
  match remove (session_context mc w) with
  | (ctx, Ok (Some c)) => inner_closed inner c reason (set_sessions (<[mc := ctx]> (rw_sessions w)) w)
  | _ => w
  end.

(** [BaseService::publish] *)
Definition base_publish (mc : Z) (topic : string) (payload : list Z) w : outcome (RpcWorld W * io_result unit) :=
  if mq_has_session mc (rw_mqtt w) then
    match get (session_context mc w) with
    | Some a =>
        let c := data a in
        r ← base_decode payload;
        let w := set_cells (<[bc_cells c := r.1]> (rw_cells w)) w in
        match r.2 with
        | Err _ => Done (w, Err Other)
        | Ok bin => Done (inner_request inner c topic bin w)
        end
    | None => Done (w, Err Other)
    end
  else Done (w, Err Other).
End base.

(** ** RPC *)

Section rpc.
Context {W : Type} `{MqttHandle W} `{CompressApi}.
Implicit Types w : RpcWorld W.

(** The id of a request from its bytes, the lowest first. *)
Definition rid_of (b0 b1 b2 b3 : Z) : Z :=
  Z.lor (Z.lor (Z.lor (Z.land (Z.shiftl b3 24) 0xffffffff) (Z.land (Z.shiftl b2 16) 0xffffff))
    (Z.land (Z.shiftl b1 8) 0xffff)) (Z.land b0 0xff).
Definition rid_bytes (rid : Z) : list Z :=
  [Z.land rid 0xff; Z.land (Z.shiftr rid 8) 0xff; Z.land (Z.shiftr rid 16) 0xff; Z.land (Z.shiftr rid 24) 0xff].

(** [decode]: at least one byte must follow the head. *)
Definition rpc_decode (bin : list Z) : io_result (Z * Z * list Z) :=
  match bin with
  | b0 :: b1 :: b2 :: b3 :: t :: ((_ :: _) as body) =>
      Ok (rid_of b0 b1 b2 b3, t, body)
  | _ => Err Other
  end.

(** [encode] *)
Definition rpc_encode (timeout rid : Z) (bin : list Z) : list Z :=
  rid_bytes rid ++ [timeout] ++ bin.

(** [RpcConnect::new] *)
Definition new_rpc_connect (h : BaseConnectHandle) : RpcConnect := mkRpcConnect (-1) h 0.
Definition set_gray (n : option Z) (c : RpcConnect) : RpcConnect :=
  mkRpcConnect (match n with Some n => n | None => -1 end) (rpc_handle c) (rpc_timeout c).
Definition rpc_get_id (c : RpcConnect) w : Z := default 0%Z (mq_uid (bh_connect (rpc_handle c)) (rw_mqtt w)).
Definition rpc_get_remote_addr (c : RpcConnect) w : option (string * Z) := mq_remote (bh_connect (rpc_handle c)) (rw_mqtt w).

(** [RpcConnect::send], [reply], [close] *)
Definition rpc_send (a : nat) (topic : string) (rid : Z) (data : list Z) w : outcome (RpcWorld W) :=
  c ← lift (rw_rpcs w !! a);
  handle_send (rpc_handle c) topic (rpc_encode (rpc_timeout c) rid data) w.
Definition rpc_reply (a : nat) : Z -> list Z -> RpcWorld W -> outcome (RpcWorld W) := rpc_send a MQTT_RESPONSE_SYS_TOPIC.
Definition rpc_close (a : nat) (reason : option string) w : outcome (RpcWorld W) :=
  c ← lift (rw_rpcs w !! a);
  handle_close (rpc_handle c) reason w.

(** [RpcListener] and [RpcService]: which handlers are set. *)
Record RpcHandlers := mkRpcHandlers { connected_handler : bool; closed_handler : bool; request_handler : bool }.
Variable handlers : RpcHandlers.

(** [RpcListener::connected]: without a handler it is an error. *)
Definition rpc_connected (c : BaseConnect) w : RpcWorld W * BaseConnect * io_result unit :=
  let a := rw_next w in
  let rpc := new_rpc_connect (get_handle c) in
  match set a (bc_context c) with
  | (ctx, true) =>
      let c := mkBaseConnect (bc_connect c) (bc_cells c) ctx in
      let w := set_rpcs (<[a := rpc]> (rw_rpcs w)) (next_free w) in
      if connected_handler handlers then (call (CallConnected (rpc_get_id rpc w)) w, c, Ok tt) else (w, c, Err Other)
  | (_, false) => (w, c, Err Other)
  end.

(** [RpcListener::closed] *)
Definition rpc_closed (c : BaseConnect) (reason : io_result unit) w : RpcWorld W :=
  match remove (bc_context c) with
  | (_, Ok (Some a)) =>
      match rw_rpcs w !! a with
      | Some rpc => if closed_handler handlers then call (CallClosed (rpc_get_id rpc w)) w else w
      | None => w
      end
  | _ => w
  end.

(** [RpcService::request] *)
Definition rpc_request (c : BaseConnect) (topic : string) (payload : list Z) w : RpcWorld W * io_result unit :=
  match get (bc_context c) with
  | Some ctx =>
      let a := data ctx in
      match rw_rpcs w !! a, rpc_decode payload with
      | Some rpc, Ok (rid, timeout, bin) =>
          let w := set_rpcs (<[a := mkRpcConnect (gray rpc) (rpc_handle rpc) timeout]> (rw_rpcs w)) w in
          if request_handler handlers then (call (CallRequest a topic (rpc_get_remote_addr rpc w) rid bin) w, Ok tt)
          else (w, Err Other)
      | _, _ => (w, Err Other)
      end
  | None => (w, Err Other)
  end.

Definition rpc_inner : BaseInner := mkBaseInner rpc_connected rpc_closed rpc_request.
End rpc.

(** ** Heads *)

Lemma land_byte z : Z.land z 0xff = (z mod 2 ^ 8)%Z.
Proof. change 0xff%Z with (Z.ones 8). by rewrite Z.land_ones. Qed.

Lemma rid_roundtrip r : (0 <= r < 2 ^ 32)%Z ->
  rid_of (Z.land r 0xff) (Z.land (Z.shiftr r 8) 0xff) (Z.land (Z.shiftr r 16) 0xff) (Z.land (Z.shiftr r 24) 0xff) = r.
Proof.
  intros Hr. unfold rid_of. rewrite !land_byte, !Z.shiftr_div_pow2, !Z.shiftl_mul_pow2 by lia.
  change 0xffffffff%Z with (Z.ones 32). change 0xffffff%Z with (Z.ones 24). change 0xffff%Z with (Z.ones 16).
  rewrite !Z.land_ones by lia. set (x0 := (r mod 2 ^ 8)%Z). set (x1 := ((r / 2 ^ 8) mod 2 ^ 8)%Z).
  set (x2 := ((r / 2 ^ 16) mod 2 ^ 8)%Z). set (x3 := ((r / 2 ^ 24) mod 2 ^ 8)%Z).
  assert (0 <= x0 < 256 /\ 0 <= x1 < 256 /\ 0 <= x2 < 256 /\ 0 <= x3 < 256)%Z as (? & ? & ? & ?)
    by (split_and!; apply Z.mod_pos_bound; lia).
  assert (r = ((x3 * 2 ^ 8 + x2) * 2 ^ 8 + x1) * 2 ^ 8 + x0)%Z as Er.
  { unfold x0, x1, x2, x3. change (2 ^ 16)%Z with (2 ^ 8 * 2 ^ 8)%Z. change (2 ^ 24)%Z with (2 ^ 8 * 2 ^ 8 * 2 ^ 8)%Z.
    rewrite <- !Z.div_div by lia. change (2 ^ 8)%Z with 256%Z.
    rewrite (Z.mod_small (r / 256 / 256 / 256)).
    - pose proof (Z.div_mod r 256). pose proof (Z.div_mod (r / 256) 256). pose proof (Z.div_mod (r / 256 / 256) 256). lia.
    - split; [repeat apply Z.div_pos; lia|]. rewrite !Z.div_div by lia. apply Z.div_lt_upper_bound; lia. }
  rewrite (Z.mod_small (x3 * 2 ^ 24)), (Z.mod_small (x2 * 2 ^ 16)), (Z.mod_small (x1 * 2 ^ 8)), (Z.mod_small x0) by lia.
  rewrite (lor_disjoint x3 24) by lia. replace (x3 * 2 ^ 24 + x2 * 2 ^ 16)%Z with ((x3 * 2 ^ 8 + x2) * 2 ^ 16)%Z by lia.
  rewrite lor_disjoint by lia.
  replace ((x3 * 2 ^ 8 + x2) * 2 ^ 16 + x1 * 2 ^ 8)%Z with (((x3 * 2 ^ 8 + x2) * 2 ^ 8 + x1) * 2 ^ 8)%Z by lia.
  rewrite lor_disjoint by lia. lia.
Qed.

Lemma rpc_decode_encode timeout rid body : (0 <= rid < 2 ^ 32)%Z -> body <> [] ->
  rpc_decode (rpc_encode timeout rid body) = Ok (rid, timeout, body).
Proof. intros Hr Hb. destruct body as [|b body]; [done|]. cbn. by rewrite rid_roundtrip. Qed.

(** A request or an answer without a body cannot be decoded, though it can be encoded. *)
Lemma rpc_empty_body timeout rid : rpc_decode (rpc_encode timeout rid []) = Err Other.
Proof. done. Qed.

(** The head of the base protocol: the level has two bits, the version five. *)
Lemma base_head_fields level cmp vsn :
  (0 <= level < 4)%Z -> (0 <= vsn < 32)%Z ->
  let b0 := let b := Z.lor (Z.land (Z.shiftl level 6) 0xff) (Z.land vsn 0x1f) in if cmp : bool then Z.lor b 0x20 else b in
  Z.shiftr b0 6 = level /\ Z.land b0 0x20 = (if cmp then 0x20 else 0)%Z /\ Z.land b0 0x1f = vsn.
Proof.
  intros Hl Hv. assert (level = 0 \/ level = 1 \/ level = 2 \/ level = 3)%Z as Hl' by lia.
  assert (vsn ∈ (Z.of_nat <$> seq 0 32)) as Hv'.
  { apply list_elem_of_fmap. exists (Z.to_nat vsn). split; [lia|]. apply elem_of_seq. lia. }
  assert (Forall (fun vsn => forall level cmp, (level = 0 \/ level = 1 \/ level = 2 \/ level = 3)%Z ->
    let b0 := let b := Z.lor (Z.land (Z.shiftl level 6) 0xff) (Z.land vsn 0x1f) in if cmp : bool then Z.lor b 0x20 else b in
    Z.shiftr b0 6 = level /\ Z.land b0 0x20 = (if cmp then 0x20 else 0)%Z /\ Z.land b0 0x1f = vsn) (Z.of_nat <$> seq 0 32)) as Hall.
  { cbn. repeat (apply Forall_cons; split; [intros l [] [->|[->|[->| ->]]]; done|]). apply Forall_nil_2. }
  rewrite Forall_forall in Hall. by apply Hall.
Qed.
