(* ===== verification/WsFrame.v ===== *)
(** * WebSocket frames (ws/src/frame.rs)

    The frame head and its two-step decoder, its encoder, the masking of the
    payload and the two readers that pull a frame out of a connection. Bytes and
    the [u64] length are [Z]; a panic of the code is [None]. *)

From S2P Require Import Prelude ByteSource.

(** ** Constants *)

Definition FIN_FLAG : Z := 1.
Definition DEFAULT_RSV_FLAG : Z := 0.
Definition FOLLOW_UP_OPCODE : Z := 0x0.
Definition TEXT_OPCODE : Z := 0x1.
Definition BINARY_OPCODE : Z := 0x2.
Definition CLOSE_OPCODE : Z := 0x8.
Definition PING_OPCODE : Z := 0x9.
Definition PONG_OPCODE : Z := 0xa.

(** [WsHead::READ_HEAD_LEN] *)
Definition READ_HEAD_LEN : nat := 6.

(** ** Bits *)

Definition get_bit (byte nth : Z) : Z :=
  if (Z.land byte (Z.shiftl 1 nth) =? 0)%Z then 0%Z else 1%Z.

(** [!(1 << nth)] on [u8] is the complement within 8 bits. *)
Definition set_bit (byte nth val : Z) : Z :=
  if (val =? 0)%Z then Z.land byte (Z.lxor 0xff (Z.shiftl 1 nth))
  else Z.lor byte (Z.shiftl 1 nth).

(** ** Data *)

Inductive WsMaskKey :=
| KeyEmpty
| KeyPart (bin : list Z)
| KeyComplete (bin : list Z).

Inductive WsPayloadLen :=
| LenPart (bin : list Z)
| LenComplete (len : Z).

Record WsHead := mkWsHead {
  fin : Z;
  rsv1 : Z;
  rsv2 : Z;
  rsv3 : Z;
  type : Z;              (* [r#type] *)
  len : WsPayloadLen;
  key : WsMaskKey;
}.

(** [WsHead::default]: the head of a close frame without payload. *)
Definition default_head : WsHead :=
  {| fin := FIN_FLAG; rsv1 := 0; rsv2 := 0; rsv3 := 0; type := CLOSE_OPCODE;
     len := LenComplete 0; key := KeyEmpty |}.

(** ** Decoding the head *)

(** The 16-bit and 64-bit payload lengths, in network byte order, as [u64]
    expressions. *)
Definition be16 (b0 b1 : Z) : Z :=
  Z.lor (Z.land (wrap64 (Z.shiftl b0 8)) 0xffff) (Z.land b1 0xff).

Definition be64 (b0 b1 b2 b3 b4 b5 b6 b7 : Z) : Z :=
  Z.lor (Z.lor (Z.lor (Z.lor (Z.lor (Z.lor (Z.lor
    (Z.land (wrap64 (Z.shiftl b0 56)) 0xffffffffffffffff)
    (Z.land (wrap64 (Z.shiftl b1 48)) 0xffffffffffffff))
    (Z.land (wrap64 (Z.shiftl b2 40)) 0xffffffffffff))
    (Z.land (wrap64 (Z.shiftl b3 32)) 0xffffffffff))
    (Z.land (wrap64 (Z.shiftl b4 24)) 0xffffffff))
    (Z.land (wrap64 (Z.shiftl b5 16)) 0xffffff))
    (Z.land (wrap64 (Z.shiftl b6 8)) 0xffff))
    (Z.land b7 0xff).

Definition head_of (b0 : Z) (l : WsPayloadLen) (k : WsMaskKey) : WsHead :=
  {| fin := get_bit b0 7; rsv1 := get_bit b0 6; rsv2 := get_bit b0 5; rsv3 := get_bit b0 4;
     type := Z.land b0 0xf; len := l; key := k |}.

(** [WsHead::from(&[u8])]; [None] is the panic on any other length. *)
Definition head_from (bin : list Z) : option WsHead :=
  match bin with
  | [b0; b1; b2; b3; b4; b5] =>
      let n := Z.land b1 0x7f in
      Some
        (if (n =? 127)%Z then head_of b0 (LenPart [b2; b3; b4; b5]) KeyEmpty
         else if (n =? 126)%Z then head_of b0 (LenComplete (be16 b2 b3)) (KeyPart [b4; b5])
         else head_of b0 (LenComplete n) (KeyComplete [b2; b3; b4; b5]))
  | [b0; _; b2; b3; b4; b5; b6; b7] =>
      Some (head_of b0 (LenComplete (be16 b2 b3)) (KeyComplete [b4; b5; b6; b7]))
  | [b0; _; b2; b3; b4; b5; b6; b7; b8; b9; b10; b11; b12; b13] =>
      Some (head_of b0 (LenComplete (be64 b2 b3 b4 b5 b6 b7 b8 b9))
                       (KeyComplete [b10; b11; b12; b13]))
  | _ => None
  end.

(** [is_complete], [need_size] *)
Definition is_complete (h : WsHead) : bool :=
  match len h, key h with LenComplete _, KeyComplete _ => true | _, _ => false end.

Definition need_size (h : WsHead) : nat :=
  match len h with
  | LenPart _ => 8
  | LenComplete _ => match key h with KeyPart _ => 2 | _ => 0 end
  end.

Definition with_len (l : WsPayloadLen) (h : WsHead) : WsHead :=
  mkWsHead (fin h) (rsv1 h) (rsv2 h) (rsv3 h) (type h) l (key h).
Definition with_key (k : WsMaskKey) (h : WsHead) : WsHead :=
  mkWsHead (fin h) (rsv1 h) (rsv2 h) (rsv3 h) (type h) (len h) k.

(** [from_last]: the rest of the head; the outer [None] is the panic of an index
    out of the stored part. *)
Definition from_last (h : WsHead) (last : list Z) : option (result string WsHead) :=
  match last with
  | [l0; l1] =>
      match key h with
      | KeyPart (p0 :: p1 :: _) => Some (Ok (with_key (KeyComplete [p0; p1; l0; l1]) h))
      | KeyPart _ => None
      | _ => Some (Err "invalid mask key part"%string)
      end
  | [l0; l1; l2; l3; l4; l5; l6; l7] =>
      match len h with
      | LenPart (p0 :: p1 :: p2 :: p3 :: _) =>
          Some (Ok (with_key (KeyComplete [l4; l5; l6; l7])
                      (with_len (LenComplete (be64 p0 p1 p2 p3 l0 l1 l2 l3)) h)))
      | LenPart _ => None
      | LenComplete _ => Some (Err "invalid payload len part"%string)
      end
  | _ => Some (Err "invalid last len"%string)
  end.

(** ** Encoding the head *)

(** [isize::MAX], which [Vec::with_capacity] panics beyond. *)
Definition CAPACITY_MAX : Z := 2 ^ 63 - 1.

(** [Vec::from(WsHead)]; [None] is its panics: an incomplete length or key, and the
    capacity [len + 2], which wraps around, of the vector. *)
Definition head_to (h : WsHead) : option (list Z) :=
  match len h with
  | LenComplete n =>
      if (CAPACITY_MAX <? wrap64 (n + 2))%Z then None else
      let b0 := set_bit 0 7 (fin h) in
      let b0 := set_bit b0 6 (rsv1 h) in
      let b0 := set_bit b0 5 (rsv2 h) in
      let b0 := Z.lor (set_bit b0 4 (rsv3 h)) (Z.land (type h) 0xf) in
      let finish (b1 : Z) (mask_key : list Z) : list Z :=
        if (0xffff <? n)%Z then
          b0 :: Z.lor b1 0x7f ::
          [Z.land (Z.shiftr n 56) 0xff; Z.land (Z.shiftr n 48) 0xff;
           Z.land (Z.shiftr n 40) 0xff; Z.land (Z.shiftr n 32) 0xff;
           Z.land (Z.shiftr n 24) 0xff; Z.land (Z.shiftr n 16) 0xff;
           Z.land (Z.shiftr n 8) 0xff; Z.land n 0xff] ++ mask_key
        else if (0x7e <=? n)%Z then
          b0 :: Z.lor b1 0x7e :: [Z.land (Z.shiftr n 8) 0xff; Z.land n 0xff] ++ mask_key
        else b0 :: Z.lor b1 (wrap8 n) :: mask_key in
      match key h with
      | KeyEmpty => Some (finish (set_bit 0 7 0) [])
      | KeyComplete k => Some (finish (set_bit 0 7 1) k)
      | KeyPart _ => None
      end
  | LenPart _ => None
  end.

(** ** Predicates and setters of the head *)

Definition set_len (n : nat) (h : WsHead) : WsHead := with_len (LenComplete (Z.of_nat n)) h.
Definition set_key (mask_key : option (list Z)) (h : WsHead) : WsHead :=
  with_key (match mask_key with Some k => KeyComplete k | None => KeyEmpty end) h.

Definition is_rsv1 (h : WsHead) : bool := negb (rsv1 h =? DEFAULT_RSV_FLAG)%Z.
Definition is_rsv2 (h : WsHead) : bool := negb (rsv2 h =? DEFAULT_RSV_FLAG)%Z.
Definition is_rsv3 (h : WsHead) : bool := negb (rsv3 h =? DEFAULT_RSV_FLAG)%Z.
Definition set_rsv1 (b : bool) (h : WsHead) : WsHead :=
  mkWsHead (fin h) (if b then 1 else 0)%Z (rsv2 h) (rsv3 h) (type h) (len h) (key h).
Definition set_rsv2 (b : bool) (h : WsHead) : WsHead :=
  mkWsHead (fin h) (rsv1 h) (if b then 1 else 0)%Z (rsv3 h) (type h) (len h) (key h).
Definition set_rsv3 (b : bool) (h : WsHead) : WsHead :=
  mkWsHead (fin h) (rsv1 h) (rsv2 h) (if b then 1 else 0)%Z (type h) (len h) (key h).

Definition set_finish (b : bool) (h : WsHead) : WsHead :=
  mkWsHead (if b then 1 else 0)%Z (rsv1 h) (rsv2 h) (rsv3 h) (type h) (len h) (key h).
Definition is_control (h : WsHead) : bool :=
  (type h =? CLOSE_OPCODE)%Z || (type h =? PING_OPCODE)%Z || (type h =? PONG_OPCODE)%Z.
Definition is_close (h : WsHead) : bool := (type h =? CLOSE_OPCODE)%Z.
Definition is_ping (h : WsHead) : bool := (type h =? PING_OPCODE)%Z.
Definition is_pong (h : WsHead) : bool := (type h =? PONG_OPCODE)%Z.
Definition is_data (h : WsHead) : bool := negb (is_control h).
Definition is_follow (h : WsHead) : bool := (type h =? FOLLOW_UP_OPCODE)%Z.
Definition is_text (h : WsHead) : bool := (type h =? TEXT_OPCODE)%Z.

(** [is_binary]: [|] binds tighter than [==], so the type is compared with the
    disjunction of four opcodes. *)
Definition is_binary (h : WsHead) : bool :=
  (type h =? Z.lor (Z.lor (Z.lor BINARY_OPCODE CLOSE_OPCODE) PING_OPCODE) PONG_OPCODE)%Z.

(** [set_close]: the body is a comparison, not an assignment. *)
Definition set_close (h : WsHead) : WsHead := h.

Definition with_type (t : Z) (h : WsHead) : WsHead :=
  mkWsHead (fin h) (rsv1 h) (rsv2 h) (rsv3 h) t (len h) (key h).
Definition set_ping : WsHead -> WsHead := with_type PING_OPCODE.
Definition set_pong : WsHead -> WsHead := with_type PONG_OPCODE.
Definition set_follow : WsHead -> WsHead := with_type FOLLOW_UP_OPCODE.
Definition set_text : WsHead -> WsHead := with_type TEXT_OPCODE.
Definition set_binary : WsHead -> WsHead := with_type BINARY_OPCODE.

Definition is_data_opcode (h : WsHead) : bool :=
  (type h =? TEXT_OPCODE)%Z || (type h =? BINARY_OPCODE)%Z.
Definition is_single (h : WsHead) : bool := (fin h =? FIN_FLAG)%Z && is_data_opcode h.
Definition is_first (h : WsHead) : bool := negb (fin h =? FIN_FLAG)%Z && is_data_opcode h.
Definition is_next (h : WsHead) : bool :=
  negb (fin h =? FIN_FLAG)%Z && (type h =? FOLLOW_UP_OPCODE)%Z.
Definition is_finish (h : WsHead) : bool :=
  (fin h =? FIN_FLAG)%Z && (type h =? FOLLOW_UP_OPCODE)%Z.

(** [WsHead::len], [get_key] *)
Definition head_len (h : WsHead) : Z := match len h with LenComplete n => n | LenPart _ => 0%Z end.
Definition get_key (h : WsHead) : option (list Z) :=
  match key h with KeyComplete k => Some k | _ => None end.

(** ** Masking *)

(** Consecutive assignments [bin[i + j] = bin[i + j] ^ ks[j]]; [None] is the panic
    of an index out of range. *)
Fixpoint xor_run (ks : list Z) (i : nat) (bin : list Z) : option (list Z) :=
  match ks with
  | [] => Some bin
  | k :: ks' =>
      match bin !! i with
      | Some b => xor_run ks' (S i) (<[i := Z.lxor b k]> bin)
      | None => None
      end
  end.

(** The unrolled loop of [mask]: runs of 32, 16, 8, 4, 3 and 2 bytes, and a last
    single byte. [fuel] bounds the number of iterations by the length. *)
Fixpoint mask_loop (fuel : nat) (a b c d : Z) (i len : nat) (bin : list Z) : option (list Z) :=
  match fuel with
  | O => Some bin
  | S fuel' =>
      let quad := [a; b; c; d] in
      let run (n : nat) (ks : list Z) : option (list Z) :=
        match xor_run ks i bin with
        | Some bin' => mask_loop fuel' a b c d (i + n) (len - n) bin'
        | None => None
        end in
      if decide (0 < len) then
        if decide (32 <= len) then run 32 (concat (replicate 8 quad))
        else if decide (16 <= len) then run 16 (concat (replicate 4 quad))
        else if decide (8 <= len) then run 8 (concat (replicate 2 quad))
        else if decide (4 <= len) then run 4 quad
        else if decide (len = 3) then run 3 [a; b; c]
        else if decide (len = 2) then run 2 [a; b]
        else run 1 [quad !!! (i mod 4)]
      else Some bin
  end.

(** [mask]: the key is indexed up to 3 first. *)
Definition mask (bin : list Z) (mask_key : option (list Z)) : option (list Z) :=
  match mask_key with
  | None => Some bin
  | Some (a :: b :: c :: d :: _) => mask_loop (length bin) a b c d 0 (length bin) bin
  | Some _ => None
  end.

(** ** Frames *)

Inductive WsPayload :=
| PayloadEmpty
| PayloadRaw (bin : list Z).

Definition payload_len (p : WsPayload) : nat :=
  match p with PayloadRaw bin => length bin | PayloadEmpty => 0 end.

Record WsFrame := mkWsFrame { head : WsHead; payload : WsPayload }.

Definition default_frame : WsFrame := mkWsFrame default_head PayloadEmpty.

(** [WsFrame::len]: length of the payload announced plus the payload held. *)
Definition frame_len (f : WsFrame) : Z := (head_len (head f) + Z.of_nat (payload_len (payload f)))%Z.

Definition set_head (h : WsHead) (f : WsFrame) : WsFrame := mkWsFrame h (payload f).

(** [WsFrame::payload]: takes the payload out. *)
Definition take_payload (f : WsFrame) : WsPayload * WsFrame :=
  (payload f, mkWsFrame (head f) PayloadEmpty).

(** [Vec::from(WsFrame)] *)
Definition frame_to (f : WsFrame) : option (list Z) :=
  match payload f with
  | PayloadRaw bin => match head_to (head f) with Some h => Some (h ++ bin) | None => None end
  | PayloadEmpty => head_to (head f)
  end.

(** [control_with_payload] *)
Definition control_with_payload (frame_type : Z) (p : option (list Z)) : WsFrame :=
  let head_with n :=
    {| fin := FIN_FLAG; rsv1 := 0; rsv2 := 0; rsv3 := 0; type := frame_type;
       len := LenComplete n; key := KeyEmpty |} in
  match p with
  | Some p => mkWsFrame (head_with (Z.of_nat (length p))) (PayloadRaw p)
  | None => mkWsFrame (head_with 0%Z) PayloadEmpty
  end.

(** [single_with_window_bits_and_payload]; compression is [unimplemented!()]. *)
Definition single_with_window_bits_and_payload (frame_type window_bits : Z) (p : list Z)
    : option WsFrame :=
  if (window_bits =? 0)%Z then
    Some (mkWsFrame
      {| fin := FIN_FLAG; rsv1 := 0; rsv2 := 0; rsv3 := 0; type := frame_type;
         len := LenComplete (Z.of_nat (length p)); key := KeyEmpty |}
      (PayloadRaw p))
  else None.

(** [into_write_buf]: the outer [None] is a panic, the inner one the code's. *)
Definition into_write_buf (f : WsFrame) : option (option (list Z)) :=
  match payload f with
  | PayloadRaw buf => match head_to (head f) with Some h => Some (Some (h ++ buf)) | None => None end
  | PayloadEmpty => Some None
  end.

(** [from_payload]: a payload already there is cleared, not replaced. *)
Definition from_payload (bin : list Z) (f : WsFrame) : option WsFrame :=
  let p := match payload f with PayloadEmpty => bin | PayloadRaw _ => [] end in
  match mask p (get_key (head f)) with
  | Some p' => Some (mkWsFrame (head f) (PayloadRaw p'))
  | None => None
  end.

(** ** Reading a frame *)

(** How a read ends: the function returned, with the frame as it stands then (it
    also returns when the connection closes or is closed); the task is pending;
    a panic; or the loop bound of the model was too small. *)
Inductive read_outcome (S : Type) :=
| Returned (f : WsFrame) (s : S)
| Pending
| Panicked
| OutOfFuel.
Arguments Returned {S} f s.
Arguments Pending {S}.
Arguments Panicked {S}.
Arguments OutOfFuel {S}.

Section read.
Context {S : Type} `{ByteSource S}.

(** The loop of [read_payload]. *)
Fixpoint read_payload_loop (fuel ready_len : nat) (f : WsFrame) (s : S) : read_outcome S :=
  match fuel with
  | O => OutOfFuel
  | Datatypes.S fuel' =>
      if decide (length (src_buffered s) < ready_len) then
        match src_ready ready_len s with
        | None => Pending
        | Some (0, s') => Returned f s'
        | Some (v, s') => read_payload_loop fuel' v f s'
        end
      else
        match src_take (Z.to_nat (head_len (head f))) s with
        | None => Panicked
        | Some (s', bin) =>
            match from_payload bin f with
            | Some f' => Returned f' s'
            | None => Panicked
            end
        end
  end.

Definition read_payload (fuel : nat) (f : WsFrame) (s : S) : read_outcome S :=
  let ready_len := Z.to_nat (head_len (head f)) in
  if decide (0 < ready_len) then read_payload_loop fuel ready_len f s else Returned f s.

(** The loop of [read_head]; [is_first] and [ready_len] are its variables. *)
Fixpoint read_head_loop (fuel : nat) (is_first : bool) (ready_len : nat) (f : WsFrame) (s : S)
    : read_outcome S :=
  match fuel with
  | O => OutOfFuel
  | Datatypes.S fuel' =>
      if decide (length (src_buffered s) < ready_len) then
        match src_ready ready_len s with
        | None => Pending
        | Some (0, s') => Returned f s'
        | Some (v, s') => read_head_loop fuel' is_first v f s'
        end
      else if is_first then
        match src_take READ_HEAD_LEN s with
        | None => Panicked
        | Some (s', bin) =>
            match head_from bin with
            | None => Panicked
            | Some h =>
                match need_size h with
                | 0 => read_payload fuel' (set_head h f) s'
                | r => read_head_loop fuel' false r (set_head h f) s'
                end
            end
        end
      else
        match src_take ready_len s with
        | None => Panicked
        | Some (s', bin) =>
            match from_last (head f) bin with
            | None => Panicked
            | Some (Err _) => Returned f (src_close Other s')
            | Some (Ok h) =>
                match get_key h with
                | None => Returned (set_head h f) (src_close Other s')
                | Some _ => read_payload fuel' (set_head h f) s'
                end
            end
        end
  end.

(** Six iterations are enough: at most one wait before the first six bytes, one
    before the rest of the head and one before the payload ([read_head_masked]). *)
Definition READ_FUEL : nat := 6.

Definition read_head (f : WsFrame) (s : S) : read_outcome S :=
  read_head_loop READ_FUEL true READ_HEAD_LEN f s.
End read.

(** ** Bit-level lemmas *)

Lemma lor_shifted (b k r : Z) :
  (0 <= b < 256)%Z -> (0 <= k <= 56)%Z -> (0 <= r < 2 ^ k)%Z ->
  Z.lor (Z.land (wrap64 (Z.shiftl b k)) (Z.ones (k + 8))) r = (b * 2 ^ k + r)%Z.
Proof.
  intros Hb Hk Hr.
  assert (0 <= b * 2 ^ k < 2 ^ (k + 8))%Z as Hbk.
  { rewrite Z.pow_add_r by lia. change (2 ^ 8)%Z with 256%Z. nia. }
  assert (2 ^ (k + 8) <= 2 ^ 64)%Z by (apply Z.pow_le_mono_r; lia).
  unfold wrap. rewrite Z.shiftl_mul_pow2, (Z.mod_small (b * 2 ^ k)), Z.land_ones, Z.mod_small by lia.
  apply lor_disjoint; lia.
Qed.

Lemma byte_mask (z : Z) : Z.land z 0xff = (z mod 256)%Z.
Proof. change 0xff%Z with (Z.ones 8). by rewrite Z.land_ones. Qed.

Lemma be16_eq b0 b1 :
  byte_ok b0 -> byte_ok b1 -> be16 b0 b1 = (b0 * 2 ^ 8 + b1)%Z.
Proof.
  intros H0 H1. unfold be16. rewrite byte_mask, (Z.mod_small b1) by apply H1.
  apply (lor_shifted b0 8); unfold byte_ok in *; lia.
Qed.

Lemma be64_eq b0 b1 b2 b3 b4 b5 b6 b7 :
  bytes_ok [b0; b1; b2; b3; b4; b5; b6; b7] ->
  be64 b0 b1 b2 b3 b4 b5 b6 b7 =
    (b0 * 2 ^ 56 + (b1 * 2 ^ 48 + (b2 * 2 ^ 40 + (b3 * 2 ^ 32 +
      (b4 * 2 ^ 24 + (b5 * 2 ^ 16 + (b6 * 2 ^ 8 + b7)))))))%Z.
Proof.
  unfold bytes_ok. rewrite !Forall_cons. intros (H0 & H1 & H2 & H3 & H4 & H5 & H6 & H7 & _).
  unfold be64, byte_ok in *. rewrite <-!Z.lor_assoc, byte_mask, (Z.mod_small b7) by lia.
  rewrite (lor_shifted b6 8) by lia.
  rewrite (lor_shifted b5 16) by lia.
  rewrite (lor_shifted b4 24) by lia.
  rewrite (lor_shifted b3 32) by lia.
  rewrite (lor_shifted b2 40) by lia.
  rewrite (lor_shifted b1 48) by lia.
  by rewrite (lor_shifted b0 56) by lia.
Qed.

Lemma byte_of_shift_ok n k : byte_ok (Z.land (Z.shiftr n k) 0xff).
Proof. rewrite byte_mask. apply Z.mod_pos_bound. lia. Qed.

Lemma byte_of_ok n : byte_ok (Z.land n 0xff).
Proof. rewrite byte_mask. apply Z.mod_pos_bound. lia. Qed.

Lemma be16_split n :
  (0 <= n < 2 ^ 16)%Z -> be16 (Z.land (Z.shiftr n 8) 0xff) (Z.land n 0xff) = n.
Proof.
  intros Hn. rewrite be16_eq by auto using byte_of_shift_ok, byte_of_ok.
  rewrite !byte_mask, Z.shiftr_div_pow2 by lia. Z.div_mod_to_equations. lia.
Qed.

Lemma be64_split n :
  (0 <= n < 2 ^ 64)%Z ->
  be64 (Z.land (Z.shiftr n 56) 0xff) (Z.land (Z.shiftr n 48) 0xff)
       (Z.land (Z.shiftr n 40) 0xff) (Z.land (Z.shiftr n 32) 0xff)
       (Z.land (Z.shiftr n 24) 0xff) (Z.land (Z.shiftr n 16) 0xff)
       (Z.land (Z.shiftr n 8) 0xff) (Z.land n 0xff) = n.
Proof.
  intros Hn. rewrite be64_eq by (repeat constructor; apply byte_of_shift_ok || apply byte_of_ok).
  assert (forall k j, (0 <= k)%Z -> j = (k + 8)%Z ->
    Z.land (Z.shiftr n k) 0xff * 2 ^ k + n mod 2 ^ k = n mod 2 ^ j)%Z as Hstep.
  { intros k j Hk ->. rewrite byte_mask, Z.shiftr_div_pow2, Z.pow_add_r by lia.
    rewrite Z.rem_mul_r by (try apply Z.pow_nonzero; lia). change (2 ^ 8)%Z with 256%Z. lia. }
  rewrite (byte_mask n). change 256%Z with (2 ^ 8)%Z.
  rewrite (Hstep 8%Z 16%Z), (Hstep 16%Z 24%Z), (Hstep 24%Z 32%Z), (Hstep 32%Z 40%Z),
    (Hstep 40%Z 48%Z), (Hstep 48%Z 56%Z), (Hstep 56%Z 64%Z) by lia.
  by apply Z.mod_small.
Qed.

(** ** The head's round trip *)

Definition bit_ok (b : Z) : Prop := b = 0%Z \/ b = 1%Z.

(** A head a peer may send: bits are 0 or 1, the opcode has 4 bits, the length is below
    that at which the encoder panics and the mask key has 4 bytes. *)
Definition head_ok (h : WsHead) : Prop :=
  bit_ok (fin h) /\ bit_ok (rsv1 h) /\ bit_ok (rsv2 h) /\ bit_ok (rsv3 h) /\
  (0 <= type h < 16)%Z /\
  (exists n, len h = LenComplete n /\ (0 <= n < 2 ^ 63 - 2)%Z) /\
  (exists a b c d, key h = KeyComplete [a; b; c; d]).

(** The first byte of an encoded head. *)
Definition head_byte0 (h : WsHead) : Z :=
  Z.lor (set_bit (set_bit (set_bit (set_bit 0 7 (fin h)) 6 (rsv1 h)) 5 (rsv2 h)) 4 (rsv3 h))
        (Z.land (type h) 0xf).

Lemma head_byte0_decode h l k :
  bit_ok (fin h) -> bit_ok (rsv1 h) -> bit_ok (rsv2 h) -> bit_ok (rsv3 h) ->
  (0 <= type h < 16)%Z ->
  head_of (head_byte0 h) l k = mkWsHead (fin h) (rsv1 h) (rsv2 h) (rsv3 h) (type h) l k.
Proof.
  destruct h as [f r1 r2 r3 t l' k']; unfold head_byte0, head_of; cbn [fin rsv1 rsv2 rsv3 type].
  intros Hf H1 H2 H3 Ht.
  assert (t ∈ (Z.of_nat <$> seq 0 16)) as Hin.
  { apply list_elem_of_fmap. exists (Z.to_nat t). split; [lia|]. apply elem_of_seq. lia. }
  repeat (apply elem_of_cons in Hin as [->|Hin];
    [destruct Hf as [-> | ->], H1 as [-> | ->], H2 as [-> | ->], H3 as [-> | ->]; reflexivity|]).
  by apply elem_of_nil in Hin.
Qed.

Lemma low7_of_mask n : (0 <= n < 0x7e)%Z -> Z.land (Z.lor (set_bit 0 7 1) (wrap8 n)) 0x7f = n.
Proof.
  intros Hn. unfold wrap. rewrite Z.mod_small by lia.
  change (set_bit 0 7 1) with 128%Z. rewrite Z.land_lor_distr_l.
  change (Z.land 128 0x7f) with 0%Z. rewrite Z.lor_0_l.
  change 0x7f%Z with (Z.ones 7). rewrite Z.land_ones by lia. apply Z.mod_small. lia.
Qed.

(** Decoding as the reader does it: the first six bytes, then the bytes they ask for. *)
Definition decode_head (bin : list Z) : option (result string WsHead) :=
  match head_from (take READ_HEAD_LEN bin) with
  | None => None
  | Some h =>
      match need_size h with
      | 0 => Some (Ok h)
      | _ => from_last h (drop READ_HEAD_LEN bin)
      end
  end.

(** A payload that an encoder makes room for. *)
Definition fits (p : list Z) : Prop := (Z.of_nat (length p) < 2 ^ 63 - 2)%Z.

(** The capacity of a vector for a payload of [n] bytes. *)
Lemma capacity_fits n : (0 <= n < 2 ^ 63 - 2)%Z -> (CAPACITY_MAX <? wrap64 (n + 2))%Z = false.
Proof. intros Hn. unfold CAPACITY_MAX, wrap. rewrite Z.mod_small by lia. apply Z.ltb_ge. lia. Qed.

(** A head that announces a longer payload cannot be encoded: the allocation panics. *)
Theorem head_capacity_panics h n :
  len h = LenComplete n -> (2 ^ 63 - 2 <= n < 2 ^ 64 - 2)%Z -> head_to h = None.
Proof.
  intros El Hn. unfold head_to. rewrite El.
  rewrite (proj2 (Z.ltb_lt CAPACITY_MAX (wrap64 (n + 2)))); [done|].
  unfold CAPACITY_MAX, wrap. rewrite Z.mod_small by lia. lia.
Qed.

(** The encoder's output by length class. *)
Lemma head_to_spec h :
  head_ok h -> exists bs, head_to h = Some bs /\ decode_head bs = Some (Ok h) /\
    length bs = (if (head_len h <? 0x7e)%Z then 6 else if (head_len h <=? 0xffff)%Z then 8 else 14) /\
    exists h1, head_from (take READ_HEAD_LEN bs) = Some h1 /\
      need_size h1 = length bs - READ_HEAD_LEN.
Proof.
  intros (Hf & H1 & H2 & H3 & Ht & (n & El & Hn) & (a & b & c & d & Ek)).
  unfold head_to, head_len. rewrite El, capacity_fits, Ek by done. fold (head_byte0 h).
  assert (forall l k, head_of (head_byte0 h) l k =
    mkWsHead (fin h) (rsv1 h) (rsv2 h) (rsv3 h) (type h) l k) as Hb
    by (intros; by apply head_byte0_decode).
  destruct (Z.ltb_spec 0xffff n) as [G|G]; [|destruct (Z.leb_spec 0x7e n) as [G'|G']];
    (eexists; split; [reflexivity|]); unfold decode_head, READ_HEAD_LEN; cbn [take drop app head_from].
  - change (Z.land (Z.lor (set_bit 0 7 1) 0x7f) 0x7f) with 127%Z. cbn -[head_of be64].
    rewrite !Hb. cbn -[be64]. rewrite be64_split by lia. destruct (Z.ltb_spec n 126); [lia|].
    destruct (Z.leb_spec n 65535); [lia|].
    split_and!; [destruct h; unfold with_key, with_len; cbn in *; congruence|done|eauto].
  - change (Z.land (Z.lor (set_bit 0 7 1) 0x7e) 0x7f) with 126%Z. cbn -[head_of be16].
    rewrite be16_split, !Hb by lia. cbn. destruct (Z.ltb_spec n 126); [lia|].
    destruct (Z.leb_spec n 65535); [|lia].
    split_and!; [destruct h; unfold with_key, with_len; cbn in *; congruence|done|eauto].
  - rewrite low7_of_mask by lia.
    destruct (Z.eqb_spec n 127); [lia|]. destruct (Z.eqb_spec n 126); [lia|].
    destruct (Z.ltb_spec n 126); [|lia]. rewrite !Hb. cbn.
    split_and!; [destruct h; unfold with_key, with_len; cbn in *; congruence|done|eauto].
Qed.

Lemma head_roundtrip_bytes h :
  head_ok h -> exists bs, head_to h = Some bs /\ 6 <= length bs.
Proof.
  intros H. destruct (head_to_spec h H) as (bs & ? & _ & Hl & _). exists bs. split; [done|].
  rewrite Hl. repeat case_match; lia.
Qed.

(** C20: Encoding a head and decoding it the way the reader does (six bytes, then as
    many as [need_size] asks for) gives the head back, for each of the three
    encodings of the payload length, up to the length at which the encoder
    panics; the encoding is as short as RFC 6455 asks. *)
Theorem head_roundtrip h :
  head_ok h -> exists bs, head_to h = Some bs /\ decode_head bs = Some (Ok h) /\
    length bs = (if (head_len h <? 0x7e)%Z then 6 else if (head_len h <=? 0xffff)%Z then 8 else 14).
Proof. intros H. destruct (head_to_spec h H) as (bs & ? & ? & ? & _). eauto. Qed.

(** [from] never looks at the mask bit of the second byte: an unmasked client
    frame is decoded as if its first payload bytes were the mask key. *)
Theorem head_from_ignores_mask_bit b0 b1 b2 b3 b4 b5 :
  head_from [b0; Z.lor b1 0x80; b2; b3; b4; b5] = head_from [b0; b1; b2; b3; b4; b5].
Proof.
  unfold head_from. rewrite Z.land_lor_distr_l.
  change (Z.land 0x80 0x7f) with 0%Z. by rewrite Z.lor_0_r.
Qed.

(** ** Masking *)

(** The reference: byte [j] is combined with key byte [j mod 4] (RFC 6455, 5.3). *)
Definition mask_ref (quad : list Z) (bin : list Z) : list Z :=
  imap (fun j x => Z.lxor x (quad !!! (j mod 4))) bin.

Lemma xor_run_spec ks i bin :
  i + length ks <= length bin ->
  exists bin', xor_run ks i bin = Some bin' /\ length bin' = length bin /\
    forall j, bin' !! j =
      if decide (i <= j < i + length ks) then (fun x => Z.lxor x (ks !!! (j - i))) <$> bin !! j
      else bin !! j.
Proof.
  revert i bin; induction ks as [|k ks IH]; intros i bin Hlen; cbn in *.
  { exists bin. split_and!; [done..|]. intros j. by rewrite decide_False by lia. }
  destruct (lookup_lt_is_Some_2 bin i ltac:(lia)) as [b Hb]. rewrite Hb.
  destruct (IH (S i) (<[i:=Z.lxor b k]> bin)) as (bin' & -> & Hl & Hj).
  { rewrite length_insert. lia. }
  rewrite length_insert in Hl. exists bin'. split_and!; [done..|].
  intros j. rewrite Hj. destruct (decide (j = i)) as [->|Hne].
  - rewrite decide_False by lia. rewrite decide_True by lia.
    rewrite list_lookup_insert_eq by (apply lookup_lt_Some in Hb; lia).
    by rewrite Hb, Nat.sub_diag.
  - rewrite list_lookup_insert_ne by done. repeat case_decide; try done; try lia.
    replace (j - i) with (S (j - S i)) by lia. done.
Qed.

(** The keys of a run are the repeated mask key. *)
Definition quad_run (a b c d : Z) (ks : list Z) : Prop :=
  forall j, j < length ks -> ks !!! j = [a; b; c; d] !!! (j mod 4).

Lemma quad_run_4 a b c d : quad_run a b c d [a; b; c; d].
Proof. intros j Hj. cbn [length] in Hj. by rewrite Nat.mod_small by lia. Qed.
Lemma quad_run_3 a b c d : quad_run a b c d [a; b; c].
Proof. intros j Hj. cbn [length] in Hj. do 3 (destruct j as [|j]; [done|]). lia. Qed.
Lemma quad_run_2 a b c d : quad_run a b c d [a; b].
Proof. intros j Hj. cbn [length] in Hj. do 2 (destruct j as [|j]; [done|]). lia. Qed.
Lemma quad_run_1 a b c d : quad_run a b c d [a].
Proof. intros j Hj. cbn [length] in Hj. destruct j as [|j]; [done|]. lia. Qed.
Lemma quad_run_repeat a b c d n : quad_run a b c d (concat (replicate n [a; b; c; d])).
Proof.
  induction n as [|n IH]; intros j Hj; [cbn in Hj; lia|].
  do 4 (destruct j as [|j]; [done|]). cbn in Hj.
  change (concat (replicate (S n) [a; b; c; d]) !!! S (S (S (S j))))
    with (concat (replicate n [a; b; c; d]) !!! j).
  rewrite IH by lia. replace (S (S (S (S j)))) with (j + 1 * 4) by lia.
  by rewrite Nat.Div0.mod_add.
Qed.

Lemma quad_index i j : i mod 4 = 0 -> i <= j -> (j - i) mod 4 = j mod 4.
Proof.
  intros Hi Hj. replace j with ((j - i) + (i / 4) * 4) at 2.
  - by rewrite Nat.Div0.mod_add.
  - pose proof (Nat.div_mod_eq i 4). lia.
Qed.

(** [bin'] is [bin] with the bytes from index [i] on masked. *)
Definition masked_from (quad : list Z) (i : nat) (bin bin' : list Z) : Prop :=
  length bin' = length bin /\
  forall j, bin' !! j =
    if decide (i <= j) then (fun x => Z.lxor x (quad !!! (j mod 4))) <$> bin !! j else bin !! j.

Lemma masked_from_end quad i bin : length bin <= i -> masked_from quad i bin bin.
Proof.
  intros Hi. split; [done|]. intros j. case_decide; [|done].
  by rewrite (lookup_ge_None_2 bin j) by lia.
Qed.

(** One run followed by the masking of the rest. *)
Lemma masked_run a b c d i m ks bin (k : list Z -> option (list Z)) :
  i mod 4 = 0 -> length ks = m -> i + m <= length bin -> quad_run a b c d ks ->
  (forall bin1, length bin1 = length bin ->
     exists bin', k bin1 = Some bin' /\ masked_from [a; b; c; d] (i + m) bin1 bin') ->
  exists bin', match xor_run ks i bin with Some bin1 => k bin1 | None => None end = Some bin' /\
    masked_from [a; b; c; d] i bin bin'.
Proof.
  intros Hi Hks Hm Hq Hk. destruct (xor_run_spec ks i bin) as (bin1 & -> & Hl1 & Hj1); [lia|].
  destruct (Hk bin1 Hl1) as (bin' & -> & Hl & Hj). exists bin'. split; [done|].
  split; [lia|]. intros j. rewrite Hj, Hj1, Hks.
  destruct (decide (i <= j < i + m)) as [Hin|Hout].
  - rewrite decide_False by lia. rewrite decide_True by lia. by rewrite Hq, quad_index by lia.
  - repeat case_decide; done || lia.
Qed.

Lemma mask_loop_spec fuel a b c d i n bin :
  n <= fuel -> i + n = length bin -> i mod 4 = 0 ->
  exists bin', mask_loop fuel a b c d i n bin = Some bin' /\
    masked_from [a; b; c; d] i bin bin'.
Proof.
  revert i n bin; induction fuel as [|fuel IH]; intros i n bin Hf Hlen Hi; cbn [mask_loop];
    [eauto using masked_from_end with lia|].
  case_decide as Hn; [|eauto using masked_from_end with lia].
  assert (forall m ks, 0 < m -> length ks = m -> m <= n -> quad_run a b c d ks ->
    m mod 4 = 0 \/ m = n ->
    exists bin', match xor_run ks i bin with
      | Some bin1 => mask_loop fuel a b c d (i + m) (n - m) bin1 | None => None
      end = Some bin' /\ masked_from [a; b; c; d] i bin bin') as Hrun.
  { intros m ks Hm Hks Hmn Hq Hend.
    eapply (masked_run a b c d i m ks bin (mask_loop fuel a b c d (i + m) (n - m)));
      [done|done|lia|done|].
    intros bin1 Hl1. destruct Hend as [Hend| ->].
    - apply IH; [lia|lia|]. by rewrite Nat.Div0.add_mod, Hi, Hend.
    - exists bin1. rewrite Nat.sub_diag. split; [by destruct fuel|].
      apply masked_from_end. lia. }
  repeat case_decide; rewrite ?Hi; apply Hrun;
    rewrite ?length_concat; auto using quad_run_repeat, quad_run_4, quad_run_3, quad_run_2, quad_run_1;
    lia || (right; lia) || done.
Qed.

Lemma mask_eq_ref a b c d tl bin :
  mask bin (Some (a :: b :: c :: d :: tl)) = Some (mask_ref [a; b; c; d] bin).
Proof.
  cbn. destruct (mask_loop_spec (length bin) a b c d 0 (length bin) bin) as (bin' & -> & [_ Hj]);
    [done..|]. f_equal. apply list_eq. intros j. rewrite Hj, decide_True by lia.
  unfold mask_ref. by rewrite list_lookup_imap.
Qed.

Lemma mask_ref_involutive quad bin : mask_ref quad (mask_ref quad bin) = bin.
Proof.
  apply list_eq. intros j. unfold mask_ref. rewrite !list_lookup_imap.
  destruct (bin !! j) as [x|]; [|done]. cbn. f_equal.
  by rewrite Z.lxor_assoc, Z.lxor_nilpotent, Z.lxor_0_r.
Qed.

Lemma length_mask_ref quad bin : length (mask_ref quad bin) = length bin.
Proof. apply length_imap. Qed.

(** C19: The unrolled loop of [mask] (runs of 32, 16, 8, 4, 3, 2 and 1 bytes) computes
    the masking of RFC 6455 for every payload length, and never indexes out of range. *)
Theorem mask_is_rfc6455 a b c d bin :
  mask bin (Some [a; b; c; d]) = Some (mask_ref [a; b; c; d] bin).
Proof. apply mask_eq_ref. Qed.

(** Masking twice with the same key gives the payload back. *)
Theorem mask_involutive a b c d bin :
  exists bin', mask bin (Some [a; b; c; d]) = Some bin' /\
    length bin' = length bin /\ mask bin' (Some [a; b; c; d]) = Some bin.
Proof.
  exists (mask_ref [a; b; c; d] bin). rewrite !mask_eq_ref, mask_ref_involutive.
  by rewrite length_mask_ref.
Qed.

(** ** Reading frames *)

Section read_facts.
Context {Src : Type} `{ByteSourceLaws Src}.
Implicit Types (s : Src) (f : WsFrame).

(** Taking [n] bytes that are in the buffer consumes them from the stream. *)
Lemma src_take_stream n s :
  src_live s -> n <= length (src_buffered s) ->
  exists s', src_take n s = Some (s', take n (src_stream s)) /\ src_live s' /\
    src_buffered s' = drop n (src_buffered s) /\ src_stream s' = drop n (src_stream s).
Proof.
  intros Hl Hn. destruct (src_take_ok n s Hl Hn) as (s' & -> & ?).
  rewrite src_buffered_take by done. eauto.
Qed.

Definition payload_of (quad : list Z) (bin : list Z) : WsPayload :=
  match bin with [] => PayloadEmpty | _ => PayloadRaw (mask_ref quad bin) end.

Lemma from_payload_empty a b c d bin f :
  payload f = PayloadEmpty -> key (head f) = KeyComplete [a; b; c; d] ->
  from_payload bin f = Some (mkWsFrame (head f) (PayloadRaw (mask_ref [a; b; c; d] bin))).
Proof. intros Hp Hk. unfold from_payload, get_key. by rewrite Hp, Hk, mask_eq_ref. Qed.

Lemma read_payload_live fuel a b c d f s :
  src_live s -> payload f = PayloadEmpty -> key (head f) = KeyComplete [a; b; c; d] ->
  let n := Z.to_nat (head_len (head f)) in
  n <= length (src_stream s) -> 2 <= fuel ->
  exists s', read_payload fuel f s =
      Returned (mkWsFrame (head f) (payload_of [a; b; c; d] (take n (src_stream s)))) s' /\
    src_live s' /\ src_stream s' = drop n (src_stream s).
Proof.
  intros Hl Hp Hk n Hn Hfuel. unfold read_payload. fold n.
  assert (forall s0, src_live s0 -> src_stream s0 = src_stream s ->
    n <= length (src_buffered s0) -> 0 < n ->
    exists s', match src_take n s0 with
      | Some (s', bin) =>
          match from_payload bin f with Some f' => Returned f' s' | None => Panicked end
      | None => Panicked end =
      Returned (mkWsFrame (head f) (payload_of [a; b; c; d] (take n (src_stream s)))) s' /\
      src_live s' /\ src_stream s' = drop n (src_stream s)) as Htake.
  { intros s0 Hl0 Hs0 Hn0 Hpos. destruct (src_take_stream n s0 Hl0 Hn0) as (s1 & -> & ? & _ & Hs1).
    rewrite (from_payload_empty a b c d) by done. rewrite Hs0 in *. exists s1.
    split_and!; [|done..]. unfold payload_of.
    assert (length (take n (src_stream s)) = n) as Hlen by (rewrite length_take; lia).
    by destruct (take n (src_stream s)); [cbn in Hlen; lia|]. }
  case_decide as Hpos.
  - destruct fuel as [|[|fuel]]; [lia|lia|]. cbn [read_payload_loop]. fold n.
    case_decide as Hlt; [|by apply Htake; [done..|lia|done]].
    destruct (src_ready_wait n s Hl Hlt Hn) as (v & s1 & -> & Hv & Hl1 & Hs1 & Hb1 & Hnb1).
    destruct v as [|v]; [lia|]. rewrite decide_False by lia. by apply Htake.
  - replace n with 0 by lia. exists s. destruct f as [h pl]; cbn in Hp; subst pl.
    by rewrite drop_0.
Qed.

(** The first iterations of the reader: six bytes are taken, waiting for them if
    they are not there. *)
Lemma read_head_first fuel f s :
  src_live s -> READ_HEAD_LEN <= length (src_stream s) ->
  exists s0 s1, src_take READ_HEAD_LEN s0 = Some (s1, take READ_HEAD_LEN (src_stream s)) /\
    src_live s1 /\ src_stream s1 = drop READ_HEAD_LEN (src_stream s) /\
    (READ_HEAD_LEN <= length (src_buffered s) -> s0 = s /\ 
      src_buffered s1 = drop READ_HEAD_LEN (src_buffered s)) /\
    exists fuel', fuel <= fuel' /\
      read_head_loop (2 + fuel) true READ_HEAD_LEN f s =
        match head_from (take READ_HEAD_LEN (src_stream s)) with
        | None => Panicked
        | Some h =>
            match need_size h with
            | 0 => read_payload fuel' (set_head h f) s1
            | r => read_head_loop fuel' false r (set_head h f) s1
            end
        end.
Proof.
  intros Hl Hn. destruct (decide (length (src_buffered s) < READ_HEAD_LEN)) as [Hlt|Hge].
  - destruct (src_ready_wait READ_HEAD_LEN s Hl Hlt Hn) as (v & s0 & E & Hv & Hl0 & Hs0 & Hb0 & Hnb0).
    destruct (src_take_stream READ_HEAD_LEN s0 Hl0 Hnb0) as (s1 & E1 & Hl1 & _ & Hs1).
    rewrite Hs0 in *. exists s0, s1. split_and!; [done..|intros; lia|]. exists fuel. split; [done|].
    cbn [plus read_head_loop]. rewrite decide_True, E by done. destruct v as [|v]; [lia|].
    rewrite decide_False by lia. by rewrite E1.
  - destruct (src_take_stream READ_HEAD_LEN s Hl ltac:(lia)) as (s1 & E1 & Hl1 & Hb1 & Hs1).
    exists s, s1. split_and!; [done..|]. exists (S fuel). split; [lia|].
    cbn [plus read_head_loop]. rewrite decide_False by lia. by rewrite E1.
Qed.

(** The payload part of a frame, from either of the two ways the head is complete. *)
Lemma read_payload_rest fuel h a b c d p rest s :
  src_live s -> key h = KeyComplete [a; b; c; d] -> head_len h = Z.of_nat (length p) ->
  src_stream s = p ++ rest -> 2 <= fuel ->
  exists s', read_payload fuel (mkWsFrame h PayloadEmpty) s =
      Returned (mkWsFrame h (payload_of [a; b; c; d] p)) s' /\ src_live s' /\
    src_stream s' = rest.
Proof.
  intros Hl Hkey Hlen Hs Hf.
  destruct (read_payload_live fuel a b c d (mkWsFrame h PayloadEmpty) s) as (s' & E & ? & Es');
    [done..| |done|]; cbn [head] in *; rewrite Hlen, Nat2Z.id, Hs in *.
  - rewrite length_app. lia.
  - rewrite take_app_length in E. rewrite drop_app_length in Es'. eauto.
Qed.

(** The second part of an extended head, when its bytes are in the buffer. *)
Lemma read_head_last fuel h h1 bs rest quad s :
  src_live s -> length bs <= length (src_buffered s) -> src_stream s = bs ++ rest ->
  from_last h1 bs = Some (Ok h) -> key h = KeyComplete quad ->
  exists s', src_live s' /\ src_stream s' = rest /\
    read_head_loop (S fuel) false (length bs) (mkWsFrame h1 PayloadEmpty) s =
    read_payload fuel (mkWsFrame h PayloadEmpty) s'.
Proof.
  intros Hl Hb Hs Hlast Hkey.
  destruct (src_take_stream (length bs) s Hl Hb) as (s' & E & Hl' & _ & Hs').
  exists s'. rewrite Hs in *. rewrite drop_app_length in Hs'. split_and!; [done..|].
  cbn [read_head_loop]. rewrite decide_False by lia. rewrite E, take_app_length.
  cbn [head set_head]. rewrite Hlast. unfold get_key. by rewrite Hkey.
Qed.

Lemma read_head_decodes s h hbs p rest :
  src_live s -> head_ok h -> head_to h = Some hbs -> head_len h = Z.of_nat (length p) ->
  src_stream s = hbs ++ p ++ rest ->
  (head_len h < 0x7e)%Z \/ length hbs <= length (src_buffered s) ->
  exists a b c d s', key h = KeyComplete [a; b; c; d] /\
    read_head default_frame s = Returned (mkWsFrame h (payload_of [a; b; c; d] p)) s' /\
    src_live s' /\ src_stream s' = rest.
Proof.
  intros Hl Hok Eh Hlen Hstream Hbuf.
  destruct (head_to_spec h Hok) as (bs & Eh' & Hdec & Hbl & h1 & Eh1 & Hneed).
  rewrite Eh in Eh'. simplify_eq. destruct Hok as (_ & _ & _ & _ & _ & _ & a & b & c & d & Hkey).
  exists a, b, c, d.
  enough (exists s', read_head default_frame s =
    Returned (mkWsFrame h (payload_of [a; b; c; d] p)) s' /\ src_live s' /\ src_stream s' = rest)
    as (s' & ? & ? & ?) by eauto 10.
  assert (READ_HEAD_LEN <= length bs) as H6
    by (rewrite Hbl; unfold READ_HEAD_LEN; repeat case_match; lia).
  destruct (read_head_first 4 default_frame s Hl) as (s0 & s1 & _ & Hl1 & Hs1 & Hb1 & fuel & Hf & E).
  { rewrite Hstream, !length_app. lia. }
  unfold read_head, READ_FUEL. change 6 with (2 + 4). rewrite E.
  rewrite Hstream, take_app_le, Eh1 by done.
  unfold decode_head in Hdec. rewrite Eh1 in Hdec. rewrite Hstream, drop_app_le in Hs1 by done.
  destruct (need_size h1) as [|r] eqn:En.
  - simplify_eq. eapply (read_payload_rest _ h); [done..| |lia].
    rewrite Hs1, drop_ge by lia. done.
  - assert (length (drop READ_HEAD_LEN bs) = S r) as Hd by (rewrite length_drop; lia).
    destruct Hbuf as [Hbuf|Hbuf].
    { exfalso. rewrite Hbl in Hneed. unfold READ_HEAD_LEN in Hneed.
      destruct (Z.ltb_spec (head_len h) 0x7e); lia. }
    destruct Hb1 as [-> Hb1]; [lia|]. destruct fuel as [|fuel]; [lia|].
    destruct (read_head_last fuel h h1 (drop READ_HEAD_LEN bs) (p ++ rest) [a; b; c; d] s1)
      as (s2 & Hl2 & Hs2 & E2); [done|rewrite Hb1, !length_drop; lia|done..|].
    rewrite Hd in E2. unfold set_head, default_frame. setoid_rewrite E2.
    eapply read_payload_rest; [done..|lia].
Qed.

(** A masked frame is read back whole: whenever the stream starts with an encoded
    head and its masked payload, [read_head] returns the head and the unmasked
    payload and leaves the stream behind the frame. For payloads below 126 bytes
    this holds for every way the bytes are split into segments; for longer ones
    it is stated for a head that is in the buffer when the read starts. *)
Theorem read_head_masked s h hbs p rest :
  src_live s -> head_ok h -> head_to h = Some hbs -> head_len h = Z.of_nat (length p) ->
  src_stream s = hbs ++ p ++ rest ->
  (head_len h < 0x7e)%Z \/ length hbs <= length (src_buffered s) ->
  exists a b c d s', key h = KeyComplete [a; b; c; d] /\
    read_head default_frame s = Returned (mkWsFrame h (payload_of [a; b; c; d] p)) s' /\
    src_live s' /\ src_stream s' = rest.
Proof. apply read_head_decodes. Qed.

Lemma length6_inv (bin : list Z) :
  length bin = 6 -> exists b0 b1 b2 b3 b4 b5, bin = [b0; b1; b2; b3; b4; b5].
Proof. intros. do 6 (destruct bin as [|? bin]; cbn in *; [lia|]). destruct bin; [eauto 10|cbn in *; lia]. Qed.

(** The rest of a head is refused unless it has exactly the size asked for. *)
Lemma from_last_wrong_size bin h last :
  length bin = READ_HEAD_LEN -> head_from bin = Some h -> 0 < need_size h ->
  length last <> need_size h -> exists e, from_last h last = Some (Err e).
Proof.
  intros Hbin Eh Hneed Hlast.
  destruct (length6_inv bin Hbin) as (b0 & b1 & b2 & b3 & b4 & b5 & ->).
  assert (need_size h = 8 /\ key h = KeyEmpty \/ need_size h = 2 /\ exists n, len h = LenComplete n)
    as Hh.
  { cbn in Eh. destruct (_ =? 127)%Z; [|destruct (_ =? 126)%Z]; simplify_eq; cbn in *;
      [by left|right; eauto|lia]. }
  clear Eh. destruct Hh as [[Hn Hk]|[Hn [n El]]]; rewrite Hn in Hlast;
    do 9 (destruct last as [|? last];
      [cbn in Hlast |- *; rewrite ?Hk, ?El; by eauto || lia|]); by eauto.
Qed.

(** An extended head (payload of 126 bytes or more) whose first six bytes are in
    the buffer without the rest closes the connection as soon as the bytes that
    arrive are not exactly the missing ones: the reader uses the number of bytes
    received, not the number it asked for, as the size of the rest of the head. *)
Theorem read_head_split_closes s h :
  src_live s -> READ_HEAD_LEN <= length (src_buffered s) ->
  head_from (take READ_HEAD_LEN (src_stream s)) = Some h -> 0 < need_size h ->
  length (src_buffered s) < READ_HEAD_LEN + need_size h <= length (src_stream s) ->
  exists s1 v s2, src_buffered s1 = drop READ_HEAD_LEN (src_buffered s) /\
    src_ready (need_size h) s1 = Some (v, s2) /\
    (v <> need_size h -> exists s3,
       read_head default_frame s = Returned (mkWsFrame h PayloadEmpty) (src_close Other s3)).
Proof.
  intros Hl H6 Eh Hneed [Hlt Hle].
  destruct (read_head_first 4 default_frame s Hl) as (s0 & s1 & _ & Hl1 & Hs1 & Hb1 & fuel & Hf & E).
  { lia. }
  destruct Hb1 as [-> Hb1]; [done|]. exists s1.
  destruct (src_ready_wait (need_size h) s1) as (v & s2 & Er & Hv & Hl2 & Hs2 & Hb2 & Hn2);
    [done|rewrite Hb1, length_drop; lia|rewrite Hs1, length_drop; lia|].
  exists v, s2. split_and!; [done..|]. intros Hne.
  destruct (src_take_stream v s2 Hl2) as (s3 & Et & _ & _ & _); [lia|].
  exists s3. unfold read_head, READ_FUEL. change 6 with (2 + 4). rewrite E, Eh.
  destruct (need_size h) as [|r] eqn:En; [lia|].
  destruct fuel as [|[|fuel]]; [lia..|]. cbn [read_head_loop].
  rewrite decide_True by (rewrite Hb1, length_drop; lia). rewrite Er.
  destruct v as [|v]; [lia|]. rewrite decide_False by lia. rewrite Et.
  destruct (from_last_wrong_size (take READ_HEAD_LEN (src_stream s)) h (take (S v) (src_stream s2)))
    as [e He]; [| done | lia | | ].
  - rewrite length_take. lia.
  - pose proof (src_buffered_le s2). rewrite length_take, En. lia.
  - cbn [head set_head default_frame]. unfold set_head. cbn [head]. by rewrite He.
Qed.
End read_facts.
