(* ===== verification/WsSession.v ===== *)
(** * The WebSocket session (ws/src/utils.rs)

    The status of the connection, the type of the frame being handled, the message
    being assembled and the queue of complete messages. *)

From S2P Require Import Prelude WsFrame.

Inductive WsStatus := HandShaking | HandShaked | Closing | Closed.

#[export] Instance WsStatus_eq_dec : EqDecision WsStatus.
Proof. solve_decision. Defined.

Inductive WsFrameType :=
| TUndefined | TClose | TPing | TPong | TText | TBinary.

#[export] Instance WsFrameType_eq_dec : EqDecision WsFrameType.
Proof. solve_decision. Defined.

(** [From<u8> for WsFrameType] and [From<WsFrameType> for u8] *)
Definition frame_type_from (opcode : Z) : WsFrameType :=
  if (opcode =? CLOSE_OPCODE)%Z then TClose
  else if (opcode =? PING_OPCODE)%Z then TPing
  else if (opcode =? PONG_OPCODE)%Z then TPong
  else if (opcode =? TEXT_OPCODE)%Z then TText
  else TBinary.

Definition frame_type_to (t : WsFrameType) : Z :=
  match t with
  | TPing => PING_OPCODE
  | TPong => PONG_OPCODE
  | TText => TEXT_OPCODE
  | TBinary => BINARY_OPCODE
  | _ => CLOSE_OPCODE
  end.

Definition type_is_control (t : WsFrameType) : bool :=
  match t with TText | TBinary => false | _ => true end.

(** [C] is the context of the sub-protocol the session carries. *)
Record WsSession (C : Type) := mkWsSession {
  status : WsStatus;
  ftype : WsFrameType;            (* [r#type] *)
  msg : option (list Z);
  queue : list (list Z);
  context : option C;
}.
Arguments mkWsSession {C} status ftype msg queue context.
Arguments status {C} w.
Arguments ftype {C} w.
Arguments msg {C} w.
Arguments queue {C} w.
Arguments context {C} w.

Section session.
Context {C : Type}.
Implicit Types w : WsSession C.

Definition default_session : WsSession C :=
  mkWsSession HandShaking TUndefined (Some []) [] None.

Definition is_handshaked w : bool := match status w with HandShaked => true | _ => false end.
Definition is_closing w : bool := match status w with Closing => true | _ => false end.
Definition is_closed w : bool := match status w with Closed => true | _ => false end.

Definition set_status (st : WsStatus) w : WsSession C :=
  mkWsSession st (ftype w) (msg w) (queue w) (context w).
Definition session_is_control w : bool := type_is_control (ftype w).
Definition session_is_binary w : bool := negb (type_is_control (ftype w)).
Definition get_type w : WsFrameType := ftype w.
Definition set_type (opcode : Z) w : WsSession C :=
  mkWsSession (status w) (frame_type_from opcode) (msg w) (queue w) (context w).
Definition session_len w : nat := length (queue w).

(** [as_msg]; [None] is the panic of [unwrap]. *)
Definition as_msg w : option (list Z) := msg w.

(** [pop_msg]: the oldest complete message, or an empty vector. *)
Definition pop_msg w : WsSession C * list Z :=
  match queue w with
  | buf :: q => (mkWsSession (status w) (ftype w) (msg w) q (context w), buf)
  | [] => (w, [])
  end.

(** [fill_msg]; [None] is [unimplemented!()]. *)
Definition fill_msg (bin : list Z) w : option (WsSession C) :=
  match msg w with
  | Some m => Some (mkWsSession (status w) (ftype w) (Some (m ++ bin)) (queue w) (context w))
  | None => None
  end.

Definition finish_msg w : WsSession C :=
  match msg w with
  | Some m => mkWsSession (status w) (ftype w) (Some []) (queue w ++ [m]) (context w)
  | None => mkWsSession (status w) (ftype w) (Some []) (queue w) (context w)
  end.

Definition reset w : WsSession C :=
  mkWsSession (status w) TUndefined (msg w) (queue w) (context w).

Definition set_context (c : option C) w : WsSession C :=
  mkWsSession (status w) (ftype w) (msg w) (queue w) c.
End session.

(** ** Frame types *)

(** The opcodes the protocol names and the frame types correspond one to one; every
    other opcode is read as a binary frame, and [Undefined] is written as a close. *)
Theorem frame_type_roundtrip t op :
  (frame_type_from (frame_type_to t) = match t with TUndefined => TClose | _ => t end) /\
  (op ∈ [TEXT_OPCODE; BINARY_OPCODE; CLOSE_OPCODE; PING_OPCODE; PONG_OPCODE] <->
     frame_type_to (frame_type_from op) = op) /\
  (op ∉ [TEXT_OPCODE; CLOSE_OPCODE; PING_OPCODE; PONG_OPCODE] <-> frame_type_from op = TBinary).
Proof.
  split; [by destruct t|]. unfold frame_type_from.
  repeat match goal with |- context [(op =? ?c)%Z] => destruct (Z.eqb_spec op c) as [->|] end;
    (split; [done || set_solver|]); set_solver.
Qed.

(** ** The message queue *)

Section queue.
Context {C : Type}.
Implicit Types w : WsSession C.

(** The message under assembly is always there, so [fill_msg] never panics. *)
Definition session_ok w : Prop := is_Some (msg w).

Lemma session_ok_default : session_ok default_session.
Proof. by eexists. Qed.

Lemma session_ok_fill bin w :
  session_ok w -> exists w', fill_msg bin w = Some w' /\ session_ok w'.
Proof. intros [m E]. unfold fill_msg. rewrite E. eexists. split; [done|]. by eexists. Qed.

Lemma session_ok_finish w : session_ok (finish_msg w).
Proof. unfold session_ok, finish_msg. by destruct (msg w); eexists. Qed.

Lemma session_ok_pop w : session_ok w -> session_ok (pop_msg w).1.
Proof. unfold session_ok, pop_msg. by destruct (queue w). Qed.

Lemma session_ok_misc w st op c :
  session_ok w -> session_ok (set_status st w) /\ session_ok (set_type op w) /\
    session_ok (reset w) /\ session_ok (set_context c w).
Proof. done. Qed.

Lemma pop_msg_status w : status (pop_msg w).1 = status w.
Proof. unfold pop_msg. by destruct (queue w). Qed.

Lemma fill_msg_status p w w' : fill_msg p w = Some w' -> status w' = status w.
Proof. unfold fill_msg. destruct (msg w); [|done]. by intros [= <-]. Qed.

Lemma finish_msg_status w : status (finish_msg w) = status w.
Proof. unfold finish_msg. by destruct (msg w). Qed.

(** Filling the current message with the payloads of its frames. *)
Fixpoint fill_all (bins : list (list Z)) w : option (WsSession C) :=
  match bins with
  | [] => Some w
  | bin :: bins' => match fill_msg bin w with Some w' => fill_all bins' w' | None => None end
  end.

Lemma fill_all_spec bins w m :
  msg w = Some m ->
  fill_all bins w =
    Some (mkWsSession (status w) (ftype w) (Some (m ++ concat bins)) (queue w) (context w)).
Proof.
  revert w m; induction bins as [|bin bins IH]; intros w m Hm; cbn.
  { rewrite app_nil_r, <-Hm. by destruct w. }
  unfold fill_msg. rewrite Hm. erewrite IH by done. cbn. by rewrite app_assoc.
Qed.

Fixpoint pop_all (n : nat) w : WsSession C * list (list Z) :=
  match n with
  | 0 => (w, [])
  | S n' => let '(w, m) := pop_msg w in let '(w, ms) := pop_all n' w in (w, m :: ms)
  end.

(** Assembling several messages, each from its fragments. *)
Fixpoint push_all (msgs : list (list (list Z))) w : option (WsSession C) :=
  match msgs with
  | [] => Some w
  | bins :: msgs' =>
      match fill_all bins w with Some w' => push_all msgs' (finish_msg w') | None => None end
  end.

Lemma push_all_spec msgs w :
  msg w = Some [] ->
  exists w', push_all msgs w = Some w' /\ msg w' = Some [] /\
    queue w' = queue w ++ (@concat Z <$> msgs).
Proof.
  revert w; induction msgs as [|bins msgs IH]; intros w Hm; cbn.
  { exists w. by rewrite app_nil_r. }
  erewrite fill_all_spec by done. cbn.
  match goal with |- context [push_all msgs ?w1] => destruct (IH w1) as (w' & -> & ? & Hq) end;
    [done|]. exists w'. split_and!; [done..|]. rewrite Hq. cbn. by rewrite <-app_assoc.
Qed.

Lemma pop_all_app ms w q : queue w = ms ++ q -> (pop_all (length ms) w).2 = ms.
Proof.
  revert w; induction ms as [|m ms IH]; intros w Hq; cbn; [done|].
  unfold pop_msg. rewrite Hq. cbn.
  match goal with |- context [pop_all _ ?w1] => specialize (IH w1 eq_refl);
    destruct (pop_all (length ms) w1) end. cbn in *. by rewrite IH.
Qed.

(** Messages come out of the session complete and in the order in which they
    were finished, each the concatenation of its fragments; filling never panics. *)
Theorem session_messages_fifo msgs w :
  msg w = Some [] -> queue w = [] ->
  exists w', push_all msgs w = Some w' /\
    (pop_all (length msgs) w').2 = @concat Z <$> msgs /\ session_len w' = length msgs.
Proof.
  intros Hm Hq. destruct (push_all_spec msgs w Hm) as (w' & E & _ & Hq').
  rewrite Hq, app_nil_l in Hq'. exists w'. split; [done|]. split.
  - rewrite <-(length_fmap (@concat Z) msgs). apply (pop_all_app _ _ []). by rewrite Hq', app_nil_r.
  - unfold session_len. rewrite Hq'. apply length_fmap.
Qed.
End queue.

Lemma session_messages_fifo_witness :
  exists w', push_all [[[1%Z]; [2%Z]]; [[3%Z]]] (@default_session unit) = Some w' /\
    (pop_all 2 w').2 = [[1%Z; 2%Z]; [3%Z]] /\ session_len w' = 2.
Proof. apply (session_messages_fifo [[[1%Z]; [2%Z]]; [[3%Z]]] (@default_session unit)); done. Defined.
