(* ===== verification/WsConnect.v ===== *)
(** * The WebSocket connection (ws/src/connect.rs)

    The handlers of the events of a TCP connection that carries a WebSocket session:
    readable, written, closed and timed out, with the control frames and the closing
    of the connection. The connection is any [ByteSource] that also takes writes; the
    sub-protocol ([ChildProtocol]) is an argument. *)

From S2P Require Import Prelude ByteSource SocketContext WsFrame WsSession.

(** [WsSocket]: the connection, by its unique id, and its compression window. *)
Record WsSocket := mkWsSocket { ws_uid : Z; window_bits : Z }.

Definition CLOSE_NORMAL_CODE : Z := 1000.
Definition CLOSE_GOING_AWAY_CODE : Z := 1001.

(** [ChildProtocol]; the session is handed over as a writable reference. Its futures may
    panic or wait for ever. *)
Record ChildProtocol (S C : Type) := {
  decode_protocol : S -> WsSession C -> outcome (S * WsSession C * io_result unit);
  close_protocol : S -> WsSession C -> io_result unit -> S;
  protocol_timeout : Z -> S -> WsSession C -> outcome (S * WsSession C * io_result unit);
}.
Arguments decode_protocol {S C} c.
Arguments close_protocol {S C} c.
Arguments protocol_timeout {S C} c.

Section connect.
Context {S C : Type} `{Transport S}.
Variable protocol : ChildProtocol S C.

(** The connection and its context. *)
Definition conn : Type := S * SocketContext (WsSession C).

(** The status code of a close frame. *)
Definition close_code (reason : io_result unit) : list Z :=
  let code := match reason with Err _ => CLOSE_GOING_AWAY_CODE | Ok _ => CLOSE_NORMAL_CODE end in
  [Z.land (Z.shiftr code 8) 0xff; Z.land code 0xff].

(** [close]: a close frame, then the TCP connection. *)
Definition close (reason : io_result unit) (s : S) : outcome (S * io_result unit) :=
  let frame := control_with_payload (frame_type_to TClose) (Some (close_code reason)) in
  buf ← lift (frame_to frame);
  match tr_write_ready buf s with
  | (s, Err _) => Done (tr_close (Err Other) s)
  | (s, Ok _) => Done (tr_close reason s)
  end.

(** [WsSocket::send] *)
Definition send (msg_type : WsFrameType) (window : Z) (p : list Z) (s : S)
    : outcome (S * io_result unit) :=
  frame ← lift (single_with_window_bits_and_payload (frame_type_to msg_type) window p);
  wb ← lift (into_write_buf frame);
  match wb with
  | Some buf => Done (tr_write_ready buf s)
  | None => Done (s, Err InvalidData)
  end.

(** [WsSocket::broadcast]: the window of the first connection; the results of the
    writes are ignored. The connections are shared, so they are written to in the
    store, by unique id. *)
Definition broadcast (connects : list WsSocket) (msg_type : WsFrameType) (p : list Z)
    (store : gmap Z S) : outcome (gmap Z S * io_result unit) :=
  match connects with
  | [] => Done (store, Ok tt)
  | c0 :: _ =>
      frame ← lift (single_with_window_bits_and_payload (frame_type_to msg_type) (window_bits c0) p);
      wb ← lift (into_write_buf frame);
      match wb with
      | Some buf =>
          Done (foldl (fun st c => alter (fun s => (tr_write_ready buf s).1) (ws_uid c) st)
                  store connects, Ok tt)
      | None => Done (store, Err InvalidData)
      end
  end.

(** ** Reading *)

(** The loop of [handle_readed] that reads frames: [inl] are the frames read, [inr]
    is the early return after too many. *)
Fixpoint read_frames (fuel : nat) (frames : list WsFrame) (s : S)
    : outcome ((list WsFrame * S) + S) :=
  match fuel with
  | O => NoFuel
  | Datatypes.S fuel' =>
      if decide (0 < length (src_buffered s)) then
        match read_head default_frame s with
        | Pending => Blocked
        | Panicked => Panic
        | OutOfFuel => NoFuel
        | Returned frame s =>
            let frames := frames ++ [frame] in
            if decide (128 < length frames) then
              r ← close (Err Other) s; Done (inr r.1)
            else read_frames fuel' frames s
        end
      else Done (inl (frames, s))
  end.

(** The loop returns at the latest when the 129th frame has been read. *)
Definition FRAMES_FUEL : nat := 130.

(** [resp_control] *)
Definition resp_control (t : WsFrameType) (p : option (list Z)) (s : S) : outcome S :=
  match t with
  | TClose | TPong =>
      buf ← lift (frame_to (control_with_payload (frame_type_to t) p));
      match tr_write_ready buf s with
      | (s, Err _) => Done (tr_close (Err Other) s).1
      | (s, Ok _) => Done s
      end
  | _ => Done s
  end.

(** [handle_control]; a message of one byte makes the index [bin[1]] panic. *)
Definition handle_control (c : conn) : outcome conn :=
  let '(s, ctx) := c in
  match get ctx with
  | None => Panic
  | Some a =>
      match get_type (data a) with
      | TClose =>
          match as_mut (get ctx) with
          | Some w =>
              let w := set_status Closing w in
              let '(w, bin) := pop_msg w in
              p ← match bin with
                  | [] => Done None
                  | [_] => Panic
                  | b0 :: b1 :: _ => Done (Some [b0; b1])
                  end;
              s ← resp_control TClose p s;
              Done (s, put_mut (reset w) ctx)
          | None => Done ((tr_close (Err Other) s).1, ctx)
          end
      | TPing =>
          match as_mut (get ctx) with
          | Some w =>
              let '(w, bin) := pop_msg w in
              s ← resp_control TPong (match bin with [] => None | _ => Some bin end) s;
              Done (s, put_mut (reset w) ctx)
          | None => Done ((tr_close (Err Other) s).1, ctx)
          end
      | TPong => Done c
      | _ => Done ((tr_close (Err Other) s).1, ctx)
      end
  end.

(** Handing a complete message to the sub-protocol; then the frame type is reset. *)
Definition decode (w : WsSession C) (s : S) (ctx : SocketContext (WsSession C)) : outcome conn :=
  r ← decode_protocol protocol s w;
  let '(s, w, result) := r in
  s ← match result with
      | Err e => r ← close (Err e) s; Done r.1
      | Ok _ => Done s
      end;
  Done (s, put_mut (reset w) ctx).

(** One iteration of the loop of [handle_readed] over the frames. *)
Definition process_frame (frame : WsFrame) (c : conn) : outcome conn :=
  let '(s, ctx) := c in
  match as_mut (get ctx) with
  | Some w =>
      w ← lift (match payload frame with
                | PayloadRaw p => fill_msg p w
                | PayloadEmpty => Some w
                end);
      let h := head frame in
      if is_single h then decode (finish_msg (set_type (type h) w)) s ctx
      else if is_first h then Done (s, put_mut (set_type (type h) w) ctx)
      else if is_next h then Done (s, put_mut w ctx)
      else if is_finish h then decode (finish_msg w) s ctx
      else handle_control (s, put_mut (set_type (type h) w) ctx)
  | None => r ← close (Err Other) s; Done (r.1, ctx)
  end.

Fixpoint process_frames (frames : list WsFrame) (c : conn) : outcome conn :=
  match frames with
  | [] => Done c
  | f :: frames' => c ← process_frame f c; process_frames frames' c
  end.

(** [handle_readed] *)
Definition handle_readed (c : conn) : outcome conn :=
  let '(s, ctx) := c in
  match get ctx with
  | None => Panic
  | Some a =>
      if is_closed (data a) || is_closing (data a) then Done c else
      r ← read_frames FRAMES_FUEL [] s;
      match r with
      | inl (frames, s) => process_frames frames (s, ctx)
      | inr s => Done (s, ctx)
      end
  end.

(** ** Written, closed, timed out *)

(** [handle_writed] *)
Definition handle_writed (c : conn) : conn :=
  let '(s, ctx) := c in
  match get ctx with
  | Some a =>
      match as_mut (get ctx) with
      | Some w =>
          if is_closed w || is_handshaked w then c
          else if is_closing w then ((tr_close (Ok tt) s).1, put_mut (set_status Closed w) ctx)
          else (s, put_mut (set_status HandShaked w) ctx)
      | None => ((tr_close (Err Other) s).1, ctx)
      end
  | None => if negb (tr_is_security s) then ((tr_close (Err Other) s).1, ctx) else c
  end.

(** [handle_closed] *)
Definition handle_closed (result : io_result unit) (c : conn) : conn :=
  let '(s, ctx) := c in
  let '(ctx, removed) := remove ctx in
  match removed with
  | Err _ => (s, ctx)
  | Ok (Some w) => (close_protocol protocol s w result, ctx)
  | Ok None => (s, ctx)
  end.

(** [handle_timeouted] *)
Definition handle_timeouted (event : Z) (c : conn) : outcome conn :=
  let '(s, ctx) := c in
  match get ctx with
  | None => Panic
  | Some _ =>
      match as_mut (get ctx) with
      | Some w =>
          t ← protocol_timeout protocol event s w;
          let '(s, w, result) := t in
          r ← close (match result with Err e => Err e | Ok _ => Ok tt end) s;
          Done (r.1, put_mut w ctx)
      | None => Done c
      end
  end.
End connect.

Lemma outcome_bind_done {A} (m : outcome A) : (x ← m; Done x) = m.
Proof. by destruct m. Qed.

(** ** Frames written *)

Lemma into_write_buf_raw f p buf :
  payload f = PayloadRaw p -> frame_to f = Some buf -> into_write_buf f = Some (Some buf).
Proof. unfold frame_to, into_write_buf. intros ->. by case_match; intros; simplify_eq. Qed.

Section facts.
Context {S C : Type} `{TL : TransportLaws S}.
Context (protocol : ChildProtocol S C).
Implicit Types (s : S) (w : WsSession C).

Lemma close_frame_bytes (reason : io_result unit) :
  frame_to (control_with_payload (frame_type_to TClose) (Some (close_code reason))) =
    Some [0x88; 2; 3; match reason with Ok _ => 0xe8 | Err _ => 0xe9 end]%Z.
Proof. by destruct reason. Qed.

Lemma close_unfold reason s :
  close reason s =
    match tr_write_ready [0x88; 2; 3; match reason with Ok _ => 0xe8 | Err _ => 0xe9 end]%Z s with
    | (s, Err _) => Done (tr_close (Err Other) s)
    | (s, Ok _) => Done (tr_close reason s)
    end.
Proof. unfold close. by rewrite close_frame_bytes. Qed.

Lemma close_done reason s : exists r, close reason s = Done r.
Proof. rewrite close_unfold. destruct (tr_write_ready _ s) as [? []]; eauto. Qed.

(** Closing never panics and closes the TCP connection exactly once: after a close
    frame with status 1000, or 1001 when there is an error, if the connection takes
    the frame; with an error of its own, and no frame, if it refuses it. *)
Theorem close_sends_status reason s :
  exists s' r, close reason s = Done (s', r) /\
    match (tr_write_ready [0x88; 2; 3; match reason with Ok _ => 0xe8 | Err _ => 0xe9 end]%Z s).2 with
    | Ok _ => tr_written s' = tr_written s ++
                [[0x88; 2; 3; match reason with Ok _ => 0xe8 | Err _ => 0xe9 end]%Z] /\
              tr_closes s' = tr_closes s ++ [reason]
    | Err _ => tr_written s' = tr_written s /\ tr_closes s' = tr_closes s ++ [Err Other]
    end.
Proof.
  rewrite close_unfold. set (buf := [_; _; _; _]). destruct (tr_write_ready buf s) as [s1 [[]|e]] eqn:E; cbn.
  - destruct (tr_write_accept _ _ _ E) as [Hw Hc]. destruct (tr_close_records reason s1) as [Hw' Hc'].
    destruct (tr_close reason s1) as [s2 r]; cbn in *. exists s2, r. by rewrite Hw', Hw, Hc', Hc.
  - apply tr_write_refuse in E as ->. destruct (tr_close_records (Err Other) s) as [Hw' Hc'].
    destruct (tr_close (Err Other) s) as [s2 r]; cbn in *. exists s2, r. by rewrite Hw', Hc'.
Qed.

Lemma data_frame t p : fits p -> exists f buf,
  single_with_window_bits_and_payload (frame_type_to t) 0 p = Some f /\
  frame_to f = Some buf /\ into_write_buf f = Some (Some buf).
Proof.
  intros Hp. eexists. assert (is_Some (frame_to (mkWsFrame
    {| fin := FIN_FLAG; rsv1 := 0; rsv2 := 0; rsv3 := 0; type := frame_type_to t;
       len := LenComplete (Z.of_nat (length p)); key := KeyEmpty |} (PayloadRaw p)))) as [buf E]
    by (unfold frame_to, head_to; cbn -[CAPACITY_MAX wrap]; rewrite capacity_fits by (unfold fits in Hp; lia); cbn; eauto).
  exists buf. split; [reflexivity|]. split; [exact E|].
  by apply (into_write_buf_raw _ p).
Qed.

Lemma foldl_alter_count (f : S -> S) connects (store : gmap Z S) u :
  foldl (fun st c => alter f (ws_uid c) st) store connects !! u =
    Nat.iter (length (filter (fun c => ws_uid c = u) connects)) f <$> store !! u.
Proof.
  revert store; induction connects as [|c connects IH]; intros store; cbn [foldl].
  { cbn. by destruct (store !! u). }
  rewrite IH, filter_cons. case_decide as E; cbn [length].
  - rewrite <-E, lookup_alter_eq. destruct (store !! ws_uid c); [|done].
    apply (f_equal Some). symmetry. apply Nat.iter_succ_r.
  - by rewrite lookup_alter_ne by done.
Qed.

(** A broadcast over a connection without compression hands the one encoded frame
    to every connection of the list, once for each time it is listed, whether or not
    another one refuses it, and to no other connection. *)
Theorem broadcast_all t p c0 connects (store : gmap Z S) :
  fits p -> window_bits c0 = 0%Z ->
  exists f buf store', single_with_window_bits_and_payload (frame_type_to t) 0 p = Some f /\
    frame_to f = Some buf /\ broadcast (c0 :: connects) t p store = Done (store', Ok tt) /\
    forall u, store' !! u =
      Nat.iter (length (filter (fun c => ws_uid c = u) (c0 :: connects)))
        (fun s => (tr_write_ready buf s).1) <$> store !! u.
Proof.
  intros Hp Hw. destruct (data_frame t p Hp) as (f & buf & E1 & E2 & E3). exists f, buf.
  eexists. split; [done|]. split; [done|]. unfold broadcast. rewrite Hw, E1. cbn [lift mbind outcome_bind].
  rewrite E3. cbn [lift mbind outcome_bind]. split; [reflexivity|]. intros u. apply foldl_alter_count.
Qed.

(** ** The context of an open connection *)

(** A context that holds the session [w]. *)
Definition ctx_of w : SocketContext (WsSession C) := mkSocketContext (Some (mkArcInner 1 w)).

Lemma process_frame_open f s w m :
  msg w = Some m ->
  let w1 := mkWsSession (status w) (ftype w)
    (Some (match payload f with PayloadRaw p => m ++ p | PayloadEmpty => m end))
    (queue w) (context w) in
  process_frame protocol f (s, ctx_of w) =
    if is_single (head f) then decode protocol (finish_msg (set_type (type (head f)) w1)) s (ctx_of w)
    else if is_first (head f) then Done (s, ctx_of (set_type (type (head f)) w1))
    else if is_next (head f) then Done (s, ctx_of w1)
    else if is_finish (head f) then decode protocol (finish_msg w1) s (ctx_of w)
    else handle_control (s, ctx_of (set_type (type (head f)) w1)).
Proof.
  intros Hm w1. unfold process_frame. change (as_mut (get (ctx_of w))) with (Some w). cbv iota beta.
  assert (match payload f with PayloadRaw p => fill_msg p w | PayloadEmpty => Some w end = Some w1) as ->.
  { unfold w1, fill_msg. destruct (payload f); [|by rewrite Hm]. by destruct w; cbn in *; subst. }
  done.
Qed.

Lemma decode_open w s w0 :
  decode protocol w s (ctx_of w0) =
    r ← decode_protocol protocol s w;
    let '(s, w, result) := r in
    match result with
    | Err e => match close (Err e) s with Done r => Done (r.1, ctx_of (reset w)) | _ => Panic end
    | Ok _ => Done (s, ctx_of (reset w))
    end.
Proof.
  unfold decode. destruct (decode_protocol protocol s w) as [[[s1 w1] [|e]]| | |]; try done.
  cbn [mbind outcome_bind]. by destruct (close_done (Err e) s1) as [r ->].
Qed.

Lemma process_frames_app fs1 fs2 c :
  process_frames protocol (fs1 ++ fs2) c =
    (c' ← process_frames protocol fs1 c; process_frames protocol fs2 c').
Proof.
  revert c; induction fs1 as [|f fs1 IH]; intros c; cbn; [done|].
  destruct (process_frame protocol f c); cbn; [apply IH|done..].
Qed.

(** ** Reassembly *)

Definition payload_bytes f : list Z :=
  match payload f with PayloadRaw p => p | PayloadEmpty => [] end.

Lemma fill_payload f m :
  match payload f with PayloadRaw p => m ++ p | PayloadEmpty => m end = m ++ payload_bytes f.
Proof. unfold payload_bytes. destruct (payload f); by rewrite ?app_nil_r. Qed.

Lemma is_next_not_single h : is_next h = true -> is_single h = false /\ is_first h = false.
Proof.
  unfold is_next, is_single, is_first, is_data_opcode. intros [Hf Ht%Z.eqb_eq]%andb_prop.
  rewrite Ht. by destruct (fin h =? FIN_FLAG)%Z.
Qed.

Lemma is_finish_only h :
  is_finish h = true -> is_single h = false /\ is_first h = false /\ is_next h = false.
Proof.
  unfold is_finish, is_next, is_single, is_first, is_data_opcode.
  intros [Hf Ht%Z.eqb_eq]%andb_prop. by rewrite Ht, Hf.
Qed.

Lemma is_first_not_single h : is_first h = true -> is_single h = false.
Proof. unfold is_first, is_single. by destruct (fin h =? FIN_FLAG)%Z. Qed.

Lemma process_nexts fs s w m :
  Forall (fun f => is_next (head f) = true) fs -> msg w = Some m ->
  process_frames protocol fs (s, ctx_of w) =
    Done (s, ctx_of (mkWsSession (status w) (ftype w) (Some (m ++ concat (payload_bytes <$> fs)))
                       (queue w) (context w))).
Proof.
  revert w m; induction fs as [|f fs IH]; intros w m Hall Hm.
  { cbn. rewrite app_nil_r, <-Hm. by destruct w. }
  apply Forall_cons_1 in Hall as [Hf Hall]. cbn [process_frames].
  rewrite (process_frame_open f s w m) by done.
  destruct (is_next_not_single _ Hf) as [-> ->]. rewrite Hf. cbn [mbind outcome_bind].
  erewrite IH by (done || reflexivity). cbn. by rewrite fill_payload, <-app_assoc.
Qed.

(** C21: A message sent in fragments (a first text or binary frame, any number of
    follow-up frames, a finishing frame) reaches the sub-protocol as one message, the
    concatenation of the payloads in order, with the type of the first frame, and in
    one call of [decode_protocol]; nothing is left of it in the session. *)
Theorem fragments_reassembled first mids last s w :
  is_first (head first) = true -> Forall (fun f => is_next (head f) = true) mids ->
  is_finish (head last) = true -> msg w = Some [] ->
  let w' := mkWsSession (status w) (frame_type_from (type (head first))) (Some [])
    (queue w ++ [payload_bytes first ++ concat (payload_bytes <$> mids) ++ payload_bytes last])
    (context w) in
  process_frames protocol (first :: mids ++ [last]) (s, ctx_of w) = decode protocol w' s (ctx_of w').
Proof.
  intros Hf Hn Hl Hm w'. cbn [process_frames]. rewrite (process_frame_open first s w []) by done.
  rewrite (is_first_not_single _ Hf), Hf. cbn [mbind outcome_bind].
  rewrite process_frames_app. erewrite process_nexts by (done || reflexivity).
  cbn [mbind outcome_bind process_frames]. erewrite process_frame_open by reflexivity.
  destruct (is_finish_only _ Hl) as (-> & -> & ->). rewrite Hl.
  rewrite !fill_payload. cbn. by rewrite outcome_bind_done, !decode_open, <-app_assoc.
Qed.

(** A frame that is a message of its own is handed over at once. *)
Lemma single_frame f s w :
  is_single (head f) = true -> msg w = Some [] ->
  let w' := mkWsSession (status w) (frame_type_from (type (head f))) (Some [])
    (queue w ++ [payload_bytes f]) (context w) in
  process_frame protocol f (s, ctx_of w) = decode protocol w' s (ctx_of w').
Proof.
  intros Hs Hm w'. rewrite (process_frame_open f s w []) by done. rewrite Hs, !decode_open.
  by rewrite fill_payload.
Qed.

(** ** Control frames *)

Lemma resp_control_empty t s :
  t = TClose \/ t = TPong ->
  resp_control t None s = Done
    match tr_write_ready [Z.lor 0x80 (frame_type_to t); 0]%Z s with
    | (s, Err _) => (tr_close (Err Other) s).1
    | (s, Ok _) => s
    end.
Proof.
  intros [-> | ->]; unfold resp_control.
  - change (frame_to _) with (Some [0x88; 0])%Z. cbn. by destruct (tr_write_ready _ s) as [? []].
  - change (frame_to _) with (Some [0x8a; 0])%Z. cbn. by destruct (tr_write_ready _ s) as [? []].
Qed.

Lemma control_frame_kind h :
  type h = PING_OPCODE \/ type h = CLOSE_OPCODE \/ type h = PONG_OPCODE ->
  is_single h = false /\ is_first h = false /\ is_next h = false /\ is_finish h = false.
Proof.
  unfold is_single, is_first, is_next, is_finish, is_data_opcode.
  intros [-> |[-> | ->]]; cbn; by rewrite !andb_false_r.
Qed.

Lemma handle_control_open s w :
  handle_control (s, ctx_of w) =
    match ftype w with
    | TClose =>
        p ← match queue w with
            | [] | [] :: _ => Done None
            | [_] :: _ => Panic
            | (b0 :: b1 :: _) :: _ => Done (Some [b0; b1])
            end;
        s ← resp_control TClose p s;
        Done (s, ctx_of (reset (set_status Closing (pop_msg w).1)))
    | TPing =>
        s ← resp_control TPong (match queue w with [] | [] :: _ => None | bin :: _ => Some bin end) s;
        Done (s, ctx_of (reset (pop_msg w).1))
    | TPong => Done (s, ctx_of w)
    | _ => Done ((tr_close (Err Other) s).1, ctx_of w)
    end.
Proof.
  destruct w as [st [] m [|[|b0 [|b1 bin]] q] c]; reflexivity.
Qed.

(** The payload of a control frame goes into the message under assembly, where the
    handlers of control frames do not look. *)
Lemma ping_frame f s w m :
  type (head f) = PING_OPCODE -> msg w = Some m -> queue w = [] ->
  process_frame protocol f (s, ctx_of w) = Done
    (match tr_write_ready [0x8a; 0]%Z s with
     | (s, Err _) => (tr_close (Err Other) s).1
     | (s, Ok _) => s
     end,
     ctx_of (mkWsSession (status w) TUndefined (Some (m ++ payload_bytes f)) [] (context w))).
Proof.
  intros Ht Hm Hq. rewrite (process_frame_open f s w m) by done.
  destruct (control_frame_kind (head f)) as (-> & -> & -> & ->); [auto|].
  rewrite Ht, fill_payload, handle_control_open. cbn -[resp_control]. rewrite Hq.
  rewrite resp_control_empty by auto. cbn. unfold reset, pop_msg. cbn. done.
Qed.

(** The reply to a ping carries no payload, whatever the ping carried, and the
    payload of the ping becomes the beginning of the next data message. *)
Theorem ping_payload_misplaced ping data s s1 w :
  type (head ping) = PING_OPCODE -> is_single (head data) = true ->
  msg w = Some [] -> queue w = [] -> tr_write_ready [0x8a; 0]%Z s = (s1, Ok tt) ->
  let w' := mkWsSession (status w) (frame_type_from (type (head data))) (Some [])
    [payload_bytes ping ++ payload_bytes data] (context w) in
  process_frames protocol [ping; data] (s, ctx_of w) = decode protocol w' s1 (ctx_of w').
Proof.
  intros Hp Hd Hm Hq Hw w'. cbn [process_frames]. rewrite (ping_frame _ _ _ []), Hw by done.
  cbn [mbind outcome_bind]. erewrite process_frame_open by reflexivity. rewrite Hd, !decode_open.
  rewrite fill_payload, outcome_bind_done. done.
Qed.

(** A close frame makes the connection answer with a close frame without status
    code and puts the session into [Closing], but the frames behind it in the same
    batch are still handled: a data frame still reaches the sub-protocol. *)
Theorem frames_after_close_handled cl data s s1 w :
  type (head cl) = CLOSE_OPCODE -> is_single (head data) = true ->
  msg w = Some [] -> queue w = [] -> tr_write_ready [0x88; 0]%Z s = (s1, Ok tt) ->
  let w' := mkWsSession Closing (frame_type_from (type (head data))) (Some [])
    [payload_bytes cl ++ payload_bytes data] (context w) in
  process_frames protocol [cl; data] (s, ctx_of w) = decode protocol w' s1 (ctx_of w').
Proof.
  intros Ht Hd Hm Hq Hw w'. cbn [process_frames].
  rewrite (process_frame_open cl s w []) by done.
  destruct (control_frame_kind (head cl)) as (-> & -> & -> & ->); [auto|].
  rewrite Ht, fill_payload, handle_control_open. cbn -[resp_control process_frame]. rewrite Hq.
  cbn [mbind outcome_bind]. rewrite resp_control_empty by auto. change (Z.lor 0x80 _) with 0x88%Z. rewrite Hw.
  cbn [mbind outcome_bind]. erewrite process_frame_open.
  2: { reflexivity. }
  rewrite Hd, !decode_open, fill_payload, outcome_bind_done. done.
Qed.
End facts.

(** ** Reading a batch of frames *)

(** A masked frame as it is on the wire. *)
Record wire := mkWire { wire_head : WsHead; wire_payload : list Z }.

(** A client frame with the short form of the length. *)
Definition wire_ok (x : wire) : Prop :=
  head_ok (wire_head x) /\ head_len (wire_head x) = Z.of_nat (length (wire_payload x)) /\
  (head_len (wire_head x) < 0x7e)%Z.

Definition wire_bytes (x : wire) : list Z :=
  match head_to (wire_head x) with Some b => b ++ wire_payload x | None => [] end.

(** The frame the reader makes of it. *)
Definition wire_frame (x : wire) : WsFrame :=
  mkWsFrame (wire_head x)
    (payload_of (match key (wire_head x) with KeyComplete q => q | _ => [] end) (wire_payload x)).

Section reading.
Context {S C : Type} `{Transport S} {BL : ByteSourceLaws S} {TL : TransportLaws S}.
Context (protocol : ChildProtocol S C).
Implicit Types (s : S) (w : WsSession C).

Lemma wire_bytes_pos x : wire_ok x -> 0 < length (wire_bytes x).
Proof.
  intros (Hok & _). destruct (head_roundtrip_bytes _ Hok) as (bs & E & Hl).
  unfold wire_bytes. rewrite E, length_app. lia.
Qed.

Lemma read_wire_frame x rest s :
  src_live s -> wire_ok x -> src_stream s = wire_bytes x ++ rest ->
  exists s', read_head default_frame s = Returned (wire_frame x) s' /\ src_live s' /\
    src_stream s' = rest.
Proof.
  intros Hl (Hok & Hlen & Hsmall) Hs. destruct (head_roundtrip_bytes _ Hok) as (bs & E & _).
  unfold wire_bytes in Hs. rewrite E, <-app_assoc in Hs.
  destruct (read_head_decodes s _ bs _ rest Hl Hok E Hlen Hs) as (a & b & c & d & s' & Hk & Er & ?);
    [by left|].
  exists s'. unfold wire_frame. by rewrite Hk.
Qed.

Lemma read_last_wire x s :
  wire_ok x -> src_live s -> src_stream s = wire_bytes x ->
  exists s', read_head default_frame s = Returned (wire_frame x) s' /\ src_live s' /\
    src_stream s' = [] /\ src_buffered s' = [].
Proof.
  intros Hx Hl Hs.
  destruct (read_wire_frame x [] s Hl Hx) as (s' & Er & Hl' & Hs'); [by rewrite app_nil_r|].
  exists s'. split_and!; [done..|]. pose proof (src_buffered_le s') as Hle. rewrite Hs' in Hle.
  by destruct (src_buffered s'); [|cbn in Hle; lia].
Qed.

(** A readable event with one frame hands exactly that frame on. *)
Lemma handle_readed_one f s s' w :
  src_buffered s <> [] -> read_head default_frame s = Returned f s' -> src_buffered s' = [] ->
  status w = HandShaked ->
  handle_readed protocol (s, ctx_of w) = process_frame protocol f (s', ctx_of w).
Proof.
  intros Hb Er Hb' Hst. unfold handle_readed. cbn [get ctx_of inner data].
  unfold is_closed, is_closing. rewrite Hst. cbn [orb].
  unfold FRAMES_FUEL. cbn [read_frames]. rewrite decide_True by (by destruct (src_buffered s); [|cbn; lia]).
  rewrite Er. cbn [app length]. rewrite decide_False by lia.
  rewrite decide_False by (rewrite Hb'; cbn; lia). cbn [mbind outcome_bind process_frames].
  by destruct (process_frame protocol f (s', ctx_of w)).
Qed.

Lemma read_frames_wires fs acc s fuel :
  Forall wire_ok fs -> src_live s -> src_stream s = concat (wire_bytes <$> fs) ->
  length acc <= 128 -> 129 < fuel + length acc ->
  exists fs1 fs2 s', fs = fs1 ++ fs2 /\ src_live s' /\ src_stream s' = concat (wire_bytes <$> fs2) /\
    (length acc + length fs1 <= 128 /\ src_buffered s' = [] /\
       read_frames fuel acc s = Done (inl (acc ++ (wire_frame <$> fs1), s')) \/
     length acc + length fs1 = 129 /\
       exists r, close (Err Other) s' = Done r /\ read_frames fuel acc s = Done (inr r.1)).
Proof.
  revert acc s fuel; induction fs as [|x fs IH]; intros acc s fuel Hall Hl Hs Hacc Hf;
    (destruct fuel as [|fuel]; [lia|]); cbn [read_frames].
  { pose proof (src_buffered_le s) as Hb. rewrite Hs in Hb. cbn in Hb.
    exists [], [], s. rewrite decide_False by lia. cbn. rewrite app_nil_r, Nat.add_0_r.
    split_and!; [done..|]. left. split_and!; [done| |done]. destruct (src_buffered s); [done|cbn in Hb; lia]. }
  apply Forall_cons_1 in Hall as [Hx Hall]. case_decide as Hb.
  - destruct (read_wire_frame x _ s Hl Hx Hs) as (s1 & -> & Hl1 & Hs1). rewrite length_app. cbn [length].
    case_decide as Hmany.
    + destruct (close_done (Err Other) s1) as [r Ec]. exists [x], fs, s1. split_and!; [done..|]. right.
      split; [cbn; lia|]. exists r. by rewrite Ec.
    + destruct (IH (acc ++ [wire_frame x]) s1 fuel) as (fs1 & fs2 & s' & -> & ? & ? & E);
        [done..|rewrite length_app; cbn; lia|rewrite length_app; cbn; lia|].
      exists (x :: fs1), fs2, s'. split_and!; [done..|]. rewrite length_app in E. cbn [length] in E |- *.
      destruct E as [(? & ? & E)|(? & E)]; [left|right; split; [lia|done]]. split_and!; [lia|done|].
      rewrite E. cbn. by rewrite <-app_assoc.
  - exists [], (x :: fs), s. cbn [length fmap list_fmap]. rewrite app_nil_r, Nat.add_0_r.
    split_and!; [done..|]. left. split_and!; [done| |done]. destruct (src_buffered s); [done|cbn in Hb; lia].
Qed.

(** C18: The reader stays in step with the frames: when the stream, up to its end, consists
    of masked frames of less than 126 bytes, cut into segments in any way, one readable event
    reads a whole number of them, in order, and stops at a frame boundary with the other
    frames still to come. If these are at most 128, they are handed on unmasked and the
    buffer is empty; at the 129th the connection is closed and none is handed on. *)
Theorem read_frames_whole fs s :
  Forall wire_ok fs -> src_live s -> src_stream s = concat (wire_bytes <$> fs) ->
  exists fs1 fs2 s', fs = fs1 ++ fs2 /\ src_live s' /\ src_stream s' = concat (wire_bytes <$> fs2) /\
    (length fs1 <= 128 /\ src_buffered s' = [] /\
       read_frames FRAMES_FUEL [] s = Done (inl (wire_frame <$> fs1, s')) \/
     length fs1 = 129 /\
       exists r, close (Err Other) s' = Done r /\ read_frames FRAMES_FUEL [] s = Done (inr r.1)).
Proof.
  intros Hall Hl Hs. exact (read_frames_wires fs [] s FRAMES_FUEL Hall Hl Hs ltac:(cbn; lia) ltac:(unfold FRAMES_FUEL; cbn; lia)).
Qed.

(** When the connection is closed in the middle of a head, every further attempt
    returns a default frame at once; the handler collects 129 of them, closes the
    connection again with status 1001 and handles none of the frames read. *)
Theorem closed_mid_head s w :
  0 < length (src_buffered s) < READ_HEAD_LEN -> src_ready READ_HEAD_LEN s = Some (0, s) ->
  is_closed w = false -> is_closing w = false ->
  exists r, close (Err Other) s = Done r /\
    handle_readed protocol (s, ctx_of w) = Done (r.1, ctx_of w).
Proof.
  intros [Hpos Hlt] Hr Hc Hcl. destruct (close_done (Err Other) s) as [r Ec]. exists r.
  split; [done|].
  assert (read_head default_frame s = Returned default_frame s) as Eh.
  { unfold read_head, READ_FUEL. cbn [read_head_loop]. by rewrite decide_True, Hr by done. }
  assert (forall fuel acc, length acc <= 128 -> 129 <= fuel + length acc ->
    read_frames fuel acc s = Done (inr r.1)) as Hrf.
  { induction fuel as [|fuel IH]; intros acc Ha Hf; [lia|]. cbn [read_frames].
    rewrite decide_True, Eh, length_app by done. cbn [length]. case_decide.
    - by rewrite Ec.
    - apply IH; rewrite length_app; cbn; lia. }
  unfold handle_readed. cbn [get ctx_of inner data]. rewrite Hc, Hcl. cbn [orb].
  rewrite Hrf by (cbn; unfold FRAMES_FUEL; lia). done.
Qed.
End reading.

(** ** The status of a session *)

Definition status_rank (st : WsStatus) : nat :=
  match st with HandShaking => 0 | HandShaked => 1 | Closing => 2 | Closed => 3 end.

Section status.
Context {S C : Type} `{Transport S} {TL : TransportLaws S}.
Context (protocol : ChildProtocol S C).
(** The sub-protocol leaves the status of the session alone. *)
Context (decode_keeps : forall s w s' w' r,
  decode_protocol protocol s w = Done (s', w', r) -> status w' = status w).
Context (timeout_keeps : forall ev s w s' w' r,
  protocol_timeout protocol ev s w = Done (s', w', r) -> status w' = status w).
Implicit Types (s : S) (w : WsSession C) (c : conn (S := S) (C := C)).

(** The events of a connection, while it has a session. *)
Inductive ws_step : conn (S := S) (C := C) -> conn (S := S) (C := C) -> Prop :=
| step_readed c c' : handle_readed protocol c = Done c' -> ws_step c c'
| step_writed c : ws_step c (handle_writed c)
| step_timeouted ev c c' : handle_timeouted protocol ev c = Done c' -> ws_step c c'.

(** [c] has a session, with the status of [w] or a later one. *)
Definition later w c : Prop :=
  exists w', c.2 = ctx_of w' /\ status_rank (status w) <= status_rank (status w').

Lemma decode_status w s w0 c :
  decode protocol w s (ctx_of w0) = Done c -> exists w', c.2 = ctx_of w' /\ status w' = status w.
Proof.
  rewrite decode_open. destruct (decode_protocol protocol s w) as [[[s1 w1] r]| | |] eqn:E; [|done..].
  apply decode_keeps in E. cbn [mbind outcome_bind]. destruct r as [|e].
  - intros [= <-]. exists (reset w1). by rewrite <-E.
  - destruct (close_done (Err e) s1) as [r ->]. intros [= <-]. exists (reset w1). by rewrite <-E.
Qed.

Lemma handle_control_status s w c :
  handle_control (s, ctx_of w) = Done c ->
  exists w', c.2 = ctx_of w' /\ (status w' = status w \/ status w' = Closing).
Proof.
  rewrite handle_control_open. intros E.
  assert (forall p t w1, (s0 ← resp_control t p s; Done (s0, ctx_of w1)) = Done c -> c.2 = ctx_of w1)
    as Hr.
  { intros p t w1. destruct (resp_control t p s); cbn; [|done..]. by intros [= <-]. }
  destruct (ftype w); try (simplify_eq; cbn; by eauto).
  - destruct (match queue w with [] | [] :: _ => _ | _ => _ end) as [p| | |]; [|done..].
    apply (Hr p) in E. eexists. split; [done|]. by right; cbn; rewrite ?pop_msg_status.
  - apply Hr in E. eexists. split; [done|]. left. cbn. by rewrite pop_msg_status.
Qed.

Lemma process_frame_status f s w c :
  process_frame protocol f (s, ctx_of w) = Done c ->
  exists w', c.2 = ctx_of w' /\ (status w' = status w \/ status w' = Closing).
Proof.
  unfold process_frame. change (as_mut (get (ctx_of w))) with (Some w). cbv iota beta.
  destruct (match payload f with PayloadEmpty => _ | PayloadRaw _ => _ end) as [w1|] eqn:E; [|done].
  assert (status w1 = status w) as Hw1.
  { destruct (payload f); simplify_eq; eauto using fill_msg_status. }
  cbn [lift mbind outcome_bind]. rewrite <-Hw1.
  destruct (is_single _); [|destruct (is_first _); [|destruct (is_next _); [|destruct (is_finish _)]]];
    intros Hd.
  - apply decode_status in Hd as (w' & ? & Hw'). rewrite finish_msg_status in Hw'. eauto.
  - simplify_eq. cbn. eauto.
  - simplify_eq. cbn. eauto.
  - apply decode_status in Hd as (w' & ? & Hw'). rewrite finish_msg_status in Hw'. eauto.
  - by apply handle_control_status in Hd.
Qed.

Lemma process_frames_status fs s w c :
  process_frames protocol fs (s, ctx_of w) = Done c ->
  exists w', c.2 = ctx_of w' /\ (status w' = status w \/ status w' = Closing).
Proof.
  revert s w; induction fs as [|f fs IH]; intros s w; cbn [process_frames].
  { intros [= <-]. cbn. eauto. }
  destruct (process_frame protocol f (s, ctx_of w)) as [[s1 ctx1]| | |] eqn:E; [|done..].
  apply process_frame_status in E as (w1 & E1 & Hw1). cbn in E1. subst ctx1. cbn [mbind outcome_bind].
  intros (w' & ? & Hw')%IH. exists w'. split; [done|]. destruct Hw1 as [G1|G1], Hw' as [G2|G2]; rewrite G2, ?G1; auto.
Qed.

Lemma handle_readed_open s w :
  handle_readed protocol (s, ctx_of w) =
    if decide (2 <= status_rank (status w)) then Done (s, ctx_of w) else
    r ← read_frames FRAMES_FUEL [] s;
    match r with
    | inl (frames, s) => process_frames protocol frames (s, ctx_of w)
    | inr s => Done (s, ctx_of w)
    end.
Proof.
  unfold handle_readed. cbn [get ctx_of inner data]. unfold is_closed, is_closing.
  by destruct (status w).
Qed.

Lemma handle_writed_open s w :
  handle_writed (s, ctx_of w) =
    match status w with
    | HandShaking => (s, ctx_of (set_status HandShaked w))
    | HandShaked => (s, ctx_of w)
    | Closing => ((tr_close (Ok tt) s).1, ctx_of (set_status Closed w))
    | Closed => (s, ctx_of w)
    end.
Proof. by destruct w as [[] ? ? ? ?]. Qed.

Lemma ws_step_later w c c' : c.2 = ctx_of w -> ws_step c c' ->
  exists w', c'.2 = ctx_of w' /\ status_rank (status w) <= status_rank (status w').
Proof.
  intros Hc Hs. destruct Hs as [c c' E|c|ev c c' E]; destruct c as [s ctx]; cbn in Hc; subst ctx.
  - rewrite handle_readed_open in E. case_decide as Hrk; [by simplify_eq; eauto|].
    destruct (read_frames _ _ _) as [[[fs s1]|s1]| | |]; try done; cbn [mbind outcome_bind] in E.
    + apply process_frames_status in E as (w' & ? & [E|E]); exists w'; rewrite E; cbn; auto with lia.
    + simplify_eq. eauto.
  - rewrite handle_writed_open. destruct (status w) eqn:Hw; cbn; eexists; (split; [reflexivity|]); cbn; rewrite ?Hw; cbn; lia.
  - unfold handle_timeouted in E. cbn [get ctx_of inner] in E. change (as_mut _) with (Some w) in E.
    cbv iota beta in E. destruct (protocol_timeout protocol ev s w) as [[[s1 w1] r]| | |] eqn:Ek; [|done..].
    apply timeout_keeps in Ek as Hk. cbn [mbind outcome_bind] in E.
    destruct (close_done (match r with Err e => Err e | Ok _ => Ok tt end) s1) as [r' Ec].
    rewrite Ec in E. cbn in E. simplify_eq. cbn. exists w1. split; [done|]. by rewrite Hk.
Qed.

(** C38: The status of a session only advances, from [HandShaking] over [HandShaked] and
    [Closing] to [Closed], through any sequence of events; a later readable event of a session
    that answered a close frame is ignored. *)
Theorem status_advances s w c :
  rtc ws_step (s, ctx_of w) c ->
  exists w', c.2 = ctx_of w' /\ status_rank (status w) <= status_rank (status w') /\
    (2 <= status_rank (status w) -> handle_readed protocol c = Done c).
Proof.
  remember (s, ctx_of w) as c0 eqn:E0. assert (c0.2 = ctx_of w) as E by (by subst). clear E0.
  intros Hr. enough (exists w', c.2 = ctx_of w' /\ status_rank (status w) <= status_rank (status w'))
    as (w' & Ew & Hw).
  { exists w'. split_and!; [done..|]. intros H2. destruct c as [s1 ctx]; cbn in Ew; subst ctx.
    rewrite handle_readed_open, decide_True by lia. done. }
  revert w E. induction Hr as [c|c c1 c2 Hs Hr IH]; intros w E; [eauto|].
  destruct (ws_step_later w c c1 E Hs) as (w1 & E1 & ?). destruct (IH w1 E1) as (w2 & ? & ?).
  exists w2. split; [done|]. lia.
Qed.

(** A written event completes the handshake, completes the closing by closing the
    TCP connection, and changes nothing otherwise; it is repeatable. *)
Theorem writed_transition s w :
  let c' := handle_writed (s, ctx_of w) in
  (status w = HandShaking -> c' = (s, ctx_of (set_status HandShaked w))) /\
  (status w = Closing -> c' = ((tr_close (Ok tt) s).1, ctx_of (set_status Closed w))) /\
  handle_writed c' = c'.
Proof.
  cbv zeta. rewrite handle_writed_open.
  destruct (status w) eqn:Hw; rewrite handle_writed_open; cbn; rewrite ?Hw; done.
Qed.
End status.
