(* ===== verification/WsOverTcp.v ===== *)
(** * WebSocket over TCP

    The TCP connection of [TcpSocket] discharges what [WsConnect] asks of a transport,
    and the properties of the WebSocket layer are instantiated with it. *)

From S2P Require Import Prelude ByteSource SocketContext TcpSocket WsFrame WsSession WsConnect.

#[export] Instance tcp_transport : Transport TcpConn := {|
  tr_write_ready buf c :=
    let '(s, r) := write_ready buf (tc_socket c) in (mkTcpConn s (tc_polls c), r);
  tr_close reason c :=
    let '(s, _, r) := TcpSocket.close reason (tc_socket c) in (mkTcpConn s (tc_polls c), r);
  tr_is_security _ := false;
  tr_is_closed c := closed (tc_socket c);
  tr_set_timeout ms _ c := mkTcpConn (TcpSocket.set_timeout ms (tc_socket c)) (tc_polls c);
  tr_written c := write_events (tc_socket c);
  tr_closes c := close_events (tc_socket c) |}.

#[export] Instance tcp_transport_laws : TransportLaws TcpConn.
Proof.
  split.
  - intros buf [s polls] c'. cbn. unfold write_ready. destruct (closed s); [done|]. by intros [= <-].
  - intros buf [s polls] Hc. cbn in *. unfold write_ready. rewrite Hc. by eexists.
  - by intros c (Hc & _).
  - intros buf [s polls] c' e. cbn. unfold write_ready. destruct (closed s); [|done]. by intros [= <- <-].
  - intros reason [s polls]. cbn. unfold TcpSocket.close, compare_exchange.
    by destruct s as [? ? ? ? ? ? ? ? [] ? ? ? ? ? [] ? ? ?].
  - intros ms ev [s polls]. by destruct s.
Qed.

(** ** Concrete connections *)

(** A connection with [bs] in the read buffer and the segments [segs] to come. *)
Definition tcp_with (bs : list Z) (segs : list (list Z)) : TcpConn :=
  mkTcpConn (set_read_buf bs (new_socket 0 0)) ((fun seg => [RData seg]) <$> segs).

(** A masked frame head with a payload of [n] bytes. *)
Definition client_head (f op n : Z) : WsHead :=
  mkWsHead f 0 0 0 op (LenComplete n) (KeyComplete [1; 2; 3; 4]%Z).

Lemma client_head_ok f op n :
  f = 0%Z \/ f = 1%Z -> (0 <= op < 16)%Z -> (0 <= n < 2 ^ 63 - 2)%Z -> head_ok (client_head f op n).
Proof.
  intros Hf Hop Hn. unfold head_ok, bit_ok, client_head; cbn.
  split_and!; auto; try lia; [by eexists|by eexists _, _, _, _].
Qed.

(** An echoing sub-protocol. *)
Definition echo : ChildProtocol TcpConn unit := {|
  decode_protocol c w :=
    let '(w, m) := pop_msg w in
    match WsConnect.send TBinary 0 m c with
    | Done (c, r) => Done (c, w, r)
    | _ => Done (c, w, Err Other)
    end;
  close_protocol c _ _ := c;
  protocol_timeout _ c w := Done (c, w, Ok tt) |}.

Definition echo_session : WsSession unit := set_status HandShaked default_session.

Lemma close_sends_status_witness :
  exists s' r, close (Ok tt) (tcp_with [] []) = Done (s', r) /\
    match (tr_write_ready [0x88; 2; 3; 0xe8]%Z (tcp_with [] [])).2 with
    | Ok _ => tr_written s' = tr_written (tcp_with [] []) ++ [[0x88; 2; 3; 0xe8]%Z] /\
              tr_closes s' = tr_closes (tcp_with [] []) ++ [Ok tt]
    | Err _ => tr_written s' = tr_written (tcp_with [] []) /\
               tr_closes s' = tr_closes (tcp_with [] []) ++ [Err Other]
    end.
Proof. exact (close_sends_status (Ok tt) (tcp_with [] [])). Defined.

Lemma head_roundtrip_witness :
  exists bs, head_to (client_head 1 1 300) = Some bs /\
    decode_head bs = Some (Ok (client_head 1 1 300)) /\ length bs = 8.
Proof. apply (head_roundtrip (client_head 1 1 300)). apply client_head_ok; auto; lia. Defined.

Lemma read_head_masked_witness :
  exists a b c d s', key (client_head 1 1 3) = KeyComplete [a; b; c; d] /\
    read_head default_frame (tcp_with [0x81; 0x83; 1]%Z [[2; 3; 4]%Z; [10; 20]%Z; [30; 99]%Z]) =
      Returned (mkWsFrame (client_head 1 1 3) (payload_of [a; b; c; d] [10; 20; 30]%Z)) s' /\
    src_live s' /\ src_stream s' = [99%Z].
Proof.
  apply (read_head_masked (tcp_with [0x81; 0x83; 1]%Z [[2; 3; 4]%Z; [10; 20]%Z; [30; 99]%Z])
    (client_head 1 1 3) [0x81; 0x83; 1; 2; 3; 4]%Z [10; 20; 30]%Z [99]%Z); try done.
  - apply client_head_ok; auto; lia.
  - by left.
Defined.

Lemma read_head_split_closes_witness :
  let s := tcp_with [0x81; 0xfe; 0; 200; 1; 2]%Z [[3; 4; 7; 7; 7]%Z] in
  exists s1 v s2, src_buffered s1 = drop READ_HEAD_LEN (src_buffered s) /\
    src_ready 2 s1 = Some (v, s2) /\
    (v <> 2 -> exists s3, read_head default_frame s =
       Returned (mkWsFrame (mkWsHead 1 0 0 0 1 (LenComplete 200) (KeyPart [1; 2]%Z)) PayloadEmpty)
         (src_close Other s3)).
Proof.
  apply (read_head_split_closes (tcp_with [0x81; 0xfe; 0; 200; 1; 2]%Z [[3; 4; 7; 7; 7]%Z])
    (mkWsHead 1 0 0 0 1 (LenComplete 200) (KeyPart [1; 2]%Z))); vm_compute; done || lia.
Defined.

Lemma fragments_reassembled_witness :
  let fr f op p := mkWsFrame (client_head f op (Z.of_nat (length p))) (PayloadRaw p) in
  let w' := mkWsSession HandShaked TText (Some []) [[10; 20; 30]%Z] None in
  process_frames echo [fr 0 1 [10]; fr 0 0 [20]; fr 1 0 [30]]%Z (tcp_with [] [], ctx_of echo_session)
    = decode echo w' (tcp_with [] []) (ctx_of w').
Proof.
  apply (fragments_reassembled echo (mkWsFrame (client_head 0 1 1) (PayloadRaw [10%Z]))
    [mkWsFrame (client_head 0 0 1) (PayloadRaw [20%Z])]
    (mkWsFrame (client_head 1 0 1) (PayloadRaw [30%Z])) (tcp_with [] []) echo_session); try done.
  by apply Forall_singleton.
Defined.

Lemma ping_payload_misplaced_witness :
  let ping := mkWsFrame (client_head 1 9 2) (PayloadRaw [1; 2]%Z) in
  let data := mkWsFrame (client_head 1 2 1) (PayloadRaw [3]%Z) in
  let s1 := (tr_write_ready [0x8a; 0]%Z (tcp_with [] [])).1 in
  let w' := mkWsSession HandShaked TBinary (Some []) [[1; 2; 3]%Z] None in
  process_frames echo [ping; data] (tcp_with [] [], ctx_of echo_session) = decode echo w' s1 (ctx_of w').
Proof.
  apply (ping_payload_misplaced echo (mkWsFrame (client_head 1 9 2) (PayloadRaw [1; 2]%Z))
    (mkWsFrame (client_head 1 2 1) (PayloadRaw [3]%Z)) (tcp_with [] [])
    (tr_write_ready [0x8a; 0]%Z (tcp_with [] [])).1 echo_session); done.
Defined.

Lemma frames_after_close_handled_witness :
  let cl := mkWsFrame (client_head 1 8 2) (PayloadRaw [3; 0xe8]%Z) in
  let data := mkWsFrame (client_head 1 2 1) (PayloadRaw [7]%Z) in
  let s1 := (tr_write_ready [0x88; 0]%Z (tcp_with [] [])).1 in
  let w' := mkWsSession Closing TBinary (Some []) [[3; 0xe8; 7]%Z] None in
  process_frames echo [cl; data] (tcp_with [] [], ctx_of echo_session) = decode echo w' s1 (ctx_of w').
Proof.
  apply (frames_after_close_handled echo (mkWsFrame (client_head 1 8 2) (PayloadRaw [3; 0xe8]%Z))
    (mkWsFrame (client_head 1 2 1) (PayloadRaw [7]%Z)) (tcp_with [] [])
    (tr_write_ready [0x88; 0]%Z (tcp_with [] [])).1 echo_session); done.
Defined.

(** Two frames in segments that do not respect their boundaries. *)
Definition two_wires : list wire :=
  [mkWire (client_head 1 1 1) [65%Z]; mkWire (client_head 1 2 2) [66; 67]%Z].

Lemma read_frames_whole_witness :
  let s := tcp_with [0x81; 0x81; 1; 2]%Z [[3; 4; 65; 0x82; 0x82; 1]%Z; [2; 3; 4; 66; 67]%Z] in
  exists fs1 fs2 s', two_wires = fs1 ++ fs2 /\ src_live s' /\ src_stream s' = concat (wire_bytes <$> fs2) /\
    (length fs1 <= 128 /\ src_buffered s' = [] /\
       read_frames FRAMES_FUEL [] s = Done (inl (wire_frame <$> fs1, s')) \/
     length fs1 = 129 /\
       exists r, close (Err Other) s' = Done r /\ read_frames FRAMES_FUEL [] s = Done (inr r.1)).
Proof.
  apply (read_frames_whole two_wires
    (tcp_with [0x81; 0x81; 1; 2]%Z [[3; 4; 65; 0x82; 0x82; 1]%Z; [2; 3; 4; 66; 67]%Z])); [|done..].
  repeat constructor; try (cbn; lia); apply client_head_ok; auto; lia.
Defined.

(** Three bytes of a head, then the connection is gone. *)
Lemma closed_mid_head_witness :
  let c := mkTcpConn (set_closed true (set_read_buf [0x81; 0x81; 1]%Z (new_socket 0 0))) [] in
  exists r, close (Err Other) c = Done r /\
    handle_readed echo (c, ctx_of echo_session) = Done (r.1, ctx_of echo_session).
Proof.
  apply (closed_mid_head echo
    (mkTcpConn (set_closed true (set_read_buf [0x81; 0x81; 1]%Z (new_socket 0 0))) []) echo_session);
    try done. vm_compute; lia.
Defined.

Lemma broadcast_all_witness :
  let c u := mkWsSocket u 0 in
  let store : gmap Z TcpConn := {[ 7%Z := tcp_with [] []; 8%Z := tcp_with [] []; 9%Z := tcp_with [] [] ]} in
  exists f buf store', single_with_window_bits_and_payload (frame_type_to TText) 0 [65%Z] = Some f /\
    frame_to f = Some buf /\
    broadcast [c 7; c 8; c 7]%Z TText [65%Z] store = Done (store', Ok tt) /\
    forall u, store' !! u =
      Nat.iter (length (filter (fun c => ws_uid c = u) [c 7; c 8; c 7]%Z))
        (fun s => (tr_write_ready buf s).1) <$> store !! u.
Proof.
  apply (broadcast_all TText [65%Z] (mkWsSocket 7 0) [mkWsSocket 8 0; mkWsSocket 7 0]
    {[ 7%Z := tcp_with [] []; 8%Z := tcp_with [] []; 9%Z := tcp_with [] [] ]}); reflexivity.
Defined.

Lemma echo_keeps_status s w s' w' r :
  decode_protocol echo s w = Done (s', w', r) -> status w' = status w.
Proof.
  unfold decode_protocol, echo. pose proof (pop_msg_status w) as Hw. destruct (pop_msg w) as [w1 m].
  destruct (WsConnect.send TBinary 0 m s) as [[]| | |]; intros; by simplify_eq.
Qed.

Lemma echo_timeout_keeps_status ev s w s' w' r :
  protocol_timeout echo ev s w = Done (s', w', r) -> status w' = status w.
Proof. by intros [= <- <- <-]. Qed.

Lemma status_advances_witness :
  exists w', (handle_writed (tcp_with [] [], ctx_of (@default_session unit))).2 = ctx_of w' /\
    0 <= status_rank (status w') /\
    (2 <= 0 -> handle_readed echo (handle_writed (tcp_with [] [], ctx_of default_session)) =
       Done (handle_writed (tcp_with [] [], ctx_of default_session))).
Proof.
  apply (status_advances echo echo_keeps_status echo_timeout_keeps_status (tcp_with [] []) default_session).
  apply rtc_once. apply (step_writed echo).
Defined.
