(* ===== verification/TlsSample.v ===== *)
(** * A TLS connection with a simple record layer

    A stand-in for the package rustls, with which the properties of [TlsSocket] are
    instantiated: every byte of the plain text is a record of two bytes, its type and the
    masked byte. A session without a handshake keeps the bytes of a record that is cut, the
    plain text not yet read and the bytes not yet sent. *)

From S2P Require Import Prelude ByteSource TcpServer TcpSocket SocketContext WsFrame WsSession WsConnect WsOverTcp TlsSocket.

Record Rec := mkRec { r_in : list Z; r_ready : list Z; r_out : list Z; r_limit : nat }.

Definition mask_byte (b : Z) : Z := Z.lxor b 90.

Lemma mask_byte_twice b : mask_byte (mask_byte b) = b.
Proof. unfold mask_byte. by rewrite Z.lxor_assoc, Z.lxor_nilpotent, Z.lxor_0_r. Qed.

(** The plain text of the whole records, and the bytes behind them. *)
Fixpoint open_records (l : list Z) : list Z * list Z :=
  match l with
  | _ :: b :: l' => let '(p, r) := open_records l' in (mask_byte b :: p, r)
  | r => ([], r)
  end.

Definition seal_records (l : list Z) : list Z := l ≫= fun b => [23; mask_byte b]%Z.

Lemma open_app l c :
  open_records (l ++ c) = let '(p, r) := open_records l in let '(p', r') := open_records (r ++ c) in (p ++ p', r').
Proof.
  revert l. apply (well_founded_ind (well_founded_ltof _ (@length Z))). unfold ltof.
  intros [|a [|b l]] IH; cbn [open_records app].
  - by destruct (open_records c).
  - by destruct c as [|b c]; cbn; [|destruct (open_records c)].
  - rewrite IH by (cbn; lia). destruct (open_records l) as [p r]. by destruct (open_records (r ++ c)).
Qed.

Lemma open_rest l : open_records (open_records l).2 = ([], (open_records l).2).
Proof.
  revert l. apply (well_founded_ind (well_founded_ltof _ (@length Z))). unfold ltof.
  intros [|a [|b l]] IH; [done..|]. cbn. specialize (IH l ltac:(cbn; lia)). by destruct (open_records l).
Qed.

Lemma open_seal l : open_records (seal_records l) = (l, []).
Proof. induction l as [|b l IH]; [done|]. cbn. unfold seal_records in IH. rewrite IH, mask_byte_twice. done. Qed.

#[export] Instance rec_api : TlsApi Rec := {|
  server_connection _ := Some (mkRec [] [] [] 0);
  tls_read c t := mkRec (r_in t ++ c) (r_ready t) (r_out t) (r_limit t);
  tls_process t :=
    let '(p, r) := open_records (r_in t) in
    (mkRec r (r_ready t ++ p) (r_out t) (r_limit t), Some (length (r_ready t ++ p)));
  tls_reader n t :=
    if decide (n <= length (r_ready t)) then
      Some (mkRec (r_in t) (drop n (r_ready t)) (r_out t) (r_limit t), take n (r_ready t))
    else None;
  tls_wants_read _ := true;
  tls_wants_write t := negb (bool_decide (r_out t = []));
  tls_is_handshaking _ := false;
  tls_set_buffer_limit n t := mkRec (r_in t) (r_ready t) (r_out t) n;
  tls_write_all b t :=
    let n := Nat.min (length b) (r_limit t - length (r_out t)) in
    (mkRec (r_in t) (r_ready t) (r_out t ++ seal_records (take n b)) (r_limit t),
     if decide (n < length b) then Err WriteZero else Ok tt);
  tls_write ev t :=
    match r_out t, ev with
    | [], _ => (t, [], Ok 0)
    | out, WWrote n => (mkRec (r_in t) (r_ready t) (drop n out) (r_limit t), take n out, Ok (Nat.min n (length out)))
    | _, WWouldBlock => (t, [], Err WouldBlock)
    | _, WInterrupted => (t, [], Err Interrupted)
    | _, WError e => (t, [], Err e)
    end;
  tls_close_notify t := mkRec (r_in t) (r_ready t) (r_out t ++ [21; 0]%Z) (r_limit t) |}.

#[export] Instance rec_laws : TlsLaws Rec.
Proof.
  refine {| tls_ready := r_ready; tls_pending := r_out; tls_peer _ _ := True;
    tls_plain t c := let '(p, r) := open_records (r_in t ++ c) in if bool_decide (r = []) then Some (r_ready t ++ p) else None |}.
  - intros. cbn. by rewrite <- app_assoc.
  - intros t c _. cbn. destruct (open_records (r_in t)) as [p r] eqn:E.
    exists (mkRec r (r_ready t ++ p) (r_out t) (r_limit t)). split; [done|]. cbn. intros c'.
    rewrite (open_app (r_in t)), E. destruct (open_records (r ++ c')) as [p' r']. case_bool_decide; [|done]. by rewrite app_assoc.
  - intros t t' n p E Hp. cbn in *. pose proof (open_rest (r_in t)) as Hr. destruct (open_records (r_in t)) as [q r].
    simplify_eq. cbn in *. rewrite app_nil_r, Hr in Hp. rewrite app_nil_r in Hp. case_bool_decide; congruence.
  - intros t. cbn. rewrite decide_True, take_ge, drop_ge by lia.
    exists (mkRec (r_in t) [] (r_out t) (r_limit t)). split; [done|].
    intros c. cbn. destruct (open_records _). by case_bool_decide.
  - done.
  - done.
  - done.
  - intros b t t' p q _ Hq E. split; [done|]. cbn in *. case_decide as Hn; [done|]. simplify_eq. cbn.
    rewrite take_ge by lia. rewrite app_assoc, open_app. destruct (open_records (r_in p ++ r_out t)) as [x r].
    case_bool_decide; [|done]. simplify_eq. cbn. rewrite open_seal, bool_decide_true by done. by rewrite app_assoc.
  - done.
  - done.
  - intros b t t' e E. cbn in E. case_decide; simplify_eq. done.
  - intros ev t t' out n E. cbn in *. destruct (r_out t) as [|x l] eqn:El; [simplify_eq; by rewrite El|].
    destruct ev; simplify_eq/=. by rewrite take_drop.
  - intros [|n] t Hn; [lia|]. cbn in *. destruct (r_out t) as [|x l]; cbn in *; [lia|]. rewrite Nat.min_l by lia. eauto.
  - intros ev e t Hp He. cbn in *. destruct (r_out t); [done|]. by destruct He as [[-> ->]|[[-> ->]| ->]].
  - intros t. cbn. by destruct (r_out t).
Defined.

(** ** Receiving and sending *)

Definition fresh_tls : TlsSocket (T := Rec) := mkTlsSocket (new_socket 4096 4096) (mkRec [] [] [] 0).

(** A connection with encrypted segments to come, cut inside records. *)
Definition tls_with (segs : list (list Z)) : TlsConn Rec :=
  mkTlsConn fresh_tls ((fun seg => (RData seg, WWrote 100)) <$> segs) (WWrote 100) [].

Example tls_new : new_tls_socket 0 0 (TlsServer 1) = Done (mkTlsSocket (set_interest READABLE (new_socket 0 0)) (mkRec [] [] [] 0)).
Proof. reflexivity. Qed.
Example tls_new_client : new_tls_socket (T := Rec) 0 0 (TlsClient 1) = Panic.
Proof. reflexivity. Qed.

Definition writing (l : list Z) : TlsSocket (T := Rec) := on_base (set_write_buf l) fresh_tls.

Definition some_sends : list write_event := [WWrote 3; WWrote 9; WWrote 0].
Definition sent_state : TlsSocket (T := Rec) :=
  match send_events some_sends (writing [1; 2; 3]%Z) with Some (s, _) => s | None => fresh_tls end.

Lemma tls_sent_roundtrip_witness :
  exists s', send_events some_sends (writing [1; 2; 3]%Z) = Some (s', take 6 (seal_records [1; 2; 3]%Z)) /\
  exists taken, write_buf (base (writing [1; 2; 3]%Z)) = taken ++ write_buf (base s') /\
    tls_plain (mkRec [] [] [] 0) (take 6 (seal_records [1; 2; 3]%Z) ++ tls_pending (tls_connect s')) = Some ([] ++ taken).
Proof.
  assert (send_events some_sends (writing [1; 2; 3]%Z) = Some (sent_state, take 6 (seal_records [1; 2; 3]%Z))) as E by (vm_compute; reflexivity).
  exists sent_state. split; [exact E|].
  exact (tls_sent_roundtrip some_sends (writing [1; 2; 3]%Z) sent_state _ (mkRec [] [] [] 0) [] I eq_refl E).
Defined.

Lemma tls_tail_waits_witness :
  exists s', send (WWrote 3) (writing [1; 2; 3]%Z) = (s', take 3 (seal_records [1; 2; 3]%Z), Ok 3) /\
    tls_pending (tls_connect s') = drop 3 (seal_records [1; 2; 3]%Z) /\ tls_wants_write (tls_connect s') = true /\
    write_buf (base s') = [] /\ interest (base s') = READABLE.
Proof.
  pose proof (tls_tail_waits (writing [1; 2; 3]%Z) (mkRec [] [] (seal_records [1; 2; 3]%Z) 6) 3) as W. apply W;
    first [reflexivity | done | cbn; unfold DEFAULT_WRITE_BLOCK_LEN; lia].
Defined.

Example tls_full_kernel : exists s', send WWouldBlock (writing [1]%Z) = (s', [], Err WouldBlock).
Proof. by apply (tls_would_block_fails (writing [1]%Z) (mkRec [] [] (seal_records [1]%Z) 2)). Qed.

(** A record cut by the end of a segment wakes a reader that takes what comes, with
    nothing: the caller takes the connection for closed. *)
Example tls_wakes_with_nothing :
  match tls_ready_await 0 (tls_with [[23]%Z; [mask_byte 7]]) with
  | Some (v, c) => v = 0 /\ tls_stream c = [7]%Z
  | None => False
  end.
Proof. vm_compute. by split. Qed.

Lemma tls_ready_complete_witness :
  exists v c', tls_ready_await 2 (tls_with [[23]; [mask_byte 7; 23]; [mask_byte 8]]%Z) = Some (v, c') /\ 0 < v /\
    2 <= length (read_buf (base (tn_socket c'))) /\ length (read_buf (base (tn_socket c'))) = 0 + v /\
    closed (base (tn_socket c')) = false /\ tls_stream c' = [7; 8]%Z.
Proof.
  pose proof (tls_ready_complete 2 (tls_with [[23]; [mask_byte 7; 23]; [mask_byte 8]]%Z)) as W. apply W;
    [split_and!; try reflexivity; [by eexists|by intros p [= <-]]|cbn; lia..].
Defined.

(** ** WebSocket over TLS *)

Definition tls_echo : ChildProtocol (TlsConn Rec) unit := {|
  decode_protocol c w :=
    let '(w, m) := pop_msg w in
    match WsConnect.send TBinary 0 m c with
    | Done (c, r) => Done (c, w, r)
    | _ => Done (c, w, Err Other)
    end;
  close_protocol c _ _ := c;
  protocol_timeout _ c w := Done (c, w, Ok tt) |}.

(** A masked frame with the payload [[3; 65]], encrypted and cut in its middle; the first
    event has filled the read buffer with the first byte. *)
Definition frame_bytes : list Z := [0x82; 0x82; 1; 2; 3; 4; 2; 67]%Z.
Definition tls_framed : TlsConn Rec :=
  let c := tls_with [take 7 (seal_records frame_bytes); drop 7 (seal_records frame_bytes)] in
  match tls_ready_await 1 c with Some (_, c) => c | None => c end.

Example ws_over_tls :
  match handle_readed tls_echo (tls_framed, ctx_of echo_session) with
  | Done (c, _) => write_events (base (tn_socket c)) = [[0x82; 2; 3; 65]%Z]
  | _ => False
  end.
Proof. by vm_compute. Qed.
