(* ===== verification/MqttTopic.v ===== *)
(** * Topics and topic filters

    The types [Topic] and [TopicPath] belong to the package [mqtt311], which is not
    part of the repository: the operations the broker calls are the members of
    [TopicApi], and what its documentation promises of them and the proofs rely on is
    [TopicLaws]. [split_topics] is a concrete instance, used by the witnesses.
    The broker's own matching function, [is_match] of mqtt/src/broker.rs, is here. *)

From Stdlib Require Import Ascii.
From S2P Require Import Prelude.

Class TopicApi := {
  Topic : Type;
  TopicPath : Type;
  Blank : Topic;
  (** [From<Topic> for String] *)
  topic_string : Topic -> string;
  (** [Topic::fit] *)
  fit : Topic -> Topic -> bool;
  (** [From<&str>] and [From<String>] for [TopicPath] *)
  path_from : string -> TopicPath;
  (** [TopicPath::from_str], which reports an error where [from] panics *)
  path_from_str : string -> option TopicPath;
  (** the field [wildcards] *)
  wildcards : TopicPath -> bool;
  (** [TopicPath::path]: the string of a path *)
  path_string : TopicPath -> string;
  tp_len : TopicPath -> nat;
  tp_get : TopicPath -> nat -> option Topic;
  is_final : TopicPath -> nat -> bool;
  is_multi : TopicPath -> nat -> bool;
}.

Section levels.
Context `{TopicApi}.

(** The topics of a path and their strings, level by level. *)
Definition topics (p : TopicPath) : list Topic := omap (tp_get p) (seq 0 (tp_len p)).
Definition levels (p : TopicPath) : list string := topic_string <$> topics p.

Definition is_wildcard (s : string) : bool := bool_decide (s = "+"%string \/ s = "#"%string).
End levels.

Class TopicLaws `{TopicApi} := {
  tp_len_pos p : 0 < tp_len p;
  tp_get_some p i : i < tp_len p -> is_Some (tp_get p i);
  tp_get_none p i : tp_len p <= i -> tp_get p i = None;
  is_final_spec p i : is_final p i = bool_decide (S i = tp_len p);
  is_multi_spec p i : is_multi p i = match tp_get p i with
    Some t => bool_decide (topic_string t = "#"%string) | None => false end;
  wildcards_spec p : wildcards p = existsb is_wildcard (levels p);
  levels_inj s1 s2 : levels (path_from s1) = levels (path_from s2) -> s1 = s2;
}.

(** ** The broker's matching function *)

Section is_match.
Context `{TopicApi}.

(** The loop over the levels of the path. *)
Fixpoint match_levels (pattern path : TopicPath) (indices : list nat) : bool :=
  match indices with
  | [] => true
  | index :: indices' =>
      if is_final pattern index && is_multi pattern index then true
      else
        match tp_get pattern index, tp_get path index with
        | Some p, Some t => if fit p t then match_levels pattern path indices' else false
        | _, _ => false
        end
  end.

(** [is_match]. The two [unwrap]s of a level are on levels that exist; a missing
    level makes the model answer [false]. *)
Definition is_match (pattern path : TopicPath) : bool :=
  let path_len := tp_len path in
  let pattern_len := tp_len pattern in
  if decide (path_len < pattern_len) then
    let level_diff := pattern_len - path_len in
    if decide (1 < level_diff) then false
    else if decide (level_diff = 1) then
      if is_multi pattern (pattern_len - 1) then
        let index := pattern_len - 2 in
        match tp_get pattern index, tp_get path index with
        | Some p, Some t => fit p t
        | _, _ => false
        end
      else false
    else false
  else match_levels pattern path (seq 0 path_len).
End is_match.

(** ** Matching as MQTT defines it (4.7.1) *)

Section reference.
Context `{TopicApi}.

(** A multi-level wildcard at the end matches the parent level and all below. *)
Fixpoint mqtt_match (pattern path : list Topic) : bool :=
  match pattern with
  | [] => match path with [] => true | _ => false end
  | p :: pattern' =>
      if bool_decide (topic_string p = "#"%string) && bool_decide (pattern' = []) then true
      else match path with
           | [] => false
           | t :: path' => fit p t && mqtt_match pattern' path'
           end
  end.
End reference.

(** ** Facts *)

Section facts.
Context `{TopicLaws}.
Implicit Types p : TopicPath.

Lemma topics_from p i :
  omap (tp_get p) (seq i (tp_len p - i)) = drop i (topics p).
Proof.
  unfold topics. assert (forall n i, (forall j, i <= j < i + n -> is_Some (tp_get p j)) ->
    forall k, omap (tp_get p) (seq (i + k) (n - k)) = drop k (omap (tp_get p) (seq i n))) as Hd.
  { clear i. intros n; induction n as [|n IH]; intros i Hs k; cbn; [by rewrite drop_nil|].
    destruct (Hs i ltac:(lia)) as [t Ht]. rewrite Ht. destruct k as [|k]; cbn.
    - by rewrite Nat.add_0_r, Ht.
    - rewrite <-IH; [by rewrite Nat.add_succ_comm|]. intros j Hj. apply Hs. lia. }
  apply (Hd (tp_len p) 0). intros j Hj. apply tp_get_some. lia.
Qed.

Lemma topics_drop_S p i t :
  tp_get p i = Some t -> drop i (topics p) = t :: drop (S i) (topics p).
Proof.
  intros E. destruct (decide (i < tp_len p)) as [Hi|Hi].
  - rewrite <-!topics_from. replace (tp_len p - i) with (S (tp_len p - S i)) by lia. cbn. by rewrite E.
  - rewrite tp_get_none in E by lia. done.
Qed.

Lemma length_topics p : length (topics p) = tp_len p.
Proof.
  assert (forall n i, i + n <= tp_len p -> length (omap (tp_get p) (seq i n)) = n) as Hl.
  { induction n as [|n IH]; intros i Hi; cbn; [done|].
    destruct (tp_get_some p i ltac:(lia)) as [t ->]. cbn. rewrite IH; lia. }
  by apply Hl.
Qed.

Lemma topics_lookup p i : topics p !! i = tp_get p i.
Proof.
  destruct (decide (i < tp_len p)) as [Hi|Hi].
  - destruct (tp_get_some p i Hi) as [t Ht]. rewrite Ht.
    rewrite <-(Nat.add_0_r i), <-lookup_drop. by rewrite (topics_drop_S _ _ _ Ht).
  - rewrite tp_get_none by lia. apply lookup_ge_None. rewrite length_topics. lia.
Qed.

Lemma length_levels p : length (levels p) = tp_len p.
Proof. unfold levels. by rewrite length_fmap, length_topics. Qed.

Lemma levels_lookup p i : levels p !! i = topic_string <$> tp_get p i.
Proof. unfold levels. by rewrite list_lookup_fmap, topics_lookup. Qed.

(** The last level of a pattern is a multi-level wildcard. *)
Lemma final_multi p i t :
  tp_get p i = Some t ->
  is_final p i && is_multi p i =
    bool_decide (topic_string t = "#"%string) && bool_decide (drop (S i) (topics p) = []).
Proof.
  intros E. rewrite is_final_spec, is_multi_spec, E, andb_comm. f_equal.
  apply bool_decide_ext. assert (i < tp_len p) as Hi.
  { destruct (decide (i < tp_len p)); [done|]. rewrite tp_get_none in E by lia. done. }
  split; [intros; apply nil_length_inv; rewrite length_drop, length_topics; lia|].
  intros Hd%(f_equal length). rewrite length_drop, length_topics in Hd. cbn in Hd. lia.
Qed.

Lemma match_levels_spec p t i :
  tp_len p <= tp_len t -> i <= tp_len t ->
  match_levels p t (seq i (tp_len t - i)) = mqtt_match (drop i (topics p)) (drop i (topics t)).
Proof.
  intros Hle. remember (tp_len t - i) as n eqn:En. revert i En; induction n as [|n IH]; intros i En Hi.
  { rewrite !drop_ge by (rewrite length_topics; lia). done. }
  destruct (tp_get_some t i ltac:(lia)) as [y Hy]. cbn [seq match_levels]. rewrite Hy.
  rewrite (topics_drop_S t i y Hy). destruct (tp_get p i) as [x|] eqn:Hx.
  - rewrite (topics_drop_S p i x Hx), (final_multi p i x Hx). cbn [mqtt_match].
    rewrite IH by lia. destruct (_ && _); [done|]. by destruct (fit x y).
  - rewrite is_multi_spec, Hx, andb_false_r. rewrite drop_ge; [done|].
    rewrite length_topics. destruct (decide (i < tp_len p)) as [Hip|]; [|lia].
    destruct (tp_get_some p i Hip). congruence.
Qed.

(** A pattern that matches a shorter path is that path's pattern and a wildcard. *)
Lemma mqtt_match_shorter ps ts :
  mqtt_match ps ts = true -> length ts < length ps ->
  exists ps0 x, ps = ps0 ++ [x] /\ topic_string x = "#"%string /\
    Forall2 (fun x y : Topic => fit x y = true) ps0 ts.
Proof.
  revert ts; induction ps as [|p ps IH]; intros ts Hm Hl; [cbn in Hl; lia|]. cbn in Hm.
  destruct (bool_decide _ && _) eqn:E.
  - apply andb_prop in E as [E1%bool_decide_eq_true_1 ->%bool_decide_eq_true_1].
    exists [], p. destruct ts; [done|cbn in Hl; lia].
  - destruct ts as [|t ts]; [done|]. apply andb_prop in Hm as [Hf Hm].
    destruct (IH ts Hm) as (ps0 & x & -> & ? & ?); [cbn in Hl; lia|].
    exists (p :: ps0), x. split_and!; [done..|by constructor].
Qed.

Lemma is_match_long p t :
  tp_len p <= tp_len t -> is_match p t = mqtt_match (topics p) (topics t).
Proof.
  intros Hle. unfold is_match. rewrite decide_False by lia.
  rewrite <-(Nat.sub_0_r (tp_len t)), match_levels_spec by lia. done.
Qed.

Lemma is_match_short p t :
  tp_len t < tp_len p ->
  is_match p t = true <-> S (tp_len t) = tp_len p /\
    (exists x, tp_get p (tp_len t) = Some x /\ topic_string x = "#"%string) /\
    exists x y, tp_get p (tp_len t - 1) = Some x /\ tp_get t (tp_len t - 1) = Some y /\ fit x y = true.
Proof.
  intros Hlt. unfold is_match. rewrite decide_True by done.
  pose proof (tp_len_pos t) as Hp.
  destruct (decide (S (tp_len t) = tp_len p)) as [He|Hne].
  - rewrite decide_False by lia. rewrite decide_True by lia.
    replace (tp_len p - 1) with (tp_len t) by lia. replace (tp_len p - 2) with (tp_len t - 1) by lia.
    rewrite is_multi_spec. destruct (tp_get_some p (tp_len t) ltac:(lia)) as [z Hz]. rewrite Hz.
    destruct (tp_get_some p (tp_len t - 1) ltac:(lia)) as [x Hx].
    destruct (tp_get_some t (tp_len t - 1) ltac:(lia)) as [y Hy]. rewrite Hx, Hy.
    case_bool_decide; naive_solver.
  - rewrite decide_True by lia. split; [done|]. intros [? _]. lia.
Qed.

Lemma mqtt_match_is_match p t :
  mqtt_match (topics p) (topics t) = true -> is_match p t = true.
Proof.
  intros Hm. destruct (decide (tp_len p <= tp_len t)) as [Hle|Hlt]; [by rewrite is_match_long|].
  pose proof (tp_len_pos t) as Ht.
  destruct (mqtt_match_shorter _ _ Hm) as (ps0 & x & Ep & Ex & Hall);
    [rewrite !length_topics; lia|].
  pose proof (Forall2_length _ _ _ Hall) as Hlen. rewrite length_topics in Hlen.
  assert (tp_len p = S (tp_len t)) as He by (rewrite <-length_topics, Ep, length_app; cbn; lia).
  apply is_match_short; [lia|]. split; [done|]. split.
  - exists x. rewrite <-topics_lookup, Ep, lookup_app_r, Hlen, Nat.sub_diag by lia. done.
  - destruct (lookup_lt_is_Some_2 ps0 (tp_len t - 1) ltac:(lia)) as [u Hu].
    destruct (Forall2_lookup_l _ _ _ _ _ Hall Hu) as (y & Hy & Hf).
    exists u, y. rewrite <-!topics_lookup, Ep, lookup_app_l by lia. done.
Qed.

(** C39: The broker's matching never misses a topic that the pattern matches by the
    rules of MQTT, and it is exact when the topic has at least as many levels as the
    pattern or the pattern has at most two levels. *)
Theorem is_match_complete p t :
  (mqtt_match (topics p) (topics t) = true -> is_match p t = true) /\
  (tp_len p <= tp_len t \/ tp_len p <= 2 -> is_match p t = mqtt_match (topics p) (topics t)).
Proof.
  destruct (decide (tp_len p <= tp_len t)) as [Hle|Hlt].
  { rewrite is_match_long by done. auto. }
  pose proof (tp_len_pos t). pose proof (is_match_short p t ltac:(lia)) as Hs.
  pose proof (mqtt_match_is_match p t) as Hc.
  split; [done|]. intros [?|H2]; [lia|].
  destruct (is_match p t) eqn:Em; [|by destruct (mqtt_match _ _); [specialize (Hc eq_refl)|]].
  destruct (proj1 Hs eq_refl) as (He & (x & Hx & Ex) & u & y & Hu & Hy & Hf).
  assert (tp_len t = 1) as Et by lia. rewrite Et in *. cbn in Hu, Hy.
  assert (topics p = [u; x]) as ->.
  { pose proof (topics_drop_S p 0 u Hu) as E0. pose proof (topics_drop_S p 1 x Hx) as E1.
    rewrite drop_0 in E0. rewrite E0, E1. f_equal. f_equal. apply drop_ge. rewrite length_topics. lia. }
  assert (topics t = [y]) as ->.
  { pose proof (topics_drop_S t 0 y Hy) as E0. rewrite drop_0 in E0. rewrite E0. f_equal.
    apply drop_ge. rewrite length_topics. lia. }
  unfold mqtt_match. rewrite Ex, Hf. by rewrite andb_false_r.
Qed.
End facts.

(** ** A concrete instance *)

(** Splitting at the slashes; topics are strings, and a filter level fits a topic
    level that is equal or if it is a wildcard. *)
Fixpoint split_slash (s : string) : list string :=
  match s with
  | EmptyString => [EmptyString]
  | String c s' =>
      if bool_decide (c = "/"%char) then EmptyString :: split_slash s'
      else match split_slash s' with
           | l :: ls => String c l :: ls
           | [] => [String c EmptyString]
           end
  end.

Lemma split_slash_ne s : split_slash s <> [].
Proof. destruct s; cbn; [done|]. repeat case_match; done. Qed.

Lemma split_slash_inj s1 s2 : split_slash s1 = split_slash s2 -> s1 = s2.
Proof.
  revert s2; induction s1 as [|c1 s1 IH]; intros [|c2 s2]; cbn; [done|..].
  - pose proof (split_slash_ne s2). repeat case_match; congruence.
  - pose proof (split_slash_ne s1). repeat case_match; congruence.
  - pose proof (split_slash_ne s1) as N1. pose proof (split_slash_ne s2) as N2.
    specialize (IH s2).
    destruct (split_slash s1) as [|l1 r1], (split_slash s2) as [|l2 r2]; try done.
    repeat case_bool_decide; intros [=]; subst; try (f_equal; apply IH; congruence); done.
Qed.

#[export] Instance split_topics : TopicApi := {|
  Topic := string;
  TopicPath := { l : list string | bool_decide (l <> []) };
  Blank := EmptyString;
  topic_string s := s;
  fit p t := is_wildcard p || bool_decide (p = t);
  path_from s := exist _ (split_slash s) (bool_decide_pack _ (split_slash_ne s));
  path_from_str s := Some (exist _ (split_slash s) (bool_decide_pack _ (split_slash_ne s)));
  wildcards p := existsb is_wildcard (`p);
  path_string p := String.concat "/" (`p);
  tp_len p := length (`p);
  tp_get p i := `p !! i;
  is_final p i := bool_decide (S i = length (`p));
  is_multi p i := match `p !! i with Some t => bool_decide (t = "#"%string) | None => false end |}.

Lemma split_topics_levels p : levels p = `p.
Proof.
  unfold levels, topics. cbn. destruct p as [l Hl]; cbn. clear Hl. rewrite list_fmap_id.
  induction l as [|x l IH] using rev_ind; [done|].
  rewrite length_app, Nat.add_1_r, seq_S, omap_app. cbn.
  rewrite list_lookup_middle by done. f_equal. rewrite <-IH at 2. apply list_omap_ext.
  apply Forall2_same_length_lookup. split; [done|]. intros i a b Ha Hb. simplify_eq.
  apply lookup_seq in Ha as [-> ?]. by rewrite lookup_app_l by lia.
Qed.

#[export] Instance split_topics_laws : TopicLaws.
Proof.
  split.
  - intros [l Hl]. cbn. apply bool_decide_unpack in Hl. destruct l; [done|cbn; lia].
  - intros [l Hl] i Hi. by apply lookup_lt_is_Some_2.
  - intros [l Hl] i Hi. by apply lookup_ge_None_2.
  - done.
  - done.
  - intros p. rewrite split_topics_levels. done.
  - intros s1 s2. rewrite !split_topics_levels. apply split_slash_inj.
Qed.

(** The pattern [a/b/#] and the topic [x/b]: the broker sees a match. *)
Lemma is_match_complete_witness :
  is_match (path_from "a/b/#") (path_from "x/b") = true /\
  mqtt_match (topics (path_from "a/b/#")) (topics (path_from "x/b")) = false /\
  (mqtt_match (topics (path_from "a/#")) (topics (path_from "a")) = true ->
     is_match (path_from "a/#") (path_from "a") = true) /\
  (tp_len (path_from "a/#") <= tp_len (path_from "a") \/ tp_len (path_from "a/#") <= 2 ->
     is_match (path_from "a/#") (path_from "a") =
     mqtt_match (topics (path_from "a/#")) (topics (path_from "a"))).
Proof.
  split; [reflexivity|]. split; [reflexivity|].
  apply (is_match_complete (path_from "a/#") (path_from "a")).
Defined.
