(* ===== verification/PathTree.v ===== *)
(** * The tree of topic patterns (mqtt/src/utils.rs)

    [PathTree] stores for each topic pattern with wildcards the values registered for
    it, and finds the values of all patterns that match a topic. *)

From S2P Require Import Prelude MqttTopic.

Section tree.
Context `{TopicApi} {V : Type} `{TotalOrd V}.

Inductive PathNode := mkPathNode {
  topic : Topic;
  level : nat;
  unmatch : list V;
  childs : gmap string PathNode;
}.

Definition new_node (t : Topic) (lv : nat) : PathNode := mkPathNode t lv [] ∅.

Definition set_child (k : string) (n : PathNode) (node : PathNode) : PathNode :=
  mkPathNode (topic node) (level node) (unmatch node) (<[k := n]> (childs node)).

Definition set_unmatch (l : list V) (node : PathNode) : PathNode :=
  mkPathNode (topic node) (level node) l (childs node).

Record PathTree := mkPathTree { root : PathNode; size : nat }.

Definition empty : PathTree := mkPathTree (new_node Blank 0) 0.

Definition is_empty (t : PathTree) : bool :=
  bool_decide (unmatch (root t) = []) && bool_decide (childs (root t) = ∅).

Definition len (t : PathTree) : nat := size t.

(** ** Insertion *)

(** The loop of [insert] from the node reached, over the indices that are left. *)
Fixpoint insert_loop (path : TopicPath) (value : V) (indices : list nat) (node : PathNode)
    : PathNode :=
  match indices with
  | [] => node
  | index :: indices' =>
      match tp_get path index with
      | Some t =>
          let key := topic_string t in
          match childs node !! key with
          | None =>
              let n := new_node t index in
              if is_final path index then
                set_child key (set_unmatch (sorted_insert value (unmatch n)) n) node
              else set_child key (insert_loop path value indices' n) node
          | Some n =>
              if is_final path index then
                set_child key (set_unmatch (sorted_insert value (unmatch n)) n) node
              else set_child key (insert_loop path value indices' n) node
          end
      | None => insert_loop path value indices' node
      end
  end.

Definition insert (path : TopicPath) (value : V) (t : PathTree)
    : PathTree * result (TopicPath * V) unit :=
  if negb (wildcards path) then (t, Err (path, value))
  else (mkPathTree (insert_loop path value (seq 0 (tp_len path)) (root t)) (S (size t)), Ok tt).

(** ** Removal *)

(** The loop of [remove]; the boolean says that the function returned inside it. *)
Fixpoint remove_loop (path : TopicPath) (value : V) (indices : list nat) (node : PathNode)
    : PathNode * bool :=
  match indices with
  | [] => (node, false)
  | index :: indices' =>
      match tp_get path index with
      | Some t =>
          let key := topic_string t in
          match childs node !! key with
          | None => (node, true)
          | Some n =>
              if is_final path index then
                (set_child key (set_unmatch (sorted_remove value (unmatch n)) n) node, true)
              else
                let '(n, returned) := remove_loop path value indices' n in
                (set_child key n node, returned)
          end
      | None => remove_loop path value indices' node
      end
  end.

(** [remove]; the subtraction at its end would wrap below zero. *)
Definition remove (path : TopicPath) (value : V) (t : PathTree)
    : PathTree * result (TopicPath * V) unit :=
  if negb (wildcards path) then (t, Err (path, value))
  else
    let '(r, returned) := remove_loop path value (seq 0 (tp_len path)) (root t) in
    (mkPathTree r (if returned then size t else size t - 1), Ok tt).

(** ** Lookup *)

(** [all_values] *)
Definition all_values (node : PathNode) (values : list V) : list V := values ++ unmatch node.

Definition with_child (k : string) (node : PathNode) (f : PathNode -> list V -> list V)
    (values : list V) : list V :=
  match childs node !! k with Some n => f n values | None => values end.

(** The function [lookup]: its loop over the indices from [index] on, with the node
    reached; the recursive call continues with the next index. *)
Fixpoint lookup_loop (path : TopicPath) (indices : list nat) (node : PathNode) (values : list V)
    : list V :=
  match indices with
  | [] => values
  | i :: indices' =>
      match tp_get path i with
      | Some t =>
          let key := topic_string t in
          let values := with_child "#" node all_values values in
          match childs node !! key with
          | None =>
              if is_final path i then with_child "+" node all_values values
              else with_child "+" node (lookup_loop path indices') values
          | Some n =>
              if is_final path i then
                with_child "+" node all_values values ++ unmatch n
              else
                lookup_loop path indices' n (with_child "+" node (lookup_loop path indices') values)
          end
      | None => lookup_loop path indices' node values
      end
  end.

Definition lookup (path : TopicPath) (t : PathTree) : option (list V) :=
  if wildcards path then None
  else Some (lookup_loop path (seq 0 (tp_len path)) (root t) []).
End tree.
Arguments PathNode {H} V.
Arguments PathTree {H} V.

(** ** What a tree stores *)

Section spec.
Context `{TopicLaws} {V : Type} `{TotalOrd V}.
Implicit Types (node : PathNode V) (t : PathTree V) (p : TopicPath) (ks : list string).

(** The values registered under a list of levels. *)
Fixpoint node_values ks node : list V :=
  match ks with
  | [] => unmatch node
  | k :: ks' => match childs node !! k with Some n => node_values ks' n | None => [] end
  end.

Definition values ks t : list V := node_values ks (root t).

(** The tree's own matching of the levels of a pattern with those of a topic: a
    multi-level wildcard stands for one level or more, not for none. *)
Fixpoint tree_match (ks ts : list string) : Prop :=
  match ks, ts with
  | [], [] => True
  | k :: ks', t :: ts' =>
      (k = "#"%string /\ ks' = []) \/ ((k = "+"%string \/ k = t) /\ tree_match ks' ts')
  | _, _ => False
  end.

Lemma node_values_set_child k k' n node ks :
  node_values (k' :: ks) (set_child k n node) =
    if decide (k' = k) then node_values ks n else node_values (k' :: ks) node.
Proof.
  cbn. case_decide; subst; [by rewrite lookup_insert_eq|by rewrite lookup_insert_ne].
Qed.

Lemma node_values_new ks x lv : node_values ks (new_node x lv : PathNode V) = [].
Proof. destruct ks; [done|]. cbn. by rewrite lookup_empty. Qed.

Lemma levels_drop_S p i x :
  tp_get p i = Some x -> drop i (levels p) = topic_string x :: drop (S i) (levels p).
Proof. intros E. unfold levels. by rewrite <-!fmap_drop, (topics_drop_S _ _ _ E). Qed.

Lemma levels_final p i x :
  tp_get p i = Some x -> is_final p i = bool_decide (drop (S i) (levels p) = []).
Proof.
  intros E. rewrite is_final_spec. apply bool_decide_ext.
  assert (i < tp_len p) as Hi.
  { destruct (decide (i < tp_len p)); [done|]. rewrite tp_get_none in E by lia. done. }
  rewrite <-(length_levels p) in *. split.
  - intros. apply drop_ge. lia.
  - intros Hd%(f_equal length). rewrite length_drop in Hd. cbn in Hd. lia.
Qed.

(** *** Insertion *)

Lemma insert_loop_step p v i idx node x :
  tp_get p i = Some x ->
  insert_loop p v (i :: idx) node =
    let n := default (new_node x i) (childs node !! topic_string x) in
    set_child (topic_string x)
      (if is_final p i then set_unmatch (sorted_insert v (unmatch n)) n
       else insert_loop p v idx n) node.
Proof. intros E. cbn. rewrite E. destruct (childs node !! _), (is_final p i); done. Qed.

Lemma node_values_default x lv node ks :
  node_values ks (default (new_node x lv) (childs node !! topic_string x)) =
    node_values (topic_string x :: ks) node.
Proof. cbn. destruct (childs node !! _); [done|]. apply node_values_new. Qed.

Lemma node_values_set_unmatch l node ks :
  node_values ks (set_unmatch l node) = match ks with [] => l | _ => node_values ks node end.
Proof. by destruct ks. Qed.

Lemma insert_loop_values p v n i node ks :
  i + S n = tp_len p ->
  node_values ks (insert_loop p v (seq i (S n)) node) =
    if decide (ks = drop i (levels p)) then sorted_insert v (node_values ks node)
    else node_values ks node.
Proof.
  revert i node ks; induction n as [|n IH]; intros i node ks Hn;
    destruct (tp_get_some p i ltac:(lia)) as [x Hx];
    change (seq i (S ?m)) with (i :: seq (S i) m); rewrite (insert_loop_step _ _ _ _ _ x Hx);
    rewrite (levels_drop_S _ _ _ Hx); cbv zeta; set (c := default _ _).
  - assert (drop (S i) (levels p) = []) as Hd by (apply drop_ge; rewrite length_levels; lia).
    rewrite (levels_final _ _ _ Hx), Hd. cbn [bool_decide]. rewrite bool_decide_eq_true_2 by done.
    destruct ks as [|k ks]; [by rewrite decide_False by done|].
    rewrite node_values_set_child, node_values_set_unmatch. unfold c.
    destruct (decide (k = topic_string x)) as [->|Hk]; [|by rewrite decide_False by congruence].
    destruct ks as [|k' ks].
    + rewrite decide_True by done. by rewrite <-(node_values_default x i).
    + rewrite decide_False by done. apply node_values_default.
  - assert (drop (S i) (levels p) <> []) as Hd.
    { intros Hd%(f_equal length). rewrite length_drop, length_levels in Hd. cbn in Hd. lia. }
    rewrite (levels_final _ _ _ Hx), bool_decide_eq_false_2 by done.
    destruct ks as [|k ks]; [by rewrite decide_False by done|].
    rewrite node_values_set_child.
    destruct (decide (k = topic_string x)) as [->|Hk]; [|by rewrite decide_False by congruence].
    rewrite IH by lia. unfold c. rewrite node_values_default.
    repeat case_decide; congruence || done.
Qed.

Lemma insert_values p v t ks :
  wildcards p = true ->
  values ks (insert p v t).1 =
    if decide (ks = levels p) then sorted_insert v (values ks t) else values ks t.
Proof.
  intros Hw. unfold insert. rewrite Hw. cbn [negb fst]. unfold values. cbn [root].
  pose proof (tp_len_pos p). destruct (tp_len p) as [|n] eqn:E; [lia|].
  rewrite insert_loop_values by done. by rewrite drop_0.
Qed.

(** *** Removal *)

Lemma remove_loop_step p v i idx node x :
  tp_get p i = Some x ->
  remove_loop p v (i :: idx) node =
    match childs node !! topic_string x with
    | None => (node, true)
    | Some n =>
        if is_final p i then
          (set_child (topic_string x) (set_unmatch (sorted_remove v (unmatch n)) n) node, true)
        else (set_child (topic_string x) (remove_loop p v idx n).1 node, (remove_loop p v idx n).2)
    end.
Proof.
  intros E. cbn. rewrite E. destruct (childs node !! _), (is_final p i); try done.
  by destruct (remove_loop p v idx _).
Qed.

Lemma sorted_remove_nil (v : V) : sorted_remove v [] = [].
Proof. done. Qed.

Lemma remove_loop_values p v n i node ks :
  i + S n = tp_len p ->
  (remove_loop p v (seq i (S n)) node).2 = true /\
  node_values ks (remove_loop p v (seq i (S n)) node).1 =
    if decide (ks = drop i (levels p)) then sorted_remove v (node_values ks node)
    else node_values ks node.
Proof.
  revert i node ks; induction n as [|n IH]; intros i node ks Hn;
    destruct (tp_get_some p i ltac:(lia)) as [x Hx];
    change (seq i (S ?m)) with (i :: seq (S i) m); rewrite (remove_loop_step _ _ _ _ _ x Hx);
    rewrite (levels_drop_S _ _ _ Hx), (levels_final _ _ _ Hx);
    (destruct (childs node !! topic_string x) as [c|] eqn:Ec;
     [|split; [done|]; case_decide; subst; cbn; by rewrite ?Ec]).
  - assert (drop (S i) (levels p) = []) as Hd by (apply drop_ge; rewrite length_levels; lia).
    rewrite Hd, bool_decide_eq_true_2 by done. split; [done|]. cbn [fst].
    destruct ks as [|k ks]; [by rewrite decide_False by done|].
    rewrite node_values_set_child, node_values_set_unmatch.
    destruct (decide (k = topic_string x)) as [->|Hk]; [|by rewrite decide_False by congruence].
    destruct ks; [rewrite decide_True by done|rewrite decide_False by done]; cbn; by rewrite Ec.
  - assert (drop (S i) (levels p) <> []) as Hd.
    { intros Hd%(f_equal length). rewrite length_drop, length_levels in Hd. cbn in Hd. lia. }
    rewrite bool_decide_eq_false_2 by done. cbn [fst snd].
    split; [by apply (IH (S i) c []); lia|].
    destruct ks as [|k ks]; [by rewrite decide_False by done|]. rewrite node_values_set_child.
    destruct (decide (k = topic_string x)) as [->|Hk]; [|by rewrite decide_False by congruence].
    destruct (IH (S i) c ks ltac:(lia)) as [_ ->]. cbn [node_values]. rewrite Ec.
    repeat case_decide; congruence || done.
Qed.

Lemma remove_values p v t ks :
  wildcards p = true ->
  size (remove p v t).1 = size t /\
  values ks (remove p v t).1 =
    if decide (ks = levels p) then sorted_remove v (values ks t) else values ks t.
Proof.
  intros Hw. unfold remove. rewrite Hw. cbn [negb].
  pose proof (tp_len_pos p). destruct (tp_len p) as [|n] eqn:E; [lia|].
  destruct (remove_loop_values p v n 0 (root t) ks) as [Hb Hv]; [done|]. rewrite drop_0 in Hv.
  destruct (remove_loop p v (seq 0 (S n)) (root t)) as [r b]. cbn in Hb. subst b. done.
Qed.

(** *** Lookup *)

Lemma elem_of_with_child k node f vals (P : PathNode V -> Prop) (v : V) :
  (forall n l, v ∈ f n l <-> v ∈ l \/ P n) ->
  v ∈ with_child k node f vals <-> v ∈ vals \/ exists n, childs node !! k = Some n /\ P n.
Proof.
  intros Hf. unfold with_child. destruct (childs node !! k) as [n|].
  - rewrite Hf. naive_solver.
  - naive_solver.
Qed.

Lemma tree_match_nil ks : tree_match ks [] <-> ks = [].
Proof. by destruct ks. Qed.

(** The values of the patterns that match, by the child they go through. *)
Lemma matching_values v node x ts :
  (exists ks, v ∈ node_values ks node /\ tree_match ks (x :: ts)) <->
  (exists n, childs node !! "#"%string = Some n /\ v ∈ unmatch n) \/
  (exists n, childs node !! "+"%string = Some n /\
     exists ks, v ∈ node_values ks n /\ tree_match ks ts) \/
  (exists n, childs node !! x = Some n /\ exists ks, v ∈ node_values ks n /\ tree_match ks ts).
Proof.
  split.
  - intros ([|k ks] & Hv & Hm); [done|]. cbn in Hv. destruct (childs node !! k) as [n|] eqn:E;
      [|by apply elem_of_nil in Hv].
    destruct Hm as [[-> ->]|[[-> | ->] Hm]]; cbn in Hv; eauto 10.
  - intros [(n & E & Hv)|[(n & E & ks & Hv & Hm)|(n & E & ks & Hv & Hm)]].
    + exists ["#"%string]. cbn. rewrite E. auto.
    + exists ("+"%string :: ks). cbn. rewrite E. auto 10.
    + exists (x :: ks). cbn. rewrite E. auto 10.
Qed.

Lemma elem_of_all_values v (n : PathNode V) l : v ∈ all_values n l <-> v ∈ l \/ v ∈ unmatch n.
Proof. unfold all_values. apply elem_of_app. Qed.

Lemma matching_end v (n : PathNode V) :
  (exists ks, v ∈ node_values ks n /\ tree_match ks []) <-> v ∈ unmatch n.
Proof.
  split; [|intros; by exists []]. intros (ks & Hv & ->%tree_match_nil). done.
Qed.

Lemma lookup_loop_spec p v n i node vals :
  i + S n = tp_len p ->
  v ∈ lookup_loop p (seq i (S n)) node vals <->
    v ∈ vals \/ exists ks, v ∈ node_values ks node /\ tree_match ks (drop i (levels p)).
Proof.
  revert i node vals; induction n as [|n IH]; intros i node vals Hn;
    destruct (tp_get_some p i ltac:(lia)) as [x Hx];
    change (seq i (S ?m)) with (i :: seq (S i) m); cbn [lookup_loop]; rewrite Hx; cbv zeta;
    rewrite (levels_drop_S _ _ _ Hx), matching_values, (levels_final _ _ _ Hx).
  - assert (drop (S i) (levels p) = []) as -> by (apply drop_ge; rewrite length_levels; lia).
    rewrite bool_decide_eq_true_2 by done. setoid_rewrite matching_end.
    destruct (childs node !! topic_string x) as [c|] eqn:Ec; rewrite ?elem_of_app;
      rewrite !(elem_of_with_child _ _ _ _ (fun n => v ∈ unmatch n)) by apply elem_of_all_values;
      naive_solver.
  - assert (drop (S i) (levels p) <> []) as Hd.
    { intros Hd%(f_equal length). rewrite length_drop, length_levels in Hd. cbn in Hd. lia. }
    rewrite bool_decide_eq_false_2 by done.
    assert (forall c l, v ∈ lookup_loop p (seq (S i) (S n)) c l <-> v ∈ l \/
      exists ks, v ∈ node_values ks c /\ tree_match ks (drop (S i) (levels p))) as IH'
      by (intros; apply IH; lia).
    destruct (childs node !! topic_string x) as [c|] eqn:Ec; rewrite ?IH';
      rewrite (elem_of_with_child _ _ _ _ _ v IH');
      rewrite !(elem_of_with_child _ _ _ _ (fun n => v ∈ unmatch n)) by apply elem_of_all_values;
      naive_solver.
Qed.

Lemma lookup_spec p t :
  lookup p t = None /\ wildcards p = true \/
  wildcards p = false /\ exists l, lookup p t = Some l /\
    forall v, v ∈ l <-> exists ks, v ∈ values ks t /\ tree_match ks (levels p).
Proof.
  unfold lookup. destruct (wildcards p); [by left|right]. split; [done|].
  eexists; split; [done|]. intros v. pose proof (tp_len_pos p).
  destruct (tp_len p) as [|n] eqn:E; [lia|]. rewrite lookup_loop_spec by done.
  rewrite drop_0. set_solver.
Qed.

(** ** Refinement *)

Inductive tree_op :=
| OpInsert (p : TopicPath) (v : V)
| OpRemove (p : TopicPath) (v : V).

Definition run_op (t : PathTree V) (op : tree_op) : PathTree V :=
  match op with OpInsert p v => (insert p v t).1 | OpRemove p v => (remove p v t).1 end.

(** The abstract tree: a sorted vector for each pattern. *)
Definition spec_op (m : list string -> list V) (op : tree_op) (ks : list string) : list V :=
  match op with
  | OpInsert p v =>
      if decide (wildcards p = true /\ ks = levels p) then sorted_insert v (m ks) else m ks
  | OpRemove p v =>
      if decide (wildcards p = true /\ ks = levels p) then sorted_remove v (m ks) else m ks
  end.

Lemma run_op_refines t m op :
  (forall ks, values ks t = m ks) -> forall ks, values ks (run_op t op) = spec_op m op ks.
Proof.
  intros Hm ks. destruct op as [p v|p v]; cbn; destruct (wildcards p) eqn:Hw.
  - rewrite insert_values, Hm by done. repeat case_decide; naive_solver.
  - unfold insert. rewrite Hw, decide_False by naive_solver. apply Hm.
  - destruct (remove_values p v t ks Hw) as [_ ->]. rewrite Hm. repeat case_decide; naive_solver.
  - unfold remove. rewrite Hw, decide_False by naive_solver. apply Hm.
Qed.

Lemma run_ops_refine ops t m :
  (forall ks, values ks t = m ks) ->
  forall ks, values ks (foldl run_op t ops) = foldl spec_op m ops ks.
Proof.
  revert t m; induction ops as [|op ops IH]; intros t m Hm; cbn; [done|].
  apply IH. by apply run_op_refines.
Qed.

Lemma values_empty ks : values ks empty = [].
Proof. apply node_values_new. Qed.

Lemma spec_ops_sorted ops m ks :
  (forall ks, strictly_sorted (m ks)) -> strictly_sorted (foldl spec_op m ops ks).
Proof.
  revert m; induction ops as [|op ops IH]; intros m Hm; cbn; [done|]. apply IH.
  intros ks'. destruct op; cbn; case_decide; auto with pinet.
Qed.

(** C3: The tree implements a map from patterns to sorted vectors of values: after any
    sequence of insertions and removals, the lookup of a topic finds exactly the
    values registered under the patterns that match its levels, and each pattern
    holds its values sorted and without duplicates. *)
Theorem path_tree_refines ops p :
  let t := foldl run_op empty ops in
  let m := foldl spec_op (fun _ => []) ops in
  (wildcards p = true -> lookup p t = None) /\
  (wildcards p = false -> exists l, lookup p t = Some l /\
     forall v, v ∈ l <-> exists ks, v ∈ m ks /\ tree_match ks (levels p)) /\
  (forall ks, strictly_sorted (values ks t) /\ values ks t = m ks).
Proof.
  intros t m. assert (forall ks, values ks t = m ks) as Hm
    by (apply run_ops_refine; intros; apply values_empty).
  destruct (lookup_spec p t) as [[El Hw]|[Hw (l & El & Hl)]]; rewrite Hw.
  all: split; [done|]; split; [try done|].
  2: { intros _. exists l. split; [done|]. intros v. rewrite Hl. by setoid_rewrite Hm. }
  all: intros ks; split; [|done]; rewrite Hm; apply spec_ops_sorted; intros; constructor.
Qed.

(** The number of values a tree reports only grows: a removal never lowers it,
    because the loop returns before the subtraction, and inserting a value that is
    there already raises it. *)
Theorem path_tree_len_grows p v t :
  wildcards p = true ->
  len (insert p v t).1 = S (len t) /\ len (remove p v t).1 = len t /\
  len (remove p v (insert p v t).1).1 = S (len t).
Proof.
  intros Hw. unfold len.
  assert (size (insert p v t).1 = S (size t)) as Hi by (unfold insert; by rewrite Hw).
  destruct (remove_values p v t [] Hw) as [-> _].
  destruct (remove_values p v (insert p v t).1 [] Hw) as [-> _]. by rewrite Hi.
Qed.
End spec.
Arguments tree_op {H} V.

(** ** Witnesses *)

Lemma path_tree_refines_witness :
  exists l, lookup (path_from "a/b") (foldl run_op empty
      [OpInsert (path_from "a/+") "x"%string; OpInsert (path_from "a/#") "x"%string;
       OpInsert (path_from "+/b") "y"%string; OpRemove (path_from "+/b") "y"%string]) = Some l /\
    l = ["x"%string; "x"%string] /\
    forall v, v ∈ l <-> exists ks,
      v ∈ foldl spec_op (fun _ => []) [OpInsert (path_from "a/+") "x"%string;
         OpInsert (path_from "a/#") "x"%string; OpInsert (path_from "+/b") "y"%string;
         OpRemove (path_from "+/b") "y"%string] ks /\ tree_match ks (levels (path_from "a/b")).
Proof.
  eexists. split; [vm_compute; reflexivity|]. split; [reflexivity|].
  destruct (path_tree_refines [OpInsert (path_from "a/+") "x"%string;
    OpInsert (path_from "a/#") "x"%string; OpInsert (path_from "+/b") "y"%string;
    OpRemove (path_from "+/b") "y"%string] (path_from "a/b")) as (_ & Hl & _).
  destruct (Hl eq_refl) as (l & E & Hv). vm_compute in E. injection E as <-. exact Hv.
Defined.

Lemma path_tree_len_grows_witness :
  len (insert (path_from "a/+") "x"%string empty).1 = 1 /\
  len (remove (path_from "a/+") "x"%string empty).1 = 0 /\
  len (remove (path_from "a/+") "x"%string (insert (path_from "a/+") "x"%string empty).1).1 = 1.
Proof. apply (path_tree_len_grows (path_from "a/+") "x"%string empty). reflexivity. Defined.

(** A subscription to [a/#] is not found by the tree for the topic [a], while the
    broker's [is_match] accepts it. *)
Lemma tree_misses_parent :
  lookup (path_from "a") (insert (path_from "a/#") "x"%string empty).1 = Some [] /\
  is_match (path_from "a/#") (path_from "a") = true.
Proof. split; reflexivity. Qed.
