(* ===== verification/MqttSession.v ===== *)
(** * MQTT sessions (mqtt/src/session.rs, mqtt/src/utils.rs)

    [QosZeroSession] is the broker's view of a client, [BrokerSession] what the
    connection keeps of it. A session is shared through an [Arc]: [ArcSession] is such
    a pointer, with the two fields behind it that never change once it is shared, the
    client id and the unique id of the connection. *)

From S2P Require Import Prelude.

(** The packet [mqtt311::Publish], with the fields the code fills in. *)
Record Publish := mkPublish {
  dup : bool;
  pub_qos : Z;
  pub_retain : bool;
  topic_name : string;
  pkid : option Z;
  payload : list Z;
}.

Record LastWill := mkLastWill {
  will_topic : string;
  will_message : string;
  will_qos : Z;
  will_retain : bool;
}.

(** [mqtt311::QoS::from_u8(q).unwrap()]: the three levels, [None] is the panic. *)
Definition qos_from_u8 (q : Z) : option Z :=
  if (0 <=? q)%Z && (q <=? 2)%Z then Some q else None.

(** ** The connection's side *)

Record BrokerSession := mkBrokerSession {
  bs_client_id : string;
  bs_keep_alive : Z;
  bs_is_clean : bool;
  bs_user : option string;
  bs_pwd : option string;
}.

(** ** The broker's side *)

(** [Conn] is the WebSocket connection a session is bound to. *)
Record QosZeroSession (Conn : Type) := mkQosZeroSession {
  connect : option Conn;
  is_passive : bool;
  client_id : string;
  accepted : bool;          (* [is_accepted] *)
  clean : bool;             (* [is_clean] *)
  will : option LastWill;
  user : option string;
  pwd : option string;
  keep_alive : Z;
}.
Arguments mkQosZeroSession {Conn}.
Arguments connect {Conn} q.
Arguments is_passive {Conn} q.
Arguments client_id {Conn} q.
Arguments accepted {Conn} q.
Arguments clean {Conn} q.
Arguments will {Conn} q.
Arguments user {Conn} q.
Arguments pwd {Conn} q.
Arguments keep_alive {Conn} q.

Section session.
Context {Conn : Type}.
Implicit Types s : QosZeroSession Conn.

Definition with_client_id (id : string) : QosZeroSession Conn :=
  mkQosZeroSession None false id false false None None None 0.

Definition bind_connect (c : Conn) s : QosZeroSession Conn :=
  mkQosZeroSession (Some c) (is_passive s) (client_id s) (accepted s) (clean s) (will s) (user s)
    (pwd s) (keep_alive s).
Definition unbind_connect s : QosZeroSession Conn * option Conn :=
  (mkQosZeroSession None (is_passive s) (client_id s) (accepted s) (clean s) (will s) (user s)
    (pwd s) (keep_alive s), connect s).
Definition set_accept (b : bool) s : QosZeroSession Conn :=
  mkQosZeroSession (connect s) (is_passive s) (client_id s) b (clean s) (will s) (user s)
    (pwd s) (keep_alive s).
Definition set_clean (b : bool) s : QosZeroSession Conn :=
  mkQosZeroSession (connect s) (is_passive s) (client_id s) (accepted s) b (will s) (user s)
    (pwd s) (keep_alive s).
Definition passive_receive (b : bool) s : QosZeroSession Conn :=
  mkQosZeroSession (connect s) b (client_id s) (accepted s) (clean s) (will s) (user s)
    (pwd s) (keep_alive s).

Definition put_will (w : option LastWill) s : QosZeroSession Conn :=
  mkQosZeroSession (connect s) (is_passive s) (client_id s) (accepted s) (clean s) w (user s)
    (pwd s) (keep_alive s).

(** [set_will]; [None] is the panic for a quality of service that does not exist. *)
Definition set_will (topic message : string) (qos : Z) (retain : bool) s
    : option (QosZeroSession Conn) :=
  match qos_from_u8 qos with
  | Some q => Some (put_will (Some (mkLastWill topic message q retain)) s)
  | None => None
  end.

Definition get_will s : option (string * string * Z * bool) :=
  match will s with
  | Some w => Some (will_topic w, will_message w, will_qos w, will_retain w)
  | None => None
  end.

Definition unset_will s : QosZeroSession Conn * option (string * string * Z * bool) :=
  (put_will None s, get_will s).

Definition set_user_pwd (u p : option string) s : QosZeroSession Conn :=
  mkQosZeroSession (connect s) (is_passive s) (client_id s) (accepted s) (clean s) (will s) u p
    (keep_alive s).
Definition set_keep_alive (k : Z) s : QosZeroSession Conn :=
  mkQosZeroSession (connect s) (is_passive s) (client_id s) (accepted s) (clean s) (will s)
    (user s) (pwd s) k.
End session.

(** ** Shared sessions *)

(** [Arc<QosZeroSession>]: the address of the allocation, and the fields behind it
    that [Ord] and [Hash] look at. *)
Record ArcSession := mkArcSession {
  addr : nat;
  arc_client : string;
  arc_uid : option Z;
}.

#[export] Instance ArcSession_eq_dec : EqDecision ArcSession.
Proof. solve_decision. Defined.

(** [Arc::ptr_eq] *)
Definition ptr_eq (a b : ArcSession) : bool := bool_decide (addr a = addr b).

(** [Ord] compares the client ids only. *)
#[export] Instance session_order : TotalOrd ArcSession := {|
  ocmp a b := ocmp (arc_client a) (arc_client b);
  ocmp_sym a b := ocmp_sym (arc_client a) (arc_client b);
  ocmp_le_trans a b c := ocmp_le_trans (arc_client a) (arc_client b) (arc_client c) |}.

Lemma session_ocmp_Eq (a b : ArcSession) : ocmp a b = Eq <-> arc_client a = arc_client b.
Proof. apply string_ocmp_Eq. Qed.

(** The place of a session in a hash table: [Hash] is computed from the connection's
    unique id, [Eq] compares the client ids. Two sessions with the same client id and
    different connections have different hashes, and the table takes them for
    different keys. *)
Definition hash_key (a : ArcSession) : option Z * string := (arc_uid a, arc_client a).
