(* ===== verification/MqttBroker.v ===== *)
(** * The MQTT broker (mqtt/src/broker.rs)

    The tables of the broker (sessions, subscriptions by topic, patterns, public topics,
    topics by session) and the operations on them. The locks are not modelled: each
    operation runs alone. *)

From S2P Require Import Prelude MqttTopic PathTree MqttSession.

Inductive Retain :=
| Single (p : Publish)
| Mutil (ps : list Publish).

Record SubCache := mkSubCache {
  retain : option Publish;
  first : option ArcSession;
  subs : list ArcSession;          (* [sessions] *)
}.

Definition with_session (f : option ArcSession) (r : option Publish) : SubCache :=
  mkSubCache r f [].

Section broker.
Context `{TopicApi}.

Record MqttBroker := mkMqttBroker {
  sessions : gmap string ArcSession;
  sub_tab : gmap string SubCache;
  patterns : PathTree ArcSession;
  publics : list (string * Z);
  topics_of : gmap (option Z * string) (list string);   (* [topics] *)
}.

Definition new_broker : MqttBroker := mkMqttBroker ∅ ∅ PathTree.empty [] ∅.

Definition set_sessions x (b : MqttBroker) : MqttBroker :=
  mkMqttBroker x (sub_tab b) (patterns b) (publics b) (topics_of b).
Definition set_sub_tab x (b : MqttBroker) : MqttBroker :=
  mkMqttBroker (sessions b) x (patterns b) (publics b) (topics_of b).
Definition set_patterns x (b : MqttBroker) : MqttBroker :=
  mkMqttBroker (sessions b) (sub_tab b) x (publics b) (topics_of b).
Definition set_publics x (b : MqttBroker) : MqttBroker :=
  mkMqttBroker (sessions b) (sub_tab b) (patterns b) x (topics_of b).
Definition set_topics_of x (b : MqttBroker) : MqttBroker :=
  mkMqttBroker (sessions b) (sub_tab b) (patterns b) (publics b) x.

(** ** Sessions *)

Definition session_size (b : MqttBroker) : nat := base.size (sessions b).
Definition sub_size (b : MqttBroker) : nat := base.size (sub_tab b).
Definition pattern_size (b : MqttBroker) : nat := PathTree.len (patterns b).

Definition is_exist_session (id : string) (b : MqttBroker) : bool :=
  bool_decide (is_Some (sessions b !! id)).
Definition get_session (id : string) (b : MqttBroker) : option ArcSession := sessions b !! id.
Definition insert_session (id : string) (s : ArcSession) (b : MqttBroker) : MqttBroker :=
  set_sessions (<[id := s]> (sessions b)) b.
Definition remove_session (id : string) (b : MqttBroker) : MqttBroker * option ArcSession :=
  (set_sessions (delete id (sessions b)) b, sessions b !! id).

(** [save_topic] *)
Definition save_topic (s : ArcSession) (topic : string) (b : MqttBroker) : MqttBroker :=
  match topics_of b !! hash_key s with
  | Some ts => set_topics_of (<[hash_key s := ts ++ [topic]]> (topics_of b)) b
  | None => set_topics_of (<[hash_key s := [topic]]> (topics_of b)) b
  end.

(** ** Publishing *)

(** The registration of a public topic; the boolean is [is_new_public]. *)
Definition add_public (topic : string) (qos : Z) (b : MqttBroker) : MqttBroker * bool :=
  match binary_search_by (fun '(s, _) => ocmp s topic) (publics b) with
  | inr index => (set_publics (vec_insert index (topic, qos) (publics b)) b, true)
  | inl _ => (b, false)
  end.

(** The sessions of a cache as the last lines of [subscribed] return them. *)
Definition cache_sessions (c : SubCache) : list ArcSession :=
  match first c with Some s => [s] | None => subs c end.

(** [subscribed] *)
Definition subscribed (is_public : bool) (topic : string) (qos : Z) (r : option Publish)
    (b : MqttBroker) : MqttBroker * option (list ArcSession) :=
  let '(b, is_new_public) := if is_public then add_public topic qos b else (b, false) in
  match sub_tab b !! topic with
  | Some cache =>
      let cache := match r with
                   | Some p => mkSubCache (Some p) (first cache) (subs cache)
                   | None => cache
                   end in
      let b := set_sub_tab (<[topic := cache]> (sub_tab b)) b in
      let merged :=
        if is_new_public then
          match PathTree.lookup (path_from topic) (patterns b) with
          | Some ss =>
              match first cache with
              | None =>
                  let ss := subs cache ++ ss in
                  Some (mkSubCache (retain cache) (first cache) ss, ss)
              | Some s =>
                  let ss := ss ++ [s] in
                  Some (mkSubCache (retain cache) None ss, ss)
              end
          | None => None
          end
        else None in
      match merged with
      | Some (cache, ss) => (set_sub_tab (<[topic := cache]> (sub_tab b)) b, Some ss)
      | None => (b, Some (cache_sessions cache))
      end
  | None =>
      match PathTree.lookup (path_from topic) (patterns b) with
      | Some ss =>
          let cache := match ss with
                       | [] => with_session None r
                       | [s] => with_session (Some s) r
                       | _ => mkSubCache r None ss
                       end in
          (set_sub_tab (<[topic := cache]> (sub_tab b)) b, Some ss)
      | None => (b, None)
      end
  end.

(** ** Subscribing *)

(** The branch of [subscribe] for a topic without wildcards. *)
Definition subscribe_topic (s : ArcSession) (topic : string) (b : MqttBroker)
    : MqttBroker * option Retain :=
  match sub_tab b !! topic with
  | None =>
      (save_topic s topic
         (set_sub_tab (<[topic := with_session (Some s) None]> (sub_tab b)) b), None)
  | Some w =>
      let l := match first w with Some f => subs w ++ [f] | None => subs w end in
      let '(b, l) :=
        match binary_search_by (fun v => ocmp v s) l with
        | inr index => (save_topic s topic b, vec_insert index s l)
        | inl _ => (b, l)
        end in
      (set_sub_tab (<[topic := mkSubCache (retain w) None l]> (sub_tab b)) b,
       match retain w with Some p => Some (Single p) | None => None end)
  end.

(** [subscribe]. A pattern subscribes the session to the public topics that match it,
    by a recursive call for each; [None] when the recursion does not end in the
    given depth. *)
Fixpoint subscribe (depth : nat) (s : ArcSession) (topic : string) (b : MqttBroker)
    : option (MqttBroker * option Retain) :=
  match depth with
  | O => None
  | Datatypes.S depth' =>
      let path := path_from topic in
      if wildcards path then
        let keys := filter (fun key => is_match path (path_from key) = true) (publics b).*1 in
        let b := foldl (fun b key => save_topic s key b) b keys in
        let b := save_topic s topic b in
        let step (acc : option (MqttBroker * list Publish)) (key : string) :=
          match acc with
          | Some (b, vec) =>
              match subscribe depth' s key b with
              | Some (b, Some (Single p)) => Some (b, vec ++ [p])
              | Some (b, _) => Some (b, vec)
              | None => None
              end
          | None => None
          end in
        match foldl step (Some (b, [])) keys with
        | Some (b, vec) =>
            let b := set_patterns (PathTree.insert path s (patterns b)).1 b in
            Some (b, match vec with [] => None | _ => Some (Mutil vec) end)
        | None => None
        end
      else Some (subscribe_topic s topic b)
  end.

(** Public topics have no wildcards, so that the recursive calls do not recurse. *)
Definition SUBSCRIBE_DEPTH : nat := 2.

(** ** Unsubscribing *)

(** What [unsubscribe] does to one cache; the boolean tells to remove the topic. *)
Definition unsubscribe_cache (s : ArcSession) (w : SubCache) : SubCache * bool :=
  match first w with
  | Some f =>
      if ptr_eq s f then (mkSubCache (retain w) None (subs w), true) else (w, false)
  | None =>
      let l := sorted_remove s (subs w) in
      (mkSubCache (retain w) None l, bool_decide (l = []))
  end.

(** [unsubscribe]. A pattern is matched against every topic of the table. *)
Definition unsubscribe (s : ArcSession) (topic : string) (b : MqttBroker) : MqttBroker :=
  let path := path_from topic in
  if wildcards path then
    let tab := map_imap (fun key cache =>
      if is_match path (path_from key) then
        let '(cache, is_remove) := unsubscribe_cache s cache in
        if is_remove then None else Some cache
      else Some cache) (sub_tab b) in
    set_patterns (PathTree.remove path s (patterns b)).1 (set_sub_tab tab b)
  else
    match sub_tab b !! topic with
    | Some cache =>
        let '(cache, is_remove) := unsubscribe_cache s cache in
        if is_remove then set_sub_tab (delete topic (sub_tab b)) b
        else set_sub_tab (<[topic := cache]> (sub_tab b)) b
    | None => b
    end.

(** [unsubscribe_all] *)
Definition unsubscribe_all (s : ArcSession) (b : MqttBroker) : MqttBroker :=
  let opt := topics_of b !! hash_key s in
  let b := set_topics_of (delete (hash_key s) (topics_of b)) b in
  match opt with
  | None => b
  | Some ts => foldl (fun b topic => unsubscribe s topic b) b ts
  end.
End broker.

(** ** Reaching a subscriber *)

(** Some session with the client id of [s] is among the receivers. *)
Definition receives (s : ArcSession) (l : list ArcSession) : Prop :=
  exists s', s' ∈ l /\ arc_client s' = arc_client s.

(** A cache with a single subscriber has no other one. *)
Definition cache_ok (c : SubCache) : Prop := is_Some (first c) -> subs c = [].

Section delivery.
Context `{TopicLaws}.
Implicit Types (b : MqttBroker) (s : ArcSession) (topic p : string).

Lemma receives_mono s l l' : (forall x, x ∈ l -> x ∈ l') -> receives s l -> receives s l'.
Proof. intros Hl (s' & ? & ?). exists s'. auto. Qed.

Lemma receives_app s l l' : receives s l \/ receives s l' -> receives s (l ++ l').
Proof. intros [Hr|Hr]; (eapply receives_mono; [|exact Hr]); intros; apply elem_of_app; auto. Qed.

Lemma search_insert_receives s l s2 :
  receives s2 l \/ s2 = s ->
  receives s2 (match binary_search_by (fun v => ocmp v s) l with
               | inr i => vec_insert i s l | inl _ => l end).
Proof.
  destruct (binary_search_by _ l) as [i|i] eqn:E; intros [Hr| ->]; try done.
  - destruct (binary_search_found s l i E) as (x & Hx & Ex). exists x.
    split; [by eapply list_elem_of_lookup_2|]. by apply session_ocmp_Eq.
  - eapply receives_mono; [|exact Hr]. intros. apply elem_of_vec_insert. auto.
  - exists s. split; [|done]. apply elem_of_vec_insert. auto.
Qed.

(** The receivers of a topic, none when it has no cache. *)
Definition receivers topic b : list ArcSession :=
  match sub_tab b !! topic with Some c => cache_sessions c | None => [] end.

Lemma save_topic_fields s topic b :
  sub_tab (save_topic s topic b) = sub_tab b /\ patterns (save_topic s topic b) = patterns b /\
  publics (save_topic s topic b) = publics b /\ sessions (save_topic s topic b) = sessions b.
Proof. unfold save_topic. by destruct (topics_of b !! _). Qed.

Lemma save_topics_fields s keys b :
  let b' := foldl (fun b key => save_topic s key b) b keys in
  sub_tab b' = sub_tab b /\ patterns b' = patterns b /\ publics b' = publics b.
Proof.
  revert b; induction keys as [|k keys IH]; intros b; cbn; [done|].
  destruct (IH (save_topic s k b)) as (-> & -> & ->).
  by destruct (save_topic_fields s k b) as (-> & -> & -> & _).
Qed.

(** What [subscribe_topic] does to the caches. *)
Lemma subscribe_topic_spec s topic b :
  (forall t c, sub_tab b !! t = Some c -> cache_ok c) ->
  let b' := (subscribe_topic s topic b).1 in
  patterns b' = patterns b /\ publics b' = publics b /\
  (forall t c, sub_tab b' !! t = Some c -> cache_ok c) /\
  (forall t, is_Some (sub_tab b !! t) -> is_Some (sub_tab b' !! t)) /\
  is_Some (sub_tab b' !! topic) /\
  receives s (receivers topic b') /\
  (forall s2 t, receives s2 (receivers t b) -> receives s2 (receivers t b')).
Proof.
  intros Hok b'. assert (exists c', sub_tab b' = <[topic := c']> (sub_tab b) /\ cache_ok c' /\
    patterns b' = patterns b /\ publics b' = publics b /\ receives s (cache_sessions c') /\
    forall s2, receives s2 (receivers topic b) -> receives s2 (cache_sessions c'))
    as (c' & Et & Hc' & Ep & Eq & Hs & Hmono).
  { unfold b', subscribe_topic, receivers. destruct (sub_tab b !! topic) as [w|] eqn:Ew.
    - set (l := match first w with Some f => subs w ++ [f] | None => subs w end).
      pose proof (search_insert_receives s l) as Hl.
      assert (forall s2, receives s2 (cache_sessions w) -> receives s2 l) as Hw.
      { intros s2. unfold cache_sessions, l. destruct (first w); [|done]. intros. apply receives_app. auto. }
      destruct (binary_search_by _ l) as [i|i]; cbn;
        try destruct (save_topic_fields s topic b) as (-> & -> & -> & _);
        (eexists; split; [done|]; split_and!; [by intros []|done|done|apply Hl; auto|]);
        cbn; intros s2 Hr; apply Hl; auto.
    - cbn [fst].
      match goal with |- context [save_topic s topic ?b0] =>
        destruct (save_topic_fields s topic b0) as (-> & -> & -> & _) end.
      exists (with_session (Some s) None). cbn. split_and!; try done.
      + exists s. set_solver.
      + intros s2 (s' & Hs' & _). by apply elem_of_nil in Hs'. }
  split_and!; [done..| | | | |]; rewrite ?Et.
  - intros t c. rewrite lookup_insert_Some. naive_solver.
  - intros t Ht. destruct (decide (t = topic)) as [->|]; [rewrite lookup_insert_eq; by eexists|].
    by rewrite lookup_insert_ne.
  - rewrite lookup_insert_eq. by eexists.
  - unfold receivers. by rewrite Et, lookup_insert_eq.
  - intros s2 t. unfold receivers at 2. rewrite Et.
    destruct (decide (t = topic)) as [->|]; [rewrite lookup_insert_eq; apply Hmono|].
    rewrite lookup_insert_ne by done. done.
Qed.

Definition public_keys b : list string := (publics b).*1.

Lemma add_public_spec topic q b :
  let '(b', new) := add_public topic q b in
  sub_tab b' = sub_tab b /\ patterns b' = patterns b /\ sessions b' = sessions b /\
  (forall k, k ∈ public_keys b' <-> k = topic \/ k ∈ public_keys b) /\
  (new = false -> topic ∈ public_keys b).
Proof.
  unfold add_public, public_keys. destruct (binary_search_by _ _) as [i|i] eqn:E; cbn.
  - apply bsearch_loop_found in E as ([k q'] & Hk & Ek). apply string_ocmp_Eq in Ek as ->.
    assert (topic ∈ (publics b).*1) by (apply list_elem_of_fmap; exists (topic, q');
      split; [done|]; by eapply list_elem_of_lookup_2).
    split_and!; try done. naive_solver.
  - split_and!; try done. intros k. rewrite !list_elem_of_fmap.
    setoid_rewrite elem_of_vec_insert. split.
    + intros (x & -> & [->|Hx]); [by left|]. right. by exists x.
    + intros [->|(x & -> & Hx)]; [by exists (topic, q); auto|]. exists x. auto.
Qed.

(** The cache a publication to a topic leaves, and what it returns. *)
Lemma subscribed_cache topic q r b ss :
  (forall t c, sub_tab b !! t = Some c -> cache_ok c) ->
  PathTree.lookup (path_from topic) (patterns b) = Some ss ->
  exists b' c, subscribed true topic q r b = (b', Some (cache_sessions c)) /\
    sub_tab b' = <[topic := c]> (sub_tab b) /\ patterns b' = patterns b /\ cache_ok c /\
    (forall k, k ∈ public_keys b' <-> k = topic \/ k ∈ public_keys b) /\
    (forall x, x ∈ receivers topic b -> x ∈ cache_sessions c) /\
    (topic ∉ public_keys b \/ sub_tab b !! topic = None -> forall x, x ∈ ss -> x ∈ cache_sessions c).
Proof.
  intros Hok El. unfold subscribed, receivers. pose proof (add_public_spec topic q b) as Hp.
  destruct (add_public topic q b) as [b1 new]. destruct Hp as (E1 & E2 & _ & Hk & Hnew).
  rewrite E1, E2. cbv zeta. rewrite El.
  destruct (sub_tab b !! topic) as [c|] eqn:Ec.
  - set (c1 := match r with Some p => _ | None => _ end).
    assert (first c1 = first c /\ subs c1 = subs c) as [Ef Es] by (unfold c1; by destruct r).
    assert (cache_ok c1) as Hc1 by (unfold cache_ok; rewrite Ef, Es; by apply (Hok topic)).
    change (patterns (set_sub_tab ?x ?y)) with (patterns y). rewrite E2, El.
    assert (cache_sessions c = cache_sessions c1) as -> by (unfold cache_sessions; by rewrite Ef, Es).
    clearbody c1. destruct new; [destruct (first c1) as [f|] eqn:Ef1|].
    + eexists _, (mkSubCache (retain c1) None (ss ++ [f])). split; [done|]. cbn.
      rewrite ?E1, insert_insert_eq. split_and!; try done; [by intros []| |intros _; set_solver].
      unfold cache_sessions. rewrite Ef1. set_solver.
    + eexists _, (mkSubCache (retain c1) (first c1) (subs c1 ++ ss)).
      unfold cache_sessions, cache_ok. cbn. rewrite Ef1. split; [done|]. cbn.
      rewrite ?E1, insert_insert_eq. split_and!; try done; [set_solver|intros _; set_solver].
    + eexists _, c1. split; [done|]. cbn. rewrite ?E1. split_and!; try done.
      intros [Hn|?]; [by destruct (Hn (Hnew eq_refl))|done].
  - eexists _, (match ss with [] => with_session None r | [s] => with_session (Some s) r
                | _ => mkSubCache r None ss end).
    assert (cache_sessions (match ss with [] => with_session None r | [s] => with_session (Some s) r
                | _ => mkSubCache r None ss end) = ss) as -> by (by destruct ss as [|? [|? ?]]).
    split; [done|]. cbn. rewrite ?E1. split_and!; try done; [|set_solver].
    destruct ss as [|x [|y ss]]; by intros [].
Qed.

(** What a publication to a topic does. *)
Lemma subscribed_spec topic q r b :
  (forall t c, sub_tab b !! t = Some c -> cache_ok c) -> wildcards (path_from topic) = false ->
  exists b' l ss, subscribed true topic q r b = (b', Some l) /\
    PathTree.lookup (path_from topic) (patterns b) = Some ss /\
    patterns b' = patterns b /\ (forall k, k ∈ public_keys b' <-> k = topic \/ k ∈ public_keys b) /\
    (forall t c, sub_tab b' !! t = Some c -> cache_ok c) /\
    (forall t, t <> topic -> sub_tab b' !! t = sub_tab b !! t) /\ is_Some (sub_tab b' !! topic) /\
    receivers topic b' = l /\ (forall x, x ∈ receivers topic b -> x ∈ l) /\
    (topic ∉ public_keys b \/ sub_tab b !! topic = None -> forall x, x ∈ ss -> x ∈ l).
Proof.
  intros Hok Hw. destruct (lookup_spec (path_from topic) (patterns b)) as [[_ ?]|[_ (ss & El & _)]];
    [congruence|].
  destruct (subscribed_cache topic q r b ss Hok El) as (b' & c & E & Et & Ep & Hc & Hk & Hm & Hss).
  exists b', (cache_sessions c), ss. unfold receivers at 1. rewrite Et, lookup_insert_eq.
  split_and!; try done.
  - intros t c'. rewrite lookup_insert_Some. naive_solver.
  - intros t Hne. by rewrite lookup_insert_ne.
Qed.

(** ** Sequences of subscriptions and publications *)

Inductive broker_op :=
| OpSub (s : ArcSession) (topic : string)
| OpPub (topic : string) (qos : Z) (r : option Publish).

Definition run_op b (op : broker_op) : option MqttBroker :=
  match op with
  | OpSub s topic => fst <$> subscribe SUBSCRIBE_DEPTH s topic b
  | OpPub topic qos r => Some (subscribed true topic qos r b).1
  end.

Fixpoint run b (ops : list broker_op) : option MqttBroker :=
  match ops with
  | [] => Some b
  | op :: ops' => match run_op b op with Some b' => run b' ops' | None => None end
  end.

(** The wildcards fit the levels of the topic, as they do unless it is one of the
    system's topics, and equal levels fit. *)
Definition plain_topic topic : Prop :=
  wildcards (path_from topic) = false /\
  forall x y, y ∈ topics (path_from topic) ->
    topic_string x = "+"%string \/ topic_string x = "#"%string \/ topic_string x = topic_string y ->
    fit x y = true.

Definition op_ok (op : broker_op) : Prop :=
  match op with OpPub topic _ _ => plain_topic topic | OpSub _ _ => True end.

(** A subscription asks for a topic: the topic itself or a pattern that matches. *)
Definition covers p topic : Prop :=
  if wildcards (path_from p) then tree_match (levels (path_from p)) (levels (path_from topic))
  else p = topic.

Lemma tree_match_mqtt (ps ts : list Topic) :
  (forall x y, y ∈ ts -> topic_string x = "+"%string \/ topic_string x = "#"%string \/
     topic_string x = topic_string y -> fit x y = true) ->
  tree_match (topic_string <$> ps) (topic_string <$> ts) -> mqtt_match ps ts = true.
Proof.
  revert ts; induction ps as [|x ps IH]; intros [|y ts] Hf Hm; [done|done|done|].
  cbn [mqtt_match]. destruct (bool_decide (topic_string x = "#"%string) && bool_decide (ps = [])) eqn:E;
    [done|]. cbn in Hm. destruct Hm as [[Ex Hp]|[Hxy Hm]].
  - apply fmap_nil_inv in Hp as ->. rewrite Ex in E. done.
  - rewrite (Hf x y) by (set_solver || naive_solver). cbn. apply IH; [|done].
    intros; apply Hf; set_solver.
Qed.

Lemma covers_is_match p topic :
  plain_topic topic -> wildcards (path_from p) = true -> covers p topic ->
  is_match (path_from p) (path_from topic) = true.
Proof.
  unfold covers. intros [_ Hf] Hw Hc. rewrite Hw in Hc.
  apply mqtt_match_is_match. by apply tree_match_mqtt.
Qed.

(** What holds of the broker after a sequence of subscriptions and publications. *)
Record broker_inv (subscriptions : list (ArcSession * string)) b : Prop := {
  inv_cache t c : sub_tab b !! t = Some c -> cache_ok c;
  inv_public t : t ∈ public_keys b -> plain_topic t /\ is_Some (sub_tab b !! t);
  inv_sorted ks : strictly_sorted (values ks (patterns b));
  inv_topic s t : (s, t) ∈ subscriptions -> wildcards (path_from t) = false ->
    receives s (receivers t b);
  inv_pattern s p : (s, p) ∈ subscriptions -> wildcards (path_from p) = true ->
    receives s (values (levels (path_from p)) (patterns b));
  inv_match s p t : s ∈ values (levels (path_from p)) (patterns b) ->
    wildcards (path_from p) = true -> t ∈ public_keys b -> covers p t ->
    receives s (receivers t b);
}.

(** One cache more does not disturb the invariant. *)
Lemma inv_grow subs b b' :
  broker_inv subs b -> patterns b' = patterns b -> publics b' = publics b ->
  (forall t c, sub_tab b' !! t = Some c -> cache_ok c) ->
  (forall t, is_Some (sub_tab b !! t) -> is_Some (sub_tab b' !! t)) ->
  (forall s2 t, receives s2 (receivers t b) -> receives s2 (receivers t b')) ->
  broker_inv subs b'.
Proof.
  intros [I1 I2 I3 I4 I5 I6] Ep Eq Hok Hsome Hmono. unfold public_keys in *.
  split; unfold public_keys; rewrite ?Ep, ?Eq; try done.
  - intros t Ht. destruct (I2 t Ht). auto.
  - eauto.
  - intros s p t Hs Hw Ht Hc. eauto.
Qed.

Lemma inv_publish subs b topic q r :
  broker_inv subs b -> plain_topic topic -> broker_inv subs (subscribed true topic q r b).1.
Proof.
  intros [I1 I2 I3 I4 I5 I6] Hp.
  destruct (subscribed_spec topic q r b I1 (proj1 Hp))
    as (b' & l & ss & -> & El & Epat & Hk & Hok & Hother & Hsome & Hl & Hmono & Hss). cbn [fst].
  assert (forall s2 t, receives s2 (receivers t b) -> receives s2 (receivers t b')) as Hm.
  { intros s2 t. destruct (decide (t = topic)) as [->|Hne].
    - rewrite Hl. by apply receives_mono.
    - unfold receivers. by rewrite Hother. }
  split; rewrite ?Epat; try done.
  - intros t [->|Ht]%Hk; [done|]. destruct (I2 t Ht) as [? ?]. split; [done|].
    destruct (decide (t = topic)) as [->|]; [done|]. by rewrite Hother.
  - eauto.
  - intros s p t Hs Hw [->|Ht]%Hk Hc; [|eauto].
    destruct (decide (topic ∈ public_keys b)) as [Hin|Hout]; [eauto|].
    rewrite Hl. exists s. split; [|done]. apply Hss; [by left|].
    destruct (lookup_spec (path_from topic) (patterns b)) as [[E _]|[_ (ss' & E & Hss')]]; [congruence|].
    rewrite El in E. simplify_eq. apply Hss'. exists (levels (path_from p)). split; [done|].
    unfold covers in Hc. by rewrite Hw in Hc.
Qed.

Lemma inv_subscribe_topic subs b s topic :
  broker_inv subs b -> wildcards (path_from topic) = false ->
  broker_inv ((s, topic) :: subs) (subscribe_topic s topic b).1.
Proof.
  intros I Hw. destruct (subscribe_topic_spec s topic b (inv_cache _ _ I))
    as (Ep & Eq & Hok & Hsome & _ & Hs & Hmono).
  destruct (inv_grow subs b _ I Ep Eq Hok Hsome Hmono) as [I1 I2 I3 I4 I5 I6].
  split; try done.
  - intros s' t [[= -> ->]|Hin]%elem_of_cons; eauto.
  - intros s' p [[= -> ->]|Hin]%elem_of_cons; [congruence|eauto].
Qed.

(** The subscriptions a pattern makes for the public topics. *)
Lemma subscribe_keys_spec s keys b :
  (forall t c, sub_tab b !! t = Some c -> cache_ok c) ->
  let b' := foldl (fun b key => (subscribe_topic s key b).1) b keys in
  patterns b' = patterns b /\ publics b' = publics b /\
  (forall t c, sub_tab b' !! t = Some c -> cache_ok c) /\
  (forall t, is_Some (sub_tab b !! t) -> is_Some (sub_tab b' !! t)) /\
  (forall key, key ∈ keys -> receives s (receivers key b')) /\
  (forall s2 t, receives s2 (receivers t b) -> receives s2 (receivers t b')).
Proof.
  revert b; induction keys as [|k keys IH]; intros b Hok; cbn.
  { split_and!; try done. intros key Hk. by apply elem_of_nil in Hk. }
  destruct (subscribe_topic_spec s k b Hok) as (Ep & Eq & Hok' & Hsome & _ & Hs & Hmono).
  destruct (IH _ Hok') as (Ep2 & Eq2 & Hok2 & Hsome2 & Hs2 & Hmono2).
  rewrite Ep2, Eq2, Ep, Eq. split_and!; try done; [by auto| |by auto].
  intros key [->|Hk]%elem_of_cons; auto.
Qed.

(** The recursive calls of [subscribe] end at once. *)
Lemma subscribe_step_spec depth s keys b vec :
  (forall key, key ∈ keys -> wildcards (path_from key) = false) ->
  exists vec', foldl (fun acc key =>
      match acc with
      | Some (b, vec) =>
          match subscribe (S depth) s key b with
          | Some (b, Some (Single p)) => Some (b, vec ++ [p])
          | Some (b, _) => Some (b, vec)
          | None => None
          end
      | None => None
      end) (Some (b, vec)) keys =
    Some (foldl (fun b key => (subscribe_topic s key b).1) b keys, vec').
Proof.
  revert b vec; induction keys as [|k keys IH]; intros b vec Hk; cbn [foldl]; [by eauto|].
  cbn [subscribe]. rewrite (Hk k) by set_solver.
  destruct (subscribe_topic s k b) as [b1 [[p|ps]|]]; cbn [fst];
    apply (IH b1 _); intros key Hkey; apply Hk; set_solver.
Qed.

Lemma inv_subscribe_pattern subs b s topic :
  broker_inv subs b -> wildcards (path_from topic) = true ->
  exists b' r, subscribe SUBSCRIBE_DEPTH s topic b = Some (b', r) /\
    broker_inv ((s, topic) :: subs) b'.
Proof.
  intros I Hw. unfold SUBSCRIBE_DEPTH. cbn [subscribe]. rewrite Hw.
  set (keys := filter _ (publics b).*1).
  set (b0 := save_topic s topic _).
  assert (patterns b0 = patterns b /\ publics b0 = publics b /\ sub_tab b0 = sub_tab b) as (F1 & F2 & F3).
  { unfold b0. destruct (save_topic_fields s topic (foldl (fun b key => save_topic s key b) b keys))
      as (-> & -> & -> & _). by destruct (save_topics_fields s keys b) as (-> & -> & ->). }
  assert (broker_inv subs b0) as I0 by (apply (inv_grow subs b b0);
    unfold receivers; rewrite ?F3; eauto using inv_cache).
  assert (forall k, k ∈ keys <-> is_match (path_from topic) (path_from k) = true /\ k ∈ public_keys b)
    as Hkeys by (intros; unfold keys; by rewrite list_elem_of_filter). clearbody b0 keys.
  destruct (subscribe_step_spec 0 s keys b0 []) as [vec Ev].
  { intros k [_ Hk]%Hkeys. by apply (inv_public _ _ I). }
  cbn [subscribe] in Ev. cbn [subscribe]. rewrite Ev. eexists _, _. split; [done|].
  destruct (subscribe_keys_spec s keys b0 (inv_cache _ _ I0)) as (Ep & Eq & Hok & Hsome & Hs & Hmono).
  destruct (inv_grow subs b0 _ I0 Ep Eq Hok Hsome Hmono) as [I1 I2 I3 I4 I5 I6].
  set (b2 := foldl _ b0 keys) in *. clearbody b2.
  assert (forall ks, values ks (PathTree.insert (path_from topic) s (patterns b2)).1 =
    if decide (ks = levels (path_from topic)) then sorted_insert s (values ks (patterns b2))
    else values ks (patterns b2)) as Hv by (intros; by apply insert_values).
  split; cbn; unfold receivers, public_keys in *; cbn; try done.
  - intros ks. rewrite Hv. case_decide; auto with pinet.
  - intros s' t [[= -> ->]|Hin]%elem_of_cons; [congruence|eauto].
  - intros s' p. rewrite Hv. intros [[= -> ->]|Hin]%elem_of_cons Hwp.
    + rewrite decide_True by done. destruct (sorted_insert_present s _ (I3 (levels (path_from topic))))
        as (y & Hy & Ey%session_ocmp_Eq). exists y. done.
    + case_decide as El; [|eauto]. eapply receives_mono; [|by apply (I5 s' p)].
      intros x Hx. apply sorted_insert_elem; auto.
  - intros s' p t. rewrite Hv. intros Hin Hwp Ht Hc.
    case_decide as El; [|eauto]. apply sorted_insert_elem in Hin as [Hin|[-> _]]; [eauto| |done].
    apply levels_inj in El as ->. apply Hs, Hkeys. rewrite Eq, F2 in Ht.
    split; [|done]. apply covers_is_match; [|done..]. by apply (inv_public _ _ I).
Qed.

Lemma subscribe_literal s topic b :
  wildcards (path_from topic) = false ->
  subscribe SUBSCRIBE_DEPTH s topic b = Some (subscribe_topic s topic b).
Proof. intros Hw. cbn [subscribe SUBSCRIBE_DEPTH]. by rewrite Hw. Qed.

Lemma inv_new_broker : broker_inv [] new_broker.
Proof.
  split; unfold new_broker, public_keys, receivers; cbn.
  - intros t c. by rewrite lookup_empty.
  - set_solver.
  - intros ks. rewrite values_empty. apply strictly_sorted_nil.
  - set_solver.
  - set_solver.
  - set_solver.
Qed.

Definition op_subscriptions (ops : list broker_op) : list (ArcSession * string) :=
  omap (fun op => match op with OpSub s t => Some (s, t) | OpPub _ _ _ => None end) ops.

Lemma run_inv ops subs b :
  Forall op_ok ops -> broker_inv subs b ->
  exists b' subs', run b ops = Some b' /\ broker_inv subs' b' /\
    (forall x, x ∈ subs \/ x ∈ op_subscriptions ops -> x ∈ subs').
Proof.
  revert subs b; induction ops as [|op ops IH]; intros subs b Hok I; cbn [run].
  { exists b, subs. split_and!; [done..|]. set_solver. }
  apply Forall_cons_1 in Hok as [Hop Hok].
  assert (exists b' subs', run_op b op = Some b' /\ broker_inv subs' b' /\
    forall x, x ∈ subs \/ x ∈ op_subscriptions [op] -> x ∈ subs') as (b1 & subs1 & -> & I1 & Hs1).
  { destruct op as [s topic|topic q r]; cbn [run_op op_ok] in *.
    - destruct (wildcards (path_from topic)) eqn:Hw.
      + destruct (inv_subscribe_pattern subs b s topic I Hw) as (b' & r & -> & I').
        exists b', ((s, topic) :: subs). set_solver.
      + rewrite subscribe_literal by done. eexists _, ((s, topic) :: subs). split; [done|].
        split; [by apply inv_subscribe_topic|]. set_solver.
    - eexists _, subs. split; [done|]. split; [by apply inv_publish|]. set_solver. }
  destruct (IH subs1 b1 Hok I1) as (b' & subs' & -> & I' & Hs'). exists b', subs'.
  split_and!; [done..|]. intros x Hx. apply Hs'.
  assert (op_subscriptions (op :: ops) = op_subscriptions [op] ++ op_subscriptions ops) as Eops
    by (by destruct op). rewrite Eops, elem_of_app in Hx. naive_solver.
Qed.


(** ** Retained messages, re-subscription, unsubscription *)

(** The message last published with the retain flag is what a later subscriber of
    the topic is given. *)
Theorem retained_message_delivered is_public topic q msg s b b' l :
  subscribed is_public topic q (Some msg) b = (b', Some l) ->
  (subscribe_topic s topic b').2 = Some (Single msg).
Proof.
  unfold subscribed. destruct (if is_public then _ else _) as [b1 new].
  assert (forall c b2, retain c = Some msg ->
    (subscribe_topic s topic (set_sub_tab (<[topic := c]> (sub_tab b2)) b2)).2 = Some (Single msg)) as Hf.
  { intros c b2 Hc. unfold subscribe_topic. cbn. rewrite lookup_insert_eq.
    destruct (binary_search_by _ _); cbn; by rewrite Hc. }
  destruct (sub_tab b1 !! topic) as [c|]; intros E.
  - repeat case_match; simplify_eq; try by apply Hf.
  - case_match; [|done]. simplify_eq. apply Hf. repeat case_match; done.
Qed.

Lemma search_singleton (x s : ArcSession) :
  ocmp x s = Eq -> binary_search_by (fun v => ocmp v s) [x] = inl 0.
Proof. intros E. unfold binary_search_by. cbn -[ocmp]. by rewrite E. Qed.

(** A client that reconnects and subscribes again to a topic it was the subscriber
    of is not registered: the old session, equal by client id, stays, and with it
    the old connection. *)
Theorem resubscription_keeps_old_session old new topic q b :
  sub_tab b !! topic = None -> arc_client old = arc_client new ->
  let b2 := (subscribe_topic new topic (subscribe_topic old topic b).1).1 in
  (subscribed false topic q None b2).2 = Some [old].
Proof.
  intros E Ec b2. unfold b2, subscribe_topic at 2. rewrite E. cbn [fst].
  match goal with |- context [subscribe_topic new topic ?b1] =>
    assert (sub_tab b1 !! topic = Some (with_session (Some old) None)) as E1 end.
  { match goal with |- context [save_topic old topic ?b1] =>
      destruct (save_topic_fields old topic b1) as [-> _] end. apply lookup_insert_eq. }
  assert (ocmp old new = Eq) as Eo by (by apply session_ocmp_Eq).
  unfold subscribe_topic. rewrite E1. cbn [with_session first subs app].
  rewrite (search_singleton old new Eo). unfold subscribed. cbn. by rewrite lookup_insert_eq.
Qed.

(** The caches [unsubscribe] works as meant on: the only subscriber is this very
    session, or the vector is sorted. *)
Definition cache_sorted s (c : SubCache) : Prop :=
  match first c with Some f => ptr_eq s f = true -> f = s | None => strictly_sorted (subs c) end.

Lemma unsubscribe_cache_spec s c :
  cache_sorted s c -> (forall f, first c = Some f -> ptr_eq s f = true) ->
  let '(c', is_remove) := unsubscribe_cache s c in
  let l := if is_remove then [] else cache_sessions c' in
  forall x, x ∈ l <-> x ∈ cache_sessions c /\ arc_client x <> arc_client s.
Proof.
  unfold unsubscribe_cache, cache_sorted, cache_sessions. intros Hs Hf.
  destruct (first c) as [f|] eqn:Ef.
  - rewrite (Hf f) in * by done. intros x. rewrite (Hs eq_refl). set_solver.
  - intros x. pose proof (sorted_remove_elem s x (subs c) Hs) as Hr.
    rewrite session_ocmp_Eq in Hr. cbn. case_bool_decide as El; [rewrite El in Hr|]; exact Hr.
Qed.

(** Unsubscribing a topic takes out exactly the client's session, drops the topic
    when nobody is left, and touches no other topic, provided the topic's cache is
    sorted, or has this very session as its only one. *)
Theorem unsubscribe_topic_removes s topic b c :
  wildcards (path_from topic) = false -> sub_tab b !! topic = Some c -> cache_sorted s c ->
  (forall f, first c = Some f -> ptr_eq s f = true) ->
  let b' := unsubscribe s topic b in
  (forall x, x ∈ receivers topic b' <-> x ∈ receivers topic b /\ arc_client x <> arc_client s) /\
  (sub_tab b' !! topic = None <-> receivers topic b' = []) /\
  (forall t, t <> topic -> sub_tab b' !! t = sub_tab b !! t).
Proof.
  intros Hw Ec Hs Hf b'. unfold b', unsubscribe, receivers. rewrite Hw, Ec.
  pose proof (unsubscribe_cache_spec s c Hs Hf) as Hu.
  assert ((unsubscribe_cache s c).2 = false -> cache_sessions (unsubscribe_cache s c).1 <> []) as Hne.
  { unfold unsubscribe_cache, cache_sessions. destruct (first c) as [f|] eqn:Ef; [by rewrite (Hf f)|].
    cbn. by intros ?%bool_decide_eq_false_1. }
  destruct (unsubscribe_cache s c) as [c' [|]]; cbn in *.
  - rewrite lookup_delete_eq. split_and!; [exact Hu|done|]. intros. by rewrite lookup_delete_ne.
  - rewrite lookup_insert_eq. split_and!; [exact Hu| |intros; by rewrite lookup_insert_ne].
    split; [done|]. intros E. by destruct (Hne eq_refl).
Qed.

Lemma add_public_same topic q b b' :
  publics b' = publics b -> (add_public topic q b).2 = false -> (add_public topic q b').2 = false.
Proof. unfold add_public. intros ->. by destruct (binary_search_by _ _). Qed.

(** A publication to a topic that is public already and has a cache. *)
Lemma republish topic q r b c :
  (add_public topic q b).2 = false -> sub_tab b !! topic = Some c ->
  (subscribed true topic q r b).2 = Some (cache_sessions c).
Proof.
  unfold subscribed. pose proof (add_public_spec topic q b) as Hp.
  destruct (add_public topic q b) as [b1 new]. destruct Hp as (-> & _). cbn. intros -> Ec. rewrite Ec.
  by destruct r.
Qed.

(** Unsubscribing one pattern cuts the client off from the public topics that match
    it, also from those that another of its patterns still covers: the next
    publication does not reach it, whatever else the patterns hold. *)
Theorem unsubscribe_pattern_cuts_off s p topic q r b c s2 :
  wildcards (path_from p) = true -> is_match (path_from p) (path_from topic) = true ->
  sub_tab b !! topic = Some c -> first c = None -> strictly_sorted (subs c) ->
  s2 ∈ subs c -> arc_client s2 <> arc_client s -> (add_public topic q b).2 = false ->
  exists l, (subscribed true topic q r (unsubscribe s p b)).2 = Some l /\
    s2 ∈ l /\ ~ receives s l.
Proof.
  intros Hw Hm Ec Hf Hs Hin Hne Hpub. unfold unsubscribe. rewrite Hw.
  assert (s2 ∈ sorted_remove s (subs c)) as Hin'
    by (apply sorted_remove_elem; [done|]; by rewrite session_ocmp_Eq).
  set (c' := mkSubCache (retain c) None (sorted_remove s (subs c))).
  assert (unsubscribe_cache s c = (c', false)) as Eu.
  { unfold unsubscribe_cache. rewrite Hf, bool_decide_eq_false_2; [done|]. intros E. rewrite E in Hin'. set_solver. }
  exists (sorted_remove s (subs c)). split_and!; [|done|].
  - apply (republish topic q r _ c').
    + by apply (add_public_same topic q b).
    + cbn. by rewrite map_lookup_imap, Ec; cbn; rewrite Hm, Eu.
  - intros (x & Hx & Ex). apply sorted_remove_elem in Hx as [_ Hx]; [|done].
    by apply Hx, session_ocmp_Eq.
Qed.

(** Once a public topic has lost its cache, a new subscriber of the topic hides it
    from the patterns: publications reach the new subscriber only, whatever sessions
    are registered under patterns that match. *)
Theorem new_cache_hides_patterns s topic q r b :
  sub_tab b !! topic = None -> (add_public topic q b).2 = false ->
  (subscribed true topic q r (subscribe_topic s topic b).1).2 = Some [s].
Proof.
  intros Ec Hpub. unfold subscribe_topic. rewrite Ec. cbn [fst].
  match goal with |- context [save_topic s topic ?b1] =>
    destruct (save_topic_fields s topic b1) as (Et & _ & Ep & _) end.
  apply (republish topic q r _ (with_session (Some s) None)).
  - by apply (add_public_same topic q b).
  - rewrite Et. apply lookup_insert_eq.
Qed.
End delivery.

(** ** Witnesses *)

Definition alice : ArcSession := mkArcSession 1 "alice" (Some 11%Z).
Definition bob : ArcSession := mkArcSession 2 "bob" (Some 12%Z).

Lemma plain_split topic : wildcards (path_from topic) = false -> plain_topic topic.
Proof.
  intros Hw. split; [done|]. cbn. intros x y _ Hxy. unfold is_wildcard.
  apply orb_true_intro. destruct Hxy as [->|[->| ->]]; [by left|by left|right].
  by apply bool_decide_eq_true_2.
Qed.

Definition some_ops : list broker_op :=
  [OpSub alice "a/+"; OpPub "a/b" 0 None; OpSub bob "a/b"; OpSub bob "a/#"].


(** A client of [a/#] misses the topic [a], although the broker's own [is_match] accepts it,
    unless the topic was published before the client subscribed. *)
Lemma parent_level_missed :
  is_match (path_from "a/#") (path_from "a") = true /\
  (b ← run new_broker [OpSub alice "a/#"]; (subscribed true "a" 0 None b).2) = Some [] /\
  (b ← run new_broker [OpPub "a" 0 None; OpSub alice "a/#"]; (subscribed true "a" 0 None b).2) = Some [alice].
Proof. vm_compute. by split_and!. Qed.

Definition a_message : Publish := mkPublish false 0 true "a/b" None [1%Z].

Lemma retained_message_delivered_witness :
  (subscribe_topic bob "a/b" (subscribed true "a/b" 0 (Some a_message) new_broker).1).2 =
    Some (Single a_message).
Proof. apply (retained_message_delivered true "a/b" 0 a_message bob new_broker _ []). reflexivity. Defined.

Definition alice2 : ArcSession := mkArcSession 3 "alice" (Some 13%Z).

Lemma resubscription_keeps_old_session_witness :
  (subscribed false "a/b" 0 None
     (subscribe_topic alice2 "a/b" (subscribe_topic alice "a/b" new_broker).1).1).2 = Some [alice].
Proof. apply (resubscription_keeps_old_session alice alice2 "a/b" 0 new_broker); reflexivity. Defined.

(** Two subscribers of the topic [a/b]. *)
Definition two_subscribers : MqttBroker :=
  (subscribe_topic bob "a/b" (subscribe_topic alice "a/b" (add_public "a/b" 0 new_broker).1).1).1.

Lemma unsubscribe_topic_removes_witness :
  let b' := unsubscribe alice "a/b" two_subscribers in
  (forall x, x ∈ receivers "a/b" b' <->
     x ∈ receivers "a/b" two_subscribers /\ arc_client x <> "alice"%string) /\
  (sub_tab b' !! "a/b" = None <-> receivers "a/b" b' = []) /\
  (forall t, t <> "a/b"%string -> sub_tab b' !! t = sub_tab two_subscribers !! t).
Proof.
  apply (unsubscribe_topic_removes alice "a/b" two_subscribers (mkSubCache None None [alice; bob]));
    [reflexivity|reflexivity| |done].
  repeat constructor.
Defined.

Lemma unsubscribe_pattern_cuts_off_witness :
  let b := set_patterns (PathTree.insert (path_from "a/#") alice PathTree.empty).1 two_subscribers in
  exists l, (subscribed true "a/b" 0 None (unsubscribe alice "a/+" b)).2 = Some l /\
    bob ∈ l /\ ~ receives alice l.
Proof.
  apply (unsubscribe_pattern_cuts_off alice "a/+" "a/b" 0 None
    (set_patterns (PathTree.insert (path_from "a/#") alice PathTree.empty).1 two_subscribers)
    (mkSubCache None None [alice; bob]) bob); try reflexivity; [|set_solver|done].
  repeat constructor.
Defined.

Lemma new_cache_hides_patterns_witness :
  let b := unsubscribe bob "a/b" (subscribe_topic bob "a/b" (add_public "a/b" 0
    (set_patterns (PathTree.insert (path_from "a/+") alice PathTree.empty).1 new_broker)).1).1 in
  (subscribed true "a/b" 0 None (subscribe_topic bob "a/b" b).1).2 = Some [bob].
Proof.
  apply (new_cache_hides_patterns bob "a/b" 0 None
    (unsubscribe bob "a/b" (subscribe_topic bob "a/b" (add_public "a/b" 0
      (set_patterns (PathTree.insert (path_from "a/+") alice PathTree.empty).1 new_broker)).1).1));
    reflexivity.
Defined.
