(* ===== verification/MqttV311.v ===== *)
(** * MQTT 3.1.1 over WebSocket (mqtt/src/v311.rs)

    The sub-protocol handlers: connection, publication, subscription, keep alive and
    closing. The packet codec and the topic types belong to the package [mqtt311]; the
    listener and the service are supplied by the application: all are parameters. *)

From S2P Require Import Prelude ByteSource WsFrame WsSession WsConnect MqttTopic MqttSession MqttBroker.

(** ** Packets *)

Record Connect := mkConnect {
  co_level : Z;                     (* [protocol.level()] *)
  co_keep_alive : Z;
  co_client_id : string;
  co_clean_session : bool;
  co_last_will : option LastWill;
  co_username : option string;
  co_password : option string;
}.

Inductive ConnectReturnCode := CodeAccepted | RefusedProtocolVersion | NotAuthorized.

Inductive SubscribeReturnCodes := SubSuccess (qos : Z) | SubFailure.

Record SubscribeTopic := mkSubscribeTopic { st_topic_path : string; st_qos : Z }.

Inductive Packet :=
| PConnect (c : Connect)
| PConnack (session_present : bool) (code : ConnectReturnCode)
| PPublish (p : Publish)
| PSubscribe (pkid : Z) (topics : list SubscribeTopic)
| PSuback (pkid : Z) (return_codes : list SubscribeReturnCodes)
| PUnsubscribe (pkid : Z) (topics : list string)
| PUnsuback (pkid : Z)
| PPingreq
| PPingresp
| PDisconnect
| POther (kind : Z).

(** A packet has at most five bytes of head and as many as its remaining length says. *)
Definition MAX_PACKET_LEN : Z := 5 + 268435455.

Class PacketCodec := {
  read_packet : list Z -> option Packet;
  write_packet : Packet -> option (list Z);
  write_packet_len p buf : write_packet p = Some buf -> (Z.of_nat (length buf) <= MAX_PACKET_LEN)%Z;
}.

(** A codec that refuses what is longer. *)
Definition short_packet (buf : list Z) : option (list Z) :=
  if (Z.of_nat (length buf) <=? MAX_PACKET_LEN)%Z then Some buf else None.
Lemma short_packet_len o buf : (o ≫= short_packet) = Some buf -> (Z.of_nat (length buf) <= MAX_PACKET_LEN)%Z.
Proof. destruct o as [l|]; [|done]. cbn. unfold short_packet. destruct (Z.leb_spec (Z.of_nat (length l)) MAX_PACKET_LEN); naive_solver. Qed.
Lemma packet_fits `{PacketCodec} p buf : write_packet p = Some buf -> fits buf.
Proof. intros Hl%write_packet_len. unfold fits, MAX_PACKET_LEN in *. lia. Qed.

(** How a handler of the sub-protocol ends: it returns, or its task sleeps until the
    connection is woken up. *)
Inductive handled :=
| Returns (r : io_result unit)
| Hibernates.

Definition MQTT31 : Z := 0x3.
Definition MQTT311 : Z := 0x4.

Section v311.
Context `{TopicApi} `{PacketCodec} {S : Type} `{Transport S}.

(** The shared state: the broker, the sessions behind the [Arc]s, and the
    connections by unique id. *)
Record world := mkWorld {
  w_broker : MqttBroker;
  w_heap : gmap nat (QosZeroSession WsSocket);
  w_next : nat;                     (* the next free address *)
  w_conns : gmap Z S;
}.

Definition set_broker (b : MqttBroker) (w : world) : world :=
  mkWorld b (w_heap w) (w_next w) (w_conns w).
Definition set_heap (h : gmap nat (QosZeroSession WsSocket)) (w : world) : world :=
  mkWorld (w_broker w) h (w_next w) (w_conns w).
Definition set_conns (c : gmap Z S) (w : world) : world :=
  mkWorld (w_broker w) (w_heap w) (w_next w) c.

(** [MqttBrokerListener] and [MqttBrokerService]: the application's code. *)
Record Listener := mkListener {
  connected : ArcSession -> world -> world * io_result unit;
  closed : ArcSession -> BrokerSession -> io_result unit -> world -> world;
}.
Record Service := mkService {
  svc_subscribe : ArcSession -> list (string * Z) -> world -> world * io_result unit;
  svc_unsubscribe : ArcSession -> list string -> world -> world * io_result unit;
  svc_publish : ArcSession -> string -> list Z -> world -> world * io_result unit;
}.

(** [WsMqtt311]: the parts the handlers look at besides the broker. *)
Record WsMqtt311 := mkWsMqtt311 {
  m_qos : Z;
  m_listener : option Listener;
  m_service : option Service;
}.

Variable protocol : WsMqtt311.

Abbreviation WsSess := (WsSession BrokerSession).

(** The session behind an [Arc]. *)
Definition deref (a : ArcSession) (w : world) : option (QosZeroSession WsSocket) :=
  w_heap w !! addr a.

(** An operation on the connection of a [WsSocket]; the connection is there as long as
    the socket is. *)
Definition on_conn (c : WsSocket) (f : S -> outcome (S * io_result unit)) (w : world)
    : outcome (world * io_result unit) :=
  s ← lift (w_conns w !! ws_uid c);
  r ← f s;
  Done (set_conns (<[ws_uid c := r.1]> (w_conns w)) w, r.2).

(** [update_timeout] *)
Definition update_timeout (c : WsSocket) (client_id : string) (keep_alive : Z) (w : world) : world :=
  set_conns (alter (tr_set_timeout (keep_alive * 1500)%Z (ClientEvent client_id)) (ws_uid c) (w_conns w)) w.

(** [send_packet] *)
Definition send_packet (c : WsSocket) (p : Packet) (w : world) : outcome (world * io_result unit) :=
  match write_packet p with
  | None => Done (w, Err InvalidData)
  | Some buf => on_conn c (send TBinary (window_bits c) buf) w
  end.

(** [broadcast_packet]: nothing is sent when every connection is closed. *)
Definition broadcast_packet (connects : list WsSocket) (p : Packet) (w : world)
    : outcome (world * io_result unit) :=
  match connects with
  | [] => Done (w, Ok tt)
  | _ =>
      match write_packet p with
      | None => Done (w, Err InvalidData)
      | Some buf =>
          let is_open c := match w_conns w !! ws_uid c with
                           | Some s => negb (tr_is_closed s) | None => false end in
          if existsb is_open connects then
            r ← broadcast connects TBinary buf (w_conns w);
            Done (set_conns r.1 w, r.2)
          else Done (w, Ok tt)
      end
  end.

(** The answer of a handler: an error when it cannot be sent. *)
Definition respond (c : WsSocket) (p : Packet) (w : world) : outcome (world * io_result unit) :=
  r ← send_packet c p w;
  Done (r.1, match r.2 with Err _ => Err BrokenPipe | Ok _ => Ok tt end).

(** ** Connecting *)

(** [reset_session]; the quality of service of a parsed will is a level that exists. *)
Definition reset_session (c : WsSocket) (id : string) (p : Connect) (w : world)
    : world * ArcSession :=
  let s := bind_connect c (with_client_id id) in
  let s := set_clean (co_clean_session p) (set_accept true s) in
  let s := match co_last_will p with Some lw => put_will (Some lw) s | None => s end in
  let s := set_keep_alive (co_keep_alive p) (set_user_pwd (co_username p) (co_password p) s) in
  let w := update_timeout c (co_client_id p) (co_keep_alive p) w in
  let arc := mkArcSession (w_next w) id (Some (ws_uid c)) in
  (mkWorld (insert_session id arc (w_broker w)) (<[w_next w := s]> (w_heap w))
     (Datatypes.S (w_next w)) (w_conns w), arc).

(** [accept] *)
Definition accept (c : WsSocket) (p : Connect) (w : world) (ws : WsSess)
    : outcome (world * WsSess * io_result unit) :=
  let id := co_client_id p in
  let is_exist := is_exist_session id (w_broker w) in
  let already :=
    if is_exist then
      match get_session id (w_broker w) with
      | Some a => match deref a w with Some s => accepted s | None => false end
      | None => false
      end
    else false in
  if already then Done (w, ws, Err AlreadyExists) else
  let session_present :=
    if co_clean_session p then false else if negb is_exist then false else true in
  if negb (co_level p =? MQTT31)%Z && negb (co_level p =? MQTT311)%Z then
    r ← respond c (PConnack session_present RefusedProtocolVersion) w;
    Done (r.1, ws, match r.2 with Err e => Err e | Ok _ => Err ConnectionAborted end)
  else
    let bs := mkBrokerSession id (co_keep_alive p) (co_clean_session p) (co_username p)
                (co_password p) in
    let ws := match context ws with None => set_context (Some bs) ws | Some _ => ws end in
    let '(w, arc) := reset_session c id p w in
    let '(w, code) :=
      match m_listener protocol with
      | Some l =>
          match connected l arc w with
          | (w, Err _) => (w, NotAuthorized)
          | (w, Ok _) => (w, CodeAccepted)
          end
      | None => (w, CodeAccepted)
      end in
    r ← respond c (PConnack session_present code) w;
    Done (r.1, ws, r.2).

(** [get_client_context] *)
Definition get_client_context (ws : WsSess) : io_result (string * Z) :=
  match context ws with
  | Some bs => Ok (bs_client_id bs, bs_keep_alive bs)
  | None => Err ConnectionRefused
  end.

(** ** Publishing *)

(** The part of [publish] without a service. *)
Definition standard_publish (topic : string) (qos : Z) (retain : option Publish) (p : Publish)
    (w : world) : outcome (world * io_result unit) :=
  let '(b, sessions) := subscribed true topic qos retain (w_broker w) in
  let w := set_broker b w in
  match sessions with
  | Some ss =>
      let connects := omap (fun a => match deref a w with Some s => connect s | None => None end) ss in
      r ← broadcast_packet connects (PPublish p) w;
      Done (r.1, match r.2 with Err _ => Err BrokenPipe | Ok _ => Ok tt end)
  | None => Done (w, Ok tt)
  end.

(** [publish] *)
Definition publish (c : WsSocket) (p : Publish) (w : world) (ws : WsSess)
    : outcome (world * handled) :=
  match get_client_context ws with
  | Err e => Done (w, Returns (Err e))
  | Ok (id, keep) =>
      let w := update_timeout c id keep w in
      let qos := pub_qos p in
      if (m_qos protocol <? qos)%Z then Done (w, Returns (Err InvalidData)) else
      match path_from_str (topic_name p) with
      | None => Done (w, Returns (Err InvalidData))
      | Some path =>
          if wildcards path || bool_decide (path_string path = EmptyString) then
            Done (w, Returns (Err InvalidData))
          else
            let p := mkPublish false (pub_qos p) (pub_retain p) (topic_name p) (pkid p) (payload p) in
            let retain := if pub_retain p then Some p else None in
            let standard := r ← standard_publish (path_string path) qos retain p w;
                            Done (r.1, Returns r.2) in
            match m_service protocol, get_session id (w_broker w) with
            | Some svc, Some a =>
                let passive := match deref a w with Some s => is_passive s | None => false end in
                let '(w, result) := svc_publish svc a (topic_name p) (payload p) w in
                if passive then
                  let is_closed := match deref a w with
                    | Some s => match connect s with
                                | Some c' => match w_conns w !! ws_uid c' with
                                             | Some s' => tr_is_closed s' | None => true end
                                | None => true
                                end
                    | None => true
                    end in
                  Done (w, if is_closed then Returns (Ok tt) else Hibernates)
                else Done (w, Returns result)
            | _, _ => standard
            end
      end
  end.

(** ** Subscribing *)

(** The code a topic is answered with. *)
Definition sub_code (t : SubscribeTopic) : SubscribeReturnCodes :=
  if (m_qos protocol <? st_qos t)%Z then SubFailure else SubSuccess (m_qos protocol).

(** The loop over the topics of a [Subscribe] packet without a service. *)
Fixpoint subscribe_topics (a : ArcSession) (ts : list SubscribeTopic) (b : MqttBroker)
    (codes : list SubscribeReturnCodes) (retains : option Retain)
    : outcome (MqttBroker * list SubscribeReturnCodes * option Retain) :=
  match ts with
  | [] => Done (b, codes, retains)
  | t :: ts' =>
      match MqttBroker.subscribe SUBSCRIBE_DEPTH a (st_topic_path t) b with
      | Some (b, r) => subscribe_topics a ts' b (codes ++ [sub_code t]) r
      | None => NoFuel
      end
  end.

(** Sending the retained messages; the results are ignored. *)
Fixpoint send_publishes (c : WsSocket) (ps : list Publish) (w : world) : outcome world :=
  match ps with
  | [] => Done w
  | p :: ps' => r ← send_packet c (PPublish p) w; send_publishes c ps' r.1
  end.

(** [subscribe] *)
Definition subscribe (c : WsSocket) (pkid : Z) (ts : list SubscribeTopic) (w : world) (ws : WsSess)
    : outcome (world * io_result unit) :=
  match get_client_context ws with
  | Err e => Done (w, Err e)
  | Ok (id, keep) =>
      let w := update_timeout c id keep w in
      sub ← match m_service protocol, get_session id (w_broker w) with
            | Some svc, Some a =>
                let sub_topics := (fun t => (st_topic_path t, st_qos t)) <$> ts in
                let '(w, r) := svc_subscribe svc a sub_topics w in
                let code := match r with Err _ => SubFailure | Ok _ => SubSuccess (m_qos protocol) end in
                Done (w, replicate (length ts) code, None)
            | None, Some a =>
                r ← subscribe_topics a ts (w_broker w) [] None;
                Done (set_broker r.1.1 w, r.1.2, r.2)
            | _, None => Done (w, [], None)
            end;
      let '(w, codes, retains) := sub in
      r ← respond c (PSuback pkid codes) w;
      match r.2 with
      | Err e => Done (r.1, Err e)
      | Ok _ =>
          w ← send_publishes c
                (match retains with Some (Single p) => [p] | Some (Mutil ps) => ps | None => [] end) r.1;
          Done (w, Ok tt)
      end
  end.

(** [unsubscribe] *)
Definition unsubscribe (c : WsSocket) (pkid : Z) (ts : list string) (w : world) (ws : WsSess)
    : outcome (world * io_result unit) :=
  match get_client_context ws with
  | Err e => Done (w, Err e)
  | Ok (id, keep) =>
      let w := update_timeout c id keep w in
      let '(w, r) :=
        match m_service protocol, get_session id (w_broker w) with
        | Some svc, Some a =>
            match svc_unsubscribe svc a ts w with
            | (w, Err _) => (w, Err BrokenPipe)
            | (w, Ok _) => (w, Ok tt)
            end
        | None, Some a =>
            (set_broker (foldl (fun b t => MqttBroker.unsubscribe a t b) (w_broker w) ts) w, Ok tt)
        | _, None => (w, Ok tt)
        end in
      match r with
      | Err e => Done (w, Err e)
      | Ok _ => respond c (PUnsuback pkid) w
      end
  end.

(** ** Keep alive and closing *)

(** [ping_req] *)
Definition ping_req (c : WsSocket) (w : world) (ws : WsSess) : outcome (world * io_result unit) :=
  match get_client_context ws with
  | Err e => Done (w, Err e)
  | Ok (id, keep) => respond c PPingresp (update_timeout c id keep w)
  end.

(** [disconnect] *)
Definition disconnect (c : WsSocket) (w : world) : outcome (world * io_result unit) :=
  on_conn c (close (Ok tt)) w.

(** [decode_protocol] *)
Definition decode_protocol (c : WsSocket) (w : world) (ws : WsSess)
    : outcome (world * WsSess * handled) :=
  let '(ws, m) := pop_msg ws in
  let ret (o : outcome (world * io_result unit)) : outcome (world * WsSess * handled) :=
    r ← o; Done (r.1, ws, Returns r.2) in
  match read_packet m with
  | None => Done (w, ws, Returns (Err Other))
  | Some p =>
      match p with
      | PConnect p => r ← accept c p w ws; Done (r.1, Returns r.2)
      | PPublish p => r ← publish c p w ws; Done (r.1, ws, r.2)
      | PSubscribe pkid ts => ret (subscribe c pkid ts w ws)
      | PUnsubscribe pkid ts => ret (unsubscribe c pkid ts w ws)
      | PPingreq => ret (ping_req c w ws)
      | PDisconnect => ret (disconnect c w)
      | _ => Done (w, ws, Returns (Ok tt))
      end
  end.

(** [close_protocol] *)
Definition close_protocol (w : world) (ws : WsSess) (reason : io_result unit) : world :=
  match context ws with
  | None => w
  | Some bs =>
      let id := bs_client_id bs in
      match get_session id (w_broker w) with
      | None => w
      | Some a =>
          let is_clean := match deref a w with Some s => clean s | None => false end in
          let w :=
            if is_clean then
              set_broker (remove_session id (unsubscribe_all a (w_broker w))).1 w
            else w in
          let w := set_heap (alter (set_accept false) (addr a) (w_heap w)) w in
          match m_listener protocol with
          | Some l => closed l a bs reason w
          | None => w
          end
      end
  end.

(** [protocol_timeout] *)
Definition protocol_timeout (c : WsSocket) (w : world) : outcome (world * io_result unit) :=
  respond c PDisconnect w.
End v311.

(** ** Handlers on an existing connection *)

Section facts.
Context `{TopicLaws} `{PacketCodec} {S : Type} `{Transport S}.
Context (protocol : WsMqtt311 (S := S)).
Implicit Types (w : world (S := S)) (c : WsSocket) (ws : WsSession BrokerSession).

(** Every shared session was allocated. *)
Definition world_ok w : Prop :=
  forall id a, sessions (w_broker w) !! id = Some a -> addr a < w_next w.

Lemma send_packet_done c p w :
  window_bits c = 0%Z -> is_Some (w_conns w !! ws_uid c) ->
  exists conns r, send_packet c p w = Done (set_conns conns w, r) /\
    forall u, u <> ws_uid c -> conns !! u = w_conns w !! u.
Proof.
  intros Hw [s Hs]. unfold send_packet. destruct (write_packet p) as [buf|] eqn:Hb.
  - unfold on_conn. rewrite Hs, Hw. cbn [lift mbind outcome_bind]. unfold send.
    destruct (data_frame TBinary buf) as (f & fb & -> & _ & E); [by eapply packet_fits|]. cbn [lift mbind outcome_bind].
    rewrite E. cbn [lift mbind outcome_bind]. eexists _, _. split; [done|].
    intros u Hu. by rewrite lookup_insert_ne.
  - exists (w_conns w), (Err InvalidData). destruct w. done.
Qed.

Lemma respond_done c p w :
  window_bits c = 0%Z -> is_Some (w_conns w !! ws_uid c) ->
  exists conns r, respond c p w = Done (set_conns conns w, r) /\
    forall u, u <> ws_uid c -> conns !! u = w_conns w !! u.
Proof.
  intros Hw Hs. destruct (send_packet_done c p w Hw Hs) as (conns & r & E & Hu).
  unfold respond. rewrite E. cbn [mbind outcome_bind]. eauto.
Qed.

(** A client that is connected cannot be displaced: a second CONNECT with its client
    id is refused, and nothing changes. *)
Theorem accept_refuses_connected c p w ws a s :
  get_session (co_client_id p) (w_broker w) = Some a -> deref a w = Some s -> accepted s = true ->
  accept protocol c p w ws = Done (w, ws, Err AlreadyExists).
Proof.
  unfold get_session. intros Ea Es Hs. unfold accept, is_exist_session, get_session.
  rewrite Ea, Es, Hs. by rewrite bool_decide_eq_true_2.
Qed.

(** The session [accept] registers. *)
Definition accepted_session c (p : Connect) : QosZeroSession WsSocket :=
  mkQosZeroSession (Some c) false (co_client_id p) true (co_clean_session p) (co_last_will p)
    (co_username p) (co_password p) (co_keep_alive p).

Definition fresh_arc c (p : Connect) w : ArcSession :=
  mkArcSession (w_next w) (co_client_id p) (Some (ws_uid c)).

Lemma reset_session_spec c p w :
  reset_session c (co_client_id p) p w =
    (mkWorld (insert_session (co_client_id p) (fresh_arc c p w) (w_broker w))
       (<[w_next w := accepted_session c p]> (w_heap w)) (Datatypes.S (w_next w))
       (w_conns (update_timeout c (co_client_id p) (co_keep_alive p) w)), fresh_arc c p w).
Proof. unfold reset_session, accepted_session. by destruct (co_last_will p). Qed.

(** The application's listener, if there is one, looks at the client only. *)
Definition quiet_listener : Prop :=
  match m_listener protocol with Some l => forall a w, (connected l a w).1 = w | None => True end.

Definition acceptable (p : Connect) w : Prop :=
  (co_level p = MQTT31 \/ co_level p = MQTT311) /\
  forall a s, get_session (co_client_id p) (w_broker w) = Some a -> deref a w = Some s ->
    accepted s = false.

Lemma accept_spec c p w ws :
  window_bits c = 0%Z -> is_Some (w_conns w !! ws_uid c) -> quiet_listener -> acceptable p w ->
  exists conns r, accept protocol c p w ws = Done
    (mkWorld (insert_session (co_client_id p) (fresh_arc c p w) (w_broker w))
       (<[w_next w := accepted_session c p]> (w_heap w)) (Datatypes.S (w_next w)) conns,
     match context ws with
     | Some _ => ws
     | None => set_context (Some (mkBrokerSession (co_client_id p) (co_keep_alive p)
                 (co_clean_session p) (co_username p) (co_password p))) ws
     end, r).
Proof.
  intros Hw [s0 Hs0] Hl [Hlev Hacc]. unfold accept.
  match goal with |- context [if ?x then Done (w, ws, Err AlreadyExists) else _] =>
    assert (x = false) as -> end.
  { destruct (is_exist_session _ _); [|done]. destruct (get_session _ _) as [a|] eqn:Ea; [|done].
    destruct (deref a w) as [s|] eqn:Es; [|done]. by eapply Hacc. }
  assert (negb (co_level p =? MQTT31)%Z && negb (co_level p =? MQTT311)%Z = false) as ->.
  { destruct Hlev as [-> | ->]; done. }
  cbv zeta. rewrite reset_session_spec. unfold quiet_listener in Hl.
  set (w2 := mkWorld _ _ _ _).
  assert (is_Some (w_conns w2 !! ws_uid c)) as Hs2.
  { unfold w2, update_timeout. cbn. rewrite lookup_alter_eq, Hs0. by eexists. }
  assert (forall code : ConnectReturnCode, exists conns r,
    respond c (PConnack (if co_clean_session p then false else
      if negb (is_exist_session (co_client_id p) (w_broker w)) then false else true) code) w2 =
    Done (set_conns conns w2, r)) as Hr.
  { intros code. edestruct (respond_done c) as (conns & r & E & _); [done|exact Hs2|]. eauto. }
  destruct (m_listener protocol) as [l|].
  - specialize (Hl (fresh_arc c p w) w2). destruct (connected l _ w2) as [w3 [|e]]; cbn in Hl; subst w3.
    + destruct (Hr CodeAccepted) as (conns & r & ->). cbn. eauto.
    + destruct (Hr NotAuthorized) as (conns & r & ->). cbn. eauto.
  - destruct (Hr CodeAccepted) as (conns & r & ->). cbn. eauto.
Qed.

(** CONNECT from a client that is not connected registers a new session for it,
    with the flags of the packet and bound to this connection, in place of an old one;
    other clients are not touched. The listener's verdict only changes the code of
    the answer: a client it rejects is registered and connected all the same. *)
Theorem accept_registers c p w ws :
  window_bits c = 0%Z -> is_Some (w_conns w !! ws_uid c) -> quiet_listener -> acceptable p w ->
  world_ok w ->
  exists w' ws' r a, accept protocol c p w ws = Done (w', ws', r) /\ world_ok w' /\
    get_session (co_client_id p) (w_broker w') = Some a /\ deref a w' = Some (accepted_session c p) /\
    is_Some (context ws') /\
    (forall id b, id <> co_client_id p -> get_session id (w_broker w) = Some b ->
       get_session id (w_broker w') = Some b /\ deref b w' = deref b w).
Proof.
  intros Hw Hs Hl Ha Hok. destruct (accept_spec c p w ws Hw Hs Hl Ha) as (conns & r & E).
  eexists _, _, r, (fresh_arc c p w). split; [exact E|]. unfold world_ok, get_session, deref. cbn.
  split_and!.
  - intros id a. rewrite lookup_insert_Some. intros [[<- <-]|[_ Hid]]; cbn; [lia|].
    specialize (Hok _ _ Hid). lia.
  - apply lookup_insert_eq.
  - apply lookup_insert_eq.
  - destruct (context ws) eqn:Ec; [by rewrite Ec|by eexists].
  - intros id b Hne Hid. rewrite lookup_insert_ne by done. split; [done|].
    apply lookup_insert_ne. specialize (Hok _ _ Hid). lia.
Qed.

(** ** Closing *)

Lemma unsubscribe_keeps a t b :
  sessions (MqttBroker.unsubscribe a t b) = sessions b /\
  topics_of (MqttBroker.unsubscribe a t b) = topics_of b.
Proof. unfold MqttBroker.unsubscribe. repeat case_match; done. Qed.

Lemma unsubscribe_all_keeps a b :
  sessions (unsubscribe_all a b) = sessions b /\
  topics_of (unsubscribe_all a b) = delete (hash_key a) (topics_of b).
Proof.
  unfold unsubscribe_all. destruct (topics_of b !! hash_key a) as [ts|]; [|done].
  assert (forall b0, sessions (foldl (fun b t => MqttBroker.unsubscribe a t b) b0 ts) = sessions b0 /\
    topics_of (foldl (fun b t => MqttBroker.unsubscribe a t b) b0 ts) = topics_of b0) as Hf.
  { induction ts as [|t ts IH]; intros b0; cbn; [done|].
    destruct (IH (MqttBroker.unsubscribe a t b0)) as [-> ->]. apply unsubscribe_keeps. }
  destruct (Hf (set_topics_of (delete (hash_key a) (topics_of b)) b)) as [-> ->]. done.
Qed.

(** When the connection closes, its client may connect again: the session is
    marked as not connected, and it is forgotten, with the record of its topics, if
    it asked for a clean session and kept otherwise; other clients are not touched. *)
Theorem close_releases_client w ws reason bs a s :
  m_listener protocol = None -> context ws = Some bs ->
  get_session (bs_client_id bs) (w_broker w) = Some a -> deref a w = Some s ->
  let w' := close_protocol protocol w ws reason in
  deref a w' = Some (set_accept false s) /\
  (clean s = true -> get_session (bs_client_id bs) (w_broker w') = None /\
     topics_of (w_broker w') !! hash_key a = None) /\
  (clean s = false -> w_broker w' = w_broker w) /\
  (forall id, id <> bs_client_id bs -> get_session id (w_broker w') = get_session id (w_broker w)) /\
  (forall b, addr b <> addr a -> deref b w' = deref b w).
Proof.
  cbv zeta. unfold get_session, deref. intros Hl Hc Ha Hs. unfold close_protocol, get_session, deref.
  rewrite Hc, Ha, Hs, Hl. cbv zeta.
  destruct (unsubscribe_all_keeps a (w_broker w)) as [Es Et].
  destruct (clean s) eqn:Ecl; cbn; rewrite ?lookup_alter_eq, ?Hs, ?Es, ?Et.
  - rewrite lookup_delete_eq, lookup_delete_eq. split_and!; try done.
    + intros id Hne. by rewrite lookup_delete_ne.
    + intros b Hne. by rewrite lookup_alter_ne.
  - split_and!; try done. intros b Hne. by rewrite lookup_alter_ne.
Qed.

(** A second CONNECT on a connection, for another client, registers that client but
    leaves the connection bound to the first one: closing the connection then never
    releases the second client, whose later CONNECTs are all refused. *)
Theorem second_connect_leaks c p w ws bs reason a s :
  window_bits c = 0%Z -> is_Some (w_conns w !! ws_uid c) -> m_listener protocol = None ->
  acceptable p w -> world_ok w -> context ws = Some bs -> bs_client_id bs <> co_client_id p ->
  get_session (bs_client_id bs) (w_broker w) = Some a -> deref a w = Some s ->
  exists w' r, accept protocol c p w ws = Done (w', ws, r) /\
    forall c2 ws2, accept protocol c2 p (close_protocol protocol w' ws reason) ws2 =
      Done (close_protocol protocol w' ws reason, ws2, Err AlreadyExists).
Proof.
  intros Hw Hs0 Hl Hacc Hok Hc Hne Ha Hs.
  destruct (accept_spec c p w ws Hw Hs0) as (conns & r & E); [unfold quiet_listener; by rewrite Hl|done|].
  rewrite Hc in E. eexists _, r. split; [exact E|]. clear E. intros c2 ws2.
  set (w' := mkWorld _ _ _ _).
  assert (addr a < w_next w) as Hlt by (by apply (Hok (bs_client_id bs))).
  assert (get_session (bs_client_id bs) (w_broker w') = Some a /\ deref a w' = Some s) as [Ha' Hs'].
  { unfold get_session, deref in *. cbn. by rewrite !lookup_insert_ne by (done || lia). }
  assert (get_session (co_client_id p) (w_broker (close_protocol protocol w' ws reason)) =
    Some (fresh_arc c p w) /\ deref (fresh_arc c p w) (close_protocol protocol w' ws reason) =
    Some (accepted_session c p)) as [E1 E2].
  { unfold close_protocol. rewrite Hc, Ha', Hs', Hl. cbv zeta. unfold get_session, deref.
    destruct (unsubscribe_all_keeps a (w_broker w')) as [Es _].
    destruct (clean s); cbn -[unsubscribe_all] in *; rewrite ?Es, ?lookup_delete_ne by done;
      rewrite lookup_alter_ne by lia; by rewrite !lookup_insert_eq. }
  unfold accept, is_exist_session. unfold get_session in E1 |- *. rewrite E1, E2.
  rewrite bool_decide_eq_true_2 by (by eexists). done.
Qed.

(** ** Publishing *)

(** A packet for several connections is written to each of them, once for each time it is
    listed. *)
Lemma broadcast_packet_delivers c0 cs p buf w :
  write_packet p = Some buf -> window_bits c0 = 0%Z ->
  (exists c s, c ∈ c0 :: cs /\ w_conns w !! ws_uid c = Some s /\ tr_is_closed s = false) ->
  exists f fb conns, single_with_window_bits_and_payload (frame_type_to TBinary) 0 buf = Some f /\
    frame_to f = Some fb /\ broadcast_packet (c0 :: cs) p w = Done (set_conns conns w, Ok tt) /\
    forall u, conns !! u = Nat.iter (length (filter (fun c => ws_uid c = u) (c0 :: cs)))
      (fun s => (tr_write_ready fb s).1) <$> w_conns w !! u.
Proof.
  intros Hbuf Hw0 (c1 & s1 & Hc1 & Hs1 & Hopen).
  destruct (data_frame TBinary buf) as (f & fb & E1 & E2 & E3); [by eapply packet_fits|]. exists f, fb.
  exists (foldl (fun st c => alter (fun s => (tr_write_ready fb s).1) (ws_uid c) st) (w_conns w) (c0 :: cs)).
  split_and!; [done..| |intros u; apply foldl_alter_count].
  unfold broadcast_packet. rewrite Hbuf.
  assert (existsb (fun c => match w_conns w !! ws_uid c with
    | Some s => negb (tr_is_closed s) | None => false end) (c0 :: cs) = true) as ->.
  { apply existsb_exists. exists c1. split; [by apply list_elem_of_In|]. by rewrite Hs1, Hopen. }
  unfold broadcast. rewrite Hw0, E1. cbn [lift mbind outcome_bind]. by rewrite E3.
Qed.

(** A publication of a connected client is written, as one frame, to every connection of
    every subscriber. *)
Lemma publish_delivers c p w ws bs path b ss c0 cs buf :
  context ws = Some bs -> m_service protocol = None -> (pub_qos p <= m_qos protocol)%Z ->
  path_from_str (topic_name p) = Some path -> wildcards path = false -> path_string path <> EmptyString ->
  let p' := mkPublish false (pub_qos p) (pub_retain p) (topic_name p) (pkid p) (payload p) in
  let w1 := update_timeout c (bs_client_id bs) (bs_keep_alive bs) w in
  subscribed true (path_string path) (pub_qos p) (if pub_retain p then Some p' else None)
    (w_broker w) = (b, Some ss) ->
  omap (fun a => match deref a w with Some s => connect s | None => None end) ss = c0 :: cs ->
  write_packet (PPublish p') = Some buf -> window_bits c0 = 0%Z ->
  (exists c s, c ∈ c0 :: cs /\ w_conns w1 !! ws_uid c = Some s /\ tr_is_closed s = false) ->
  exists f fb conns, single_with_window_bits_and_payload (frame_type_to TBinary) 0 buf = Some f /\
    frame_to f = Some fb /\
    publish protocol c p w ws = Done (set_conns conns (set_broker b w1), Returns (Ok tt)) /\
    forall u, conns !! u = Nat.iter (length (filter (fun c => ws_uid c = u) (c0 :: cs)))
      (fun s => (tr_write_ready fb s).1) <$> w_conns w1 !! u.
Proof.
  intros Hc Hsvc Hq Hpath Hwild Hne p' w1 Hsub Hconn Hbuf Hw0 Hopen.
  destruct (broadcast_packet_delivers c0 cs (PPublish p') buf (set_broker b w1) Hbuf Hw0 Hopen) as (f & fb & conns & E1 & E2 & Hb & Hu).
  exists f, fb, conns. split_and!; [done..| |done].
  unfold publish, get_client_context. rewrite Hc. fold w1. cbv zeta.
  destruct (Z.ltb_spec (m_qos protocol) (pub_qos p)); [lia|]. rewrite Hpath, Hwild, Hsvc.
  rewrite bool_decide_eq_false_2 by done. cbn [orb]. fold p'. unfold standard_publish.
  change (w_broker w1) with (w_broker w). change (pub_retain p') with (pub_retain p).
  change (pub_qos p') with (pub_qos p). rewrite Hsub.
  change (omap _ ss) with (omap (fun a => match deref a w with Some s => connect s | None => None end) ss).
  rewrite Hconn, Hb. done.
Qed.

(** ** Subscribing *)

(** The answer to SUBSCRIBE refuses the topics whose quality of service is above
    the supported one, but the client is subscribed to them like to the others; and
    only what the last topic of the packet retains is sent back. *)
Theorem subscribe_ignores_codes a ts t b :
  (forall x, x ∈ ts ++ [t] -> wildcards (path_from (st_topic_path x)) = false) ->
  (forall t cache, sub_tab b !! t = Some cache -> cache_ok cache) ->
  exists b0 b', subscribe_topics protocol a (ts ++ [t]) b [] None =
      Done (b', sub_code protocol <$> ts ++ [t],
            (subscribe_topic a (st_topic_path t) b0).2) /\
    b' = (subscribe_topic a (st_topic_path t) b0).1 /\
    forall x, x ∈ ts ++ [t] -> receives a (receivers (st_topic_path x) b').
Proof.
  intros Hw Hok.
  set (b0 := foldl (fun b k => (subscribe_topic a k b).1) b (st_topic_path <$> ts)).
  assert (forall ts b codes r, (forall x, x ∈ ts ++ [t] -> wildcards (path_from (st_topic_path x)) = false) ->
    subscribe_topics protocol a (ts ++ [t]) b codes r =
      let b0 := foldl (fun b k => (subscribe_topic a k b).1) b (st_topic_path <$> ts) in
      Done ((subscribe_topic a (st_topic_path t) b0).1, codes ++ (sub_code protocol <$> ts ++ [t]),
        (subscribe_topic a (st_topic_path t) b0).2)) as Hrun.
  { clear. intros ts; induction ts as [|x ts IH]; intros b codes r Hw; cbn [app subscribe_topics].
    - rewrite subscribe_literal by (apply Hw; set_solver). cbn. by destruct (subscribe_topic _ _ _).
    - rewrite subscribe_literal by (apply Hw; set_solver).
      destruct (subscribe_topic a (st_topic_path x) b) as [b1 r1] eqn:E.
      rewrite IH by (intros; apply Hw; set_solver). cbn. by rewrite E, <-app_assoc. }
  exists b0. eexists. split; [rewrite Hrun by done; reflexivity|]. split; [done|].
  destruct (subscribe_keys_spec a (st_topic_path <$> ts) b Hok) as (_ & _ & Hok0 & _ & Hs & _).
  destruct (subscribe_topic_spec a (st_topic_path t) b0 Hok0) as (_ & _ & _ & _ & _ & Ht & Hm).
  intros x [Hx| ->%list_elem_of_singleton]%elem_of_app; [|done].
  apply Hm, Hs. apply list_elem_of_fmap. by exists x.
Qed.
End facts.
