(* ===== verification/RpcClient.v ===== *)
(** * The RPC client over MQTT (nodec/src)

    A client sends requests as MQTT publications and waits for the answers on the topic
    "$r": every request has an entry in a table and puts one receiving task into the
    client's queue, and an answer goes to the entry of its id, whichever task receives it.
    The closures of the code are data here ([Callback], [Task]); a task runs with what the
    connection does meanwhile ([Run]). Tasks for the task pool ([pool]) run in any order, those
    of the queue one after the other. The package wsc_lite is read up to its decoder. *)

From S2P Require Import Prelude MqttTopic MqttSession MqttV311 RpcBase.

Definition RPC_RESPONSE_TOPIC : string := "$r".

(** ** The connection (nodec/src/wsc.rs, wsc_lite/sync.rs) *)

Inductive WSClientStatus := NotConnected | Connected | Closed.

Definition to_status (s : WSClientStatus) : Z :=
  match s with Closed => -1 | NotConnected => 0 | Connected => 1 end.

(** What happens while a task receives: the timer clears the flag, the decoder gives a
    message or has none and bytes are read, the decoder or the read fails, or the stream
    ends. [fired] is the timer between the decoding and the check after the loop. *)
Inductive recv_step :=
| Fire
| Frame (msg : list Z) (fired : bool)
| More
| Broken
| Eof (r : io_result (option (list Z))) (fired : bool).

(** [preemptive_receive]: the flag afterwards and the result; [None] while it blocks. *)
Fixpoint preemptive_receive (running : bool) (steps : list recv_step) : option (bool * io_result (option (list Z))) :=
  if running then
    match steps with
    | [] => None
    | Fire :: steps => preemptive_receive false steps
    | More :: steps => preemptive_receive running steps
    | Frame msg fired :: _ => Some (true, if fired then Err TimedOut else Ok (Some msg))
    | Broken :: _ => Some (true, Err TimedOut)
    | Eof r fired :: _ =>
        Some (true, if fired then Err TimedOut else match r with Ok o => Ok o | Err _ => Err TimedOut end)
    end
  else Some (true, Err TimedOut).

(** ** Requests and answers as bytes *)

Section binary.
Context `{CompressApi}.

(** [rpc_to_binary]; the result of [compress] is not looked at. *)
Definition rpc_to_binary (level version uid timeout : Z) (body : list Z) : list Z :=
  let head := [Z.lor (Z.land (Z.shiftl level 5) 0xff) (Z.land version 0x1f);
    Z.land uid 0xff; Z.land (Z.shiftr uid 8) 0xff; Z.land (Z.shiftr uid 16) 0xff; Z.land (Z.shiftr uid 24) 0xff;
    timeout] in
  if (level =? 0)%Z then head ++ body else head ++ (compress body).1.

(** [binary_to_rpc] *)
Definition binary_to_rpc (bin : list Z) : option (Z * option (list Z)) :=
  match bin with
  | b0 :: b1 :: b2 :: b3 :: b4 :: _ :: ((_ :: _) as body) =>
      let uid := rid_of b1 b2 b3 b4 in
      if (Z.shiftr b0 5 =? 0)%Z then Some (uid, Some body)
      else match uncompress body with
           | (buf, true) => Some (uid, Some buf)
           | (_, false) => None
           end
  | _ => None
  end.
End binary.

(** The [BufWriter] of [packet_to_binary] writes to an empty slice: what does not fit its
    own buffer is an error. *)
Definition BUF_WRITER_CAPACITY : nat := Z.to_nat 8192.

Definition packet_to_binary `{PacketCodec} (p : Packet) : io_result (list Z) :=
  match write_packet p with
  | Some bin => if decide (length bin <= BUF_WRITER_CAPACITY) then Ok bin else Err InvalidData
  | None => Err InvalidData
  end.
Definition binary_to_packet `{PacketCodec} (bin : list Z) : io_result Packet :=
  match read_packet bin with Some p => Ok p | None => Err InvalidData end.

(** ** Callbacks, tasks, the client *)

(** An entry of the table of answers: the closure that [request] makes for the key as its
    [uid], or the one [connect] makes; [user] names the application's callback in it. *)
Inductive Entry :=
| EReceive (user : nat)
| EClosed (user : nat).

Inductive Callback :=
| CbUser (user : nat)                                    (* calls [user], no more is expected *)
| CbEntry (uid : Z) (e : Entry)
| CbRequest (uid : Z) (t : option Z) (start : Z)         (* [request_callback] *)
| CbNoop.

Inductive Task :=
| TConnect (p : Packet) (timeout : option Z) (cb : Callback)
| TAck (p : Packet) (with_id : bool) (timeout : option Z) (cb : Callback)  (* subscribe, unsubscribe, ping *)
| TPublish (p : Packet) (cb : Callback)
| TDisconnect (cb : Callback)
| TReceive (topic : option string) (id : option Z) (timeout : option Z) (start : Z) (cb : Callback).

Record Client := mkClient {
  status : WSClientStatus;
  client : bool;                       (* [Option<Client>] is [Some] *)
  next_uid : Z;                        (* [AtomicU32] *)
  packet_id : Z;                       (* [pkid] *)
  resp_tab : gmap Z Entry;
  queue : list Task;
  pool : list Task;
  sent : list (list Z);
  now : Z;
  calls : list (nat * io_result (option (list Z)));   (* calls of the application's callbacks *)
}.

(** What the connection does while a task runs, and the milliseconds that takes. *)
Record Run := mkRun {
  run_connect : io_result unit;
  run_send : bool;
  run_recv : list recv_step;
  run_elapsed : Z;
}.

(** The package mqtt311: [PacketIdentifier::zero] and [next]. *)
Class PacketIds := { pk_zero : Z; pk_next : Z -> Z }.

Section client.
Context `{PacketCodec} `{CompressApi} `{PacketIds}.
Implicit Types c : Client.

Definition set_status x c : Client :=
  mkClient x (client c) (next_uid c) (packet_id c) (resp_tab c) (queue c) (pool c) (sent c) (now c) (calls c).
Definition set_next_uid x c : Client :=
  mkClient (status c) (client c) x (packet_id c) (resp_tab c) (queue c) (pool c) (sent c) (now c) (calls c).
Definition set_resp_tab x c : Client :=
  mkClient (status c) (client c) (next_uid c) (packet_id c) x (queue c) (pool c) (sent c) (now c) (calls c).
Definition set_queue x c : Client :=
  mkClient (status c) (client c) (next_uid c) (packet_id c) (resp_tab c) x (pool c) (sent c) (now c) (calls c).
Definition set_pool x c : Client :=
  mkClient (status c) (client c) (next_uid c) (packet_id c) (resp_tab c) (queue c) x (sent c) (now c) (calls c).
Definition set_now x c : Client :=
  mkClient (status c) (client c) (next_uid c) (packet_id c) (resp_tab c) (queue c) (pool c) (sent c) x (calls c).
Definition call_user (user : nat) r c : Client :=
  mkClient (status c) (client c) (next_uid c) (packet_id c) (resp_tab c) (queue c) (pool c) (sent c) (now c)
    (calls c ++ [(user, r)]).

(** [send_packet] over [send_bin]. *)
Definition send_bin (run : Run) (bin : list Z) c : Client * io_result unit :=
  match status c with
  | Connected =>
      if run_send run
      then (mkClient (status c) (client c) (next_uid c) (packet_id c) (resp_tab c) (queue c) (pool c) (sent c ++ [bin])
              (now c) (calls c), Ok tt)
      else (c, Err InvalidData)
  | _ => (c, Err Prelude.NotConnected)
  end.
Definition send_packet (run : Run) (p : Packet) c : Client * io_result unit :=
  match packet_to_binary p with
  | Ok bin => send_bin run bin c
  | Err e => (c, Err e)
  end.

(** [SharedWSClient::connect], [close] *)
Definition ws_connect (run : Run) c : Client * io_result unit :=
  match status c with
  | Connected => (c, Err AlreadyExists)
  | _ =>
      match run_connect run with
      | Ok _ => (mkClient Connected true (next_uid c) (packet_id c) (resp_tab c) (queue c) (pool c) (sent c) (now c) (calls c), Ok tt)
      | Err e => (c, Err e)
      end
  end.
Definition ws_close (run : Run) c : Client * io_result unit :=
  match status c with
  | Connected => (set_status Closed c, if run_send run then Ok tt else Err InvalidData)
  | _ => (c, Ok tt)
  end.

(** [recv_packet] with [SharedWSClient::receive]: a task behind the others; without a client
    [unwrap] panics. *)
Definition recv_packet (topic : option string) (id timeout : option Z) (cb : Callback) c : outcome Client :=
  if client c then Done (set_queue (queue c ++ [TReceive topic id timeout (now c) cb]) c) else Panic.

(** [t.checked_sub(now.elapsed().as_millis() as u32)] *)
Definition time_left (t start : Z) c : option Z :=
  let elapsed := wrap 32 (now c - start) in
  if (elapsed <=? t)%Z then Some (t - elapsed)%Z else None.

(** ** Running a callback *)

(** An answer for the entry's own request. *)
Definition own_answer (uid : Z) (user : nat) (answer : option (list Z)) c : Client :=
  set_resp_tab (delete uid (resp_tab (call_user user (Ok answer) c))) (call_user user (Ok answer) c).

(** The closures of the table: [true] to go on receiving. *)
Definition run_entry (uid : Z) (e : Entry) (r : io_result (option (list Z))) c : Client * bool :=
  match e with
  | EClosed user => (call_user user r c, false)
  | EReceive user =>
      match r with
      | Err k => (call_user user (Err k) c, false)
      | Ok None => (c, true)
      | Ok (Some bin) =>
          match binary_to_rpc bin with
          | Some (id, answer) =>
              if (id =? uid)%Z then (own_answer uid user answer c, false)
              else match resp_tab c !! id with
                   | Some (EReceive user') => (own_answer id user' answer c, false)
                   | Some (EClosed user') => (call_user user' r c, false)
                   | None => (c, true)
                   end
          | None => (c, true)
          end
      end
  end.

Definition entry_of (uid : Z) c : Callback :=
  match resp_tab c !! uid with Some e => CbEntry uid e | None => CbNoop end.

Definition run_simple (cb : Callback) (r : io_result (option (list Z))) c : Client * bool :=
  match cb with
  | CbUser user => (call_user user r c, false)
  | CbEntry uid e => run_entry uid e r c
  | _ => (c, false)
  end.

Definition run_callback (cb : Callback) (r : io_result (option (list Z))) c : outcome (Client * bool) :=
  match cb with
  | CbRequest uid t start =>
      match r with
      | Err e => Done ((run_simple (entry_of uid c) (Err e) c).1, false)
      | Ok _ =>
          match t with
          | None => c' ← recv_packet (Some RPC_RESPONSE_TOPIC) None None (entry_of uid c) c; Done (c', false)
          | Some t =>
              match time_left t start c with
              | None => Done ((run_simple (entry_of uid c) (Err TimedOut) c).1, false)
              | Some t' => c' ← recv_packet (Some RPC_RESPONSE_TOPIC) None (Some t') (entry_of uid c) c; Done (c', false)
              end
          end
      end
  | _ => Done (run_simple cb r c)
  end.

(** A callback whose answer is dropped. *)
Definition notify (cb : Callback) (r : io_result (option (list Z))) c : outcome Client :=
  r ← run_callback cb r c; Done r.1.

(** [handle_recv]: without a topic a published message is dropped, and nobody is told. *)
Definition handle_recv (topic : option string) (id : option Z) (bin : list Z) (timeout : option Z) (cb : Callback) c
    : outcome Client :=
  let wrong (k : Z) := match id with Some id => negb (k =? id)%Z | None => false end in
  match binary_to_packet bin with
  | Ok (PConnack _ CodeAccepted) => notify cb (Ok None) c
  | Ok (PConnack _ _) => notify cb (Err ConnectionRefused) c
  | Ok (PSuback pkid codes) =>
      if wrong pkid then notify cb (Err Other) c
      else if forallb (fun code => match code with SubSuccess _ => true | SubFailure => false end) codes
      then notify cb (Ok None) c else notify cb (Err Other) c
  | Ok (PUnsuback pkid) => if wrong pkid then notify cb (Err Other) c else notify cb (Ok None) c
  | Ok PPingresp => notify cb (Ok None) c
  | Ok (PPublish msg) =>
      match topic with
      | Some name =>
          if decide (topic_name msg = name) then
            '(c, more) ← run_callback cb (Ok (Some (payload msg))) c;
            if (more : bool) then recv_packet (Some name) id timeout cb c else Done c
          else notify cb (Err ConnectionRefused) c
      | None => Done c
      end
  | _ => notify cb (Err Other) c
  end.

(** ** Running a task *)

Definition run_task (run : Run) (t : Task) c : outcome Client :=
  let c := set_now (now c + run_elapsed run)%Z c in
  match t with
  | TConnect p timeout cb =>
      match ws_connect run c with
      | (c, Err e) => notify cb (Err e) c
      | (c, Ok _) =>
          match send_packet run p c with
          | (c, Err e) => notify cb (Err e) c
          | (c, Ok _) => recv_packet None None timeout cb c
          end
      end
  | TAck p with_id timeout cb =>
      match send_packet run p c with
      | (c, Err e) => notify cb (Err e) c
      | (c, Ok _) => recv_packet None (if with_id then Some (packet_id c) else None) timeout cb c
      end
  | TPublish p cb =>
      match send_packet run p c with
      | (c, Err e) => notify cb (Err e) c
      | (c, Ok _) => notify cb (Ok None) c
      end
  | TDisconnect cb =>
      let '(c, r) := send_packet run PDisconnect c in
      let '(c, closed) := ws_close run c in
      match closed, r with
      | Err e, _ | Ok _, Err e => notify cb (Err e) c
      | Ok _, Ok _ => notify cb (Ok None) c
      end
  | TReceive topic id timeout start cb =>
      match preemptive_receive true (run_recv run) with
      | None => Blocked
      | Some (_, Err e) => notify cb (Err e) c
      | Some (_, Ok None) => notify cb (Err InvalidInput) c
      | Some (_, Ok (Some bin)) =>
          match timeout with
          | None => handle_recv topic id bin None cb c
          | Some t =>
              match time_left t start c with
              | None => notify cb (Err TimedOut) c
              | Some t' => handle_recv topic id bin (Some t') cb c
              end
          end
      end
  end.

(** The next task of the queue; the one after it when it is done ([unlock_net_task_queue]). *)
Definition run_queue (run : Run) c : outcome Client :=
  match queue c with
  | [] => Blocked
  | t :: q => run_task run t (set_queue q c)
  end.
(** Task [i] of the pool. *)
Definition run_pool (run : Run) (i : nat) c : outcome Client :=
  match pool c !! i with
  | None => Blocked
  | Some t => run_task run t (set_pool (take i (pool c) ++ drop (S i) (pool c)) c)
  end.
Fixpoint run_queue_all (runs : list Run) c : outcome Client :=
  match runs with
  | [] => Done c
  | run :: runs => c ← run_queue run c; run_queue_all runs c
  end.

(** ** [SharedMqttClient] *)

Definition to_pool (t : Task) c : Client := set_pool (pool c ++ [t]) c.
Definition to_queue (t : Task) c : Client := set_queue (queue c ++ [t]) c.

Definition mqtt_connect (level : option Z) (keep_alive : Z) (client_id : string) (clean_session : bool)
    (username password : option string) (timeout : option Z) (cb : Callback) c : Client :=
  to_pool (TConnect (PConnect (mkConnect (default MQTT311 level) keep_alive client_id clean_session None username password))
    timeout cb) c.
(** [pkid.next()] does not change [pkid]. *)
Definition mqtt_subscribe (topics : list string) (timeout : option Z) (cb : Callback) c : Client :=
  to_pool (TAck (PSubscribe (pk_next (packet_id c)) ((fun t => mkSubscribeTopic t 0) <$> topics)) true timeout cb) c.
Definition mqtt_unsubscribe (topics : list string) (timeout : option Z) (cb : Callback) c : Client :=
  to_pool (TAck (PUnsubscribe (pk_next (packet_id c)) topics) true timeout cb) c.
Definition mqtt_publish (topic : string) (bin : list Z) (cb : Callback) c : Client :=
  to_queue (TPublish (PPublish (mkPublish false 0 false topic None bin)) cb) c.
Definition mqtt_ping (timeout : option Z) (cb : Callback) c : Client := to_pool (TAck PPingreq false timeout cb) c.
Definition mqtt_receive (topic : string) (timeout : option Z) (cb : Callback) c : outcome Client :=
  recv_packet (Some topic) None timeout cb c.
Definition mqtt_disconnect (cb : Callback) c : Client := to_pool (TDisconnect cb) c.

(** ** [RPCClient] *)

(** [create], for an url without a client. *)
Definition new_client : Client := mkClient NotConnected false 1 pk_zero ∅ [] [] [] 0 [].

Definition rpc_client_connect (keep_alive : Z) (client_id : string) (timeout : Z) (connect_callback closed_callback : nat) c
    : Client :=
  mqtt_connect None keep_alive client_id true None None (Some (timeout * 1000)%Z) (CbUser connect_callback)
    (set_resp_tab (<[0%Z := EClosed closed_callback]> (resp_tab c)) c).
Definition register (cmd_list : list string) (timeout : Z) (user : nat) c : Client :=
  mqtt_subscribe cmd_list (if (timeout =? 0)%Z then None else Some (timeout * 1000)%Z) (CbUser user) c.
Definition request (cmd : string) (body : list Z) (timeout : Z) (user : nat) c : Client :=
  let uid := next_uid c in
  let t := if (timeout =? 0)%Z then None else Some (timeout * 1000)%Z in
  let c := set_resp_tab (<[uid := EReceive user]> (resp_tab c)) (set_next_uid (wrap 32 (uid + 1)) c) in
  mqtt_publish cmd (rpc_to_binary 0 0 uid timeout body) (CbRequest uid t (now c)) c.
Definition rpc_client_close c : Client :=
  match resp_tab c !! 0%Z with
  | Some e => mqtt_disconnect (CbEntry 0 e) (set_resp_tab (delete 0%Z (resp_tab c)) c)
  | None => mqtt_disconnect CbNoop c
  end.

(** ** Feeding the client *)

(** The connection gives a message, or takes a packet. *)
Definition frame_run (m : list Z) : Run := mkRun (Ok tt) true [Frame m false] 0.
Definition send_run : Run := mkRun (Ok tt) true [] 0.

(** Messages are read while a task receives; the others stay in the connection. *)
Fixpoint deliver (ms : list (list Z)) c : outcome (Client * list (list Z)) :=
  match ms with
  | [] => Done (c, [])
  | m :: ms' =>
      match queue c with
      | [] => Done (c, ms)
      | _ => c ← run_queue (frame_run m) c; deliver ms' c
      end
  end.

(** The id and the body of an answer in a message. *)
Definition answer_of (m : list Z) : option (Z * option (list Z)) :=
  match read_packet m with
  | Some (PPublish msg) => if decide (topic_name msg = RPC_RESPONSE_TOPIC) then binary_to_rpc (payload msg) else None
  | _ => None
  end.

(** Requests without a timeout: the command, the body and the application's callback. *)
Definition request_all (reqs : list (string * list Z * nat)) c : Client :=
  foldl (fun c r => request r.1.1 r.1.2 0 r.2 c) c reqs.
End client.

(** ** Answers reach their requests *)

Section answers.
Context `{PacketCodec} `{CompressApi} `{PacketIds}.
Implicit Types (c : Client) (issued open : gmap Z nat).

Definition receiver issued (t : Task) : Prop :=
  exists start uid user, t = TReceive (Some RPC_RESPONSE_TOPIC) None None start (CbEntry uid (EReceive user)) /\
    issued !! uid = Some user.

(** Every request without an answer has its entry, and there are as many receiving tasks as
    such requests, though not always their own ones. *)
Record waiting issued open c : Prop := {
  wt_client : client c = true;
  wt_queue : Forall (receiver issued) (queue c);
  wt_tab id : id <> 0%Z -> resp_tab c !! id = EReceive <$> open !! id;
  wt_sub : open ⊆ issued;
  wt_size : length (queue c) = size open;
}.

(** What an answer does that a task without a timeout receives. *)
Lemma run_answer c m id answer start uid user q :
  queue c = TReceive (Some RPC_RESPONSE_TOPIC) None None start (CbEntry uid (EReceive user)) :: q ->
  answer_of m = Some (id, answer) ->
  let c0 := set_now (now c + 0)%Z (set_queue q c) in
  run_queue (frame_run m) c =
    if (id =? uid)%Z then Done (own_answer uid user answer c0)
    else match resp_tab c !! id with
         | Some (EReceive user') => Done (own_answer id user' answer c0)
         | Some (EClosed _) => run_queue (frame_run m) c
         | None => recv_packet (Some RPC_RESPONSE_TOPIC) None None (CbEntry uid (EReceive user)) c0
         end.
Proof.
  intros Eq Ha. unfold answer_of in Ha. destruct (read_packet m) as [[]|] eqn:Er; try done. case_decide as Et; [|done].
  unfold run_queue. rewrite Eq. cbn -[binary_to_rpc wrap]. unfold handle_recv, binary_to_packet.
  rewrite Er. cbn -[binary_to_rpc]. rewrite decide_True by done. rewrite Ha.
  destruct (id =? uid)%Z; [done|]. by destruct (resp_tab c !! id) as [[]|].
Qed.

Lemma run_frame_answer issued open c m id answer :
  waiting issued open c -> queue c <> [] -> answer_of m = Some (id, answer) -> id <> 0%Z ->
  match open !! id with
  | Some user => exists c', run_queue (frame_run m) c = Done c' /\ waiting issued (delete id open) c' /\
      calls c' = calls c ++ [(user, Ok answer)] /\ resp_tab c' = delete id (resp_tab c)
  | None => issued !! id = None -> exists c', run_queue (frame_run m) c = Done c' /\ waiting issued open c' /\
      calls c' = calls c /\ resp_tab c' = resp_tab c
  end.
Proof.
  intros [Hcl Hq Htab Hsub Hsz] Hne Ha Hid. destruct (queue c) as [|t q] eqn:Eq; [done|].
  apply Forall_cons in Hq as ((start & uid & user & -> & Hu) & Hq).
  pose proof (run_answer _ _ _ _ _ _ _ _ Eq Ha) as ->. rewrite (Htab id Hid).
  destruct (open !! id) as [user'|] eqn:Eo; [|intros Hi].
  - eassert (issued !! id = Some user') as Hi by (by eapply lookup_weaken).
    assert (size (delete id open) = length q) as Hsz'.
    { rewrite map_size_delete, Eo. cbn in Hsz. lia. }
    destruct (id =? uid)%Z eqn:Eid; [apply Z.eqb_eq in Eid; subst uid; simplify_eq|].
    all: cbn; eexists; split; [reflexivity|]; split; [|done]; split; cbn; try done.
    all: try (intros id' Hid'; destruct (decide (id' = id)) as [->|]; [by rewrite !lookup_delete_eq|by rewrite !lookup_delete_ne, Htab]).
    all: by etrans; [apply delete_subseteq|].
  - destruct (id =? uid)%Z eqn:Eid; [apply Z.eqb_eq in Eid; congruence|].
    cbn. unfold recv_packet. cbn. rewrite Hcl. eexists. split; [reflexivity|].
    split; [|done]. split; cbn; try done.
    + apply Forall_app. split; [done|]. apply Forall_singleton. by exists (now c + 0)%Z, uid, user.
    + rewrite length_app. cbn in *. lia.
Qed.

Definition known issued (m : list Z) : option (nat * io_result (option (list Z))) :=
  '(id, answer) ← answer_of m; user ← issued !! id; Some (user, Ok answer).
Definition ids_of (ms : list (list Z)) : list Z := omap (fun m => fst <$> answer_of m) ms.

(** Every message answers some request, none twice. *)
Definition answers_to issued (ms : list (list Z)) : Prop :=
  Forall (fun m => exists id answer, answer_of m = Some (id, answer) /\ id <> 0%Z) ms /\
  NoDup (filter (fun id => is_Some (issued !! id)) (ids_of ms)).

Lemma known_answer issued m id answer : answer_of m = Some (id, answer) ->
  known issued m = user ← issued !! id; Some (user, Ok answer).
Proof. intros Ha. unfold known. by rewrite Ha. Qed.

Lemma answers_to_cons issued m ms : answers_to issued (m :: ms) ->
  exists id answer, answer_of m = Some (id, answer) /\ id <> 0%Z /\ answers_to issued ms /\
    ids_of (m :: ms) = id :: ids_of ms /\ (is_Some (issued !! id) -> id ∉ ids_of ms).
Proof.
  intros [Hall Hnd]. apply Forall_cons in Hall as ((id & answer & Ha & Hid) & Hall).
  assert (ids_of (m :: ms) = id :: ids_of ms) as Ei by (unfold ids_of; cbn; by rewrite Ha).
  exists id, answer. rewrite Ei, filter_cons in Hnd. case_decide as Hi.
  - apply NoDup_cons in Hnd as [Hn Hnd]. split_and!; try done. intros _ Hin. apply Hn.
    by apply list_elem_of_filter.
  - by split_and!.
Qed.

Lemma none_known issued ms : answers_to issued ms -> (forall id, id ∈ ids_of ms -> issued !! id = None) ->
  omap (known issued) ms = [].
Proof.
  induction ms as [|m ms IH]; intros Hms Hn; [done|].
  destruct (answers_to_cons _ _ _ Hms) as (id & answer & Ha & _ & Hms' & Ei & _). rewrite Ei in Hn.
  cbn. rewrite (known_answer _ _ _ _ Ha), Hn by set_solver. cbn. apply IH; [done|set_solver].
Qed.

Lemma deliver_answers issued ms : forall open c,
  waiting issued open c -> answers_to issued ms ->
  (forall id, id ∈ ids_of ms -> is_Some (issued !! id) -> is_Some (open !! id)) ->
  exists c' rest open', deliver ms c = Done (c', rest) /\ waiting issued open' c' /\
    calls c' = calls c ++ omap (known issued) ms /\
    (forall id, open' !! id = if decide (id ∈ ids_of ms) then None else open !! id) /\
    (forall id, is_Some (open !! id) -> resp_tab c' !! id = if decide (id ∈ ids_of ms) then None else resp_tab c !! id) /\
    (forall id, open !! id = None -> resp_tab c' !! id = resp_tab c !! id).
Proof.
  induction ms as [|m ms IH]; intros open c Hw Hms Hopen.
  { exists c, [], open. cbn. rewrite app_nil_r. split_and!; try done; intros id; by rewrite decide_False by set_solver. }
  pose proof (answers_to_cons _ _ _ Hms) as (id & answer & Ha & Hid & Hms' & Eids & Hfresh).
  cbn [deliver]. destruct (queue c) as [|t q] eqn:Eq.
  - assert (open = ∅) as -> by (apply map_size_empty_inv; by rewrite <-(wt_size _ _ _ Hw), Eq).
    exists c, (m :: ms), ∅. split_and!; try done.
    + rewrite (none_known issued (m :: ms)); [by rewrite app_nil_r|done|].
      intros i Hi. apply eq_None_not_Some. intros Hs. by destruct (Hopen i Hi Hs).
    + intros i. rewrite lookup_empty. by case_decide.
    + by intros i [].
  - rewrite Eids in *. pose proof (run_frame_answer issued open c m id answer Hw ltac:(by rewrite Eq) Ha Hid) as Hrun.
    destruct (open !! id) as [user|] eqn:Eo.
    + destruct Hrun as (c1 & -> & Hw1 & Hc1 & Ht1). cbn.
      assert (issued !! id = Some user) as Hi by (eapply lookup_weaken, (wt_sub _ _ _ Hw); done).
      destruct (IH (delete id open) c1 Hw1 Hms') as (c' & rest & open' & Hd & Hw' & Hc' & Ho' & Ht' & Hu').
      { intros i Hin Hs. rewrite lookup_delete_ne by (intros ->; by apply (Hfresh Hs)). apply Hopen; [set_solver|done]. }
      exists c', rest, open'. rewrite Hd, Hc', Hc1, (known_answer _ _ _ _ Ha), Hi, <-app_assoc. split_and!; try done.
      * intros i. rewrite Ho'. destruct (decide (i = id)) as [->|Hne].
        -- rewrite lookup_delete_eq, (decide_True (P := id ∈ id :: _)) by set_solver. by case_decide.
        -- rewrite lookup_delete_ne by done. apply decide_ext. set_solver.
      * intros i Hs. destruct (decide (i = id)) as [->|Hne].
        -- rewrite (Hu' id), Ht1, lookup_delete_eq, decide_True by (apply lookup_delete_eq || set_solver). done.
        -- rewrite Ht', Ht1, lookup_delete_ne by (done || by rewrite lookup_delete_ne). apply decide_ext. set_solver.
      * intros i Hn. rewrite Hu', Ht1 by (apply lookup_delete_None; auto). apply lookup_delete_ne. congruence.
    + assert (issued !! id = None) as Hi.
      { apply eq_None_not_Some. intros Hs. destruct (Hopen id ltac:(set_solver) Hs). congruence. }
      destruct (Hrun Hi) as (c1 & -> & Hw1 & Hc1 & Ht1). cbn.
      destruct (IH open c1 Hw1 Hms') as (c' & rest & open' & Hd & Hw' & Hc' & Ho' & Ht' & Hu').
      { intros i Hin Hs. apply Hopen; [set_solver|done]. }
      exists c', rest, open'. rewrite Hd, Hc', Hc1, (known_answer _ _ _ _ Ha), Hi. rewrite Ht1 in *. split_and!; try done.
      * intros i. rewrite Ho'. destruct (decide (i = id)) as [->|Hne]; [rewrite Eo; by repeat case_decide|].
        apply decide_ext. set_solver.
      * intros i Hs. rewrite Ht' by done. destruct (decide (i = id)) as [->|Hne]; [rewrite Eo in Hs; by destruct Hs|].
        apply decide_ext. set_solver.
Qed.

(** The requests by the ids they get, and their publications. *)
Fixpoint issued_of (uid : Z) (reqs : list (string * list Z * nat)) : gmap Z nat :=
  match reqs with
  | [] => ∅
  | r :: reqs => <[uid := r.2]> (issued_of (uid + 1) reqs)
  end.
Definition publication (uid : Z) (r : string * list Z * nat) : Packet :=
  PPublish (mkPublish false 0 false r.1.1 None (rpc_to_binary 0 0 uid 0 r.1.2)).
Fixpoint publications (start uid : Z) (reqs : list (string * list Z * nat)) : list Task :=
  match reqs with
  | [] => []
  | r :: reqs => TPublish (publication uid r) (CbRequest uid None start) :: publications start (uid + 1) reqs
  end.

Lemma issued_range reqs : forall uid id, is_Some (issued_of uid reqs !! id) <-> (uid <= id < uid + Z.of_nat (length reqs))%Z.
Proof.
  induction reqs as [|r reqs IH]; intros uid id; cbn.
  - rewrite lookup_empty, is_Some_alt. lia.
  - rewrite lookup_insert_is_Some, IH. lia.
Qed.

Lemma issued_none reqs uid id : (id < uid)%Z -> issued_of uid reqs !! id = None.
Proof. intros Hlt. apply eq_None_not_Some. rewrite issued_range. lia. Qed.

Lemma issued_size reqs : forall uid, size (issued_of uid reqs) = length reqs.
Proof.
  induction reqs as [|r reqs IH]; intros uid; cbn; [done|].
  by rewrite map_size_insert_None, IH by (apply issued_none; lia).
Qed.

Lemma request_all_issues reqs : forall c, (0 < next_uid c)%Z -> (next_uid c + Z.of_nat (length reqs) < 2 ^ 32)%Z ->
  request_all reqs c =
    mkClient (status c) (client c) (next_uid c + Z.of_nat (length reqs)) (packet_id c)
      ((EReceive <$> issued_of (next_uid c) reqs) ∪ resp_tab c)
      (queue c ++ publications (now c) (next_uid c) reqs) (pool c) (sent c) (now c) (calls c).
Proof.
  induction reqs as [|r reqs IH]; intros c Hlo Hhi; cbn [request_all foldl issued_of publications length] in *.
  - rewrite fmap_empty, (left_id_L ∅ (∪)), app_nil_r, Z.add_0_r. by destruct c.
  - assert (next_uid (request r.1.1 r.1.2 0 r.2 c) = next_uid c + 1)%Z as En.
    { cbn. unfold wrap. apply Z.mod_small. lia. }
    unfold request_all in IH. rewrite IH; rewrite ?En; [|lia..]. destruct c; cbn in *. f_equal; [lia| |].
    + rewrite fmap_insert, <-insert_union_l. rewrite insert_union_r; [done|].
      rewrite lookup_fmap, issued_none by lia. done.
    + by rewrite <-app_assoc.
Qed.

(** A publication of the queue whose entry is there: its receiving task follows. *)
Lemma run_publication c p uid t t' start q bin e :
  queue c = TPublish p (CbRequest uid t start) :: q -> client c = true -> status c = Connected ->
  packet_to_binary p = Ok bin -> resp_tab c !! uid = Some e ->
  match t with None => t' = None | Some t => is_Some t' /\ t' = time_left t start c end ->
  run_queue send_run c =
    Done (mkClient Connected true (next_uid c) (packet_id c) (resp_tab c)
      (q ++ [TReceive (Some RPC_RESPONSE_TOPIC) None t' (now c) (CbEntry uid e)])
      (pool c) (sent c ++ [bin]) (now c) (calls c)).
Proof.
  intros Hq Hcl Hst Ep Hu Ht. unfold run_queue. rewrite Hq. cbn -[wrap]. unfold send_packet. rewrite Ep.
  unfold send_bin. cbn -[wrap]. rewrite Hst. cbn -[wrap]. unfold entry_of. cbn -[wrap]. rewrite Hu, Z.add_0_r.
  destruct t as [t|]; [|subst t'; unfold recv_packet; cbn; by rewrite Hcl].
  destruct Ht as [[t'' ->] Ht]. unfold time_left in *. cbn -[wrap].
  destruct (_ <=? t)%Z; [|done]. simplify_eq. unfold recv_packet. cbn -[wrap]. by rewrite Hcl.
Qed.

Lemma send_all reqs : forall uid start c q,
  queue c = publications start uid reqs ++ q -> client c = true -> status c = Connected ->
  (forall id user, issued_of uid reqs !! id = Some user -> resp_tab c !! id = Some (EReceive user)) ->
  (forall id r, r ∈ reqs -> is_ok (packet_to_binary (publication id r)) = true) ->
  exists c' rs, run_queue_all (repeat send_run (length reqs)) c = Done c' /\ queue c' = q ++ rs /\
    length rs = length reqs /\ Forall (receiver (issued_of uid reqs)) rs /\
    client c' = true /\ resp_tab c' = resp_tab c /\ calls c' = calls c.
Proof.
  induction reqs as [|r reqs IH]; intros uid start c q Hq Hcl Hst Htab Henc.
  { exists c, []. cbn in *. rewrite app_nil_r. by split_and!. }
  cbn [publications app length repeat run_queue_all issued_of] in *.
  pose proof (Henc uid r ltac:(set_solver)) as He. destruct (packet_to_binary (publication uid r)) as [bin|] eqn:Ep; [|done].
  pose proof (Htab uid r.2 ltac:(apply lookup_insert_eq)) as Hu.
  rewrite (run_publication c (publication uid r) uid None None start _ bin (EReceive r.2)) by done. cbn.
  match goal with |- context [run_queue_all _ ?x] => set (c1 := x) end.
  destruct (IH (uid + 1)%Z start c1 (q ++ [TReceive (Some RPC_RESPONSE_TOPIC) None None (now c)
    (CbEntry uid (EReceive r.2))])) as (c' & rs & Hrun & Hq' & Hlen & Hrs & Hcl' & Htab' & Hcalls').
  - cbn. by rewrite <-app_assoc.
  - done.
  - done.
  - intros id user Hid. apply Htab. rewrite lookup_insert_ne; [done|]. intros <-.
    rewrite issued_none in Hid by lia. done.
  - set_solver.
  - exists c', (TReceive (Some RPC_RESPONSE_TOPIC) None None (now c) (CbEntry uid (EReceive r.2)) :: rs).
    rewrite Hq', <-app_assoc. split_and!; try done; [cbn; lia|].
    apply Forall_cons. split; [exists (now c), uid, r.2; by rewrite lookup_insert_eq|].
    eapply Forall_impl; [exact Hrs|]. intros t (st & id & user & -> & Hid). exists st, id, user.
    split; [done|]. rewrite lookup_insert_ne; [done|]. intros <-. by rewrite issued_none in Hid by lia.
Qed.

(** C5: Requests without a timeout that are all sent before an answer comes, on a connected
    client with nothing else to do and each within the 8192 bytes a packet may have, are all
    answered, in whatever order the answers come and whichever task receives them: when
    every request is answered once, among answers to other ids that nobody asked for, none of
    them 0, each request's callback is called exactly with its own answer, in the order of
    the answers, and in the end no task waits and the table is as before. *)
Theorem requests_answered reqs ms c :
  client c = true -> status c = Connected -> queue c = [] ->
  (forall id, id <> 0%Z -> resp_tab c !! id = None) ->
  (0 < next_uid c)%Z -> (next_uid c + Z.of_nat (length reqs) < 2 ^ 32)%Z ->
  (forall id r, r ∈ reqs -> is_ok (packet_to_binary (publication id r)) = true) ->
  let issued := issued_of (next_uid c) reqs in
  answers_to issued ms -> (forall id, is_Some (issued !! id) -> id ∈ ids_of ms) ->
  exists c1 c' rest, run_queue_all (repeat send_run (length reqs)) (request_all reqs c) = Done c1 /\
    deliver ms c1 = Done (c', rest) /\ calls c' = calls c ++ omap (known issued) ms /\
    queue c' = [] /\ resp_tab c' = resp_tab c.
Proof.
  intros Hcl Hst Hq Htab Hlo Hhi Henc issued Hms Hall. rewrite request_all_issues by done.
  assert (forall id, issued !! id = None \/ resp_tab c !! id = None) as Hd.
  { intros id. destruct (decide (id = 0%Z)) as [->|]; [left; apply issued_none; lia|right; by apply Htab]. }
  match goal with |- exists _ _ _, run_queue_all _ ?x = _ /\ _ => set (c0 := x) end.
  destruct (send_all reqs (next_uid c) (now c) c0 []) as (c1 & rs & Hrun & Hq1 & Hlen & Hrs & Hcl1 & Htab1 & Hcalls1).
  { cbn. by rewrite Hq, app_nil_r. }
  1-2: done.
  { intros id user Hid. cbn. rewrite lookup_union, lookup_fmap, Hid. by destruct (resp_tab c !! id). }
  { done. }
  cbn in Hq1, Htab1, Hcalls1. exists c1.
  destruct (deliver_answers issued ms issued c1) as (c' & rest & open' & Hdel & Hw & Hcalls & Hopen & Ht & Hu).
  - split; [done|by rewrite Hq1| |done|unfold issued; by rewrite Hq1, issued_size].
    intros id Hid. rewrite Htab1, lookup_union, lookup_fmap, (Htab _ Hid). unfold issued. by destruct (issued_of _ _ !! id).
  - done.
  - done.
  - assert (open' = ∅) as ->.
    { apply map_empty. intros id. rewrite Hopen. case_decide as Hin; [done|]. apply eq_None_not_Some. auto. }
    exists c', rest. rewrite Hcalls, Hcalls1. split_and!; try done.
    + apply length_zero_iff_nil. by rewrite (wt_size _ _ _ Hw).
    + apply map_eq. intros id. destruct (issued !! id) eqn:Ei.
      * rewrite Ht, decide_True by eauto. destruct (Hd id); congruence.
      * rewrite Hu, Htab1, lookup_union, lookup_fmap by done. unfold issued in Ei. rewrite Ei. by destruct (resp_tab c !! id).
Qed.
End answers.

(** ** What goes wrong *)

Section failures.
Context `{PacketCodec} `{CompressApi} `{PacketIds}.
Implicit Types c : Client.

(** The timer ends a receiving task. *)
Definition timeout_run : Run := mkRun (Ok tt) true [Fire] 0.

(** C6: When a request has timed out its entry stays, so its late answer takes the receiving
    task of another request: the first callback is called a second time, and when the answer
    to the other request comes, which waits without a timeout, no task is left to read it: it stays
    unread, its callback has not been called and its entry is still in the table. *)
Theorem late_answer_starves c cmd_a cmd_b body_a body_b t user_a user_b m_a m_b answer_a answer_b :
  client c = true -> status c = Connected -> queue c = [] ->
  (0 < next_uid c)%Z -> (next_uid c + 2 < 2 ^ 32)%Z -> (0 < t < 256)%Z ->
  is_ok (packet_to_binary (PPublish (mkPublish false 0 false cmd_a None (rpc_to_binary 0 0 (next_uid c) t body_a)))) = true ->
  is_ok (packet_to_binary (PPublish (mkPublish false 0 false cmd_b None (rpc_to_binary 0 0 (next_uid c + 1) 0 body_b)))) = true ->
  answer_of m_a = Some (next_uid c, answer_a) -> answer_of m_b = Some ((next_uid c + 1)%Z, answer_b) ->
  exists c1 c', run_queue_all [send_run; send_run; timeout_run] (request cmd_b body_b 0 user_b (request cmd_a body_a t user_a c)) = Done c1 /\
    deliver [m_a; m_b] c1 = Done (c', [m_b]) /\
    calls c' = calls c ++ [(user_a, Err TimedOut); (user_a, Ok answer_a)] /\
    queue c' = [] /\ resp_tab c' !! (next_uid c + 1)%Z = Some (EReceive user_b).
Proof.
  intros Hcl Hst Hq Hlo Hhi Ht Ha Hb Hma Hmb. set (u := next_uid c) in *.
  assert (wrap 32 (u + 1) = u + 1)%Z as Hw by (apply Z.mod_small; lia).
  destruct (packet_to_binary (PPublish (mkPublish false 0 false cmd_a _ _))) as [bin_a|] eqn:Ea; [|done].
  destruct (packet_to_binary (PPublish (mkPublish false 0 false cmd_b _ _))) as [bin_b|] eqn:Eb; [|done].
  set (c0 := request cmd_b body_b 0 user_b (request cmd_a body_a t user_a c)).
  assert (resp_tab c0 = <[(u + 1)%Z := EReceive user_b]> (<[u := EReceive user_a]> (resp_tab c))) as Htab.
  { cbn -[wrap]. fold u. by rewrite Hw. }
  assert (time_left (t * 1000) (now c) c0 = Some (t * 1000)%Z) as Hl.
  { unfold time_left. cbn -[wrap Z.mul]. rewrite Z.sub_diag. change (wrap 32 0) with 0%Z.
    rewrite (proj2 (Z.leb_le 0 _)) by lia. f_equal. lia. }
  eassert (queue c0 = _) as Hq0.
  { unfold c0. cbn -[wrap Z.mul rpc_to_binary]. fold u.
    rewrite Hq, Hw, (proj2 (Z.eqb_neq t 0)) by lia. reflexivity. }
  assert (client c0 = true /\ status c0 = Connected /\ calls c0 = calls c /\ now c0 = now c) as (Hcl0 & Hst0 & Hca0 & Hn0)
    by done.
  clearbody c0. unfold run_queue_all.
  rewrite (run_publication c0 _ u _ (Some (t * 1000)%Z) _ _ bin_a (EReceive user_a) Hq0 Hcl0 Hst0 Ea);
    [|rewrite Htab, lookup_insert_ne, lookup_insert_eq by lia; done|by rewrite Hl].
  cbn [mbind outcome_bind].
  match goal with |- context [run_queue send_run ?x] =>
    rewrite (run_publication x _ (u + 1) None None _ _ bin_b (EReceive user_b) eq_refl eq_refl eq_refl Eb) end;
    [|cbn; by rewrite Htab, lookup_insert_eq|done].
  cbn -[Z.mul wrap rpc_to_binary deliver]. eexists. eexists. split; [reflexivity|].
  cbn [deliver queue call_user set_queue set_now].
  match goal with |- context [run_queue (frame_run m_a) ?x] =>
    rewrite (run_answer x m_a u answer_a _ _ _ _ eq_refl Hma) end.
  rewrite (proj2 (Z.eqb_neq u (u + 1))) by lia. cbn.
  rewrite Htab, lookup_insert_ne, lookup_insert_eq by lia. cbn.
  split; [reflexivity|]. cbn. rewrite Hca0, <-app_assoc. split_and!; try done.
  by rewrite lookup_delete_ne, lookup_insert_eq by lia.
Qed.

(** A message that is decoded while the timer fires is lost. *)
Lemma decoded_message_lost msg : preemptive_receive true [Frame msg true] = Some (true, Err TimedOut).
Proof. done. Qed.

(** A published message that arrives while an acknowledgement is waited for is dropped, and the
    waiting callback is never called. *)
Lemma published_for_ack msg bin id timeout cb c :
  read_packet bin = Some (PPublish msg) -> handle_recv None id bin timeout cb c = Done c.
Proof. intros Hr. unfold handle_recv, binary_to_packet. by rewrite Hr. Qed.

(** ** The packet ids *)

Inductive client_step : Client -> Client -> Prop :=
| step_connect keep_alive client_id timeout u1 u2 c : client_step c (rpc_client_connect keep_alive client_id timeout u1 u2 c)
| step_register cmd_list timeout user c : client_step c (register cmd_list timeout user c)
| step_request cmd body timeout user c : client_step c (request cmd body timeout user c)
| step_close c : client_step c (rpc_client_close c)
| step_unsubscribe topics timeout user c : client_step c (mqtt_unsubscribe topics timeout (CbUser user) c)
| step_ping timeout user c : client_step c (mqtt_ping timeout (CbUser user) c)
| step_queue run c c' : run_queue run c = Done c' -> client_step c c'
| step_pool run i c c' : run_pool run i c = Done c' -> client_step c c'
| step_time n c : client_step c (set_now n c).

Lemma run_entry_packet_id uid e r c : packet_id (run_entry uid e r c).1 = packet_id c.
Proof.
  destruct e as [user|user]; [|done]. destruct r as [[bin|]|]; try done. cbn.
  destruct (binary_to_rpc bin) as [[id answer]|]; [|done]. destruct (id =? uid)%Z; [done|].
  by destruct (resp_tab c !! id) as [[]|].
Qed.
Lemma run_simple_packet_id cb r c : packet_id (run_simple cb r c).1 = packet_id c.
Proof. destruct cb; cbn; auto using run_entry_packet_id. Qed.
Lemma recv_packet_packet_id topic id timeout cb c c' :
  recv_packet topic id timeout cb c = Done c' -> packet_id c' = packet_id c.
Proof. unfold recv_packet. destruct (client c); [|done]. by intros [= <-]. Qed.
Lemma run_callback_packet_id cb r c c' b : run_callback cb r c = Done (c', b) -> packet_id c' = packet_id c.
Proof.
  assert (run_simple cb r c = (c', b) -> packet_id c' = packet_id c) as Hs.
  { intros E. pose proof (run_simple_packet_id cb r c) as Hp. by rewrite E in Hp. }
  destruct cb as [| |uid t start|]; cbn [run_callback]; try (intros E; apply Hs; congruence).
  assert (forall e, Done ((run_simple (entry_of uid c) e c).1, false) = Done (c', b) -> packet_id c' = packet_id c) as Hf.
  { intros e [= <- _]. apply run_simple_packet_id. }
  assert (forall l, (c0 ← recv_packet (Some RPC_RESPONSE_TOPIC) None l (entry_of uid c) c; Done (c0, false)) = Done (c', b) ->
    packet_id c' = packet_id c) as Hr.
  { intros l. destruct (recv_packet _ _ _ _ _) eqn:E; try done. intros [= <- _]. by eapply recv_packet_packet_id. }
  destruct r; [|apply Hf]. destruct t as [t|]; [|apply Hr]. destruct (time_left t start c); [apply Hr|apply Hf].
Qed.
Lemma notify_packet_id cb r c c' : notify cb r c = Done c' -> packet_id c' = packet_id c.
Proof.
  unfold notify. destruct (run_callback cb r c) as [[c0 b]| | |] eqn:E; try done. intros [= <-].
  by eapply run_callback_packet_id.
Qed.
Hint Resolve notify_packet_id recv_packet_packet_id : core.
Lemma handle_recv_packet_id topic id bin timeout cb c c' :
  handle_recv topic id bin timeout cb c = Done c' -> packet_id c' = packet_id c.
Proof.
  unfold handle_recv. destruct (binary_to_packet bin) as [p|]; [|eauto].
  destruct p as [| ? []|msg| |pkid codes| |pkid| | | |]; try (by eauto).
  - destruct topic as [name|]; [|by intros [= ->]]. case_decide; [|by eauto].
    destruct (run_callback cb _ c) as [[c0 more]| | |] eqn:E; try done. apply run_callback_packet_id in E as <-.
    cbn. destruct more; [by eauto|by intros [= ->]].
  - destruct (match id with Some _ => _ | None => _ end); [by eauto|]. destruct (forallb _ codes); by eauto.
  - destruct (match id with Some _ => _ | None => _ end); by eauto.
Qed.
Lemma send_packet_packet_id run p c : packet_id (send_packet run p c).1 = packet_id c.
Proof.
  unfold send_packet, send_bin. destruct (packet_to_binary p); [|done]. destruct (status c); [done| |done]. by destruct (run_send run).
Qed.
Lemma run_task_packet_id run t c c' : run_task run t c = Done c' -> packet_id c' = packet_id c.
Proof.
  unfold run_task. set (c0 := set_now _ c). change (packet_id c) with (packet_id c0). clearbody c0.
  assert (forall p c1 r, send_packet run p c0 = (c1, r) -> packet_id c1 = packet_id c0) as Hs.
  { intros p c1 r E. pose proof (send_packet_packet_id run p c0) as Hp. by rewrite E in Hp. }
  destruct t as [p timeout cb|p with_id timeout cb|p cb|cb|topic id timeout start cb].
  - destruct (ws_connect run c0) as [c1 r1] eqn:E1.
    assert (packet_id c1 = packet_id c0) as <-.
    { unfold ws_connect in E1. by destruct (status c0), (run_connect run); simplify_eq. }
    destruct r1; [|by eauto]. pose proof (send_packet_packet_id run p c1) as <-.
    destruct (send_packet run p c1) as [c2 []]; by eauto.
  - destruct (send_packet run p c0) as [c1 []] eqn:E; apply Hs in E as <-; by eauto.
  - destruct (send_packet run p c0) as [c1 []] eqn:E; apply Hs in E as <-; by eauto.
  - destruct (send_packet run PDisconnect c0) as [c1 r] eqn:E; apply Hs in E as <-.
    unfold ws_close. destruct (status c1), (run_send run), r; cbn; intros Hn; apply notify_packet_id in Hn; done.
  - destruct (preemptive_receive true (run_recv run)) as [[f [[bin|]|]]|]; try done; try by eauto.
    destruct timeout as [t|]; [|apply handle_recv_packet_id]. destruct (time_left t start c0); [apply handle_recv_packet_id|by eauto].
Qed.

(** No operation changes the packet id of a client: [next] only computes another one. *)
Lemma packet_id_fixed c : rtc client_step new_client c -> packet_id c = pk_zero.
Proof.
  assert (forall c c', client_step c c' -> packet_id c' = packet_id c) as Hstep.
  { clear c. intros c c' Hs. destruct Hs as [| | |c| | |run c c' Hr|run i c c' Hr|]; try done.
    - unfold rpc_client_close. by destruct (resp_tab c !! 0%Z).
    - unfold run_queue in Hr. destruct (queue c); [done|]. by eapply run_task_packet_id in Hr.
    - unfold run_pool in Hr. destruct (pool c !! i); [|done]. by eapply run_task_packet_id in Hr. }
  intros Hr. change pk_zero with (packet_id new_client). induction Hr; [done|]. etrans; eauto.
Qed.

(** C7: A subscription is refused by the client itself: the packet has the next packet id, the
    acknowledgement with that id is compared with the client's id, which is still zero. *)
Theorem subscribe_refused c cmds timeout user m codes :
  rtc client_step new_client c -> client c = true -> status c = Connected -> queue c = [] ->
  pk_next pk_zero <> pk_zero -> (0 <= timeout < 256)%Z ->
  let packet := PSubscribe (pk_next pk_zero) ((fun t => mkSubscribeTopic t 0) <$> cmds) in
  is_ok (packet_to_binary packet) = true -> read_packet m = Some (PSuback (pk_next pk_zero) codes) ->
  exists bin c1 c2, packet_to_binary packet = Ok bin /\
    run_pool send_run (length (pool c)) (register cmds timeout user c) = Done c1 /\ sent c1 = sent c ++ [bin] /\
    run_queue (frame_run m) c1 = Done c2 /\ calls c2 = calls c ++ [(user, Err Other)] /\ queue c2 = [].
Proof.
  intros Hr Hcl Hst Hq Hpk Ht packet Hp Hm. pose proof (packet_id_fixed c Hr) as Hid.
  destruct (packet_to_binary packet) as [bin|] eqn:Ep; [|done].
  set (t := if (timeout =? 0)%Z then None else Some (timeout * 1000)%Z).
  assert (pool (register cmds timeout user c) !! length (pool c) = Some (TAck packet true t (CbUser user))) as Hpool.
  { cbn -[Z.mul]. rewrite Hid. by apply list_lookup_middle. }
  assert (match t with None => True | Some t => 0 <= t end)%Z as Hpos by (unfold t; destruct (timeout =? 0)%Z; [done|lia]).
  unfold run_pool. rewrite Hpool. unfold run_task, send_packet. rewrite Ep. unfold send_bin.
  cbn -[Z.mul wrap]. rewrite Hst. cbn -[Z.mul wrap]. unfold recv_packet. cbn -[Z.mul wrap]. rewrite Hcl, Hq.
  exists bin. do 2 eexists. split; [done|]. split; [reflexivity|]. cbn -[Z.mul wrap]. split; [done|].
  clearbody t. unfold handle_recv, binary_to_packet. rewrite Hm, Hid, (proj2 (Z.eqb_neq _ _) Hpk). cbn -[wrap].
  destruct t as [t|]; [|eauto]. unfold time_left. cbn -[wrap].
  rewrite Z.add_0_r, Z.sub_diag, (proj2 (Z.leb_le (wrap 32 0) t)) by exact Hpos. eauto.
Qed.
End failures.

(** ** Client and server *)

Section exchange.
Context {W : Type} `{MqttHandle W} `{CompressApi}.
Implicit Types w : RpcWorld W.

(** A request of the client as the server decodes it, and the server's answer as the client
    does. *)
Lemma request_decodes uid timeout body : (0 <= uid < 2 ^ 32)%Z -> body <> [] ->
  exists bin, base_decode (rpc_to_binary 0 0 uid timeout body) = Done (mkBaseCells 0 0 0, Ok bin) /\
    rpc_decode bin = Ok (uid, timeout, body).
Proof.
  intros Hu Hb. eexists. split; [reflexivity|].
  exact (rpc_decode_encode timeout uid body Hu Hb).
Qed.
Lemma answer_decodes uid timeout body : (0 <= uid < 2 ^ 32)%Z -> body <> [] ->
  handle_encode (mkBaseCells 0 0 0) (rpc_encode timeout uid body) = Ok (rpc_to_binary 0 0 uid timeout body) /\
  binary_to_rpc (rpc_to_binary 0 0 uid timeout body) = Some (uid, Some body).
Proof.
  intros Hu Hb. split; [reflexivity|]. destruct body as [|b body]; [done|]. cbn.
  by rewrite rid_roundtrip.
Qed.

(** A request over a connected client: once the listener has made the connection's
    contexts, the service calls the application's handler with the topic, the id and the
    body the client sent, and the handler's reply is one message on the topic "$r" that the client
    decodes to the same id and the answer. *)
Lemma request_reply handlers mc topic uid timeout body answer w :
  connected_handler handlers = true -> request_handler handlers = true ->
  mq_has_session mc (rw_mqtt w) = true -> rw_sessions w !! mc = None ->
  (0 <= uid < 2 ^ 32)%Z -> body <> [] -> answer <> [] ->
  exists w1 w2 a, base_connected (rpc_inner handlers) mc w = (w1, Ok tt) /\
    base_publish (rpc_inner handlers) mc topic (rpc_to_binary 0 0 uid timeout body) w1 = Done (w2, Ok tt) /\
    rw_calls w2 = rw_calls w ++ [CallConnected (default 0%Z (mq_uid mc (rw_mqtt w)));
      CallRequest a topic (mq_remote mc (rw_mqtt w)) uid body] /\
    rpc_reply a uid answer w2 =
      (r ← mq_send mc MQTT_RESPONSE_SYS_TOPIC (rpc_to_binary 0 0 uid timeout answer) (rw_mqtt w); Done (set_mqtt r.1 w2)) /\
    binary_to_rpc (rpc_to_binary 0 0 uid timeout answer) = Some (uid, Some answer).
Proof.
  intros Hch Hrh Hs Hctx Hu Hb Ha. pose proof (request_decodes uid timeout body Hu Hb) as (req & Hd & Hrd).
  pose proof (answer_decodes uid timeout answer Hu Ha) as [He Hbin].
  unfold base_connected. rewrite Hs. cbn -[rpc_to_binary base_publish rpc_reply]. rewrite Hch.
  unfold session_context. cbn -[rpc_to_binary base_publish rpc_reply]. rewrite Hctx.
  do 2 eexists. exists (S (rw_next w)). split; [reflexivity|].
  unfold base_publish, session_context. cbn -[rpc_to_binary base_decode rpc_reply]. rewrite Hs, lookup_insert_eq.
  cbn -[rpc_to_binary base_decode rpc_reply]. rewrite Hd. unfold rpc_request.
  cbn -[rpc_reply]. rewrite lookup_insert_eq, Hrd, Hrh. cbn -[rpc_reply].
  split; [reflexivity|]. cbn -[rpc_reply]. split; [by rewrite <-app_assoc|]. split; [|done].
  unfold rpc_reply, rpc_send, handle_send. cbn -[handle_encode rpc_encode]. rewrite lookup_insert_eq. cbn -[handle_encode rpc_encode].
  rewrite lookup_insert_eq. cbn -[handle_encode rpc_encode]. by rewrite He.
Qed.
End exchange.
