(* ===== verification/MqttServer.v ===== *)
(** * Connections and registries of the MQTT server (mqtt/src/session.rs, server.rs)

    [MqttConnect], the operations a service has on the connection of a session; the
    services and the listener a broker keeps (broker.rs); and the tables of brokers by name
    and port, through which the server subscribes and publishes on its own. Brokers are
    shared: a table holds the address of one, and the brokers lie in a store. *)

From S2P Require Import Prelude ByteSource WsFrame WsSession WsConnect MqttTopic MqttSession MqttBroker MqttV311.

(** ** The connection of a session *)

Section connect.
Context `{TopicApi} `{PacketCodec} {S : Type} `{Transport S}.
Implicit Types (s : QosZeroSession WsSocket) (w : world (S := S)).

(** What the handle of the connection tells of it. *)
Record Peer := mkPeer { peer_token : Z; peer_local : string * Z; peer_remote : string * Z }.
Variable peer : S -> Peer.
Variable hibernates : S -> option nat.
Variable wakes : io_result unit -> S -> S * bool.
Variable session_of : WsSocket -> option (WsSession BrokerSession).

Definition conn_of s w : option S := match connect s with Some c => w_conns w !! ws_uid c | None => None end.

Definition get_token s w : option Z := peer_token ∘ peer <$> conn_of s w.
Definition get_uid s : option Z := ws_uid <$> connect s.
Definition get_local_addr s w : option (string * Z) := peer_local ∘ peer <$> conn_of s w.
Definition get_remote_addr s w : option (string * Z) := peer_remote ∘ peer <$> conn_of s w.
Definition is_security s w : bool := match conn_of s w with Some x => tr_is_security x | None => false end.
Definition is_passive_receive s : bool := is_passive s.

(** [get_session]: the context the protocol has bound to the connection. *)
Definition mqtt_session s w : option BrokerSession :=
  match connect s, conn_of s w with
  | Some c, Some x => if tr_is_closed x then None else ws ← session_of c; context ws
  | _, _ => None
  end.

(** [send] *)
Definition session_send (topic : string) (payload : list Z) s w : outcome (world (S := S) * io_result unit) :=
  match connect s with
  | Some c =>
      match write_packet (PPublish (mkPublish false 0 false topic None payload)) with
      | None => Done (w, Err InvalidData)
      | Some buf => on_conn c (send TBinary (window_bits c) buf) w
      end
  | None => Done (w, Ok tt)
  end.

(** [hibernate], [wakeup], [close] *)
Definition session_hibernate s w : option nat := x ← conn_of s w; hibernates x.
Definition session_wakeup (result : io_result unit) s w : world (S := S) * bool :=
  match connect s with
  | Some c =>
      match w_conns w !! ws_uid c with
      | Some x => let '(x, b) := wakes result x in (set_conns (<[ws_uid c := x]> (w_conns w)) w, b)
      | None => (w, true)
      end
  | None => (w, true)
  end.
Definition session_close (reason : io_result unit) s w : outcome (world (S := S) * io_result unit) :=
  match connect s with
  | Some c => on_conn c (close reason) w
  | None => Done (w, Ok tt)
  end.
End connect.

(** ** Brokers *)

(** A broker over WebSocket with what its protocol and the registries keep of it: names,
    listener and service, and the services by topic. *)
Record WsBroker `{TopicApi} (S : Type) := mkWsBroker {
  wb_protocol_name : string;
  wb_broker_name : string;
  wb_mqtt : WsMqtt311 (S := S);
  wb_services : gmap string (Service (S := S));
  wb_world : world (S := S);
}.
Arguments mkWsBroker {_ S}.
Arguments wb_protocol_name {_ S} w.
Arguments wb_broker_name {_ S} w.
Arguments wb_mqtt {_ S} w.
Arguments wb_services {_ S} w.
Arguments wb_world {_ S} w.

Definition MAX_QOS : Z := 0.

Section broker.
Context `{TopicApi} {S : Type}.
Implicit Types b : WsBroker S.

(** [with_name]; the protocol's name is lower-cased by [lower]. *)
Definition with_name (lower : string -> string) (protocol_name broker_name : string) (qos : Z) : outcome (WsBroker S) :=
  q ← lift (qos_from_u8 qos);
  Done (mkWsBroker (lower protocol_name) broker_name (mkWsMqtt311 q None None) ∅ (mkWorld new_broker ∅ 0 ∅)).

Definition register_listener (l : Listener (S := S)) b : WsBroker S :=
  mkWsBroker (wb_protocol_name b) (wb_broker_name b)
    (mkWsMqtt311 (m_qos (wb_mqtt b)) (Some l) (m_service (wb_mqtt b))) (wb_services b) (wb_world b).
Definition register_service (v : Service (S := S)) b : WsBroker S :=
  mkWsBroker (wb_protocol_name b) (wb_broker_name b)
    (mkWsMqtt311 (m_qos (wb_mqtt b)) (m_listener (wb_mqtt b)) (Some v)) (wb_services b) (wb_world b).
Definition get_topic_service (topic : string) b : option (Service (S := S)) := wb_services b !! topic.
Definition register_topic_service (topic : string) (v : Service (S := S)) b : WsBroker S :=
  mkWsBroker (wb_protocol_name b) (wb_broker_name b) (wb_mqtt b) (<[topic := v]> (wb_services b)) (wb_world b).
Definition unregister_service (topic : string) b : WsBroker S :=
  mkWsBroker (wb_protocol_name b) (wb_broker_name b) (wb_mqtt b) (delete topic (wb_services b)) (wb_world b).

Definition set_world (w : world (S := S)) b : WsBroker S :=
  mkWsBroker (wb_protocol_name b) (wb_broker_name b) (wb_mqtt b) (wb_services b) w.
End broker.

(** The QUIC connection as the broker uses it: its streams and writing to one. *)
Class QuicHandle (Q : Type) := {
  q_is_closed : Q -> bool;
  q_stream_ids : Q -> list Z;
  q_write_ready : Z -> list Z -> Q -> Q * io_result unit;
}.

Record QuicBroker `{TopicApi} (Q : Type) := mkQuicBroker {
  qb_broker_name : string;
  qb_broker : MqttBroker;
  qb_heap : gmap nat (QosZeroSession Z);
  qb_conns : gmap Z Q;
}.
Arguments mkQuicBroker {_ Q}.
Arguments qb_broker_name {_ Q} q.
Arguments qb_broker {_ Q} q.
Arguments qb_heap {_ Q} q.
Arguments qb_conns {_ Q} q.

(** ** The registries *)

(** [MqttBrokerProtocol]: the address of a broker. *)
Inductive MqttBrokerProtocol := PWs (a : nat) | PWss (a : nat) | PQuic (a : nat).

#[export] Instance MqttBrokerProtocol_eq_dec : EqDecision MqttBrokerProtocol.
Proof. solve_decision. Defined.

Section server.
Context `{TopicApi} `{PacketCodec} {S1 S2 Q : Type} `{Transport S1} `{Transport S2} `{QuicHandle Q}.
Variable lower : string -> string.

Record Server := mkServer {
  brokers : gmap string MqttBrokerProtocol;          (* [MQTT_BROKERS] *)
  brokers_map : gmap Z string;                       (* [MQTT_BROKERS_MAP] *)
  quic_brokers : gmap string MqttBrokerProtocol;
  quic_brokers_map : gmap Z string;
  ws_heap : gmap nat (WsBroker S1);
  wss_heap : gmap nat (WsBroker S2);
  quic_heap : gmap nat (QuicBroker Q);
  next_addr : nat;
}.

Definition set_brokers b m (v : Server) : Server :=
  mkServer b m (quic_brokers v) (quic_brokers_map v) (ws_heap v) (wss_heap v) (quic_heap v) (next_addr v).
Definition set_quic_brokers b m (v : Server) : Server :=
  mkServer (brokers v) (brokers_map v) b m (ws_heap v) (wss_heap v) (quic_heap v) (next_addr v).
Definition set_ws_heap h (v : Server) : Server :=
  mkServer (brokers v) (brokers_map v) (quic_brokers v) (quic_brokers_map v) h (wss_heap v) (quic_heap v) (next_addr v).
Definition set_wss_heap h (v : Server) : Server :=
  mkServer (brokers v) (brokers_map v) (quic_brokers v) (quic_brokers_map v) (ws_heap v) h (quic_heap v) (next_addr v).
Definition set_quic_heap h (v : Server) : Server :=
  mkServer (brokers v) (brokers_map v) (quic_brokers v) (quic_brokers_map v) (ws_heap v) (wss_heap v) h (next_addr v).
Definition alloc (v : Server) : Server :=
  mkServer (brokers v) (brokers_map v) (quic_brokers v) (quic_brokers_map v) (ws_heap v) (wss_heap v) (quic_heap v)
    (S (next_addr v)).

Definition get_broker_name (port : Z) (v : Server) : option string := brokers_map v !! port.
Definition get_quic_broker_name (port : Z) (v : Server) : option string := quic_brokers_map v !! port.

(** [MqttBrokerProtocol::get_broker_name] *)
Definition protocol_broker_name (p : MqttBrokerProtocol) (v : Server) : option string :=
  match p with
  | PWs a => wb_broker_name <$> ws_heap v !! a
  | PWss a => wb_broker_name <$> wss_heap v !! a
  | PQuic a => qb_broker_name <$> quic_heap v !! a
  end.

(** A listener or a service is registered under the name of a broker of its transport;
    another transport is [unimplemented!]. *)
Definition register_ws (f : WsBroker S1 -> WsBroker S1) (name : string) (v : Server) : outcome (Server * bool) :=
  match brokers v !! name with
  | Some (PWs a) => Done (set_ws_heap (alter f a (ws_heap v)) v, true)
  | Some _ => Panic
  | None => Done (v, false)
  end.
Definition register_wss (f : WsBroker S2 -> WsBroker S2) (name : string) (v : Server) : outcome (Server * bool) :=
  match brokers v !! name with
  | Some (PWss a) => Done (set_wss_heap (alter f a (wss_heap v)) v, true)
  | Some _ => Panic
  | None => Done (v, false)
  end.

Definition register_mqtt_listener (name : string) (l : Listener (S := S1)) : Server -> outcome (Server * bool) :=
  register_ws (register_listener l) name.
Definition register_mqtts_listener (name : string) (l : Listener (S := S2)) : Server -> outcome (Server * bool) :=
  register_wss (register_listener l) name.
Definition register_mqtt_service (name : string) (s : Service (S := S1)) : Server -> outcome (Server * bool) :=
  register_ws (register_service s) name.
Definition register_mqtts_service (name : string) (s : Service (S := S2)) : Server -> outcome (Server * bool) :=
  register_wss (register_service s) name.

(** ** Factories *)

Record Factory := mkFactory { protocol_name : string; broker_name : string; broker_port : Z }.

(** A new broker under a name and a port. *)
Definition add_ws (fac : Factory) (v : Server) : outcome (Server * nat) :=
  b ← with_name lower (protocol_name fac) (broker_name fac) MAX_QOS;
  let a := next_addr v in
  let v := set_ws_heap (<[a := b]> (ws_heap v)) (alloc v) in
  Done (set_brokers (<[broker_name fac := PWs a]> (brokers v)) (<[broker_port fac := broker_name fac]> (brokers_map v)) v, a).
Definition add_wss (fac : Factory) (v : Server) : outcome (Server * nat) :=
  b ← with_name lower (protocol_name fac) (broker_name fac) MAX_QOS;
  let a := next_addr v in
  let v := set_wss_heap (<[a := b]> (wss_heap v)) (alloc v) in
  Done (set_brokers (<[broker_name fac := PWss a]> (brokers v)) (<[broker_port fac := broker_name fac]> (brokers_map v)) v, a).
Definition add_quic (fac : Factory) (v : Server) : Server * nat :=
  let a := next_addr v in
  let v := set_quic_heap (<[a := mkQuicBroker (broker_name fac) new_broker ∅ ∅]> (quic_heap v)) (alloc v) in
  (set_quic_brokers (<[broker_name fac := PQuic a]> (quic_brokers v))
     (<[broker_port fac := broker_name fac]> (quic_brokers_map v)) v, a).

(** [new] of the factories *)
Definition ws_factory (protocol_name broker_name : string) (broker_port : Z) (v : Server) : outcome (Server * Factory) :=
  let fac := mkFactory protocol_name broker_name broker_port in r ← add_ws fac v; Done (r.1, fac).
Definition wss_factory (protocol_name broker_name : string) (broker_port : Z) (v : Server) : outcome (Server * Factory) :=
  let fac := mkFactory protocol_name broker_name broker_port in r ← add_wss fac v; Done (r.1, fac).
Definition quic_factory (broker_name : string) (broker_port : Z) (v : Server) : Server * Factory :=
  let fac := mkFactory EmptyString broker_name broker_port in ((add_quic fac v).1, fac).

(** [new_child_protocol], [new_quic_service] *)
Definition ws_child_protocol (fac : Factory) (v : Server) : outcome (Server * nat) :=
  match brokers v !! broker_name fac with
  | Some (PWs a) => Done (v, a)
  | _ => add_ws fac v
  end.
Definition wss_child_protocol (fac : Factory) (v : Server) : outcome (Server * nat) :=
  match brokers v !! broker_name fac with
  | Some (PWss a) => Done (v, a)
  | _ => add_wss fac v
  end.
Definition new_quic_service (fac : Factory) (v : Server) : Server * nat :=
  match quic_brokers v !! broker_name fac with
  | Some (PQuic a) => (v, a)
  | _ => add_quic fac v
  end.

(** ** The server's own topics *)

Section topic.
Variables (is_public : bool) (topic : string) (qos : Z) (retain : option Publish).

Definition ws_subscribed {S} (b : WsBroker S) : WsBroker S * option (list ArcSession) :=
  let '(br, ss) := subscribed is_public topic qos retain (w_broker (wb_world b)) in
  (set_world (set_broker br (wb_world b)) b, ss).
Definition quic_subscribed (b : QuicBroker Q) : QuicBroker Q * option (list ArcSession) :=
  let '(br, ss) := subscribed is_public topic qos retain (qb_broker b) in
  (mkQuicBroker (qb_broker_name b) br (qb_heap b) (qb_conns b), ss).

(** [add_topic], [add_quic_topic] *)
Definition add_topic (name : string) (v : Server) : Server :=
  match brokers v !! name with
  | Some (PWs a) => set_ws_heap (alter (fun b => (ws_subscribed b).1) a (ws_heap v)) v
  | Some (PWss a) => set_wss_heap (alter (fun b => (ws_subscribed b).1) a (wss_heap v)) v
  | Some (PQuic a) => set_quic_heap (alter (fun b => (quic_subscribed b).1) a (quic_heap v)) v
  | None => v
  end.
Definition add_quic_topic (name : string) (v : Server) : Server :=
  match quic_brokers v !! name with
  | Some (PQuic a) => set_quic_heap (alter (fun b => (quic_subscribed b).1) a (quic_heap v)) v
  | _ => v
  end.

Variable payload : list Z.

Definition topic_packet : Packet := PPublish (mkPublish false 0 false topic None payload).

(** A broker over WebSocket: the packet to the connections of all subscribers. *)
Definition ws_publish {S} `{Transport S} (b : WsBroker S) : outcome (WsBroker S * io_result unit) :=
  let '(b, sessions) := ws_subscribed b in
  match sessions with
  | Some ss =>
      let w := wb_world b in
      let connects := omap (fun a => match deref a w with Some s => connect s | None => None end) ss in
      r ← broadcast_packet connects topic_packet w;
      Done (set_world r.1 b, match r.2 with Err _ => Err BrokenPipe | Ok _ => Ok tt end)
  | None => Done (b, Ok tt)
  end.

(** [publish_to_connection] *)
Definition publish_to_connection (p : MqttBrokerProtocol) (v : Server) : outcome (Server * io_result unit) :=
  match p with
  | PWs a =>
      b ← lift (ws_heap v !! a);
      r ← ws_publish b; Done (set_ws_heap (<[a := r.1]> (ws_heap v)) v, r.2)
  | PWss a =>
      b ← lift (wss_heap v !! a);
      r ← ws_publish b; Done (set_wss_heap (<[a := r.1]> (wss_heap v)) v, r.2)
  | PQuic _ => Done (v, Ok tt)
  end.

(** The loop over all brokers ends at the first error. *)
Fixpoint publish_all (f : MqttBrokerProtocol -> Server -> outcome (Server * io_result unit))
    (l : list MqttBrokerProtocol) (v : Server) : outcome (Server * io_result unit) :=
  match l with
  | [] => Done (v, Ok tt)
  | p :: l =>
      r ← f p v;
      match r.2 with Err e => Done (r.1, Err e) | Ok _ => publish_all f l r.1 end
  end.

(** [publish_topic]; [order] is that of the hash map when no broker is named. *)
Definition publish_topic (order : list MqttBrokerProtocol) (name : option string) (v : Server)
    : outcome (Server * io_result unit) :=
  match name with
  | Some n =>
      match brokers v !! n with
      | Some p => publish_to_connection p v
      | None => Done (v, Err Other)
      end
  | None => publish_all publish_to_connection order v
  end.

(** ** QUIC *)

(** [SocketHandle::broadcast]: every stream of every connection, up to the first error. *)
Fixpoint quic_write_streams (ids : list Z) (buf : list Z) (q : Q) : Q * io_result unit :=
  match ids with
  | [] => (q, Ok tt)
  | i :: ids =>
      match q_write_ready i buf q with
      | (q, Err e) => (q, Err e)
      | (q, Ok _) => quic_write_streams ids buf q
      end
  end.
Fixpoint quic_broadcast (connects : list Z) (buf : list Z) (conns : gmap Z Q) : gmap Z Q * io_result unit :=
  match connects with
  | [] => (conns, Ok tt)
  | c :: connects =>
      match conns !! c with
      | None => quic_broadcast connects buf conns
      | Some q =>
          match quic_write_streams (q_stream_ids q) buf q with
          | (q, Err e) => (<[c := q]> conns, Err e)
          | (q, Ok _) => quic_broadcast connects buf (<[c := q]> conns)
          end
      end
  end.

(** [broadcast_packet] of quic_v311.rs *)
Definition quic_broadcast_packet (connects : list Z) (p : Packet) (conns : gmap Z Q) : gmap Z Q * io_result unit :=
  match connects with
  | [] => (conns, Ok tt)
  | _ =>
      match write_packet p with
      | None => (conns, Err InvalidData)
      | Some buf =>
          let is_open c := match conns !! c with Some q => negb (q_is_closed q) | None => false end in
          if existsb is_open connects then quic_broadcast connects buf conns else (conns, Ok tt)
      end
  end.

(** [publish_to_quic_connection] *)
Definition quic_publish (b : QuicBroker Q) : QuicBroker Q * io_result unit :=
  let '(b, sessions) := quic_subscribed b in
  match sessions with
  | Some ss =>
      let connects := omap (fun a => match qb_heap b !! addr a with Some s => connect s | None => None end) ss in
      let '(conns, r) := quic_broadcast_packet connects topic_packet (qb_conns b) in
      (mkQuicBroker (qb_broker_name b) (qb_broker b) (qb_heap b) conns,
       match r with Err _ => Err BrokenPipe | Ok _ => Ok tt end)
  | None => (b, Err Other)
  end.

Definition publish_to_quic_connection (p : MqttBrokerProtocol) (v : Server) : outcome (Server * io_result unit) :=
  match p with
  | PQuic a =>
      b ← lift (quic_heap v !! a);
      let '(b, r) := quic_publish b in Done (set_quic_heap (<[a := b]> (quic_heap v)) v, r)
  | _ => Done (v, Ok tt)
  end.

(** [publish_quic_topic] *)
Definition publish_quic_topic (order : list MqttBrokerProtocol) (name : option string) (v : Server)
    : outcome (Server * io_result unit) :=
  match name with
  | Some n =>
      match quic_brokers v !! n with
      | Some (PQuic a) => publish_to_quic_connection (PQuic a) v
      | _ => Done (v, Err Other)
      end
  | None => publish_all publish_to_quic_connection order v
  end.
End topic.
End server.

(** ** What the registries keep *)

Section facts.
Context `{TopicApi} `{PacketCodec} {S1 S2 Q : Type} `{Transport S1} `{Transport S2} `{QuicHandle Q}.
Variable lower : string -> string.
Abbreviation Srv := (Server (S1 := S1) (S2 := S2) (Q := Q)).
Implicit Types v : Srv.

(** A table in any order, as the loop over a hash map sees it. *)
Definition listed (order : list MqttBrokerProtocol) (m : gmap string MqttBrokerProtocol) : Prop :=
  order ≡ₚ (map_to_list m).*2.

Inductive server_step : Srv -> Srv -> Prop :=
| srv_ws p n port v r : ws_factory lower p n port v = Done r -> server_step v r.1
| srv_wss p n port v r : wss_factory lower p n port v = Done r -> server_step v r.1
| srv_quic n port v : server_step v (quic_factory n port v).1
| srv_ws_child fac v r : ws_child_protocol lower fac v = Done r -> server_step v r.1
| srv_wss_child fac v r : wss_child_protocol lower fac v = Done r -> server_step v r.1
| srv_quic_child fac v : server_step v (new_quic_service fac v).1
| srv_listener n l v r : register_mqtt_listener n l v = Done r -> server_step v r.1
| srv_service n s v r : register_mqtt_service n s v = Done r -> server_step v r.1
| srv_tls_listener n l v r : register_mqtts_listener n l v = Done r -> server_step v r.1
| srv_tls_service n s v r : register_mqtts_service n s v = Done r -> server_step v r.1
| srv_add b t q rt n v : server_step v (add_topic b t q rt n v)
| srv_add_quic b t q rt n v : server_step v (add_quic_topic b t q rt n v)
| srv_publish b t q rt m order n v r : listed order (brokers v) ->
    publish_topic b t q rt m order n v = Done r -> server_step v r.1
| srv_publish_quic b t q rt m order n v r : listed order (quic_brokers v) ->
    publish_quic_topic b t q rt m order n v = Done r -> server_step v r.1.

Definition empty_server : Srv := mkServer ∅ ∅ ∅ ∅ ∅ ∅ ∅ 0.

Definition server_reachable (v : Srv) : Prop := rtc server_step empty_server v.

Record server_inv v : Prop := {
  inv_names n p : brokers v !! n = Some p -> protocol_broker_name p v = Some n /\ forall a, p <> PQuic a;
  inv_quic_names n p : quic_brokers v !! n = Some p -> protocol_broker_name p v = Some n /\ exists a, p = PQuic a;
  inv_ports port n : brokers_map v !! port = Some n -> is_Some (brokers v !! n);
  inv_quic_ports port n : quic_brokers_map v !! port = Some n -> is_Some (quic_brokers v !! n);
  inv_ws a : next_addr v <= a -> ws_heap v !! a = None;
  inv_wss a : next_addr v <= a -> wss_heap v !! a = None;
  inv_quic a : next_addr v <= a -> quic_heap v !! a = None;
}.

(** Operations that leave the tables alone and every broker in its place. *)
Record tables_kept v v' : Prop := {
  kept_brokers : brokers v' = brokers v;
  kept_map : brokers_map v' = brokers_map v;
  kept_quic : quic_brokers v' = quic_brokers v;
  kept_quic_map : quic_brokers_map v' = quic_brokers_map v;
  kept_next : next_addr v' = next_addr v;
  kept_ws a : wb_broker_name <$> ws_heap v' !! a = wb_broker_name <$> ws_heap v !! a;
  kept_wss a : wb_broker_name <$> wss_heap v' !! a = wb_broker_name <$> wss_heap v !! a;
  kept_quic_heap a : qb_broker_name <$> quic_heap v' !! a = qb_broker_name <$> quic_heap v !! a;
}.

Lemma tables_kept_refl v : tables_kept v v.
Proof. by split. Qed.
Lemma tables_kept_trans v v' v2 : tables_kept v v' -> tables_kept v' v2 -> tables_kept v v2.
Proof. intros [] []. split; try congruence; intros a; by etrans. Qed.

Lemma fmap_None_iff {A B} (f : A -> B) (o o' : option A) : f <$> o' = f <$> o -> o = None -> o' = None.
Proof. intros E ->. by destruct o'. Qed.

Lemma tables_kept_inv v v' : tables_kept v v' -> server_inv v -> server_inv v'.
Proof.
  intros K I. assert (forall p, protocol_broker_name p v' = protocol_broker_name p v) as Hn by (intros []; apply K).
  split.
  - intros n p. rewrite (kept_brokers _ _ K), Hn. apply (inv_names _ I).
  - intros n p. rewrite (kept_quic _ _ K), Hn. apply (inv_quic_names _ I).
  - intros port n. rewrite (kept_brokers _ _ K), (kept_map _ _ K). apply (inv_ports _ I).
  - intros port n. rewrite (kept_quic _ _ K), (kept_quic_map _ _ K). apply (inv_quic_ports _ I).
  - intros a. rewrite (kept_next _ _ K). intros Ha. apply (fmap_None_iff _ _ _ (kept_ws _ _ K a)), (inv_ws _ I), Ha.
  - intros a. rewrite (kept_next _ _ K). intros Ha. apply (fmap_None_iff _ _ _ (kept_wss _ _ K a)), (inv_wss _ I), Ha.
  - intros a. rewrite (kept_next _ _ K). intros Ha. apply (fmap_None_iff _ _ _ (kept_quic_heap _ _ K a)), (inv_quic _ I), Ha.
Qed.

Lemma alter_name {A} (name : A -> string) (f : A -> A) (h : gmap nat A) a a' :
  (forall b, name (f b) = name b) -> name <$> alter f a h !! a' = name <$> h !! a'.
Proof.
  intros Hf. destruct (decide (a = a')) as [->|Hne].
  - rewrite lookup_alter_eq. destruct (h !! a'); cbn; by rewrite ?Hf.
  - by rewrite lookup_alter_ne.
Qed.

Lemma insert_name {A} (name : A -> string) (b b' : A) (h : gmap nat A) a a' :
  h !! a = Some b -> name b' = name b -> name <$> <[a := b']> h !! a' = name <$> h !! a'.
Proof.
  intros Hh Hb. destruct (decide (a = a')) as [->|Hne].
  - rewrite lookup_insert_eq, Hh. cbn. by rewrite Hb.
  - by rewrite lookup_insert_ne.
Qed.

Lemma alter_ws_kept f a v : (forall b, wb_broker_name (f b) = wb_broker_name b) ->
  tables_kept v (set_ws_heap (alter f a (ws_heap v)) v).
Proof. intros Hf. split; try done. intros a'. by apply alter_name. Qed.
Lemma alter_wss_kept f a v : (forall b, wb_broker_name (f b) = wb_broker_name b) ->
  tables_kept v (set_wss_heap (alter f a (wss_heap v)) v).
Proof. intros Hf. split; try done. intros a'. by apply alter_name. Qed.
Lemma alter_quic_kept f a v : (forall b, qb_broker_name (f b) = qb_broker_name b) ->
  tables_kept v (set_quic_heap (alter f a (quic_heap v)) v).
Proof. intros Hf. split; try done. intros a'. by apply alter_name. Qed.

Lemma register_ws_kept f n v r : (forall b, wb_broker_name (f b) = wb_broker_name b) ->
  register_ws f n v = Done r -> tables_kept v r.1.
Proof. intros Hf E. unfold register_ws in E. repeat case_match; simplify_eq; [by apply alter_ws_kept|apply tables_kept_refl]. Qed.
Lemma register_wss_kept f n v r : (forall b, wb_broker_name (f b) = wb_broker_name b) ->
  register_wss f n v = Done r -> tables_kept v r.1.
Proof. intros Hf E. unfold register_wss in E. repeat case_match; simplify_eq; [by apply alter_wss_kept|apply tables_kept_refl]. Qed.

Lemma ws_subscribed_name {S} b t q rt (x : WsBroker S) : wb_broker_name (ws_subscribed b t q rt x).1 = wb_broker_name x.
Proof. unfold ws_subscribed. by destruct (subscribed _ _ _ _ _). Qed.
Lemma quic_subscribed_name b t q rt (x : QuicBroker Q) : qb_broker_name (quic_subscribed b t q rt x).1 = qb_broker_name x.
Proof. unfold quic_subscribed. by destruct (subscribed _ _ _ _ _). Qed.

Lemma add_topic_kept b t q rt n v : tables_kept v (add_topic b t q rt n v).
Proof.
  unfold add_topic. repeat case_match; [apply alter_ws_kept|apply alter_wss_kept|apply alter_quic_kept|apply tables_kept_refl];
    intros; first [apply ws_subscribed_name|apply quic_subscribed_name].
Qed.
Lemma add_quic_topic_kept b t q rt n v : tables_kept v (add_quic_topic b t q rt n v).
Proof.
  unfold add_quic_topic. repeat case_match; try apply tables_kept_refl. apply alter_quic_kept. intros. apply quic_subscribed_name.
Qed.

Lemma ws_publish_name {S} `{Transport S} b t q rt m (x : WsBroker S) r :
  ws_publish b t q rt m x = Done r -> wb_broker_name r.1 = wb_broker_name x.
Proof.
  unfold ws_publish. pose proof (ws_subscribed_name b t q rt x) as Hn. destruct (ws_subscribed b t q rt x) as [x' [ss|]]; cbn in Hn.
  - destruct (broadcast_packet _ _ _) as [[w' r']| | |]; cbn; [|done..]. by intros [= <-].
  - by intros [= <-].
Qed.
Lemma quic_publish_name b t q rt m (x : QuicBroker Q) : qb_broker_name (quic_publish b t q rt m x).1 = qb_broker_name x.
Proof.
  unfold quic_publish. pose proof (quic_subscribed_name b t q rt x) as Hn. destruct (quic_subscribed b t q rt x) as [x' [ss|]]; cbn in Hn; [|done].
  by destruct (quic_broadcast_packet _ _ _).
Qed.

Lemma publish_to_kept b t q rt m p v r : publish_to_connection b t q rt m p v = Done r -> tables_kept v r.1.
Proof.
  destruct p as [a|a|a]; cbn; [| |by intros [= <-]].
  - destruct (ws_heap v !! a) as [x|] eqn:Ex; cbn; [|done]. destruct (ws_publish _ _ _ _ _ x) as [y| | |] eqn:E; cbn; [|done..].
    intros [= <-]. split; try done. intros a'. by eapply insert_name, ws_publish_name.
  - destruct (wss_heap v !! a) as [x|] eqn:Ex; cbn; [|done]. destruct (ws_publish _ _ _ _ _ x) as [y| | |] eqn:E; cbn; [|done..].
    intros [= <-]. split; try done. intros a'. by eapply insert_name, ws_publish_name.
Qed.
Lemma publish_to_quic_kept b t q rt m p v r : publish_to_quic_connection b t q rt m p v = Done r -> tables_kept v r.1.
Proof.
  destruct p as [a|a|a]; cbn; [by intros [= <-]..|]. destruct (quic_heap v !! a) as [x|] eqn:Ex; cbn; [|done].
  pose proof (quic_publish_name b t q rt m x) as Hn. destruct (quic_publish _ _ _ _ _ x) as [y r']. intros [= <-]. split; try done.
  intros a'. by eapply insert_name.
Qed.
Lemma publish_all_kept f l v r : (forall p v r, f p v = Done r -> tables_kept v r.1) ->
  publish_all f l v = Done r -> tables_kept v r.1.
Proof.
  intros Hf. revert v. induction l as [|p l IH]; intros v E; cbn in E; [simplify_eq; apply tables_kept_refl|].
  destruct (f p v) as [[v1 [[]|e]]| | |] eqn:E1; cbn in E; simplify_eq; [|by apply (Hf _ _ _ E1)].
  eapply tables_kept_trans; [apply (Hf _ _ _ E1)|by apply IH].
Qed.

(** A new broker under a name. *)
Lemma with_name_spec {S} pn bn : exists b : WsBroker S, with_name lower pn bn MAX_QOS = Done b /\ wb_broker_name b = bn /\
  wb_world b = mkWorld new_broker ∅ 0 ∅.
Proof. eexists. by split. Qed.

Lemma fresh_name {A} (name : A -> string) (h : gmap nat A) k b a n :
  h !! k = None -> name <$> h !! a = Some n -> name <$> <[k := b]> h !! a = Some n.
Proof. intros Hk Ha. rewrite lookup_insert_ne; [done|]. intros ->. by rewrite Hk in Ha. Qed.

Lemma insert_above {A} (h : gmap nat A) k b a : (forall a, k <= a -> h !! a = None) -> Datatypes.S k <= a -> <[k := b]> h !! a = None.
Proof. intros Hh Ha. rewrite lookup_insert_ne by lia. apply Hh. lia. Qed.

Lemma insert_ports (m : gmap Z string) (b : gmap string MqttBrokerProtocol) fac p port n :
  (forall port n, m !! port = Some n -> is_Some (b !! n)) ->
  <[broker_port fac := broker_name fac]> m !! port = Some n -> is_Some (<[broker_name fac := p]> b !! n).
Proof.
  intros Hm Hp. destruct (decide (n = broker_name fac)) as [->|Hne]; [by rewrite lookup_insert_eq|].
  rewrite lookup_insert_ne by done. apply (Hm port). by apply lookup_insert_Some in Hp as [[_ ?]|[_ ?]].
Qed.

Lemma add_ws_inv fac v : server_inv v -> exists v', add_ws lower fac v = Done (v', next_addr v) /\ server_inv v'.
Proof.
  intros I. unfold add_ws. destruct (with_name_spec (S := S1) (protocol_name fac) (broker_name fac)) as (b & -> & Hb & _).
  eexists. split; [reflexivity|]. split; cbn.
  - intros n p [[<- <-]|[_ Hp]]%lookup_insert_Some; [split; [|done]; cbn; rewrite lookup_insert_eq; cbn; by rewrite Hb|].
    destruct (inv_names _ I _ _ Hp) as [Hn Hq]. split; [|done]. destruct p as [a|a|a]; cbn in *; [|done..].
    apply fresh_name; [by apply (inv_ws _ I)|done].
  - intros n p Hp. destruct (inv_quic_names _ I _ _ Hp) as [Hn [a ->]]. by eauto.
  - intros port n. apply insert_ports, (inv_ports _ I).
  - apply (inv_quic_ports _ I).
  - intros a. apply insert_above, (inv_ws _ I).
  - intros a Ha. apply (inv_wss _ I). lia.
  - intros a Ha. apply (inv_quic _ I). lia.
Qed.

Lemma add_wss_inv fac v : server_inv v -> exists v', add_wss lower fac v = Done (v', next_addr v) /\ server_inv v'.
Proof.
  intros I. unfold add_wss. destruct (with_name_spec (S := S2) (protocol_name fac) (broker_name fac)) as (b & -> & Hb & _).
  eexists. split; [reflexivity|]. split; cbn.
  - intros n p [[<- <-]|[_ Hp]]%lookup_insert_Some; [split; [|done]; cbn; rewrite lookup_insert_eq; cbn; by rewrite Hb|].
    destruct (inv_names _ I _ _ Hp) as [Hn Hq]. split; [|done]. destruct p as [a|a|a]; cbn in *; [done| |done].
    apply fresh_name; [by apply (inv_wss _ I)|done].
  - intros n p Hp. destruct (inv_quic_names _ I _ _ Hp) as [Hn [a ->]]. by eauto.
  - intros port n. apply insert_ports, (inv_ports _ I).
  - apply (inv_quic_ports _ I).
  - intros a Ha. apply (inv_ws _ I). lia.
  - intros a. apply insert_above, (inv_wss _ I).
  - intros a Ha. apply (inv_quic _ I). lia.
Qed.

Lemma add_quic_inv fac v : server_inv v -> server_inv (add_quic fac v).1.
Proof.
  intros I. split; cbn.
  - intros n p Hp. destruct (inv_names _ I _ _ Hp) as [Hn Hq]. split; [|done]. destruct p as [a|a|a]; [done..|by destruct (Hq a)].
  - intros n p [[<- <-]|[_ Hp]]%lookup_insert_Some; [split; [cbn; by rewrite lookup_insert_eq|by eexists]|].
    destruct (inv_quic_names _ I _ _ Hp) as [Hn [a ->]]. split; [|by eexists]. cbn in *.
    apply fresh_name; [by apply (inv_quic _ I)|done].
  - apply (inv_ports _ I).
  - intros port n. apply insert_ports, (inv_quic_ports _ I).
  - intros a Ha. apply (inv_ws _ I). lia.
  - intros a Ha. apply (inv_wss _ I). lia.
  - intros a. apply insert_above, (inv_quic _ I).
Qed.

Lemma server_step_inv v v' : server_step v v' -> server_inv v -> server_inv v'.
Proof.
  intros Hs I. destruct Hs as [p n port v r E|p n port v r E|n port v|fac v r E|fac v r E|fac v|n l v r E|n l v r E|n l v r E|n l v r E
    |b t q rt n v|b t q rt n v|b t q rt m order n v r _ E|b t q rt m order n v r _ E].
  - unfold ws_factory in E. destruct (add_ws_inv (mkFactory p n port) v I) as (v' & E' & ?). rewrite E' in E. by simplify_eq/=.
  - unfold wss_factory in E. destruct (add_wss_inv (mkFactory p n port) v I) as (v' & E' & ?). rewrite E' in E. by simplify_eq/=.
  - by apply add_quic_inv.
  - unfold ws_child_protocol in E. destruct (add_ws_inv fac v I) as (v' & E' & ?). rewrite E' in E. by repeat case_match; simplify_eq/=.
  - unfold wss_child_protocol in E. destruct (add_wss_inv fac v I) as (v' & E' & ?). rewrite E' in E. by repeat case_match; simplify_eq/=.
  - unfold new_quic_service. repeat case_match; try done; by apply add_quic_inv.
  - eapply tables_kept_inv, I. by eapply register_ws_kept, E.
  - eapply tables_kept_inv, I. by eapply register_ws_kept, E.
  - eapply tables_kept_inv, I. by eapply register_wss_kept, E.
  - eapply tables_kept_inv, I. by eapply register_wss_kept, E.
  - eapply tables_kept_inv, I. apply add_topic_kept.
  - eapply tables_kept_inv, I. apply add_quic_topic_kept.
  - eapply tables_kept_inv, I. unfold publish_topic in E. repeat case_match; simplify_eq; [by eapply publish_to_kept|apply tables_kept_refl|].
    eapply publish_all_kept, E. intros ? ? ?. apply publish_to_kept.
  - eapply tables_kept_inv, I. unfold publish_quic_topic in E.
    repeat case_match; simplify_eq; try apply tables_kept_refl; [by eapply publish_to_quic_kept|].
    eapply publish_all_kept, E. intros ? ? ?. apply publish_to_quic_kept.
Qed.

Lemma server_reachable_inv v : server_reachable v -> server_inv v.
Proof.
  intros Hr. unfold server_reachable in Hr. assert (server_inv empty_server) as I by (by split).
  revert I. induction Hr; [done|]. intros I. apply IHHr. by eapply server_step_inv.
Qed.

(** C31: In every state of the registries, whatever factories, registrations and publications
    come in which order, each name leads to a broker of that name, different names to
    different brokers, and each port to a name that has a broker. *)
Theorem registry_well_formed v (Hr : server_reachable v) :
  (forall n p, brokers v !! n = Some p -> protocol_broker_name p v = Some n) /\
  (forall n n' p, brokers v !! n = Some p -> brokers v !! n' = Some p -> n = n') /\
  (forall port n, get_broker_name port v = Some n -> exists p, brokers v !! n = Some p /\ protocol_broker_name p v = Some n) /\
  (forall n p, quic_brokers v !! n = Some p -> protocol_broker_name p v = Some n /\ exists a, p = PQuic a).
Proof.
  pose proof (server_reachable_inv _ Hr) as I. split_and!.
  - intros n p Hp. by apply (inv_names _ I).
  - intros n n' p H1' H2'. apply (inv_names _ I) in H1' as [E1 _]. apply (inv_names _ I) in H2' as [E2 _]. congruence.
  - intros port n Hp. destruct (inv_ports _ I _ _ Hp) as [p E]. exists p. split; [done|]. by apply (inv_names _ I).
  - intros n p Hp. by apply (inv_quic_names _ I).
Qed.

(** ** A broker that is no longer registered *)

Definition unregistered (a : nat) v : Prop := a < next_addr v /\ forall n, brokers v !! n <> Some (PWs a).

Lemma publish_all_other a f l v r :
  (forall p v r, f p v = Done r -> p <> PWs a -> ws_heap r.1 !! a = ws_heap v !! a) ->
  (PWs a : MqttBrokerProtocol) ∉ l -> publish_all f l v = Done r -> ws_heap r.1 !! a = ws_heap v !! a.
Proof.
  intros Hf. revert v. induction l as [|p l IH]; intros v Hl E; cbn in E; [by simplify_eq|].
  apply not_elem_of_cons in Hl as [Hp Hl].
  destruct (f p v) as [[v1 [[]|e]]| | |] eqn:E1; cbn in E; simplify_eq; apply Hf in E1; try done. cbn in E1. rewrite <- E1. by apply IH.
Qed.

Lemma publish_to_other a b t q rt m p v r :
  publish_to_connection b t q rt m p v = Done r -> p <> PWs a -> ws_heap r.1 !! a = ws_heap v !! a.
Proof.
  destruct p as [a'|a'|a']; cbn; intros E Hne; [| |by simplify_eq].
  - destruct (ws_heap v !! a') as [x|]; cbn in E; [|done]. destruct (ws_publish _ _ _ _ _ x) as [y| | |]; cbn in E; simplify_eq.
    cbn. rewrite lookup_insert_ne; congruence.
  - destruct (wss_heap v !! a') as [x|]; cbn in E; [|done]. destruct (ws_publish _ _ _ _ _ x) as [y| | |]; cbn in E; by simplify_eq.
Qed.

Lemma publish_to_quic_other a b t q rt m p v r :
  publish_to_quic_connection b t q rt m p v = Done r -> ws_heap r.1 !! a = ws_heap v !! a.
Proof.
  destruct p as [a'|a'|a']; cbn; intros E; [by simplify_eq..|]. destruct (quic_heap v !! a') as [x|]; cbn in E; [|done].
  destruct (quic_publish _ _ _ _ _ x). by simplify_eq.
Qed.

Lemma add_ws_other a fac v r : unregistered a v -> add_ws lower fac v = Done r ->
  unregistered a r.1 /\ ws_heap r.1 !! a = ws_heap v !! a.
Proof.
  intros [Ha Hn] E. unfold add_ws in E. destruct (with_name _ _ _ _) as [b| | |]; cbn in E; simplify_eq. split.
  - split; cbn; [lia|]. intros n [[_ [= Ea]]|[_ Hp]]%lookup_insert_Some; [lia|by apply (Hn n)].
  - cbn. by rewrite lookup_insert_ne by lia.
Qed.

Lemma add_wss_other a fac v r : unregistered a v -> add_wss lower fac v = Done r ->
  unregistered a r.1 /\ ws_heap r.1 !! a = ws_heap v !! a.
Proof.
  intros [Ha Hn] E. unfold add_wss in E. destruct (with_name _ _ _ _) as [b| | |]; cbn in E; simplify_eq. split; [|done].
  split; cbn; [lia|]. intros n [[_ [=]]|[_ Hp]]%lookup_insert_Some. by apply (Hn n).
Qed.

Lemma register_ws_other a f n v r : unregistered a v -> register_ws f n v = Done r -> ws_heap r.1 !! a = ws_heap v !! a.
Proof.
  intros [_ Hn] E. unfold register_ws in E. repeat case_match; simplify_eq; [|done]. cbn. rewrite lookup_alter_ne; [done|].
  intros ->. by apply (Hn n).
Qed.

Lemma kept_unregistered a v v' : tables_kept v v' -> unregistered a v -> unregistered a v'.
Proof. intros K [Ha Hn]. split; [by rewrite (kept_next _ _ K)|]. intros n. rewrite (kept_brokers _ _ K). apply Hn. Qed.

Lemma listed_elem order m p : listed order m -> p ∈ order -> exists n, m !! n = Some p.
Proof.
  intros Hl Hp. unfold listed in Hl. rewrite Hl in Hp. apply list_elem_of_fmap in Hp as ([n p'] & -> & Hm).
  apply elem_of_map_to_list in Hm. by exists n.
Qed.

Lemma step_unregistered a v v' : server_step v v' -> unregistered a v ->
  unregistered a v' /\ ws_heap v' !! a = ws_heap v !! a.
Proof.
  intros Hs U. destruct Hs as [p n port v r E|p n port v r E|n port v|fac v r E|fac v r E|fac v|n l v r E|n l v r E|n l v r E|n l v r E
    |b t q rt n v|b t q rt n v|b t q rt m order n v r Hl E|b t q rt m order n v r Hl E].
  - unfold ws_factory in E. destruct (add_ws _ _ v) as [r'| | |] eqn:E'; cbn in E; simplify_eq. by eapply add_ws_other.
  - unfold wss_factory in E. destruct (add_wss _ _ v) as [r'| | |] eqn:E'; cbn in E; simplify_eq. by eapply add_wss_other.
  - split; [|done]. destruct U. split; cbn; [lia|done].
  - unfold ws_child_protocol in E. repeat case_match; simplify_eq; try done; by eapply add_ws_other.
  - unfold wss_child_protocol in E. repeat case_match; simplify_eq; try done; by eapply add_wss_other.
  - unfold new_quic_service. destruct U. repeat case_match; (split; [|done]); split; cbn; first [lia|done].
  - split; [|by eapply register_ws_other]. eapply kept_unregistered, U. by eapply register_ws_kept, E.
  - split; [|by eapply register_ws_other]. eapply kept_unregistered, U. by eapply register_ws_kept, E.
  - split; [|unfold register_mqtts_listener, register_wss in E; by repeat case_match; simplify_eq].
    eapply kept_unregistered, U. by eapply register_wss_kept, E.
  - split; [|unfold register_mqtts_service, register_wss in E; by repeat case_match; simplify_eq].
    eapply kept_unregistered, U. by eapply register_wss_kept, E.
  - split; [eapply kept_unregistered, U; apply add_topic_kept|]. unfold add_topic. repeat case_match; try done. cbn.
    rewrite lookup_alter_ne; [done|]. intros ->. by apply (proj2 U n).
  - split; [eapply kept_unregistered, U; apply add_quic_topic_kept|]. unfold add_quic_topic. by repeat case_match.
  - assert (forall p, (exists n, brokers v !! n = Some p) -> p <> PWs a) as Hp by (intros p [x Hx] ->; by apply (proj2 U x)).
    unfold publish_topic in E. split.
    + eapply kept_unregistered, U. repeat case_match; simplify_eq; [by eapply publish_to_kept|apply tables_kept_refl|].
      eapply publish_all_kept, E. intros ? ? ?. apply publish_to_kept.
    + repeat case_match; simplify_eq; [|done|].
      * eapply publish_to_other; [done|]. apply Hp. eauto.
      * eapply publish_all_other, E; [intros ? ? ? ? ?; by eapply publish_to_other|].
        intros Hin. by apply (Hp (PWs a)); [eapply listed_elem|].
  - unfold publish_quic_topic in E. split.
    + eapply kept_unregistered, U. repeat case_match; simplify_eq; try apply tables_kept_refl; [by eapply publish_to_quic_kept|].
      eapply publish_all_kept, E. intros ? ? ?. apply publish_to_quic_kept.
    + repeat case_match; simplify_eq; try done; [by eapply publish_to_quic_other|].
      clear Hl. revert v U E. induction order as [|p order IH]; intros v U E; cbn in E; [by simplify_eq|].
      destruct (publish_to_quic_connection _ _ _ _ _ p v) as [[v1 [[]|e]]| | |] eqn:E1; cbn in E; simplify_eq.
      * pose proof (publish_to_quic_other a _ _ _ _ _ _ _ _ E1) as Ho. cbn in Ho. rewrite <- Ho. apply IH; [|done].
        eapply kept_unregistered, U. apply (publish_to_quic_kept _ _ _ _ _ _ _ _ E1).
      * apply (publish_to_quic_other a _ _ _ _ _ _ _ _ E1).
Qed.

(** A second broker under the same name takes the place of the first for good: the
    connections of the first one stay with it, but whatever the server does with its tables
    from then on, it neither publishes to them nor registers a topic or a service there. *)
Theorem broker_replaced v v2 pn n port a r :
  server_reachable v -> brokers v !! n = Some (PWs a) ->
  ws_factory lower pn n port v = Done r -> rtc server_step r.1 v2 ->
  (exists a2, brokers r.1 !! n = Some (PWs a2) /\ a2 <> a) /\ ws_heap v2 !! a = ws_heap v !! a /\ is_Some (ws_heap v !! a).
Proof.
  intros Hr Hn E Hs. pose proof (server_reachable_inv _ Hr) as I.
  destruct (inv_names _ I _ _ Hn) as [Hname _]. cbn in Hname.
  assert (a < next_addr v) as Ha by (apply not_ge; intros Hge; by rewrite (inv_ws _ I) in Hname).
  assert (is_Some (ws_heap v !! a)) as Hsome by (destruct (ws_heap v !! a); [by eexists|done]).
  unfold ws_factory, add_ws in E. destruct (with_name _ _ _ _) as [b| | |]; cbn in E; simplify_eq.
  cbn in *. split; [exists (next_addr v); rewrite lookup_insert_eq; split; [done|lia]|]. split; [|done].
  match type of Hs with rtc _ ?v1 _ => assert (unregistered a v1) as U; [|assert (ws_heap v1 !! a = ws_heap v !! a) as E1] end.
  - split; cbn; [lia|]. intros m [[_ [= Em]]|[Hne Hm]]%lookup_insert_Some; [lia|]. apply Hne.
    apply (inv_names _ I) in Hm as [Hm _]. cbn in Hm. congruence.
  - cbn. by rewrite lookup_insert_ne by lia.
  - rewrite <- E1. clear -Hs U. induction Hs as [|x y z Hst Hs IH]; [done|]. destruct (step_unregistered _ _ _ Hst U) as [U' <-]. by apply IH.
Qed.

(** C30: A topic that the server publishes under the name of a broker reaches the connection
    of every subscriber of that broker, once for each subscription found, as one binary
    frame; the topic is registered with the broker, and no other broker is touched. *)
Theorem server_publish_delivers v n a b order is_public topic qos rt m br ss c0 cs buf :
  brokers v !! n = Some (PWs a) -> ws_heap v !! a = Some b ->
  subscribed is_public topic qos rt (w_broker (wb_world b)) = (br, Some ss) ->
  omap (fun x => match deref x (wb_world b) with Some s => connect s | None => None end) ss = c0 :: cs ->
  write_packet (topic_packet topic m) = Some buf -> window_bits c0 = 0%Z ->
  (exists c s, c ∈ c0 :: cs /\ w_conns (wb_world b) !! ws_uid c = Some s /\ tr_is_closed s = false) ->
  exists v' b' f fb, publish_topic is_public topic qos rt m order (Some n) v = Done (v', Ok tt) /\
    single_with_window_bits_and_payload (frame_type_to TBinary) 0 buf = Some f /\ frame_to f = Some fb /\
    ws_heap v' = <[a := b']> (ws_heap v) /\ wss_heap v' = wss_heap v /\ quic_heap v' = quic_heap v /\
    w_broker (wb_world b') = br /\ w_heap (wb_world b') = w_heap (wb_world b) /\
    forall u, w_conns (wb_world b') !! u = Nat.iter (length (filter (fun c => ws_uid c = u) (c0 :: cs)))
      (fun s => (tr_write_ready fb s).1) <$> w_conns (wb_world b) !! u.
Proof.
  intros Hn Hb Hsub Hconn Hbuf Hw0 Hopen.
  destruct (broadcast_packet_delivers c0 cs (topic_packet topic m) buf (set_broker br (wb_world b)) Hbuf Hw0 Hopen)
    as (f & fb & conns & E1 & E2 & Hbc & Hu).
  set (b' := set_world (set_conns conns (set_broker br (wb_world b))) b). exists (set_ws_heap (<[a := b']> (ws_heap v)) v), b', f, fb.
  split_and!; try first [done|exact Hu].
  unfold publish_topic. rewrite Hn. unfold publish_to_connection. rewrite Hb. cbn [lift mbind outcome_bind].
  unfold ws_publish, ws_subscribed. rewrite Hsub. cbn [set_world wb_world].
  change (omap _ ss) with (omap (fun x => match deref x (wb_world b) with Some s => connect s | None => None end) ss).
  rewrite Hconn, Hbc. done.
Qed.

(** Publishing to a QUIC broker tells that a topic is not subscribed only when it has a
    wildcard; a plain topic that nobody has subscribed to is published without an error. *)
Lemma quic_never_unsubscribed b is_public topic qos rt m :
  wildcards (path_from topic) = false -> (quic_publish is_public topic qos rt m b).2 <> Err Other.
Proof.
  intros Hw. assert (is_Some (subscribed is_public topic qos rt (qb_broker b)).2) as [ss Hs].
  { unfold subscribed. destruct (if is_public then _ else _) as [b' new]. destruct (sub_tab b' !! topic).
    - by repeat case_match.
    - unfold PathTree.lookup. rewrite Hw. by eexists. }
  unfold quic_publish, quic_subscribed. destruct (subscribed _ _ _ _ _) as [br o]. cbn in Hs. subst o.
  destruct (quic_broadcast_packet _ _ _) as [conns []]; done.
Qed.

(** What [publish_topic] does with a name that has no broker, and with all of none. *)
Lemma publish_unknown v order is_public topic qos rt m n :
  brokers v !! n = None -> publish_topic is_public topic qos rt m order (Some n) v = Done (v, Err Other).
Proof. intros Hn. cbn. by rewrite Hn. Qed.
End facts.

(** [send] of a session puts one binary frame with the packet on its own connection and
    changes nothing else; without a connection, or on a closed one, nothing is written. *)
Theorem session_send_delivers `{TopicApi} `{PacketCodec} {S : Type} `{TransportLaws S}
    topic m (s : QosZeroSession WsSocket) (w : world (S := S)) c x buf :
  connect s = Some c -> w_conns w !! ws_uid c = Some x -> window_bits c = 0%Z ->
  write_packet (PPublish (mkPublish false 0 false topic None m)) = Some buf ->
  exists f fb x' r, single_with_window_bits_and_payload (frame_type_to TBinary) 0 buf = Some f /\ frame_to f = Some fb /\
    session_send topic m s w = Done (set_conns (<[ws_uid c := x']> (w_conns w)) w, r) /\
    tr_write_ready fb x = (x', r) /\
    (tr_is_closed x = false -> r = Ok tt /\ tr_written x' = tr_written x ++ [fb]) /\ (is_ok r = false -> x' = x).
Proof.
  intros Hc Hx Hw Hbuf. destruct (data_frame TBinary buf) as (f & fb & E1 & E2 & E3); [by eapply packet_fits|].
  destruct (tr_write_ready fb x) as [x' r] eqn:Ew. exists f, fb, x', r. split_and!; try done.
  - unfold session_send, on_conn, send. rewrite Hc, Hbuf, Hx, Hw, E1. cbn [lift mbind outcome_bind]. rewrite E3. cbn. by rewrite Ew.
  - intros Ho. destruct (tr_write_open fb x Ho) as (x2 & E & _). rewrite E in Ew. simplify_eq. split; [done|]. by destruct (tr_write_accept _ _ _ E).
  - destruct r; [done|]. intros _. by eapply tr_write_refuse.
Qed.
