(* ===== verification/MqttQuic.v ===== *)
(** * MQTT 3.1.1 over QUIC (mqtt/src/quic_v311.rs, quic_session.rs)

    The handlers of a QUIC service that speaks MQTT: packets are read from the main stream
    of a connection of [QuicPool] and written to it without frames. A connection is named by
    its address in the pool. Sessions and broker (quic_session.rs, quic_broker.rs) repeat
    those of [MqttSession] and [MqttBroker], which are used here; the context that is bound to a connection
    is kept by its address. *)

From S2P Require Import Prelude QuicSocket QuicPool MqttTopic MqttSession MqttBroker MqttV311.

(** How the package mqtt311 reads the bytes of a stream: more are needed, they are no
    packet, or a packet and the number of its bytes. *)
Inductive PacketRead :=
| ReadIncomplete
| ReadMalformed
| ReadPacket (p : Packet) (len : nat).

Class PacketReader := read_packet_with_len : list Z -> PacketRead.

(** How the task of a handler goes on: it is over, it waits for bytes of the main stream,
    or for the end of a hibernation. *)
Inductive loop_end := LoopReturns | AwaitsBytes | AwaitsHibernate.

Definition QMQTT31 : Z := 0x3.
Definition QMQTT311 : Z := 0x4.
Definition QMAX_QOS : Z := 0.

Section quic_v311.
Context `{TopicApi} `{PacketCodec} `{PacketReader}.
Context {C E X : Type} `{QuinnApi C}.
Notation Pool := (Pool C E X).
Implicit Types s : QuicSocket C.

(** The broker, the sessions behind the [Arc]s, the context of each connection, the pool. *)
Record qworld := mkQWorld {
  q_broker : MqttBroker;
  q_heap : gmap nat (QosZeroSession nat);
  q_next : nat;
  q_contexts : gmap nat BrokerSession;
  q_pool : Pool;
}.
Implicit Types w : qworld.

Definition set_qbroker b w : qworld := mkQWorld b (q_heap w) (q_next w) (q_contexts w) (q_pool w).
Definition set_qheap h w : qworld := mkQWorld (q_broker w) h (q_next w) (q_contexts w) (q_pool w).
Definition set_contexts c w : qworld := mkQWorld (q_broker w) (q_heap w) (q_next w) c (q_pool w).
Definition set_qpool p w : qworld := mkQWorld (q_broker w) (q_heap w) (q_next w) (q_contexts w) p.

(** The application: a listener and a service of the broker. *)
Record QListener := mkQListener {
  q_connected : ArcSession -> qworld -> qworld * io_result unit;
  q_closed : ArcSession -> BrokerSession -> io_result unit -> qworld -> qworld;
}.
Record QService := mkQService {
  q_svc_subscribe : ArcSession -> list (string * Z) -> qworld -> qworld * io_result unit;
  q_svc_unsubscribe : ArcSession -> list string -> qworld -> qworld * io_result unit;
  q_svc_publish : ArcSession -> string -> list Z -> qworld -> qworld * io_result unit;
}.

Record QuicMqtt311 := mkQuicMqtt311 {
  qm_qos : Z;
  qm_listener : option QListener;
  qm_service : option QService;
}.

(** ** Connections *)

Definition qderef (a : ArcSession) w : option (QosZeroSession nat) := q_heap w !! addr a.
Definition qconn (a : nat) w : option (QuicSocket C) := QuicPool.conns (q_pool w) !! a.
Definition put_qconn (a : nat) s w : qworld := set_qpool (put_conn a s (q_pool w)) w.

(** A session of a connection, as its operations see it; [get_main_stream_id().unwrap()]. *)
Definition qmain (a : nat) w : outcome (QuicSocket C * Z) :=
  s ← lift (qconn a w); id ← lift (main_stream_id s); Done (s, id).

Definition is_closed_at (a : nat) w : bool := match qconn a w with Some s => is_closed s | None => true end.

(** [connect.close(code, reason)]; a waiting reader of a stream is woken with 0. *)
Definition close_at (a : nat) (code : Z) (reason : io_result unit) w : qworld :=
  set_qpool (close_conn a code reason (q_pool w)) w.

(** [update_timeout] *)
Definition update_timeout (a : nat) (client_id : string) (keep_alive : Z) w : qworld :=
  match qconn a w with
  | Some s => put_qconn a (set_timeout (keep_alive * 1500)%Z (Some client_id) s) w
  | None => w
  end.

(** [send_packet]: the packet is written to the main stream. *)
Definition write_main (a : nat) (buf : list Z) w : outcome (qworld * io_result unit) :=
  '(s, id) ← qmain a w;
  let '(s, r) := write_ready id buf s in
  Done (put_qconn a s w, r).
Definition send_packet (a : nat) (p : Packet) w : outcome (qworld * io_result unit) :=
  match write_packet p with
  | None => Done (w, Err InvalidData)
  | Some buf => write_main a buf w
  end.

(** [broadcast_packet] *)
Definition broadcast_packet (connects : list nat) (p : Packet) w : qworld * io_result unit :=
  match connects with
  | [] => (w, Ok tt)
  | _ =>
      match write_packet p with
      | None => (w, Err InvalidData)
      | Some buf =>
          if existsb (fun a => negb (is_closed_at a w)) connects then
            let '(p, r) := broadcast connects buf (q_pool w) in (set_qpool p w, r)
          else (w, Ok tt)
      end
  end.

(** An answer; a failure is reported as a broken pipe. *)
Definition respond (a : nat) (p : Packet) w : outcome (qworld * io_result unit) :=
  r ← send_packet a p w;
  Done (r.1, match r.2 with Err _ => Err BrokenPipe | Ok _ => Ok tt end).

(** [get_client_context] *)
Definition get_client_context (a : nat) w : io_result (string * Z) :=
  match q_contexts w !! a with
  | Some bs => Ok (bs_client_id bs, bs_keep_alive bs)
  | None => Err ConnectionRefused
  end.

Variable protocol : QuicMqtt311.

(** ** Connecting *)

(** [reset_session] *)
Definition reset_session (a : nat) (id : string) (p : Connect) w : qworld * ArcSession :=
  let s := bind_connect a (with_client_id id) in
  let s := set_clean (co_clean_session p) (set_accept true s) in
  let s := match co_last_will p with Some lw => put_will (Some lw) s | None => s end in
  let s := set_keep_alive (co_keep_alive p) (set_user_pwd (co_username p) (co_password p) s) in
  let w := update_timeout a (co_client_id p) (co_keep_alive p) w in
  let arc := mkArcSession (q_next w) id (uid <$> qconn a w) in
  (mkQWorld (insert_session id arc (q_broker w)) (<[q_next w := s]> (q_heap w))
     (Datatypes.S (q_next w)) (q_contexts w) (q_pool w), arc).

(** [accept] *)
Definition accept (a : nat) (p : Connect) w : outcome (qworld * io_result unit) :=
  let id := co_client_id p in
  let is_exist := is_exist_session id (q_broker w) in
  let already :=
    if is_exist then
      match get_session id (q_broker w) with
      | Some arc => match qderef arc w with Some s => accepted s | None => false end
      | None => false
      end
    else false in
  if already then Done (w, Err AlreadyExists) else
  let session_present :=
    if co_clean_session p then false else if negb is_exist then false else true in
  if negb (co_level p =? QMQTT31)%Z && negb (co_level p =? QMQTT311)%Z then
    r ← respond a (PConnack session_present RefusedProtocolVersion) w;
    Done (r.1, match r.2 with Err e => Err e | Ok _ => Err ConnectionAborted end)
  else
    let bs := mkBrokerSession id (co_keep_alive p) (co_clean_session p) (co_username p) (co_password p) in
    let w := match q_contexts w !! a with None => set_contexts (<[a := bs]> (q_contexts w)) w | Some _ => w end in
    let '(w, arc) := reset_session a id p w in
    let '(w, code) :=
      match qm_listener protocol with
      | Some l =>
          match q_connected l arc w with
          | (w, Err _) => (w, NotAuthorized)
          | (w, Ok _) => (w, CodeAccepted)
          end
      | None => (w, CodeAccepted)
      end in
    respond a (PConnack session_present code) w.

(** ** Publishing *)

(** The part of [publish] without a service. *)
Definition standard_publish (topic : string) (qos : Z) (retain : option Publish) (p : Publish) w
    : qworld * io_result unit :=
  let '(b, sessions) := subscribed true topic qos retain (q_broker w) in
  let w := set_qbroker b w in
  match sessions with
  | Some ss =>
      let connects := omap (fun arc => match qderef arc w with Some s => MqttSession.connect s | None => None end) ss in
      let '(w, r) := broadcast_packet connects (PPublish p) w in
      (w, match r with Err _ => Err BrokenPipe | Ok _ => Ok tt end)
  | None => (w, Ok tt)
  end.

(** [connect.hibernate(..)] and the first poll of the object, which takes the cell of the
    connection when it is free. *)
Definition hibernate_at (a : nat) w : outcome (qworld * handled) :=
  '(s, _) ← qmain a w;
  if is_closed s then Done (w, Returns (Ok tt))
  else Done (put_qconn a (set_hibernate (q_next w) s).1 w, Hibernates).

(** [publish] *)
Definition publish (a : nat) (p : Publish) w : outcome (qworld * handled) :=
  match get_client_context a w with
  | Err e => Done (w, Returns (Err e))
  | Ok (id, keep) =>
      let w := update_timeout a id keep w in
      let qos := pub_qos p in
      if (qm_qos protocol <? qos)%Z then Done (w, Returns (Err InvalidData)) else
      match path_from_str (topic_name p) with
      | None => Done (w, Returns (Err InvalidData))
      | Some path =>
          if wildcards path || bool_decide (path_string path = EmptyString) then
            Done (w, Returns (Err InvalidData))
          else
            let p := mkPublish false (pub_qos p) (pub_retain p) (topic_name p) (pkid p) (payload p) in
            let retain := if pub_retain p then Some p else None in
            match qm_service protocol, get_session id (q_broker w) with
            | Some svc, Some arc =>
                let passive := match qderef arc w with Some s => is_passive s | None => false end in
                let '(w, result) := q_svc_publish svc arc (topic_name p) (payload p) w in
                if passive then hibernate_at a w else Done (w, Returns result)
            | _, _ =>
                let '(w, r) := standard_publish (path_string path) qos retain p w in
                Done (w, Returns r)
            end
      end
  end.

(** ** Subscribing *)

Definition sub_code (t : SubscribeTopic) : SubscribeReturnCodes :=
  if (qm_qos protocol <? st_qos t)%Z then SubFailure else SubSuccess (qm_qos protocol).

Fixpoint subscribe_topics (arc : ArcSession) (ts : list SubscribeTopic) (b : MqttBroker)
    (codes : list SubscribeReturnCodes) (retains : option Retain)
    : outcome (MqttBroker * list SubscribeReturnCodes * option Retain) :=
  match ts with
  | [] => Done (b, codes, retains)
  | t :: ts' =>
      match MqttBroker.subscribe SUBSCRIBE_DEPTH arc (st_topic_path t) b with
      | Some (b, r) => subscribe_topics arc ts' b (codes ++ [sub_code t]) r
      | None => NoFuel
      end
  end.

Fixpoint send_publishes (a : nat) (ps : list Publish) w : outcome qworld :=
  match ps with
  | [] => Done w
  | p :: ps' => r ← send_packet a (PPublish p) w; send_publishes a ps' r.1
  end.

(** [subscribe] *)
Definition subscribe (a : nat) (pkid : Z) (ts : list SubscribeTopic) w : outcome (qworld * io_result unit) :=
  match get_client_context a w with
  | Err e => Done (w, Err e)
  | Ok (id, keep) =>
      let w := update_timeout a id keep w in
      sub ← match qm_service protocol, get_session id (q_broker w) with
            | Some svc, Some arc =>
                let sub_topics := (fun t => (st_topic_path t, st_qos t)) <$> ts in
                let '(w, r) := q_svc_subscribe svc arc sub_topics w in
                let code := match r with Err _ => SubFailure | Ok _ => SubSuccess (qm_qos protocol) end in
                Done (w, replicate (length ts) code, None)
            | None, Some arc =>
                r ← subscribe_topics arc ts (q_broker w) [] None;
                Done (set_qbroker r.1.1 w, r.1.2, r.2)
            | _, None => Done (w, [], None)
            end;
      let '(w, codes, retains) := sub in
      r ← respond a (PSuback pkid codes) w;
      match r.2 with
      | Err e => Done (r.1, Err e)
      | Ok _ =>
          w ← send_publishes a
                (match retains with Some (Single p) => [p] | Some (Mutil ps) => ps | None => [] end) r.1;
          Done (w, Ok tt)
      end
  end.

(** [unsubscribe] *)
Definition unsubscribe (a : nat) (pkid : Z) (ts : list string) w : outcome (qworld * io_result unit) :=
  match get_client_context a w with
  | Err e => Done (w, Err e)
  | Ok (id, keep) =>
      let w := update_timeout a id keep w in
      let '(w, r) :=
        match qm_service protocol, get_session id (q_broker w) with
        | Some svc, Some arc =>
            match q_svc_unsubscribe svc arc ts w with
            | (w, Err _) => (w, Err BrokenPipe)
            | (w, Ok _) => (w, Ok tt)
            end
        | None, Some arc =>
            (set_qbroker (foldl (fun b t => MqttBroker.unsubscribe arc t b) (q_broker w) ts) w, Ok tt)
        | _, None => (w, Ok tt)
        end in
      match r with
      | Err e => Done (w, Err e)
      | Ok _ => respond a (PUnsuback pkid) w
      end
  end.

(** [ping_req], [disconnect] *)
Definition ping_req (a : nat) w : outcome (qworld * io_result unit) :=
  match get_client_context a w with
  | Err e => Done (w, Err e)
  | Ok (id, keep) => respond a PPingresp (update_timeout a id keep w)
  end.
Definition disconnect (a : nat) w : qworld * io_result unit := (close_at a 0 (Ok tt) w, Ok tt).

(** ** The loop over the packets *)

(** What one packet leads to; any other kind ends the loop. *)
Definition handle_packet (a : nat) (p : Packet) w : outcome (option (qworld * handled)) :=
  let ret (o : outcome (qworld * io_result unit)) := r ← o; Done (Some (r.1, Returns r.2)) in
  match p with
  | PConnect p => ret (accept a p w)
  | PPublish p => r ← publish a p w; Done (Some r)
  | PSubscribe pkid ts => ret (subscribe a pkid ts w)
  | PUnsubscribe pkid ts => ret (unsubscribe a pkid ts w)
  | PPingreq => ret (ping_req a w)
  | PDisconnect => ret (Done (disconnect a w))
  | _ => Done None
  end.

(** The first part of a turn: bytes that are there, or a wait for them; [None] leaves. *)
Definition await_bytes (a : nat) w : outcome (qworld * option loop_end) :=
  '(s, id) ← qmain a w;
  match read_buffer_remaining id s with
  | None => Done (w, Some LoopReturns)
  | Some O =>
      match read_ready id 0 s with
      | (s, inr O) => Done (put_qconn a s w, Some LoopReturns)
      | (s, inr _) => Done (put_qconn a s w, None)
      | (s, inl _) => Done (put_qconn a s w, Some AwaitsBytes)
      end
  | Some _ => Done (w, None)
  end.

(** The second part takes a packet from the read buffer. *)
Definition take_packet (a : nat) w : outcome (qworld * option Packet) :=
  '(s, id) ← qmain a w;
  t ← lift (get_stream id s);
  match read_packet_with_len (read_buf t) with
  | ReadIncomplete => Done (w, None)
  | ReadMalformed => Done (close_at a 1000 (Err InvalidInput) w, None)
  | ReadPacket p n => '(s, _) ← copy_to_bytes id n s; Done (put_qconn a s w, Some p)
  end.

(** What follows a handler: an error closes the connection with code 1000. *)
Definition handled_packet (a : nat) (r : io_result unit) w : qworld * bool :=
  match r with
  | Err _ => (close_at a 1000 (Err InvalidData) w, false)
  | Ok _ => (w, true)
  end.

(** The loop, from its start ([false]) or from the parsing of a packet ([true]). *)
Fixpoint packet_loop (fuel : nat) (a : nat) (ready : bool) w : outcome (qworld * loop_end) :=
  match fuel with
  | O => NoFuel
  | Datatypes.S fuel =>
      '(w, e) ← (if ready then Done (w, None) else await_bytes a w);
      match e with
      | Some e => Done (w, e)
      | None =>
          '(w, p) ← take_packet a w;
          match p with
          | None => Done (w, LoopReturns)
          | Some p =>
              r ← handle_packet a p w;
              match r with
              | None => Done (w, LoopReturns)
              | Some (w, Hibernates) => Done (w, AwaitsHibernate)
              | Some (w, Returns r) =>
                  let '(w, go) := handled_packet a r w in
                  if go : bool then packet_loop fuel a false w else Done (w, LoopReturns)
              end
          end
      end
  end.

(** ** The handlers of the service *)

Definition handle_connected (a : nat) (r : io_result unit) w : outcome qworld :=
  match r with
  | Err _ => Done w
  | Ok _ => '(s, id) ← qmain a w; Done (put_qconn a (set_ready id Readable s) w)
  end.

(** [handle_readed]: whatever stream was read, the packets of the main one are handled. *)
Definition handle_readed (fuel : nat) (a : nat) (id : Z) (r : io_result nat) w : outcome (qworld * loop_end) :=
  match r with
  | Err _ => Done (w, LoopReturns)
  | Ok _ => packet_loop fuel a false w
  end.

(** The task goes on when its bytes have come, or the hibernation has ended. *)
Definition resume_bytes (fuel : nat) (a : nat) (n : nat) w : outcome (qworld * loop_end) :=
  match n with O => Done (w, LoopReturns) | _ => packet_loop fuel a true w end.
Definition resume_hibernate (fuel : nat) (a : nat) (r : io_result unit) w : outcome (qworld * loop_end) :=
  let '(w, go) := handled_packet a r w in
  if go : bool then packet_loop fuel a false w else Done (w, LoopReturns).

Definition handle_closed (a : nat) (r : io_result unit) w : qworld :=
  match q_contexts w !! a with
  | None => w
  | Some bs =>
      let w := set_contexts (delete a (q_contexts w)) w in
      let id := bs_client_id bs in
      match get_session id (q_broker w) with
      | None => w
      | Some arc =>
          let is_clean := match qderef arc w with Some s => clean s | None => false end in
          let w :=
            if is_clean then set_qbroker (remove_session id (unsubscribe_all arc (q_broker w))).1 w else w in
          let w := set_qheap (alter (set_accept false) (addr arc) (q_heap w)) w in
          match qm_listener protocol with Some l => q_closed l arc bs r w | None => w end
      end
  end.

(** [handle_timeouted] sends a packet, and the connection stays. *)
Definition handle_timeouted (a : nat) w : outcome qworld := r ← send_packet a PDisconnect w; Done r.1.

(** ** The connection of a session (quic_session.rs) *)

Definition session_conn (x : QosZeroSession nat) w : option (QuicSocket C) :=
  match MqttSession.connect x with Some a => qconn a w | None => None end.
Definition session_context (x : QosZeroSession nat) w : option BrokerSession :=
  match MqttSession.connect x with
  | Some a => if is_closed_at a w then None else q_contexts w !! a
  | None => None
  end.
Definition session_send (topic : string) (payload : list Z) (x : QosZeroSession nat) w
    : outcome (qworld * io_result unit) :=
  match MqttSession.connect x with
  | Some a => send_packet a (PPublish (mkPublish false 0 false topic None payload)) w
  | None => Done (w, Ok tt)
  end.
Definition session_close (code : Z) (reason : io_result unit) (x : QosZeroSession nat) w : qworld * io_result unit :=
  match MqttSession.connect x with
  | Some a => (close_at a code reason w, Ok tt)
  | None => (w, Ok tt)
  end.
End quic_v311.

(** ** The read buffers are the loop's own *)

Section reads.
Context `{TopicApi} `{PacketCodec} `{PacketReader}.
Context {C E X : Type} `{QuinnApi C}.
Notation Pool := (Pool C E X).
Notation qworld := (qworld (C := C) (E := E) (X := X)).
Implicit Types s : QuicSocket C.
Implicit Types p : Pool.
Implicit Types w : qworld.

(** The main stream of a connection and what its read buffer holds. *)
Definition main_reads s : option (Z * list Z) :=
  id ← main_stream_id s; t ← get_stream id s; Some (id, read_buf t).
Definition pool_reads (a : nat) p : option (Z * list Z) := s ← QuicPool.conns p !! a; main_reads s.
Definition reads (a : nat) w : option (Z * list Z) := pool_reads a (q_pool w).

Record same_reads s s' : Prop := mk_same_reads {
  same_main : main_stream_id s' = main_stream_id s;
  same_bufs id : read_buf <$> get_stream id s' = read_buf <$> get_stream id s;
}.
#[export] Instance same_reads_preorder : PreOrder same_reads.
Proof. split; [by intros s|]. intros s s' s'' [E1 E2] [E3 E4]. split; [congruence|]. intros id. by rewrite E4. Qed.

Lemma same_reads_main s s' : same_reads s s' -> main_reads s' = main_reads s.
Proof.
  intros [Em Eb]. unfold main_reads. rewrite Em. destruct (main_stream_id s) as [id|]; [|done]. cbn.
  specialize (Eb id). destruct (get_stream id s), (get_stream id s'); simplify_eq/=; congruence.
Qed.

Lemma same_notify e s : same_reads s (notify e s).
Proof. split; [unfold notify; by case_step|]. intros id. by rewrite get_notify. Qed.
Lemma same_on_stream id f s : (forall t, read_buf (f t) = read_buf t) -> same_reads s (on_stream id f s).
Proof.
  intros Hf. split; [apply kept_main, kept_on_stream|]. intros id'. destruct (decide (id = id')) as [<-|Hne].
  - rewrite get_on_stream. destruct (get_stream id s); cbn; [by rewrite Hf|done].
  - by rewrite get_on_stream_ne.
Qed.
Hint Resolve same_notify same_on_stream : pinet.

Lemma same_write_ready id buf s : same_reads s (write_ready id buf s).1.
Proof.
  unfold write_ready. case_step; [done|]. case_step; [|done]. cbn.
  etrans; [|apply same_notify]. by apply same_on_stream.
Qed.
Lemma same_wake id s : same_reads s (wake_stream id s).1.
Proof. unfold wake_stream. case_step; [|done]. case_step; [|done]. by apply same_on_stream. Qed.
Lemma same_wakes ids s : same_reads s (wake_streams ids s).1.
Proof.
  revert s. induction ids as [|id ids IH]; intros s; [done|]. cbn. pose proof (same_wake id s) as E1.
  destruct (wake_stream id s) as [s1 b]. specialize (IH s1). destruct (wake_streams ids s1). cbn in *. by etrans.
Qed.
Lemma same_close code r s : same_reads s (close code r s).1.1.
Proof.
  unfold close. case_step; [done|]. pose proof (same_wakes (get_stream_ids (set_qs_status 4 s)) (set_qs_status 4 s)) as Ew.
  destruct (wake_streams _ _) as [s1 l]. cbn in *. etrans; [|apply same_notify]. by etrans; [|etrans; [exact Ew|]].
Qed.
Lemma same_hibernate h s : same_reads s (set_hibernate h s).1.
Proof. unfold set_hibernate. by case_step. Qed.

Lemma pool_reads_put a s s' p b :
  QuicPool.conns p !! a = Some s -> same_reads s s' -> pool_reads b (put_conn a s' p) = pool_reads b p.
Proof.
  intros Ha Hs. unfold pool_reads. cbn. destruct (decide (a = b)) as [<-|Hne].
  - rewrite lookup_insert_eq, Ha. cbn. by apply (same_reads_main s s').
  - by rewrite lookup_insert_ne.
Qed.
Lemma reads_put a s s' w b : qconn a w = Some s -> same_reads s s' -> reads b (put_qconn a s' w) = reads b w.
Proof. apply pool_reads_put. Qed.

(** *** Every operation keeps them *)

Definition keeps w w' : Prop := forall b, reads b w' = reads b w.
#[export] Instance keeps_preorder : PreOrder keeps.
Proof. split; [by intros w|]. intros w w' w'' E1 E2 b. by rewrite E2. Qed.

Lemma keeps_pool w w' : q_pool w' = q_pool w -> keeps w w'.
Proof. intros Ep b. unfold reads. by rewrite Ep. Qed.

Lemma keeps_timeout a id k w : keeps w (update_timeout a id k w).
Proof. unfold update_timeout. destruct (qconn a w) eqn:Ea; [|done]. intros b. eapply reads_put; [done|apply same_notify]. Qed.

Lemma qmain_done a w s id : qmain a w = Done (s, id) <-> qconn a w = Some s /\ main_stream_id s = Some id.
Proof.
  unfold qmain. destruct (qconn a w) as [s'|]; cbn; [|naive_solver].
  destruct (main_stream_id s') eqn:Em; cbn; naive_solver.
Qed.

Lemma keeps_write a buf w w' r : write_main a buf w = Done (w', r) -> keeps w w'.
Proof.
  unfold write_main. intros Eq. destruct (qmain a w) as [[s id]| | |] eqn:Em; simplify_eq/=. apply qmain_done in Em as [Ea _].
  pose proof (same_write_ready id buf s) as Hs. destruct (write_ready id buf s). simplify_eq/=. intros b. by eapply reads_put.
Qed.
Lemma keeps_send a pk w w' r : send_packet a pk w = Done (w', r) -> keeps w w'.
Proof. unfold send_packet. intros Eq. destruct (write_packet pk); simplify_eq/=; [by eapply keeps_write|done]. Qed.
Lemma keeps_respond a pk w w' r : respond a pk w = Done (w', r) -> keeps w w'.
Proof. unfold respond. intros ([w1 r1] & Eq & Er)%bind_done. simplify_eq/=. by eapply keeps_send. Qed.

Lemma pool_reads_broadcast_streams a ids buf p b : pool_reads b (broadcast_streams a ids buf p).1 = pool_reads b p.
Proof.
  revert p. induction ids as [|id ids IH]; intros p; [done|]. cbn. destruct (QuicPool.conns p !! a) as [s|] eqn:Ea; [|done].
  pose proof (same_write_ready id buf s) as Hs. destruct (write_ready id buf s) as [s' [|e]]; cbn in *.
  - rewrite IH. by eapply pool_reads_put.
  - by eapply pool_reads_put.
Qed.
Lemma pool_reads_broadcast l buf p b : pool_reads b (broadcast l buf p).1 = pool_reads b p.
Proof.
  revert p. induction l as [|a l IH]; intros p; [done|]. cbn. set (ids := match QuicPool.conns p !! a with Some _ => _ | None => _ end).
  pose proof (pool_reads_broadcast_streams a ids buf p b) as Ea. destruct (broadcast_streams a ids buf p) as [p1 [|e]]; cbn in *; [by rewrite IH|done].
Qed.
Lemma keeps_broadcast l pk w : keeps w (broadcast_packet l pk w).1.
Proof.
  unfold broadcast_packet. destruct l as [|a l]; [done|]. destruct (write_packet pk) as [buf|]; [|done].
  destruct (existsb _ _); [|done]. intros b. pose proof (pool_reads_broadcast (a :: l) buf (q_pool w) b) as Eb.
  destruct (broadcast _ _ _). done.
Qed.

Lemma keeps_close a code r w : keeps w (close_at a code r w).
Proof.
  unfold close_at, close_conn. intros b. destruct (QuicPool.conns (q_pool w) !! a) as [s|] eqn:Ea; [|done].
  pose proof (same_close code r s) as Hs. destruct (close code r s) as [[s' l] r']. cbn in Hs. by eapply (pool_reads_put a s).
Qed.

Variable protocol : QuicMqtt311 (C := C) (E := E) (X := X).

(** The application's code does not read from connections. *)
Class QuietApp := {
  quiet_connected l arc w : qm_listener protocol = Some l -> keeps w (q_connected l arc w).1;
  quiet_subscribe v arc ts w : qm_service protocol = Some v -> keeps w (q_svc_subscribe v arc ts w).1;
  quiet_unsubscribe v arc ts w : qm_service protocol = Some v -> keeps w (q_svc_unsubscribe v arc ts w).1;
  quiet_publish v arc t m w : qm_service protocol = Some v -> keeps w (q_svc_publish v arc t m w).1;
}.
Context `{QuietApp}.

Lemma keeps_reset a id pk w : keeps w (reset_session a id pk w).1.
Proof. etrans; [apply keeps_timeout|by apply keeps_pool]. Qed.

Lemma keeps_accept a pk w w' r : accept protocol a pk w = Done (w', r) -> keeps w w'.
Proof.
  unfold accept. set (already := if is_exist_session _ _ then _ else _). destruct already; [by intros [= <- <-]|].
  case_step; [intros ([w1 r1] & Eq & Er)%bind_done; simplify_eq/=; by eapply keeps_respond|].
  set (w0 := match q_contexts w !! a with None => _ | Some _ => _ end).
  assert (keeps w w0) as K0 by (unfold w0; case_step; by apply keeps_pool).
  pose proof (keeps_reset a (co_client_id pk) pk w0) as K1. destruct (reset_session _ _ _ _) as [w1 arc]. cbn in K1.
  destruct (qm_listener protocol) as [l|] eqn:El.
  - pose proof (quiet_connected l arc w1 El) as K2. destruct (q_connected l arc w1) as [w2 [|e]]; cbn in K2;
      intros K3%keeps_respond; (etrans; [exact K0|]; etrans; [exact K1|]; by etrans).
  - intros K3%keeps_respond. etrans; [exact K0|]. by etrans.
Qed.

Lemma keeps_standard t q r pk w : keeps w (standard_publish t q r pk w).1.
Proof.
  unfold standard_publish. destruct (subscribed _ _ _ _ _) as [br [ss|]]; [|by apply keeps_pool]. cbv zeta.
  match goal with |- context [broadcast_packet ?l ?k ?x] => pose proof (keeps_broadcast l k x) as Kb; destruct (broadcast_packet l k x) end.
  etrans; [|exact Kb]. by apply keeps_pool.
Qed.
Lemma keeps_hibernate a w w' r : hibernate_at a w = Done (w', r) -> keeps w w'.
Proof.
  unfold hibernate_at. intros Eq. destruct (qmain a w) as [[s id]| | |] eqn:Em; simplify_eq/=. apply qmain_done in Em as [Ea _].
  case_step_in Eq; simplify_eq; [done|]. intros b. eapply reads_put; [done|apply same_hibernate].
Qed.

Lemma keeps_publish a pk w w' r : publish protocol a pk w = Done (w', r) -> keeps w w'.
Proof.
  unfold publish. destruct (get_client_context a w) as [[id k]|e]; [|by intros [= <- <-]]. cbv zeta.
  pose proof (keeps_timeout a id k w) as K0. set (w0 := update_timeout a id k w) in *.
  case_step; [by intros [= <- <-]|]. case_step; [|by intros [= <- <-]]. case_step; [by intros [= <- <-]|].
  match goal with |- context [standard_publish ?x1 ?x2 ?x3 ?x4 w0] => pose proof (keeps_standard x1 x2 x3 x4 w0) as Ks;
    destruct (standard_publish x1 x2 x3 x4 w0) as [ws rs] end. cbn in Ks.
  destruct (qm_service protocol) as [v|] eqn:Ev; [|intros [= <- <-]; by etrans].
  destruct (get_session id (q_broker w0)) as [arc|]; [|intros [= <- <-]; by etrans].
  match goal with |- context [q_svc_publish v arc ?t ?m w0] => pose proof (quiet_publish v arc t m w0 Ev) as Kp;
    destruct (q_svc_publish v arc t m w0) as [w1 r1] end. cbn in Kp.
  destruct (match qderef arc w0 with Some x => is_passive x | None => false end).
  - intros Kh%keeps_hibernate. etrans; [exact K0|]. by etrans.
  - intros [= <- <-]. by etrans.
Qed.

Lemma keeps_publishes a ps w w' : send_publishes a ps w = Done w' -> keeps w w'.
Proof.
  revert w. induction ps as [|pk ps IH]; intros w; cbn; [by intros [= <-]|].
  intros ([w1 r1] & Eq & Er)%bind_done. etrans; [by eapply keeps_send|by apply IH].
Qed.

Lemma keeps_subscribe a k ts w w' r : subscribe protocol a k ts w = Done (w', r) -> keeps w w'.
Proof.
  unfold subscribe. destruct (get_client_context a w) as [[id kp]|e]; [|by intros [= <- <-]]. cbv zeta.
  pose proof (keeps_timeout a id kp w) as K0. set (w0 := update_timeout a id kp w) in *.
  intros ([[w1 codes] rt] & E1 & ([w2 r2] & E2 & E3)%bind_done)%bind_done.
  assert (keeps w0 w1) as K1.
  { destruct (qm_service protocol) as [v|] eqn:Ev, (get_session id (q_broker w0)) as [arc|]; try (by simplify_eq).
    - pose proof (quiet_subscribe v arc ((fun t => (st_topic_path t, st_qos t)) <$> ts) w0 Ev) as Kv.
      destruct (q_svc_subscribe _ _ _ _). by simplify_eq/=.
    - apply bind_done in E1 as (x & _ & Ex). simplify_eq/=. by apply keeps_pool. }
  apply keeps_respond in E2. assert (keeps w w2) as K by (etrans; [exact K0|]; by etrans). cbn in E3.
  destruct r2; simplify_eq/=; [|done]. apply bind_done in E3 as (w3 & E3 & Ew). simplify_eq. etrans; [exact K|by eapply keeps_publishes].
Qed.

Lemma keeps_unsubscribe a k ts w w' r : unsubscribe protocol a k ts w = Done (w', r) -> keeps w w'.
Proof.
  unfold unsubscribe. destruct (get_client_context a w) as [[id kp]|e]; [|by intros [= <- <-]]. cbv zeta.
  pose proof (keeps_timeout a id kp w) as K0. set (w0 := update_timeout a id kp w) in *.
  destruct (qm_service protocol) as [v|] eqn:Ev, (get_session id (q_broker w0)) as [arc|];
    try (by intros K1%keeps_respond; etrans).
  - pose proof (quiet_unsubscribe v arc ts w0 Ev) as Kv. destruct (q_svc_unsubscribe v arc ts w0) as [w1 [|e]]; cbn in Kv.
    + intros K1%keeps_respond. etrans; [exact K0|]. by etrans.
    + intros [= <- <-]. by etrans.
Qed.

Lemma keeps_handle a pk w w' r : handle_packet protocol a pk w = Done (Some (w', r)) -> keeps w w'.
Proof.
  destruct pk; cbn [handle_packet]; try (intros ([w1 r1] & Eq & Er)%bind_done; simplify_eq/=); try done.
  - by eapply keeps_accept.
  - by eapply keeps_publish.
  - by eapply keeps_subscribe.
  - by eapply keeps_unsubscribe.
  - unfold ping_req in Eq. destruct (get_client_context a w) as [[id k]|e]; [|by simplify_eq].
    apply keeps_respond in Eq. etrans; [apply keeps_timeout|exact Eq].
  - apply keeps_close.
Qed.
End reads.

(** ** What the loop does *)

Section loop.
Context `{TopicApi} `{PacketCodec} `{PacketReader}.
Context {C E X : Type} `{QuinnApi C}.
Notation Pool := (Pool C E X).
Notation qworld := (qworld (C := C) (E := E) (X := X)).
Implicit Types s : QuicSocket C.
Implicit Types p : Pool.
Implicit Types w : qworld.
Variable protocol : QuicMqtt311 (C := C) (E := E) (X := X).

Lemma reads_spec a w id b :
  reads a w = Some (id, b) <->
  exists s t, qconn a w = Some s /\ main_stream_id s = Some id /\ get_stream id s = Some t /\ read_buf t = b.
Proof.
  unfold reads, pool_reads, main_reads, qconn. split.
  - destruct (QuicPool.conns (q_pool w) !! a) as [s|]; [|done]. cbn. destruct (main_stream_id s) as [m|] eqn:Em; [|done]. cbn.
    destruct (get_stream m s) as [t|] eqn:Et; [|done]. cbn. intros [= <- <-]. by exists s, t.
  - intros (s & t & -> & Em & Et & <-). cbn. rewrite Em. cbn. by rewrite Et.
Qed.

Lemma qconn_put a s w : qconn a (put_qconn a s w) = Some (set_events [] s).
Proof. apply lookup_insert_eq. Qed.
Lemma qconn_put_ne a b s w : a <> b -> qconn b (put_qconn a s w) = qconn b w.
Proof. intros. by apply lookup_insert_ne. Qed.

(** The packets one after the other, without a loop or parsing: the bytes of each are
    taken, and it is handled; [None] when one of them ends the loop. *)
Definition consume (a n : nat) w : outcome qworld :=
  '(s, id) ← qmain a w; '(s, _) ← copy_to_bytes id n s; Done (put_qconn a s w).
Fixpoint handle_all (a : nat) (l : list (Packet * nat)) w : outcome (option qworld) :=
  match l with
  | [] => Done (Some w)
  | (pk, n) :: l =>
      w ← consume a n w;
      r ← handle_packet protocol a pk w;
      match r with Some (w, Returns (Ok _)) => handle_all a l w | _ => Done None end
  end.

Lemma consume_reads a w id b1 b2 : reads a w = Some (id, b1 ++ b2) ->
  exists w', consume a (length b1) w = Done w' /\ reads a w' = Some (id, b2).
Proof.
  intros (s & t & Ea & Em & Et & Eb)%reads_spec. unfold consume, qmain. rewrite Ea. cbn. rewrite Em. cbn.
  unfold copy_to_bytes. rewrite Et. cbn. rewrite Eb, length_app. rewrite decide_True by lia. cbn.
  eexists. split; [done|]. apply reads_spec. eexists _, (set_read_buf (drop (length b1) (b1 ++ b2)) t). split; [apply qconn_put|].
  split; [cbn; unfold on_stream; by case_step|]. split; [|apply drop_app_length].
  change (get_stream id (set_events [] ?x)) with (get_stream id x). rewrite get_on_stream, Et. cbn. done.
Qed.

Lemma take_packet_consume a w id b pk n : reads a w = Some (id, b) -> read_packet_with_len b = ReadPacket pk n ->
  take_packet a w = (w' ← consume a n w; Done (w', Some pk)).
Proof.
  intros (s & t & Ea & Em & Et & Eb)%reads_spec Hr. unfold take_packet, consume, qmain. rewrite Ea. cbn. rewrite Em. cbn.
  rewrite Et. cbn. rewrite Eb, Hr. by destruct (copy_to_bytes id n s) as [[]| | |].
Qed.

Lemma await_there a w id z b : reads a w = Some (id, z :: b) -> await_bytes a w = Done (w, None).
Proof.
  intros (s & t & Ea & Em & Et & Eb)%reads_spec. unfold await_bytes, qmain. rewrite Ea. cbn. rewrite Em. cbn.
  unfold read_buffer_remaining. rewrite Et. cbn. by rewrite Eb.
Qed.

(** With an empty buffer the loop waits for bytes, unless the connection is closed. *)
Lemma await_empty a w id : reads a w = Some (id, []) ->
  exists w', await_bytes a w = Done (w', Some (if is_closed_at a w then LoopReturns else AwaitsBytes))
    /\ reads a w' = Some (id, []).
Proof.
  intros Hr. pose proof Hr as (s & t & Ea & Em & Et & Eb)%reads_spec. unfold await_bytes, qmain, is_closed_at. rewrite Ea. cbn.
  rewrite Em. cbn. unfold read_buffer_remaining. rewrite Et. cbn. rewrite Eb. cbn. unfold read_ready.
  destruct (is_closed s) eqn:Ec.
  - eexists. split; [done|]. rewrite <-Hr. by eapply reads_put.
  - rewrite Et. rewrite get_set_ready, get_on_stream, Et. cbn [fmap option_fmap option_map]. cbn [read_buf add_wait_recv].
    rewrite Eb. rewrite decide_False by (cbn; lia). eexists. split; [done|]. rewrite <-Hr. eapply reads_put; [done|].
    etrans; [|by apply same_on_stream]. etrans; [|apply same_notify]. by apply same_on_stream.
Qed.

(** Packets that lie in the read buffer of the main stream are taken and handled one
    after the other, in their order; then the loop waits, or leaves the bytes of an
    incomplete packet where they are. *)
Theorem quic_packets_in_order `{!QuietApp protocol} fuel a w w' id pks bufs tail :
  (tail <> [] -> read_packet_with_len tail = ReadIncomplete) ->
  Forall2 (fun pk buf => buf <> [] /\ forall rest, read_packet_with_len (buf ++ rest) = ReadPacket pk (length buf)) pks bufs ->
  reads a w = Some (id, concat bufs ++ tail) ->
  handle_all a (zip pks (length <$> bufs)) w = Done (Some w') -> length pks < fuel ->
  exists w'' e, packet_loop protocol fuel a false w = Done (w'', e) /\ reads a w'' = Some (id, tail)
    /\ e = (if bool_decide (tail = []) then if is_closed_at a w' then LoopReturns else AwaitsBytes else LoopReturns)
    /\ (tail <> [] -> w'' = w').
Proof.
  intros Htail Hf. revert fuel w. induction Hf as [|pk buf pks bufs Hpk Hf IH]; intros fuel w Hr Hall Hfuel.
  - cbn in *. simplify_eq. destruct fuel as [|fuel]; [lia|]. cbn [packet_loop]. destruct tail as [|z tail].
    + destruct (await_empty a w' id Hr) as (w'' & -> & Hr'). cbn. eexists _, _. by split_and!.
    + rewrite (await_there _ _ _ _ _ Hr). cbn. pose proof Hr as (s & t & Ea & Em & Et & Eb)%reads_spec.
      unfold take_packet, qmain. rewrite Ea. cbn. rewrite Em. cbn. rewrite Et. cbn. rewrite Eb, Htail by done. cbn.
      eexists _, _. by split_and!.
  - destruct fuel as [|fuel]; cbn in Hfuel; [lia|]. cbn [concat] in Hr. rewrite <-(assoc_L (++)) in Hr.
    destruct Hpk as [Hne Hread]. specialize (Hread (concat bufs ++ tail)).
    destruct (consume_reads a w id buf _ Hr) as (w1 & Ec & Hr1). cbn in Hall. rewrite Ec in Hall. cbn in Hall.
    apply bind_done in Hall as (r & Eh & Hall). destruct r as [[w2 [[[]|]|]]|]; simplify_eq.
    assert (reads a w2 = Some (id, concat bufs ++ tail)) as Hr2.
    { rewrite <-Hr1. exact (keeps_handle protocol a pk w1 w2 _ Eh a). }
    destruct (IH fuel w2 Hr2 Hall) as (w'' & e & El & Hend); [lia|]. exists w'', e. split; [|done].
    cbn [packet_loop]. assert (await_bytes a w = Done (w, None)) as ->.
    { destruct buf as [|z buf]; [done|]. by eapply await_there. }
    cbn [mbind outcome_bind]. rewrite (take_packet_consume _ _ _ _ _ _ Hr Hread), Ec. cbn [mbind outcome_bind].
    rewrite Eh. cbn [mbind outcome_bind handled_packet]. exact El.
Qed.
End loop.

(** ** Publishing, connecting and closing *)

Section handlers.
Context `{TopicApi} `{PacketCodec} `{PacketReader}.
Context {C E X : Type} `{QuinnApi C}.
Notation Pool := (Pool C E X).
Notation qworld := (qworld (C := C) (E := E) (X := X)).
Implicit Types s : QuicSocket C.
Implicit Types p : Pool.
Implicit Types w : qworld.
Variable protocol : QuicMqtt311 (C := C) (E := E) (X := X).

(** The events of writing a payload to every stream of every connection of a list. *)
Definition writes_to (l : list nat) (buf : list Z) p : list (PoolEvent C E) :=
  concat ((fun c => match QuicPool.conns p !! c with Some s => writes buf s (get_stream_ids s) | None => [] end) <$> l).

Lemma broadcast_others l buf p b : b ∉ l -> QuicPool.conns (broadcast l buf p).1 !! b = QuicPool.conns p !! b.
Proof.
  assert (forall a ids p, b <> a -> QuicPool.conns (broadcast_streams a ids buf p).1 !! b = QuicPool.conns p !! b) as Hs.
  { intros a ids. induction ids as [|id ids IH]; intros p' Hne; [done|]. cbn.
    destruct (QuicPool.conns p' !! a) as [s|]; [|done]. destruct (write_ready id buf s) as [s' [|e]]; cbn.
    - rewrite IH by done. by apply lookup_insert_ne.
    - by apply lookup_insert_ne. }
  revert p. induction l as [|a l IH]; intros p Hb; [done|]. apply not_elem_of_cons in Hb as [Hne Hb]. cbn.
  set (ids := match QuicPool.conns p !! a with Some _ => _ | None => _ end). specialize (Hs a ids p Hne).
  destruct (broadcast_streams a ids buf p) as [p1 [|e]]; cbn in *; [by rewrite IH|done].
Qed.
Lemma broadcast_app l l' buf p p1 : broadcast l buf p = (p1, Ok tt) -> broadcast (l ++ l') buf p = broadcast l' buf p1.
Proof.
  revert p. induction l as [|a l IH]; intros p; cbn; [by intros [= <-]|].
  destruct (broadcast_streams _ _ _ _) as [p2 [|e]]; [apply IH|done].
Qed.

Definition all_open (l : list nat) w : Prop := forall c, c ∈ l -> exists s, qconn c w = Some s /\ open_conn s.

Lemma open_at c w s : qconn c w = Some s -> open_conn s -> is_closed_at c w = false.
Proof. intros Hc (Ho & _). unfold is_closed_at. by rewrite Hc. Qed.

Lemma broadcast_packet_all l pk buf w : NoDup l -> all_open l w -> write_packet pk = Some buf ->
  exists w', broadcast_packet l pk w = (w', Ok tt) /\ channel (q_pool w') = channel (q_pool w) ++ writes_to l buf (q_pool w).
Proof.
  intros Hn Ho Hb. destruct l as [|c l]; [exists w; by rewrite app_nil_r|]. unfold broadcast_packet. rewrite Hb.
  assert (existsb (fun c => negb (is_closed_at c w)) (c :: l) = true) as ->.
  { destruct (Ho c) as (s & Hs & Hos); [set_solver|]. cbn. by rewrite (open_at _ _ _ Hs Hos). }
  destruct (quic_broadcast_all (c :: l) buf (q_pool w) Hn Ho) as (p' & -> & Ec). eexists. split; [done|]. exact Ec.
Qed.

(** A closed connection among the receivers: those before it are written to. *)
Lemma broadcast_packet_stops pre b post pk buf w s id ids :
  NoDup pre -> all_open pre w -> b ∉ pre -> write_packet pk = Some buf ->
  (exists c, c ∈ pre ++ b :: post /\ is_closed_at c w = false) ->
  qconn b w = Some s -> is_closed s = true -> events s = [] -> get_stream_ids s = id :: ids ->
  exists w', broadcast_packet (pre ++ b :: post) pk w = (w', Err ConnectionAborted)
    /\ channel (q_pool w') = channel (q_pool w) ++ writes_to pre buf (q_pool w)
    /\ (forall c, c ∉ pre -> c <> b -> qconn c w' = qconn c w) /\ q_contexts w' = q_contexts w.
Proof.
  intros Hn Ho Hb Hbuf (c & Hc & Hco) Hs Hcl He Hi.
  assert (exists x l, pre ++ b :: post = x :: l) as (x & l & El) by (destruct pre; cbn; eauto).
  unfold broadcast_packet. rewrite El, Hbuf, <-El.
  assert (existsb (fun a => negb (is_closed_at a w)) (pre ++ b :: post) = true) as ->.
  { apply existsb_exists. exists c. rewrite <-list_elem_of_In. by rewrite Hco. }
  destruct (quic_broadcast_all pre buf (q_pool w) Hn Ho) as (p1 & E1 & Ec). rewrite (broadcast_app _ _ _ _ _ E1).
  pose proof (broadcast_others pre buf (q_pool w) b Hb) as Eb. rewrite E1 in Eb. cbn in Eb.
  destruct (quic_broadcast_stops b post buf s id ids p1) as (p2 & E2 & Ec2); [by rewrite Eb|done..|].
  rewrite E2. eexists. split; [done|]. split; [cbn; by rewrite Ec2|]. split; [|done]. intros c' Hc' Hne. unfold qconn. cbn.
  transitivity (QuicPool.conns p1 !! c').
  - assert (QuicPool.conns p1 !! b = Some s) as Ep1 by (rewrite Eb; exact Hs). cbn [broadcast] in E2.
    rewrite Ep1, Hi in E2. cbn [broadcast_streams] in E2. rewrite Ep1 in E2. unfold write_ready in E2. rewrite Hcl in E2.
    simplify_eq. by apply lookup_insert_ne.
  - pose proof (broadcast_others pre buf (q_pool w) c' Hc') as Ec'. by rewrite E1 in Ec'.
Qed.

(** The packet as it is sent on. *)
Definition outgoing (pk : Publish) : Publish := mkPublish false (pub_qos pk) (pub_retain pk) (topic_name pk) (pkid pk) (payload pk).

(** A publication that the handler accepts, and the receivers the broker finds for it. *)
Record publication (a : nat) (pk : Publish) w (bs : BrokerSession) (path : TopicPath) (br : MqttBroker) (l : list nat) (buf : list Z) := {
  pub_context : q_contexts w !! a = Some bs;
  pub_level : (pub_qos pk <= qm_qos protocol)%Z;
  pub_path : path_from_str (topic_name pk) = Some path;
  pub_plain : wildcards path = false /\ path_string path <> EmptyString;
  pub_receivers : exists ss, subscribed true (path_string path) (pub_qos pk) (if pub_retain pk then Some (outgoing pk) else None) (q_broker w) = (br, Some ss)
    /\ omap (fun arc => match qderef arc w with Some s => MqttSession.connect s | None => None end) ss = l;
  pub_encoded : write_packet (PPublish (outgoing pk)) = Some buf;
}.

Lemma q_contexts_timeout a id k w : q_contexts (update_timeout a id k w) = q_contexts w.
Proof. unfold update_timeout. by destruct (qconn a w). Qed.
Lemma q_broker_timeout a id k w : q_broker (update_timeout a id k w) = q_broker w.
Proof. unfold update_timeout. by destruct (qconn a w). Qed.
Lemma q_heap_timeout a id k w : q_heap (update_timeout a id k w) = q_heap w.
Proof. unfold update_timeout. by destruct (qconn a w). Qed.

(** The state in which the broker is asked. *)
Definition published_from (a : nat) (bs : BrokerSession) w : qworld := update_timeout a (bs_client_id bs) (bs_keep_alive bs) w.

Lemma publish_standard a pk w bs path br l buf :
  qm_service protocol = None -> publication a pk w bs path br l buf ->
  publish protocol a pk w =
    let '(w', r) := broadcast_packet l (PPublish (outgoing pk)) (set_qbroker br (published_from a bs w)) in
    Done (w', Returns (match r with Err _ => Err BrokenPipe | Ok _ => Ok tt end)).
Proof.
  intros Hsvc [Hc Hq Hp [Hw Hne] (ss & Hs & Hl) Hb]. unfold publish, get_client_context. rewrite Hc. cbv zeta.
  destruct (Z.ltb_spec (qm_qos protocol) (pub_qos pk)); [lia|]. rewrite Hp, Hw, bool_decide_eq_false_2, Hsvc by done. cbn [orb].
  fold (published_from a bs w). unfold standard_publish. cbn [pub_qos pub_retain].
  assert (q_broker (published_from a bs w) = q_broker w) as -> by apply q_broker_timeout. fold (outgoing pk). rewrite Hs.
  assert (omap (fun arc => match qderef arc (set_qbroker br (published_from a bs w)) with Some s => MqttSession.connect s | None => None end) ss = l) as ->.
  { rewrite <-Hl. apply list_omap_ext. apply Forall2_same_length_lookup_2; [done|]. intros i x y Hx Hy. simplify_eq. unfold qderef. cbn.
    unfold published_from. by rewrite q_heap_timeout. }
  destruct (broadcast_packet _ _ _). done.
Qed.

(** A publication of a connected client is written, as one packet, to every stream of
    the connection of every subscriber the broker finds. *)
Theorem quic_publish_delivered a pk w bs path br l buf :
  qm_service protocol = None -> publication a pk w bs path br l buf ->
  NoDup l -> all_open l (published_from a bs w) ->
  exists w', publish protocol a pk w = Done (w', Returns (Ok tt))
    /\ channel (q_pool w') = channel (q_pool (published_from a bs w)) ++ writes_to l buf (q_pool (published_from a bs w)).
Proof.
  intros Hsvc Hp Hn Ho. rewrite (publish_standard _ _ _ _ _ _ _ _ Hsvc Hp).
  destruct (broadcast_packet_all l (PPublish (outgoing pk)) buf (set_qbroker br (published_from a bs w)) Hn Ho) as (w' & -> & Ec);
    [apply Hp|]. eexists. by split.
Qed.

Lemma close_at_closed a code r w s : qconn a w = Some s ->
  exists s', qconn a (close_at a code r w) = Some s' /\ is_closed s' = true
    /\ (is_closed s = false -> close_reason s' = Some (code, r)).
Proof.
  intros Ha. unfold close_at, close_conn. unfold qconn in *. rewrite Ha. unfold close.
  destruct (is_closed s) eqn:Ec.
  - eexists. split; [apply lookup_insert_eq|]. split; [done|]. done.
  - destruct (wake_streams_waits (get_stream_ids (set_qs_status 4 s)) (set_qs_status 4 s) (stream_ids_sorted _)) as (_ & K & _ & _).
    destruct (wake_streams _ _) as [s1 woken]. cbn in K. eexists. split; [apply lookup_insert_eq|].
    unfold is_closed, notify. pose proof (kept_status _ _ K) as Es. split; [case_step; cbn; by rewrite Es|intros _; by case_step].
Qed.

(** One closed connection among the subscribers is enough: those behind it are not
    told, and the connection of the client that published is closed with code 1000. *)
Theorem quic_dead_subscriber_closes fuel a pk n w w0 id0 b0 bs path br pre b post buf s id ids sa :
  qm_service protocol = None -> reads a w = Some (id0, b0) -> b0 <> [] -> read_packet_with_len b0 = ReadPacket (PPublish pk) n ->
  consume a n w = Done w0 -> publication a pk w0 bs path br (pre ++ b :: post) buf ->
  let w1 := published_from a bs w0 in
  NoDup pre -> all_open pre w1 -> b ∉ pre -> (exists c, c ∈ pre ++ b :: post /\ is_closed_at c w1 = false) ->
  qconn b w1 = Some s -> is_closed s = true -> events s = [] -> get_stream_ids s = id :: ids ->
  qconn a w1 = Some sa -> is_closed sa = false -> a ∉ pre ->
  exists w' s', packet_loop protocol (Datatypes.S fuel) a false w = Done (w', LoopReturns)
    /\ qconn a w' = Some s' /\ is_closed s' = true /\ close_reason s' = Some (1000, Err InvalidData)%Z
    /\ exists ev, channel (q_pool w') = channel (q_pool w1) ++ writes_to pre buf (q_pool w1) ++ ev.
Proof.
  intros Hsvc Hr Hne Hread Hcons Hp w1 Hn Ho Hb Hex Hs Hcl He Hi Ha Hao Hap.
  destruct (broadcast_packet_stops pre b post (PPublish (outgoing pk)) buf (set_qbroker br w1) s id ids) as (w2 & E2 & Ec & Eo & Ex);
    try done; [apply Hp|].
  assert (a <> b) as Hab by (intros ->; congruence).
  assert (qconn a w2 = Some sa) as Ha2 by (by rewrite Eo).
  destruct (close_at_closed a 1000 (Err InvalidData) w2 sa Ha2) as (s' & Es' & Hc' & Hr').
  exists (close_at a 1000 (Err InvalidData) w2), s'. split_and!; [|done|done|by apply Hr'|].
  - cbn [packet_loop]. destruct b0 as [|z b0]; [done|]. rewrite (await_there _ _ _ _ _ Hr). cbn [mbind outcome_bind].
    rewrite (take_packet_consume _ _ _ _ _ _ Hr Hread), Hcons. cbn [mbind outcome_bind handle_packet].
    rewrite (publish_standard _ _ _ _ _ _ _ _ Hsvc Hp). fold w1. rewrite E2. done.
  - unfold close_at, close_conn. unfold qconn in Ha2. rewrite Ha2.
    destruct (close 1000 (Err InvalidData) sa) as [[s2 woken] r2]. cbn. rewrite Ec. cbn. rewrite <-(assoc_L (++)). by eexists.
Qed.

(** *** Connecting and closing *)

Definition q_accepted_session (a : nat) (pk : Connect) : QosZeroSession nat :=
  mkQosZeroSession (Some a) false (co_client_id pk) true (co_clean_session pk) (co_last_will pk)
    (co_username pk) (co_password pk) (co_keep_alive pk).

Definition q_acceptable (pk : Connect) w : Prop :=
  (co_level pk = QMQTT31 \/ co_level pk = QMQTT311) /\
  forall arc x, get_session (co_client_id pk) (q_broker w) = Some arc -> qderef arc w = Some x -> accepted x = false.

(** Answering changes the pool only. *)
Lemma respond_frame a pk w w' r : respond a pk w = Done (w', r) ->
  q_broker w' = q_broker w /\ q_heap w' = q_heap w /\ q_contexts w' = q_contexts w /\ q_next w' = q_next w.
Proof.
  unfold respond, send_packet, write_main. intros ([w1 r1] & Eq & Er)%bind_done. simplify_eq/=.
  destruct (write_packet pk); [|by simplify_eq]. apply bind_done in Eq as ([s id] & _ & Eq).
  destruct (write_ready id l s). by simplify_eq.
Qed.

(** CONNECT of a client that is not connected registers a new session for it, bound to this
    connection, in place of an old one, and binds the connection to the client, unless it is
    bound already; other clients are not touched. *)
Theorem quic_connect_registers a pk w w' r :
  qm_listener protocol = None -> q_acceptable pk w ->
  (forall id arc, sessions (q_broker w) !! id = Some arc -> addr arc < q_next w) ->
  accept protocol a pk w = Done (w', r) ->
  exists arc, get_session (co_client_id pk) (q_broker w') = Some arc /\ qderef arc w' = Some (q_accepted_session a pk)
    /\ is_Some (q_contexts w' !! a)
    /\ (q_contexts w !! a = None -> get_client_context a w' = Ok (co_client_id pk, co_keep_alive pk))
    /\ (forall id arc, id <> co_client_id pk -> get_session id (q_broker w) = Some arc ->
          get_session id (q_broker w') = Some arc /\ qderef arc w' = qderef arc w).
Proof.
  intros Hl [Hlev Hacc] Hok. unfold accept.
  match goal with |- context [if ?x then Done (w, Err AlreadyExists) else _] => assert (x = false) as -> end.
  { destruct (is_exist_session _ _); [|done]. destruct (get_session _ _) as [arc|] eqn:Ea; [|done].
    destruct (qderef arc w) as [x|] eqn:Es; [|done]. by eapply Hacc. }
  assert (negb (co_level pk =? QMQTT31)%Z && negb (co_level pk =? QMQTT311)%Z = false) as -> by (by destruct Hlev as [-> | ->]).
  cbv zeta. set (bs := mkBrokerSession _ _ _ _ _). set (w0 := match q_contexts w !! a with None => _ | Some _ => _ end).
  assert (q_broker w0 = q_broker w /\ q_heap w0 = q_heap w /\ q_next w0 = q_next w
    /\ q_contexts w0 !! a = Some (default bs (q_contexts w !! a))) as (Eb & Eh & En & Ec).
  { unfold w0. destruct (q_contexts w !! a) eqn:Eq0; [done|]. split_and!; try done. apply lookup_insert_eq. }
  unfold reset_session. rewrite Hl. intros (Fb & Fh & Fc & _)%respond_frame. cbn in Fb, Fh, Fc.
  rewrite q_contexts_timeout in Fc. rewrite q_broker_timeout, Eb in Fb. rewrite q_heap_timeout, Eh in Fh.
  assert (forall a id k w, q_next (update_timeout a id k w) = q_next w) as Hn by (intros a0 i0 k0 w1; unfold update_timeout; by destruct (qconn a0 w1)).
  rewrite Hn, En in Fb, Fh. set (arc := mkArcSession _ _ _) in Fb. exists arc. unfold get_session, qderef, get_client_context.
  rewrite Fb, Fh, Fc, Ec. split_and!.
  - apply lookup_insert_eq.
  - cbn. rewrite lookup_insert_eq. unfold q_accepted_session. by destruct (co_last_will pk).
  - by eexists.
  - by intros ->.
  - intros id arc' Hne Hid. cbn. rewrite lookup_insert_ne by done. split; [done|].
    apply lookup_insert_ne. specialize (Hok _ _ Hid). lia.
Qed.

(** When a connection has closed, its client may connect again: its session is
    not connected any more, and forgotten when it asked for a clean session. A session
    that is kept stays subscribed with its closed connection. *)
Theorem quic_mqtt_close_releases a r w bs arc x :
  qm_listener protocol = None -> q_contexts w !! a = Some bs ->
  get_session (bs_client_id bs) (q_broker w) = Some arc -> qderef arc w = Some x ->
  let w' := handle_closed protocol a r w in
  q_contexts w' !! a = None /\ qderef arc w' = Some (set_accept false x) /\ q_pool w' = q_pool w /\
  (clean x = true -> get_session (bs_client_id bs) (q_broker w') = None /\ topics_of (q_broker w') !! hash_key arc = None) /\
  (clean x = false -> q_broker w' = q_broker w /\ MqttSession.connect (set_accept false x) = MqttSession.connect x) /\
  (forall id, id <> bs_client_id bs -> get_session id (q_broker w') = get_session id (q_broker w)).
Proof.
  cbv zeta. unfold get_session, qderef. intros Hl Hc Ha Hx. unfold handle_closed, get_session, qderef.
  rewrite Hc. cbn [set_contexts q_broker q_heap]. rewrite Ha, Hx, Hl. cbv zeta.
  destruct (unsubscribe_all_keeps arc (q_broker w)) as [Es Et].
  destruct (clean x) eqn:Ecl; cbn; rewrite ?lookup_alter_eq, ?Hx, ?Es, ?Et.
  - rewrite !lookup_delete_eq. split_and!; try done. intros id Hne. by rewrite lookup_delete_ne.
  - rewrite lookup_delete_eq. by split_and!.
Qed.

Lemma write_ready_status id buf s : qs_status (write_ready id buf s).1 = qs_status s.
Proof.
  unfold write_ready. case_step; [done|]. case_step; [|done]. cbn.
  by rewrite (kept_status _ _ (kept_notify _ _)), (kept_status _ _ (kept_on_stream _ _ _)).
Qed.

(** A connection whose client has been silent for too long gets a DISCONNECT and
    stays open: its status and the sessions are as before. *)
Theorem quic_mqtt_timeout_stays a w w' :
  handle_timeouted a w = Done w' -> is_closed_at a w' = is_closed_at a w /\ q_broker w' = q_broker w /\ q_heap w' = q_heap w.
Proof.
  unfold handle_timeouted, send_packet, write_main. intros ([w1 r1] & Eq & [= <-])%bind_done. cbn.
  destruct (write_packet PDisconnect) as [buf|]; [|by simplify_eq]. apply bind_done in Eq as ([s id] & Em & Eq).
  apply qmain_done in Em as [Ea _]. pose proof (write_ready_status id buf s) as Est. destruct (write_ready id buf s) as [s' r'].
  simplify_eq. split; [|done]. unfold is_closed_at. rewrite qconn_put, Ea. unfold is_closed in *. cbn in *. by rewrite Est.
Qed.
End handlers.
