(* ===== verification/MqttStack.v ===== *)
(** * MQTT as the sub-protocol of a WebSocket connection

    [WsMqtt311] of mqtt/src/v311.rs implements [ChildProtocol]: the handlers of [WsConnect]
    run on one connection, those of [MqttV311] on the whole state. [focus] is the state
    with one connection taken out; it is a transport again, so the handlers compose, and a
    packet can be followed from the bytes of one connection to those of the others. *)

From S2P Require Import Prelude ByteSource SocketContext WsFrame WsSession WsConnect.
From S2P Require Import MqttTopic MqttSession MqttBroker MqttV311.

Section stack.
Context `{TopicApi} `{PacketCodec} {S : Type} `{Transport S}.

(** The connection of the event handled, and the rest of the state. *)
Record focus := mkFocus { f_sock : WsSocket; f_conn : S; f_world : world (S := S) }.

Definition set_conn (s : S) (f : focus) : focus := mkFocus (f_sock f) s (f_world f).

(** The state with the connection put back, and taken out again. *)
Definition whole (f : focus) : world (S := S) :=
  set_conns (<[ws_uid (f_sock f) := f_conn f]> (w_conns (f_world f))) (f_world f).

Definition focus_on (c : WsSocket) (w : world (S := S)) : option focus :=
  match w_conns w !! ws_uid c with Some s => Some (mkFocus c s w) | None => None end.

#[export] Instance focus_source : ByteSource focus := {|
  src_buffered f := src_buffered (f_conn f);
  src_ready n f := match src_ready n (f_conn f) with Some (v, s) => Some (v, set_conn s f) | None => None end;
  src_at_once n f := src_at_once n (f_conn f);
  src_take n f := match src_take n (f_conn f) with Some (s, bs) => Some (set_conn s f, bs) | None => None end;
  src_close e f := set_conn (src_close e (f_conn f)) f;
  src_stream f := src_stream (f_conn f);
  src_live f := src_live (f_conn f) |}.

#[export] Instance focus_transport : Transport focus := {|
  tr_write_ready buf f := let '(s, r) := tr_write_ready buf (f_conn f) in (set_conn s f, r);
  tr_close reason f := let '(s, r) := tr_close reason (f_conn f) in (set_conn s f, r);
  tr_is_security f := tr_is_security (f_conn f);
  tr_is_closed f := tr_is_closed (f_conn f);
  tr_set_timeout ms id f := set_conn (tr_set_timeout ms id (f_conn f)) f;
  tr_written f := tr_written (f_conn f);
  tr_closes f := tr_closes (f_conn f) |}.

(** [impl ChildProtocol for WsMqtt311] *)
Definition mqtt_protocol (protocol : WsMqtt311 (S := S)) : ChildProtocol focus BrokerSession := {|
  WsConnect.decode_protocol f ws :=
    r ← MqttV311.decode_protocol protocol (f_sock f) (whole f) ws;
    let '(w, ws, h) := r in
    f ← lift (focus_on (f_sock f) w);
    match h with Returns r => Done (f, ws, r) | Hibernates => Blocked end;
  WsConnect.close_protocol f ws reason :=
    let w := MqttV311.close_protocol protocol (whole f) ws reason in
    match focus_on (f_sock f) w with Some f => f | None => mkFocus (f_sock f) (f_conn f) w end;
  WsConnect.protocol_timeout _ f ws :=
    r ← MqttV311.protocol_timeout (f_sock f) (whole f);
    f ← lift (focus_on (f_sock f) r.1);
    Done (f, ws, r.2) |}.
End stack.

(** ** The focus is a transport *)

Section laws.
Context `{TopicApi} {S : Type} `{Transport S} {BL : ByteSourceLaws S} {TL : TransportLaws S}.

#[export] Instance focus_source_laws : ByteSourceLaws (focus (S := S)).
Proof.
  split.
  - intros f. apply (src_stream_buffered (f_conn f)).
  - intros n f Hl Hlt Hn. destruct (src_ready_wait n (f_conn f) Hl Hlt Hn) as (v & s & E & ? & ? & ? & ? & ?).
    exists v, (set_conn s f). cbn. by rewrite E.
  - intros n f. apply (src_ready_later n (f_conn f)).
  - intros n f Hl Hn Hp. destruct (src_ready_now n (f_conn f) Hl Hn Hp) as (? & s & E & ? & ? & ?).
    split; [done|]. exists (set_conn s f). cbn. by rewrite E.
  - intros f Hl Hb Hs. destruct (src_ready_any (f_conn f) Hl Hb Hs) as (? & v & s & E & ? & ? & ?).
    split; [done|]. exists v, (set_conn s f). cbn. by rewrite E.
  - intros n f Hl Hn. destruct (src_take_ok n (f_conn f) Hl Hn) as (s & E & ? & ? & ?).
    exists (set_conn s f). cbn. by rewrite E.
Qed.

#[export] Instance focus_transport_laws : TransportLaws (focus (S := S)).
Proof.
  split.
  - intros buf f f'. cbn. destruct (tr_write_ready buf (f_conn f)) as [s r] eqn:E. intros [= <- ->].
    by apply tr_write_accept in E.
  - intros buf f Hc. destruct (tr_write_open buf (f_conn f) Hc) as (s & E & ?). exists (set_conn s f). cbn. by rewrite E.
  - intros f. apply (tr_live_open (f_conn f)).
  - intros buf f f' e. cbn. destruct (tr_write_ready buf (f_conn f)) as [s r] eqn:E. intros [= <- ->].
    apply tr_write_refuse in E as ->. by destruct f.
  - intros reason f. cbn. pose proof (tr_close_records reason (f_conn f)) as Hr.
    by destruct (tr_close reason (f_conn f)).
  - intros ms ev f. apply (tr_timeout_only ms ev (f_conn f)).
Qed.
End laws.

(** ** From the bytes of the publisher to those of the subscribers *)

Section publication.
Context `{TopicLaws} `{PacketCodec} {S : Type} `{Transport S} {BL : ByteSourceLaws S} {TL : TransportLaws S}.
Context (protocol : WsMqtt311 (S := S)).

(** Reading a focus reads its connection. *)
Definition lift_read (c : WsSocket) (w : world (S := S)) (o : read_outcome S) : read_outcome focus :=
  match o with
  | Returned f s => Returned f (mkFocus c s w)
  | Pending => Pending
  | Panicked => Panicked
  | OutOfFuel => OutOfFuel
  end.

Lemma read_payload_focus fuel f c s w :
  read_payload fuel f (mkFocus c s w) = lift_read c w (read_payload fuel f s).
Proof.
  unfold read_payload. case_decide; [|done]. generalize (Z.to_nat (head_len (head f))) as n. intros n.
  revert n s; induction fuel as [|fuel IH]; intros n s; [done|]. cbn. case_decide.
  - destruct (src_ready n s) as [[[|v] s']|]; [done|apply IH|done].
  - destruct (src_take _ s) as [[s' bin]|]; [|done]. by destruct (from_payload bin f).
Qed.

Lemma read_head_focus f c s w :
  read_head f (mkFocus c s w) = lift_read c w (read_head f s).
Proof.
  unfold read_head. generalize true READ_HEAD_LEN. intros first n. revert first n f s.
  induction READ_FUEL as [|fuel IH]; intros first n f s; [done|]. cbn -[read_payload READ_HEAD_LEN]. case_decide.
  { destruct (src_ready n s) as [[[|v] s']|]; [done|apply IH|done]. }
  destruct first.
  - destruct (src_take READ_HEAD_LEN s) as [[s' bin]|]; [|done]. destruct (head_from bin) as [h|]; [|done].
    destruct (need_size h); [apply read_payload_focus|apply IH].
  - destruct (src_take n s) as [[s' bin]|]; [|done]. destruct (from_last (head f) bin) as [[h|e]|]; [|done..].
    destruct (get_key h); [apply read_payload_focus|done].
Qed.

Lemma whole_focus_on c (w : world (S := S)) (f : focus (S := S)) : focus_on c w = Some f -> f_sock f = c /\ whole f = w.
Proof.
  unfold focus_on. destruct (w_conns w !! ws_uid c) as [s|] eqn:E; [|done]. intros [= <-].
  split; [done|]. unfold whole, set_conns. cbn. rewrite insert_id by done. by destruct w.
Qed.

(** C1: A PUBLISH packet is carried through all layers. When the stream of a connected
    client holds one masked data frame (cut into segments in any way) whose payload is a
    PUBLISH packet, one readable event reads and unmasks the frame, decodes the packet,
    restarts the client's keep-alive timer, and writes the same packet, as one frame, to
    every connection of every subscriber of the topic, to each as often as it is
    subscribed, and to no other; the session is ready for the next frame. *)
Theorem publish_frame_delivered c s w0 x (ws : WsSession BrokerSession) bs p path b ss c0 cs buf :
  wire_ok x -> is_single (wire_head x) = true ->
  src_live s -> src_stream s = wire_bytes x -> src_buffered s <> [] ->
  status ws = HandShaked -> msg ws = Some [] -> queue ws = [] -> context ws = Some bs ->
  read_packet (payload_bytes (wire_frame x)) = Some (PPublish p) ->
  m_service protocol = None -> (pub_qos p <= m_qos protocol)%Z ->
  path_from_str (topic_name p) = Some path -> wildcards path = false -> path_string path <> EmptyString ->
  let p' := mkPublish false (pub_qos p) (pub_retain p) (topic_name p) (pkid p) (MqttSession.payload p) in
  subscribed true (path_string path) (pub_qos p) (if pub_retain p then Some p' else None)
    (w_broker w0) = (b, Some ss) ->
  omap (fun a => match deref a w0 with Some s => connect s | None => None end) ss = c0 :: cs ->
  write_packet (PPublish p') = Some buf -> window_bits c0 = 0%Z ->
  (exists c1 s1, c1 ∈ c0 :: cs /\ ws_uid c1 <> ws_uid c /\ w_conns w0 !! ws_uid c1 = Some s1 /\
     tr_is_closed s1 = false) ->
  exists f fb s' fc, single_with_window_bits_and_payload (frame_type_to TBinary) 0 buf = Some f /\
    frame_to f = Some fb /\ src_live s' /\ src_stream s' = [] /\
    handle_readed (mqtt_protocol protocol) (mkFocus c s w0, ctx_of ws) =
      Done (fc, ctx_of (mkWsSession HandShaked TUndefined (Some []) [] (Some bs))) /\
    w_broker (whole fc) = b /\ w_heap (whole fc) = w_heap w0 /\
    forall u, w_conns (whole fc) !! u =
      Nat.iter (length (filter (fun c => ws_uid c = u) (c0 :: cs))) (fun s => (tr_write_ready fb s).1) <$>
        (if decide (u = ws_uid c)
         then Some (tr_set_timeout (bs_keep_alive bs * 1500)%Z (ClientEvent (bs_client_id bs)) s')
         else w_conns w0 !! u).
Proof.
  intros Hx Hsg Hl Hs Hb Hst Hm Hq Hctx Hrd Hsvc Hqos Hpath Hwild Hne p' Hsub Hconn Hbuf Hw0 Hopen.
  destruct (read_last_wire x s Hx Hl Hs) as (s' & Er & Hl' & Hs' & Hb').
  rewrite (handle_readed_one _ (wire_frame x) _ (mkFocus c s' w0)); [|done|by rewrite read_head_focus, Er|done..].
  rewrite single_frame, decode_open, Hst, Hq, Hctx by done.
  set (wr := whole (mkFocus c s' w0)). set (ws1 := mkWsSession HandShaked (frame_type_from (type (head (wire_frame x)))) (Some []) [] (Some bs)).
  assert (forall u, w_conns (update_timeout c (bs_client_id bs) (bs_keep_alive bs) wr) !! u =
    if decide (u = ws_uid c)
    then Some (tr_set_timeout (bs_keep_alive bs * 1500)%Z (ClientEvent (bs_client_id bs)) s') else w_conns w0 !! u) as Hu.
  { intros u. cbn. case_decide as Hd; [subst u|].
    - by rewrite lookup_alter_eq, lookup_insert_eq.
    - by rewrite lookup_alter_ne, lookup_insert_ne by done. }
  destruct (publish_delivers protocol c p wr ws1 bs path b ss c0 cs buf)
    as (f & fb & conns & E1 & E2 & E3 & E4); [done..| |].
  { destruct Hopen as (c1 & s1 & ? & Hne1 & ? & ?). exists c1, s1. rewrite Hu, decide_False by done. done. }
  assert (exists sc, conns !! ws_uid c = Some sc) as [sc Hsc] by (rewrite E4, Hu, decide_True by done; eauto).
  exists f, fb, s', (mkFocus c sc (set_conns conns (set_broker b (update_timeout c (bs_client_id bs) (bs_keep_alive bs) wr)))).
  split_and!; [done..| |done|done|].
  - cbn [WsConnect.decode_protocol mqtt_protocol f_sock]. unfold MqttV311.decode_protocol.
    cbn [pop_msg queue status ftype msg context app]. rewrite Hrd. fold wr.
    fold ws1.
    rewrite E3. cbn [mbind outcome_bind fst snd]. unfold focus_on. cbn [set_conns w_conns]. rewrite Hsc. done.
  - intros u. cbn. rewrite insert_id by done. by rewrite E4, Hu.
Qed.
End publication.
