(* ===== verification/MqttTls.v ===== *)
(** * MQTT 3.1.1 over WebSocket over TLS (mqtt/src/tls_v311.rs)

    tls_v311.rs is v311.rs with [TlsSocket] in the place of [TcpSocket] and [WssMqtt311] in
    that of [WsMqtt311]. The handlers of [MqttV311] are generic in the connection, so each
    operation here is its instance at the TLS connection of [TlsSocket]; that connection
    discharges the laws of a transport, so what is shown of the handlers holds here too. *)

From S2P Require Import Prelude ByteSource TcpServer TcpSocket SocketContext WsFrame WsSession WsConnect TlsSocket.
From S2P Require Import MqttTopic MqttSession MqttBroker MqttV311 MqttStack.

Section tls_v311.
Context `{TopicApi} `{PacketCodec} {T : Type} `{TlsLaws T}.

Definition tls_world : Type := world (S := TlsConn T).

Definition WssMqtt311 : Type := WsMqtt311 (S := TlsConn T).

Definition tls_update_timeout : WsSocket -> string -> Z -> tls_world -> tls_world := update_timeout.

Definition tls_send_packet : WsSocket -> Packet -> tls_world -> outcome (tls_world * io_result unit) := send_packet.

Definition tls_broadcast_packet : list WsSocket -> Packet -> tls_world -> outcome (tls_world * io_result unit) :=
  broadcast_packet.

Definition tls_reset_session : WsSocket -> string -> Connect -> tls_world -> tls_world * ArcSession := reset_session.

Definition tls_get_client_context : WsSession BrokerSession -> io_result (string * Z) := get_client_context.

Variable protocol : WssMqtt311.

Definition tls_accept : WsSocket -> Connect -> tls_world -> WsSession BrokerSession ->
  outcome (tls_world * WsSession BrokerSession * io_result unit) := accept protocol.

Definition tls_publish : WsSocket -> Publish -> tls_world -> WsSession BrokerSession -> outcome (tls_world * handled) :=
  publish protocol.

Definition tls_subscribe : WsSocket -> Z -> list SubscribeTopic -> tls_world -> WsSession BrokerSession ->
  outcome (tls_world * io_result unit) := MqttV311.subscribe protocol.

Definition tls_unsubscribe : WsSocket -> Z -> list string -> tls_world -> WsSession BrokerSession ->
  outcome (tls_world * io_result unit) := MqttV311.unsubscribe protocol.

Definition tls_ping_req : WsSocket -> tls_world -> WsSession BrokerSession -> outcome (tls_world * io_result unit) :=
  ping_req.

Definition tls_disconnect : WsSocket -> tls_world -> outcome (tls_world * io_result unit) := disconnect.

(** [impl ChildProtocol for WssMqtt311] *)
Definition tls_decode_protocol : WsSocket -> tls_world -> WsSession BrokerSession ->
  outcome (tls_world * WsSession BrokerSession * handled) := decode_protocol protocol.

Definition tls_close_protocol : tls_world -> WsSession BrokerSession -> io_result unit -> tls_world :=
  close_protocol protocol.

Definition tls_protocol_timeout : WsSocket -> tls_world -> outcome (tls_world * io_result unit) := protocol_timeout.

Definition wss_protocol : ChildProtocol (focus (S := TlsConn T)) BrokerSession := mqtt_protocol protocol.
End tls_v311.
