(* ===== verification/MqttOverWs.v ===== *)
(** * MQTT over WebSocket over TCP

    The MQTT handlers on concrete connections: the parameters of [MqttV311]
    instantiated with the TCP transport, topics split at slashes and a codec that
    writes a byte per kind of packet. *)

From S2P Require Import Prelude ByteSource SocketContext TcpSocket WsFrame WsSession WsConnect WsOverTcp.
From S2P Require Import MqttTopic MqttSession MqttBroker MqttV311 MqttStack.

#[export] Instance kind_codec : PacketCodec := {|
  read_packet m :=
    match m with
    | 3%Z :: bin => Some (PPublish (mkPublish false 0 false "a/b" None bin))
    | [12%Z] => Some PPingreq
    | [14%Z] => Some PDisconnect
    | _ => None
    end;
  write_packet p :=
    (match p with
    | PConnack b _ => Some [2%Z; if b then 1%Z else 0%Z]
    | PPublish p => Some (3%Z :: payload p)
    | PSuback _ codes => Some (9%Z :: replicate (length codes) 0%Z)
    | PUnsuback _ => Some [11%Z]
    | PPingresp => Some [13%Z]
    | PDisconnect => Some [14%Z]
    | _ => None
    end) ≫= short_packet;
  write_packet_len p := short_packet_len _ |}.

Definition qos_zero : WsMqtt311 (S := TcpConn) := mkWsMqtt311 0 None None.

Definition a_socket : WsSocket := mkWsSocket 7 0.
Definition b_socket : WsSocket := mkWsSocket 8 0.

Definition start_world : world (S := TcpConn) :=
  mkWorld new_broker ∅ 0 {[ 7%Z := tcp_with [] []; 8%Z := tcp_with [] [] ]}.

Definition connect_alice : Connect := mkConnect 4 60 "alice" true None None None.
Definition connect_bob : Connect := mkConnect 4 60 "bob" false None None None.

Definition alice_session : QosZeroSession WsSocket := accepted_session a_socket connect_alice.
Definition arc_alice : ArcSession := mkArcSession 0 "alice" (Some 7%Z).
Definition alice_context : BrokerSession := mkBrokerSession "alice" 60 true None None.

(** The world after [alice] has connected. *)
Definition alice_world : world (S := TcpConn) :=
  mkWorld (insert_session "alice" arc_alice new_broker) {[ 0 := alice_session ]} 1
    {[ 7%Z := tcp_with [] []; 8%Z := tcp_with [] [] ]}.

Definition bound_session : WsSession BrokerSession :=
  set_context (Some alice_context) (set_status HandShaked default_session).

Lemma start_world_ok : world_ok start_world.
Proof. intros id a. cbn. by rewrite lookup_empty. Qed.

Lemma alice_world_ok : world_ok alice_world.
Proof. intros id a. cbn. intros [[<- <-]|[_ Hl]]%lookup_insert_Some; [cbn; lia|]. by rewrite lookup_empty in Hl. Qed.

Lemma accept_registers_witness :
  exists w' ws' r a, accept qos_zero a_socket connect_alice start_world default_session =
      Done (w', ws', r) /\ world_ok w' /\
    get_session "alice" (w_broker w') = Some a /\ deref a w' = Some alice_session /\
    is_Some (context ws') /\
    (forall id b, id <> "alice"%string -> get_session id (w_broker start_world) = Some b ->
       get_session id (w_broker w') = Some b /\ deref b w' = deref b start_world).
Proof.
  apply (accept_registers qos_zero a_socket connect_alice start_world default_session);
    [done|by eexists|done| |apply start_world_ok].
  split; [by right|]. intros a s. unfold get_session. cbn. by rewrite lookup_empty.
Defined.

Lemma accept_refuses_connected_witness :
  accept qos_zero b_socket connect_alice alice_world default_session =
    Done (alice_world, default_session, Err AlreadyExists).
Proof.
  apply (accept_refuses_connected qos_zero b_socket connect_alice alice_world default_session
    arc_alice alice_session); reflexivity.
Defined.

Lemma close_releases_client_witness :
  let w' := close_protocol qos_zero alice_world bound_session (Ok tt) in
  deref arc_alice w' = Some (set_accept false alice_session) /\
  (clean alice_session = true -> get_session "alice" (w_broker w') = None /\
     topics_of (w_broker w') !! hash_key arc_alice = None) /\
  (clean alice_session = false -> w_broker w' = w_broker alice_world) /\
  (forall id, id <> "alice"%string -> get_session id (w_broker w') = get_session id (w_broker alice_world)) /\
  (forall b, addr b <> 0 -> deref b w' = deref b alice_world).
Proof.
  apply (close_releases_client qos_zero alice_world bound_session (Ok tt) alice_context arc_alice
    alice_session); reflexivity.
Defined.

Lemma second_connect_leaks_witness :
  exists w' r, accept qos_zero a_socket connect_bob alice_world bound_session =
      Done (w', bound_session, r) /\
    forall c2 ws2, accept qos_zero c2 connect_bob (close_protocol qos_zero w' bound_session (Ok tt)) ws2 =
      Done (close_protocol qos_zero w' bound_session (Ok tt), ws2, Err AlreadyExists).
Proof.
  apply (second_connect_leaks qos_zero a_socket connect_bob alice_world bound_session alice_context (Ok tt)
    arc_alice alice_session);
    [reflexivity|by eexists|reflexivity| |apply alice_world_ok|reflexivity|done|reflexivity|reflexivity].
  split; [by right|]. intros a s. unfold get_session. cbn.
  rewrite lookup_insert_ne by done. by rewrite lookup_empty.
Defined.

(** [bob], on connection 8, has subscribed to the topic that [alice] publishes to; her
    frame comes in three segments. *)
Definition arc_bob : ArcSession := mkArcSession 1 "bob" (Some 8%Z).
Definition bob_world : world (S := TcpConn) :=
  mkWorld (subscribe_topic arc_bob "a/b" (insert_session "bob" arc_bob (w_broker alice_world))).1
    {[ 0 := alice_session; 1 := accepted_session b_socket connect_bob ]} 2
    {[ 7%Z := tcp_with [] []; 8%Z := tcp_with [] [] ]}.

Definition alice_conn : TcpConn := tcp_with [0x82]%Z [[0x82; 1; 2]%Z; [3; 4; 2]%Z; [67]%Z].

Lemma publish_frame_delivered_witness :
  exists f fb s' fc, single_with_window_bits_and_payload (frame_type_to TBinary) 0 [3; 65]%Z = Some f /\
    frame_to f = Some fb /\ src_live s' /\ src_stream s' = [] /\
    handle_readed (mqtt_protocol qos_zero) (mkFocus a_socket alice_conn bob_world, ctx_of bound_session) =
      Done (fc, ctx_of (mkWsSession HandShaked TUndefined (Some []) [] (Some alice_context))) /\
    w_broker (whole fc) = (subscribed true "a/b" 0 None (w_broker bob_world)).1 /\
    w_heap (whole fc) = w_heap bob_world /\
    forall u, w_conns (whole fc) !! u =
      Nat.iter (length (filter (fun c => ws_uid c = u) [b_socket])) (fun s => (tr_write_ready fb s).1) <$>
        (if decide (u = 7%Z) then Some (tr_set_timeout 90000 (ClientEvent "alice") s')
         else w_conns bob_world !! u).
Proof.
  eapply (publish_frame_delivered qos_zero a_socket alice_conn bob_world
    (mkWire (client_head 1 2 2) [2; 67]%Z) bound_session alice_context
    (mkPublish false 0 false "a/b" None [65%Z]) _ _ [arc_bob] b_socket []);
    try reflexivity; try done.
  - split_and!; [apply client_head_ok; auto; lia|done|done].
  - exists b_socket, (tcp_with [] []). split_and!; [set_solver|done|done|done].
Defined.

Lemma subscribe_ignores_codes_witness :
  let ts := [mkSubscribeTopic "a/b" 2] in
  let t := mkSubscribeTopic "c" 0 in
  exists b0 b', subscribe_topics qos_zero arc_alice (ts ++ [t]) new_broker [] None =
      Done (b', [SubFailure; SubSuccess 0], (subscribe_topic arc_alice "c" b0).2) /\
    b' = (subscribe_topic arc_alice "c" b0).1 /\
    forall x, x ∈ ts ++ [t] -> receives arc_alice (receivers (st_topic_path x) b').
Proof.
  apply (subscribe_ignores_codes qos_zero arc_alice [mkSubscribeTopic "a/b" 2] (mkSubscribeTopic "c" 0)).
  - intros x [->|[->|Hx]%elem_of_cons]%elem_of_cons; [reflexivity|reflexivity|by apply elem_of_nil in Hx].
  - intros t c. cbn. by rewrite lookup_empty.
Defined.
