(* ===== verification/MqttServerSample.v ===== *)
(** * A server with three brokers

    The registries of [MqttServer] over concrete connections (plain, TLS and a simple QUIC
    handle), with the witnesses of their properties, and MQTT over TLS from the encrypted
    bytes of a publisher to those for a subscriber ([MqttTls]). *)

From S2P Require Import Prelude ByteSource TcpServer TcpSocket SocketContext WsFrame WsSession WsConnect WsOverTcp TlsSocket TlsSample.
From S2P Require Import MqttTopic MqttSession MqttBroker MqttV311 MqttStack MqttOverWs MqttTls MqttServer.

(** A QUIC handle: its streams and what was written to each. *)
Record Stream := mkStream { st_closed : bool; st_ids : list Z; st_out : list (Z * list Z) }.

#[export] Instance stream_handle : QuicHandle Stream := {|
  q_is_closed := st_closed;
  q_stream_ids := st_ids;
  q_write_ready i buf q :=
    if st_closed q then (q, Err BrokenPipe) else (mkStream (st_closed q) (st_ids q) (st_out q ++ [(i, buf)]), Ok tt) |}.

Abbreviation Srv := (Server (S1 := TcpConn) (S2 := TlsConn Rec) (Q := Stream)).

Definition lower_id (s : string) : string := s.

Definition run_ws (name : string) (port : Z) (v : Srv) : Srv :=
  match ws_factory lower_id "mqtt" name port v with Done r => r.1 | _ => v end.
Definition run_wss (name : string) (port : Z) (v : Srv) : Srv :=
  match wss_factory lower_id "mqtts" name port v with Done r => r.1 | _ => v end.

Definition one_broker : Srv := run_ws "a" 80 empty_server.
Definition three_brokers : Srv := (quic_factory "q" 444 (run_wss "b" 443 one_broker)).1.

Lemma one_broker_reachable : server_reachable lower_id one_broker.
Proof. apply rtc_once. exact (srv_ws lower_id "mqtt" "a" 80 empty_server _ eq_refl). Qed.

Lemma three_brokers_reachable : server_reachable lower_id three_brokers.
Proof.
  unfold server_reachable. etrans; [exact one_broker_reachable|]. eapply rtc_l; [exact (srv_wss lower_id "mqtts" "b" 443 one_broker _ eq_refl)|].
  apply rtc_once. exact (srv_quic lower_id "q" 444 (run_wss "b" 443 one_broker)).
Qed.

Lemma registry_well_formed_witness :
  brokers three_brokers !! "a"%string = Some (PWs 0) /\ brokers three_brokers !! "b"%string = Some (PWss 1) /\
  let v := three_brokers in
  (forall n p, brokers v !! n = Some p -> protocol_broker_name p v = Some n) /\
  (forall n n' p, brokers v !! n = Some p -> brokers v !! n' = Some p -> n = n') /\
  (forall port n, get_broker_name port v = Some n -> exists p, brokers v !! n = Some p /\ protocol_broker_name p v = Some n) /\
  (forall n p, quic_brokers v !! n = Some p -> protocol_broker_name p v = Some n /\ exists a, p = PQuic a).
Proof. split; [reflexivity|]. split; [reflexivity|]. exact (registry_well_formed lower_id three_brokers three_brokers_reachable). Defined.

(** The broker of a child protocol is the one in the table; a name of another transport is
    not for a listener, and gives way to a child protocol. *)
Example child_of_a : ws_child_protocol lower_id (mkFactory "mqtt" "a" 80) three_brokers = Done (three_brokers, 0).
Proof. reflexivity. Qed.
Example listener_for_wss : forall l, register_mqtt_listener "b" l three_brokers = Panic.
Proof. reflexivity. Qed.
Example wss_gives_way :
  match ws_child_protocol lower_id (mkFactory "mqtt" "b" 81) three_brokers with
  | Done (v, a) => brokers v !! "b"%string = Some (PWs a) /\ a = 3 /\ get_broker_name 443 v = Some "b"%string
  | _ => False
  end.
Proof. vm_compute. done. Qed.

Definition again : Srv * Factory :=
  match ws_factory lower_id "mqtt" "a" 8080 one_broker with Done r => r | _ => (one_broker, mkFactory "" "" 0) end.
Definition published_again : Srv :=
  match publish_topic true "a/b" 0 None [1%Z] [] (Some "a"%string) again.1 with Done r => r.1 | _ => again.1 end.

Lemma broker_replaced_witness :
  (exists a2, brokers again.1 !! "a"%string = Some (PWs a2) /\ a2 <> 0) /\
  ws_heap published_again !! 0 = ws_heap one_broker !! 0 /\ is_Some (ws_heap one_broker !! 0).
Proof.
  apply (broker_replaced lower_id one_broker published_again "mqtt" "a" 8080 0 again one_broker_reachable); [reflexivity..|].
  assert (brokers again.1 !! "a"%string = Some (PWs 1)) as Ha by reflexivity.
  apply rtc_once. refine (srv_publish lower_id true "a/b" 0 None [1%Z] (map_to_list (brokers again.1)).*2 (Some "a"%string) again.1 (published_again, Ok tt) _ _);
    [unfold listed; reflexivity|reflexivity].
Defined.

(** [bob] has subscribed with the broker [a]. *)
Definition bob_broker : WsBroker TcpConn := mkWsBroker "mqtt" "a" qos_zero ∅ bob_world.
Definition bob_server : Srv := set_ws_heap {[ 0 := bob_broker ]} one_broker.

Lemma server_publish_delivers_witness :
  exists v' b' f fb, publish_topic true "a/b" 0 None [65%Z] [] (Some "a"%string) bob_server = Done (v', Ok tt) /\
    single_with_window_bits_and_payload (frame_type_to TBinary) 0 [3; 65]%Z = Some f /\ frame_to f = Some fb /\
    ws_heap v' = <[0 := b']> (ws_heap bob_server) /\ wss_heap v' = wss_heap bob_server /\ quic_heap v' = quic_heap bob_server /\
    w_broker (wb_world b') = (subscribed true "a/b" 0 None (w_broker bob_world)).1 /\ w_heap (wb_world b') = w_heap bob_world /\
    forall u, w_conns (wb_world b') !! u = Nat.iter (length (filter (fun c => ws_uid c = u) [b_socket]))
      (fun s => (tr_write_ready fb s).1) <$> w_conns bob_world !! u.
Proof.
  apply (server_publish_delivers bob_server "a" 0 bob_broker [] true "a/b" 0 None [65%Z] _ [arc_bob] b_socket [] [3; 65]%Z);
    try reflexivity.
  exists b_socket, (tcp_with [] []). split_and!; [set_solver|done|done].
Defined.

(** Nobody has subscribed with the QUIC brokers. *)
Definition quic_server : Srv :=
  set_quic_heap {[ 0 := mkQuicBroker "p" new_broker ∅ ∅; 1 := mkQuicBroker "q" new_broker ∅ {[ 9%Z := mkStream false [1%Z] [] ]} ]}
    empty_server.

Example quic_unsubscribed_ok :
  match publish_quic_topic true "a/b" 0 None [65%Z] [PQuic 0; PQuic 1] None quic_server with Done r => r.2 = Ok tt | _ => False end.
Proof. vm_compute. done. Qed.
Example quic_wildcard_fails :
  match publish_quic_topic true "a/+" 0 None [65%Z] [PQuic 0; PQuic 1] None quic_server with Done r => r.2 = Err Other | _ => False end.
Proof. vm_compute. done. Qed.

Lemma session_send_delivers_witness :
  exists f fb x' r, single_with_window_bits_and_payload (frame_type_to TBinary) 0 [3; 65]%Z = Some f /\ frame_to f = Some fb /\
    session_send "a/b" [65%Z] alice_session bob_world =
      Done (set_conns (<[7%Z := x']> (w_conns bob_world)) bob_world, r) /\
    tr_write_ready fb (tcp_with [] []) = (x', r) /\
    (tr_is_closed (tcp_with [] []) = false -> r = Ok tt /\ tr_written x' = tr_written (tcp_with [] []) ++ [fb]) /\
    (is_ok r = false -> x' = tcp_with [] []).
Proof.
  apply (session_send_delivers "a/b" [65%Z] alice_session bob_world a_socket (tcp_with [] []) [3; 65]%Z); reflexivity.
Defined.

(** ** MQTT over TLS *)

Definition wss_zero : WssMqtt311 (T := Rec) := mkWsMqtt311 0 None None.

(** [alice]'s frame comes encrypted in two segments, [bob] has subscribed; both are on
    TLS connections. *)
Definition tls_bob_world : tls_world (T := Rec) :=
  mkWorld (w_broker bob_world) (w_heap bob_world) 2 {[ 7%Z := tls_framed; 8%Z := tls_with [] ]}.

Example publish_over_tls :
  match handle_readed (wss_protocol wss_zero) (mkFocus a_socket tls_framed tls_bob_world, ctx_of bound_session) with
  | Done (fc, _) =>
      match w_conns (whole fc) !! 8%Z with
      | Some c =>
          let s := on_base (set_write_buf (concat (write_events (base (tn_socket c))))) (tn_socket c) in
          open_records (send (WWrote 100) s).1.2 = ([0x82; 2; 3; 65]%Z, [])
      | None => False
      end
  | _ => False
  end.
Proof. vm_compute. done. Qed.
