(* ===== verification/MqttQuicSample.v ===== *)
(** * MQTT over a concrete QUIC pool

    Two connections of a pool with the package of [QuicSample], a reader that tells packets
    by their first byte, and the handlers of [MqttQuic] run on them. *)

From Stdlib Require Import Ascii.
From S2P Require Import Prelude ByteSource QuicSocket QuicPool QuicSample MqttTopic MqttSession MqttBroker MqttV311 MqttQuic MqttStack MqttOverWs.

#[local] Open Scope string_scope.
#[local] Open Scope list_scope.

(** CONNECT with a letter for the client and the flag for a clean session, SUBSCRIBE and
    PUBLISH for the topic [a/b], PINGREQ and DISCONNECT. *)
#[local] Instance byte_reader : PacketReader := fun b =>
  match b with
  | [] | [1]%Z | [1; _]%Z | [3]%Z => ReadIncomplete
  | (1 :: c :: k :: _)%Z =>
      ReadPacket (PConnect (mkConnect 4 60 (String (ascii_of_nat (Z.to_nat c)) "") (k =? 1)%Z None None None)) 3
  | (3 :: z :: _)%Z => ReadPacket (PPublish (mkPublish false 0 false "a/b" None [z])) 2
  | (8 :: _)%Z => ReadPacket (PSubscribe 7 [mkSubscribeTopic "a/b" 0]) 1
  | (12 :: _)%Z => ReadPacket PPingreq 1
  | (14 :: _)%Z => ReadPacket PDisconnect 1
  | _ => ReadMalformed
  end.

Notation SampleWorld := (qworld (C := Pkg) (E := unit) (X := unit)).

Definition qos_zero_quic : QuicMqtt311 (C := Pkg) (E := unit) (X := unit) := mkQuicMqtt311 0 None None.

(** A connection with the handle and bytes in the read buffer of its main stream. *)
Definition with_bytes (h : Z) (bytes : list Z) : QuicSocket Pkg :=
  on_stream 0 (set_read_buf bytes)
    (put_socket_handle (Some 9%Z) (set_event_sent true (set_qs_status 3 (accept_main_streams 0 (new_socket 9 h (quiet [] []) 8192 8192 0))))).

(** The client [A] subscribes, then [B] publishes 42. *)
Definition two_clients : SampleWorld :=
  mkQWorld new_broker ∅ 0 ∅
    (QuicPool.set_next 2 (set_sockets {[5%Z := 0; 6%Z := 1]}
      (QuicPool.set_conns {[0 := with_bytes 5 [1; 65; 1; 8]%Z; 1 := with_bytes 6 [1; 66; 0; 3; 42]%Z]} (new_pool 0)))).

Definition ran (o : outcome (SampleWorld * loop_end)) (w : SampleWorld) : SampleWorld := (done_or (w, LoopReturns) o).1.
Definition both_ran : SampleWorld :=
  let w := ran (packet_loop qos_zero_quic 9 0 false two_clients) two_clients in
  ran (packet_loop qos_zero_quic 9 1 false w) w.

(** What is written, in order: the answers to both and the publication to [A]. *)
Definition written (w : SampleWorld) : list (Z * list Z) :=
  omap (fun e => match e with OfSocket (StreamWrite h _ buf) => Some (h, buf) | _ => None end) (channel (q_pool w)).

Example publication_arrives : written both_ran = [(5, [2; 0]); (5, [9; 0]); (6, [2; 0]); (5, [3; 42])]%Z.
Proof. vm_compute. reflexivity. Qed.

(** ** The theorems at concrete connections *)

#[local] Instance quiet_app : QuietApp qos_zero_quic.
Proof. by split. Qed.

Definition connect_a : Connect := mkConnect 4 60 "A" true None None None.
Definition connect_b : Connect := mkConnect 4 60 "B" false None None None.
Definition both_packets : list (Packet * nat) :=
  [(PConnect connect_b, 3); (PPublish (mkPublish false 0 false "a/b" None [42%Z]), 2)].
Definition done_world (o : outcome (option SampleWorld)) : SampleWorld := default two_clients (done_or None o).

Lemma quic_packets_in_order_witness :
  exists w'' e, packet_loop qos_zero_quic 9 1 false two_clients = Done (w'', e) /\ reads 1 w'' = Some (0%Z, [])
    /\ e = AwaitsBytes.
Proof.
  destruct (quic_packets_in_order qos_zero_quic 9 1 two_clients
    (done_world (handle_all qos_zero_quic 1 both_packets two_clients)) 0 (fst <$> both_packets) [[1; 66; 0]; [3; 42]]%Z [])
    as (w'' & e & E & Hr & He & _).
  - done.
  - by repeat constructor.
  - reflexivity.
  - vm_compute. reflexivity.
  - cbn. lia.
  - exists w'', e. split_and!; [exact E|exact Hr|]. rewrite He. vm_compute. reflexivity.
Defined.

Definition a_connected : SampleWorld := (done_or (two_clients, Ok tt) (accept qos_zero_quic 0 connect_a two_clients)).1.

Lemma quic_connect_registers_witness :
  exists arc, get_session "A" (q_broker a_connected) = Some arc
    /\ qderef arc a_connected = Some (q_accepted_session 0 connect_a)
    /\ get_client_context 0 a_connected = Ok ("A", 60%Z).
Proof.
  destruct (quic_connect_registers qos_zero_quic 0 connect_a two_clients a_connected (Ok tt)) as (arc & H1 & H2 & _ & H4 & _).
  - done.
  - split; [by right|]. intros arc x. unfold get_session. cbn. by rewrite lookup_empty.
  - intros id arc. cbn. by rewrite lookup_empty.
  - vm_compute. reflexivity.
  - exists arc. split_and!; [exact H1|exact H2|]. apply H4. reflexivity.
Defined.

(** [A] is connected and subscribed, [B] connected. *)
Definition context_b : BrokerSession := mkBrokerSession "B" 60 false None None.
Definition before_publish : SampleWorld :=
  let w := ran (packet_loop qos_zero_quic 9 0 false two_clients) two_clients in
  done_world (handle_all qos_zero_quic 1 [(PConnect connect_b, 3)] w).
Definition a_publication : Publish := mkPublish false 0 false "a/b" None [42%Z].

Lemma quic_publish_delivered_witness :
  exists w', publish qos_zero_quic 1 a_publication before_publish = Done (w', Returns (Ok tt)) /\
    channel (q_pool w') = channel (q_pool (published_from 1 context_b before_publish)) ++
      writes_to [0] [3; 42]%Z (q_pool (published_from 1 context_b before_publish)).
Proof.
  apply (quic_publish_delivered qos_zero_quic 1 a_publication before_publish context_b (path_from "a/b")
    (subscribed true "a/b" 0 None (q_broker before_publish)).1 [0] [3; 42]%Z).
  - done.
  - split; [vm_compute; reflexivity|done|reflexivity|by split| |reflexivity].
    eexists. split; vm_compute; reflexivity.
  - by repeat constructor; set_solver.
  - intros c Hc. assert (c = 0) as -> by set_solver. eexists. split; [vm_compute; reflexivity|]. by split_and!.
Defined.

(** The connection of [A] has closed, and its session, kept, is still subscribed. *)
Definition after_close : SampleWorld := close_at 0 0 (Ok tt) before_publish.

Lemma quic_mqtt_timeout_stays_witness :
  let w' := done_or before_publish (handle_timeouted 0 before_publish) in
  is_closed_at 0 w' = is_closed_at 0 before_publish
    /\ q_broker w' = q_broker before_publish /\ q_heap w' = q_heap before_publish.
Proof. apply (quic_mqtt_timeout_stays 0 before_publish). vm_compute. reflexivity. Defined.

(** [B] subscribes too and publishes while the closed connection of [A] is registered: the
    connection of [B] is closed, and [B] is not told either. *)
Example publisher_closed :
  match packet_loop qos_zero_quic 9 1 false
          (put_qconn 1 (with_bytes 6 [8; 3; 42]%Z) after_close) with
  | Done (w, LoopReturns) => (QuicSocket.close_reason <$> qconn 1 w, last (written w)) = (Some (Some (1000, Err InvalidData)), Some (6, [9; 0]))%Z
  | _ => False
  end.
Proof. vm_compute. reflexivity. Qed.
