(* ===== verification/RpcOverMqtt.v ===== *)
(** * Requests through the MQTT server

    The base and RPC services ([RpcBase]) on the sessions of the MQTT server
    ([MqttServer]): an answer of the application becomes one binary frame on the connection
    of the session, and the client ([RpcClient]) reads it as the answer to its request.
    The examples have a codec with a byte per kind of packet. *)

From S2P Require Import Prelude ByteSource SocketContext TcpSocket WsFrame WsSession WsConnect WsOverTcp.
From S2P Require Import MqttTopic MqttSession MqttBroker MqttV311 MqttStack MqttOverWs MqttServer RpcBase RpcClient.

Section over.
Context `{TopicApi} `{PacketCodec} `{CompressApi} {S : Type} `{TransportLaws S}.
Variable peer : S -> Peer.
Variable session_of : WsSocket -> option (WsSession BrokerSession).

(** A connection is the session at an address. *)
#[local] Instance mqtt_connections : MqttHandle (world (S := S)) := {|
  mq_has_session mc w :=
    match w_heap w !! Z.to_nat mc with Some s => bool_decide (is_Some (mqtt_session session_of s w)) | None => false end;
  mq_uid mc w := s ← w_heap w !! Z.to_nat mc; get_uid s;
  mq_remote mc w := s ← w_heap w !! Z.to_nat mc; get_remote_addr peer s w;
  mq_send mc topic m w := s ← lift (w_heap w !! Z.to_nat mc); session_send topic m s w;
  mq_close mc reason w := s ← lift (w_heap w !! Z.to_nat mc); session_close reason s w |}.

(** C4: A request with a body through the server: after the listener has been told of the
    session, the client's bytes make the application's handler run once with the command,
    the id and the body, and its reply, unless it is empty, is one binary frame on the
    session's open connection, whose packet the client takes for the answer to that request,
    if the codec reads back the packet of that reply. *)
Theorem rpc_over_mqtt handlers i topic uid timeout body answer buf (w : RpcWorld (world (S := S))) s c x ws :
  connected_handler handlers = true -> request_handler handlers = true ->
  w_heap (rw_mqtt w) !! i = Some s -> connect s = Some c -> window_bits c = 0%Z ->
  w_conns (rw_mqtt w) !! ws_uid c = Some x -> tr_is_closed x = false ->
  session_of c = Some ws -> is_Some (context ws) -> rw_sessions w !! Z.of_nat i = None ->
  (0 <= uid < 2 ^ 32)%Z -> body <> [] -> answer <> [] ->
  let reply := PPublish (mkPublish false 0 false RPC_RESPONSE_TOPIC None (rpc_to_binary 0 0 uid timeout answer)) in
  write_packet reply = Some buf -> read_packet buf = Some reply ->
  exists w1 w2 w3 a f fb x', base_connected (rpc_inner handlers) (Z.of_nat i) w = (w1, Ok tt) /\
    base_publish (rpc_inner handlers) (Z.of_nat i) topic (rpc_to_binary 0 0 uid timeout body) w1 = Done (w2, Ok tt) /\
    rw_calls w2 = rw_calls w ++ [CallConnected (ws_uid c);
      CallRequest a topic (Some (peer_remote (peer x))) uid body] /\
    rpc_reply a uid answer w2 = Done w3 /\ answer_of buf = Some (uid, Some answer) /\
    single_with_window_bits_and_payload (frame_type_to TBinary) 0 buf = Some f /\ frame_to f = Some fb /\
    w_conns (rw_mqtt w3) !! ws_uid c = Some x' /\ tr_written x' = tr_written x ++ [fb].
Proof.
  intros Hch Hrh Hs Hc Hw Hx Ho Hws Hctx Hnew Hu Hb Ha reply Hwr Hrd.
  assert (mq_has_session (Z.of_nat i) (rw_mqtt w) = true) as Hhas.
  { cbn. rewrite Nat2Z.id, Hs. apply bool_decide_eq_true. unfold mqtt_session, conn_of. rewrite Hc, Hx, Ho, Hws. done. }
  destruct (request_reply handlers (Z.of_nat i) topic uid timeout body answer w) as (w1 & w2 & a & E1 & E2 & E3 & E4 & E5);
    [done..|].
  destruct (session_send_delivers RPC_RESPONSE_TOPIC (rpc_to_binary 0 0 uid timeout answer) s (rw_mqtt w) c x buf Hc Hx Hw Hwr)
    as (f & fb & x' & r & F1 & F2 & F3 & F4 & F5 & _).
  destruct (F5 Ho) as [-> F6].
  exists w1, w2, (set_mqtt (set_conns (<[ws_uid c := x']> (w_conns (rw_mqtt w))) (rw_mqtt w)) w2), a, f, fb, x'.
  split_and!; try done.
  - rewrite E3. cbn. rewrite Nat2Z.id, Hs. cbn. unfold get_uid, get_remote_addr, conn_of. rewrite Hc. cbn. by rewrite Hx.
  - rewrite E4. change MQTT_RESPONSE_SYS_TOPIC with RPC_RESPONSE_TOPIC. cbn -[session_send rpc_to_binary].
    rewrite Nat2Z.id, Hs. cbn -[session_send rpc_to_binary]. by rewrite F3.
  - unfold answer_of. rewrite Hrd. cbn [topic_name payload reply]. by rewrite decide_True.
  - cbn. by rewrite lookup_insert_eq.
Qed.
End over.

(** ** A client and its server *)

#[local] Instance rpc_codec : PacketCodec := {|
  read_packet m :=
    match m with
    | 4%Z :: bin => Some (PPublish (mkPublish false 0 false RPC_RESPONSE_TOPIC None bin))
    | 3%Z :: bin => Some (PPublish (mkPublish false 0 false "a/b" None bin))
    | [2%Z] => Some (PConnack false CodeAccepted)
    | [9%Z; id] => Some (PSuback id [SubSuccess 0])
    | _ => None
    end;
  write_packet p :=
    (match p with
    | PConnect _ => Some [1%Z]
    | PPublish p => Some ((if decide (topic_name p = RPC_RESPONSE_TOPIC) then 4 else 3)%Z :: payload p)
    | PSubscribe id _ => Some [8%Z; id]
    | PDisconnect => Some [14%Z]
    | _ => None
    end) ≫= short_packet;
  write_packet_len p := short_packet_len _ |}.
#[local] Instance no_compression : CompressApi := {| compress l := (l, true); uncompress l := (l, true) |}.
#[local] Instance counted_ids : PacketIds := {| pk_zero := 0; pk_next id := wrap 16 (id + 1) |}.

(** A client whose connection the broker has accepted. *)
Definition connecting : Client := rpc_client_connect 60 "c" 5 0 1 new_client.
Definition greeting : Client := match run_pool send_run 0 connecting with Done c => c | _ => connecting end.
Definition connected_client : Client := match run_queue (frame_run [2%Z]) greeting with Done c => c | _ => greeting end.

Lemma connected_client_reachable : rtc client_step new_client connected_client.
Proof.
  assert (run_pool send_run 0 connecting = Done greeting) as E1 by (vm_compute; reflexivity).
  assert (run_queue (frame_run [2%Z]) greeting = Done connected_client) as E2 by (vm_compute; reflexivity).
  eapply rtc_l; [exact (step_connect 60 "c" 5 0 1 new_client)|].
  eapply rtc_l; [exact (step_pool _ _ _ _ E1)|]. apply rtc_once. exact (step_queue _ _ _ E2).
Qed.

(** An answer with the id [uid], as it comes to the client. *)
Definition answer_message (uid : Z) (answer : list Z) : list Z := 4%Z :: rpc_to_binary 0 0 uid 0 answer.

(** Two requests; the second is answered first, after an answer nobody waits for. *)
Definition two_requests : list (string * list Z * nat) := [("a"%string, [1]%Z, 10); ("b"%string, [2]%Z, 11)].
Definition three_answers : list (list Z) := [answer_message 7 [0]; answer_message 2 [22]; answer_message 1 [11]]%Z.

Lemma requests_answered_witness :
  exists c1 c' rest, run_queue_all (repeat send_run 2) (request_all two_requests connected_client) = Done c1 /\
    deliver three_answers c1 = Done (c', rest) /\
    calls c' = calls connected_client ++ [(11, Ok (Some [22]%Z)); (10, Ok (Some [11]%Z))] /\
    queue c' = [] /\ resp_tab c' = resp_tab connected_client.
Proof.
  assert (omap (known (issued_of (next_uid connected_client) two_requests)) three_answers =
    [(11, Ok (Some [22]%Z)); (10, Ok (Some [11]%Z))]) as <- by (vm_compute; reflexivity).
  apply (requests_answered two_requests three_answers connected_client); [vm_compute; reflexivity..| |vm_compute; reflexivity|vm_compute; reflexivity| | |].
  - intros id Hid. change (resp_tab connected_client) with (resp_tab connecting). cbn. by rewrite lookup_insert_ne.
  - intros id r [->|[->|[]%elem_of_nil]%elem_of_cons]%elem_of_cons; by vm_compute.
  - split.
    + repeat (apply Forall_cons; split; [do 2 eexists; split; [reflexivity|done]|]). apply Forall_nil_2.
    + apply (bool_decide_unpack _). vm_compute. exact I.
  - intros id Hid. apply issued_range in Hid. replace (next_uid connected_client) with 1%Z in Hid by (vm_compute; reflexivity).
    cbn in Hid. assert (id = 1 \/ id = 2)%Z as [-> | ->] by lia; apply (bool_decide_unpack _); vm_compute; exact I.
Defined.

Lemma late_answer_starves_witness :
  exists c1 c', run_queue_all [send_run; send_run; timeout_run]
      (request "b" [2]%Z 0 11 (request "a" [1]%Z 3 10 connected_client)) = Done c1 /\
    deliver [answer_message 1 [11]; answer_message 2 [22]]%Z c1 = Done (c', [answer_message 2 [22]]%Z) /\
    calls c' = calls connected_client ++ [(10, Err TimedOut); (10, Ok (Some [11]%Z))] /\
    queue c' = [] /\ resp_tab c' !! 2%Z = Some (EReceive 11).
Proof.
  apply (late_answer_starves connected_client "a" "b" [1]%Z [2]%Z 3 10 11 (answer_message 1 [11])%Z (answer_message 2 [22])%Z
    (Some [11]%Z) (Some [22]%Z)); vm_compute; reflexivity || done.
Defined.

Lemma subscribe_refused_witness :
  exists bin c1 c2, packet_to_binary (PSubscribe (pk_next pk_zero) [mkSubscribeTopic "a" 0]) = Ok bin /\
    run_pool send_run (length (pool connected_client)) (register ["a"%string] 5 12 connected_client) = Done c1 /\ sent c1 = sent connected_client ++ [bin] /\
    run_queue (frame_run [9; 1]%Z) c1 = Done c2 /\ calls c2 = calls connected_client ++ [(12, Err Other)] /\ queue c2 = [].
Proof.
  apply (subscribe_refused connected_client ["a"%string] 5 12 [9; 1]%Z [SubSuccess 0]);
    [exact connected_client_reachable|vm_compute; reflexivity..|done|done|vm_compute; reflexivity|reflexivity].
Defined.

Definition alice_peer (x : TcpConn) : Peer := mkPeer 0 ("here"%string, 80%Z) ("there"%string, 5000%Z).
Definition alice_sessions (c : WsSocket) : option (WsSession BrokerSession) := Some bound_session.
Definition rpc_world : RpcWorld (world (S := TcpConn)) := mkRpcWorld alice_world 0 ∅ ∅ ∅ [].

#[local] Instance alice_connections : MqttHandle (world (S := TcpConn)) := mqtt_connections alice_peer alice_sessions.

Lemma rpc_over_mqtt_witness :
  let buf := (4%Z :: rpc_to_binary 0 0 77 5 [3]%Z) in
  exists w1 w2 w3 a f fb (x' : TcpConn),
    base_connected (rpc_inner (mkRpcHandlers true true true)) 0 rpc_world = (w1, Ok tt) /\
    base_publish (rpc_inner (mkRpcHandlers true true true)) 0 "add"
      (rpc_to_binary 0 0 77 5 [1; 2]%Z) w1 = Done (w2, Ok tt) /\
    rw_calls w2 = rw_calls rpc_world ++ [CallConnected 7; CallRequest a "add" (Some ("there"%string, 5000%Z)) 77 [1; 2]%Z] /\
    rpc_reply a 77 [3]%Z w2 = Done w3 /\
    answer_of buf = Some (77%Z, Some [3]%Z) /\
    single_with_window_bits_and_payload (frame_type_to TBinary) 0 buf = Some f /\ frame_to f = Some fb /\
    w_conns (rw_mqtt w3) !! 7%Z = Some x' /\ tr_written x' = [fb].
Proof.
  refine (rpc_over_mqtt alice_peer alice_sessions (mkRpcHandlers true true true) 0 "add" 77 5 [1; 2]%Z [3]%Z (4%Z :: rpc_to_binary 0 0 77 5 [3]%Z) rpc_world
    alice_session a_socket (tcp_with [] []) bound_session _ _ _ _ _ _ _ _ _ _ _ _ _ _ _); try reflexivity; done.
Defined.
