(* ===== verification/HttpText.v ===== *)
(** * Text of HTTP headers

    The operations of Rust's [str] the HTTP code uses on header values (splitting,
    trimming, searching, decimal numbers), and header lists. *)

From Stdlib Require Import Ascii DecimalString DecimalPos DecimalN.
From S2P Require Import Prelude.

(** ** Strings *)

(** [str::split(c)] for a character *)
Fixpoint split_on (c : ascii) (s : string) : list string :=
  match s with
  | EmptyString => [EmptyString]
  | String x s' =>
      if bool_decide (x = c) then EmptyString :: split_on c s'
      else match split_on c s' with
           | l :: ls => String x l :: ls
           | [] => [String x EmptyString]
           end
  end.

(** ASCII white space, as [char::is_whitespace] on ASCII *)
Definition is_space (c : ascii) : bool :=
  let n := N_of_ascii c in
  bool_decide (n = 32 \/ n = 9 \/ n = 10 \/ n = 11 \/ n = 12 \/ n = 13)%N.

Fixpoint trim_start (s : string) : string :=
  match s with
  | String c s' => if is_space c then trim_start s' else s
  | EmptyString => EmptyString
  end.

Fixpoint trim_end (s : string) : string :=
  match s with
  | String c s' =>
      match trim_end s' with
      | EmptyString => if is_space c then EmptyString else String c EmptyString
      | t => String c t
      end
  | EmptyString => EmptyString
  end.

(** [str::trim] *)
Definition trim (s : string) : string := trim_end (trim_start s).

(** [str::find(pat).is_some()] *)
Fixpoint contains (pat s : string) : bool :=
  String.prefix pat s ||
  match s with String _ s' => contains pat s' | EmptyString => false end.

#[local] Arguments String.append : simpl nomatch.

(** [str::find(c)] for a character, and the two sides of [split_at(n)] *)
Fixpoint find_char (c : ascii) (s : string) : option nat :=
  match s with
  | EmptyString => None
  | String x s' => if bool_decide (x = c) then Some 0 else S <$> find_char c s'
  end.

Fixpoint str_take (n : nat) (s : string) : string :=
  match n, s with S n', String c s' => String c (str_take n' s') | _, _ => EmptyString end.

Fixpoint str_drop (n : nat) (s : string) : string :=
  match n, s with S n', String _ s' => str_drop n' s' | _, _ => s end.

Lemma find_char_app c k r : find_char c k = None -> find_char c (k +:+ String c r) = Some (String.length k).
Proof.
  induction k as [|x k IH]; cbn; [by rewrite bool_decide_true|].
  case_bool_decide; [done|]. intros Hk. destruct (find_char c k); [done|]. by rewrite IH.
Qed.

Lemma find_char_app_none c k r : find_char c k = None -> find_char c r = None -> find_char c (k +:+ r) = None.
Proof.
  induction k as [|x k IH]; cbn; [done|]. case_bool_decide; [done|].
  intros Hk Hr. destruct (find_char c k); [done|]. by rewrite IH.
Qed.

Lemma find_char_cons_none c x s : x <> c -> find_char c s = None -> find_char c (String x s) = None.
Proof. intros Hx Hs. cbn. rewrite bool_decide_false by done. by rewrite Hs. Qed.

Lemma str_app_assoc a b c : (a +:+ b) +:+ c = a +:+ b +:+ c.
Proof. induction a as [|x a IH]; cbn; by rewrite ?IH. Qed.

Lemma str_app_nil a : a +:+ "" = a.
Proof. induction a as [|x a IH]; cbn; by rewrite ?IH. Qed.

Lemma str_take_app k r : str_take (String.length k) (k +:+ r) = k.
Proof. induction k as [|x k IH]; cbn; [by destruct r|by rewrite IH]. Qed.

Lemma str_drop_app k r : str_drop (String.length k) (k +:+ r) = r.
Proof. induction k as [|x k IH]; cbn; [by destruct r|done]. Qed.

Lemma str_take_all s : str_take (String.length s) s = s.
Proof. induction s as [|x s IH]; cbn; by rewrite ?IH. Qed.

Lemma str_drop_all s : str_drop (String.length s) s = EmptyString.
Proof. by induction s. Qed.

Lemma str_drop_length n s : String.length (str_drop n s) = String.length s - n.
Proof. revert s. induction n as [|n IH]; intros [|x s]; cbn; auto. Qed.

Lemma find_char_elem c s : c ∈ String.list_ascii_of_string s -> find_char c s <> None.
Proof.
  induction s as [|x s IH]; cbn; [by intros ?%not_elem_of_nil|].
  case_bool_decide; [done|]. intros [->|Hc]%elem_of_cons; [done|]. specialize (IH Hc). by destruct (find_char c s).
Qed.

Lemma split_on_absent c s : find_char c s = None -> split_on c s = [s].
Proof.
  induction s as [|x s IH]; cbn; [done|]. case_bool_decide; [done|].
  intros Hs. rewrite IH; [done|]. by destruct (find_char c s).
Qed.

Lemma split_on_app c a s : find_char c a = None -> split_on c (a +:+ String c s) = a :: split_on c s.
Proof.
  induction a as [|x a IH]; cbn; [by rewrite bool_decide_true|]. case_bool_decide; [done|].
  intros Ha. rewrite IH; [done|]. by destruct (find_char c a).
Qed.

Lemma trim_end_last s c : is_space c = false -> trim_end (s +:+ String c "") = s +:+ String c "".
Proof.
  intros Hc. induction s as [|x s IH]; cbn; [by rewrite Hc|]. rewrite IH. by destruct s.
Qed.

(** ** Lower case, and trimming of other characters *)

(** [to_lowercase] on ASCII *)
Definition lower (c : ascii) : ascii :=
  let n := N_of_ascii c in if ((65 <=? n) && (n <=? 90))%N then ascii_of_N (n + 32) else c.

Fixpoint to_lowercase (s : string) : string :=
  match s with EmptyString => EmptyString | String c s => String (lower c) (to_lowercase s) end.

(** [trim_matches] of a set of characters *)
Fixpoint trim_start_by (p : ascii -> bool) (s : string) : string :=
  match s with
  | String c s' => if p c then trim_start_by p s' else s
  | EmptyString => EmptyString
  end.

Fixpoint trim_end_by (p : ascii -> bool) (s : string) : string :=
  match s with
  | String c s' =>
      match trim_end_by p s' with
      | EmptyString => if p c then EmptyString else String c EmptyString
      | t => String c t
      end
  | EmptyString => EmptyString
  end.

Definition trim_matches (p : ascii -> bool) (s : string) : string := trim_end_by p (trim_start_by p s).

(** ** Strings of some characters *)

Fixpoint str_all (p : ascii -> bool) (s : string) : bool :=
  match s with EmptyString => true | String c s => p c && str_all p s end.

Lemma str_all_app p a b : str_all p (a +:+ b) = str_all p a && str_all p b.
Proof. induction a as [|c a IH]; cbn; [done|]. by rewrite IH, andb_assoc. Qed.

Lemma str_all_impl (p q : ascii -> bool) s :
  (forall c, p c = true -> q c = true) -> str_all p s = true -> str_all q s = true.
Proof.
  intros Hpq. induction s as [|c s IH]; cbn; [done|]. intros [Hc Hs]%andb_prop. by rewrite (Hpq _ Hc), IH.
Qed.

Lemma str_all_absent p c s : str_all p s = true -> p c = false -> find_char c s = None.
Proof.
  intros Hs Hc. induction s as [|x s IH]; cbn in *; [done|]. apply andb_prop in Hs as [Hx Hs].
  case_bool_decide; [by subst; rewrite Hc in Hx|]. by rewrite IH.
Qed.

Lemma str_all_lower s : str_all (fun c => bool_decide (lower c = c)) s = true -> to_lowercase s = s.
Proof.
  induction s as [|c s IH]; cbn; [done|]. intros [Hc Hs]%andb_prop. apply bool_decide_eq_true in Hc.
  by rewrite Hc, IH.
Qed.

Lemma str_all_trim s : str_all (fun c => negb (is_space c)) s = true -> trim s = s.
Proof.
  intros Hs. unfold trim. assert (trim_start s = s) as ->.
  { destruct s as [|c s]; [done|]. cbn in *. by destruct (is_space c). }
  induction s as [|c s IH]; cbn in *; [done|]. apply andb_prop in Hs as [Hc Hs]. rewrite IH by done.
  destruct s; [|done]. by destruct (is_space c).
Qed.

Lemma trim_start_by_app p s r :
  str_all (fun c => negb (p c)) s = true -> s <> "" -> trim_start_by p (s +:+ r) = s +:+ r.
Proof. destruct s as [|c s]; [done|]. cbn. by destruct (p c). Qed.

Lemma trim_end_by_app p s r :
  str_all (fun c => negb (p c)) s = true -> trim_end_by p r = "" -> trim_end_by p (s +:+ r) = s.
Proof.
  intros Hs Hr. induction s as [|c s IH]; cbn in *; [done|]. apply andb_prop in Hs as [Hc Hs].
  rewrite IH by done. destruct s; [|done]. by destruct (p c).
Qed.

(** The characters around a word are trimmed. *)
Lemma trim_matches_quoted p q s :
  str_all (fun c => negb (p c)) s = true -> p q = true ->
  trim_matches p (String q (s +:+ String q "")) = s.
Proof.
  intros Hs Hq. unfold trim_matches. cbn [trim_start_by]. rewrite Hq.
  destruct (decide (s = "")) as [->|Hne]; [cbn; by rewrite Hq|].
  rewrite trim_start_by_app by done. apply trim_end_by_app; [done|]. cbn. by rewrite Hq.
Qed.

(** ** Decimal numbers *)

(** [u64::to_string], [usize::to_string] *)
Definition to_dec (n : Z) : string := NilZero.string_of_uint (N.to_uint (Z.to_N n)).

(** [str::parse::<u64>()]: an optional plus sign and digits, no overflow *)
Definition parse_u64 (s : string) : option Z :=
  let digits := match s with String "+"%char s' => s' | _ => s end in
  match digits with
  | EmptyString => None
  | _ =>
      match NilEmpty.uint_of_string digits with
      | Some d =>
          let n := Z.of_N (N.of_uint d) in
          if (n <? 2 ^ 64)%Z then Some n else None
      | None => None
      end
  end.

Lemma to_dec_plus n : exists c s, to_dec n = String c s /\ c <> "+"%char.
Proof.
  unfold to_dec, NilZero.string_of_uint.
  destruct (N.to_uint (Z.to_N n)); cbn; eauto.
Qed.

Lemma nilzero_nilempty d : d <> Decimal.Nil -> NilZero.string_of_uint d = NilEmpty.string_of_uint d.
Proof. by destruct d. Qed.

Lemma parse_to_dec n : (0 <= n < 2 ^ 64)%Z -> parse_u64 (to_dec n) = Some n.
Proof.
  intros Hn. destruct (to_dec_plus n) as (c & s & E & Hc).
  assert (NilEmpty.uint_of_string (to_dec n) = Some (N.to_uint (Z.to_N n))) as Ed.
  { unfold to_dec. rewrite nilzero_nilempty; [apply NilEmpty.usu|].
    destruct (Z.to_N n) as [|q]; [done|]. apply DecimalPos.Unsigned.to_uint_nonnil. }
  unfold parse_u64. rewrite E in *.
  assert ((match String c s with String "+" s' => s' | _ => String c s end) = String c s) as ->.
  { destruct c as [[] [] [] [] [] [] [] []]; done. }
  rewrite Ed, DecimalN.Unsigned.of_to, Z2N.id by lia.
  by rewrite (proj2 (Z.ltb_lt _ _)) by lia.
Qed.

(** The characters of decimal numbers. *)
Definition is_digit (c : ascii) : bool :=
  let n := N_of_ascii c in ((48 <=? n) && (n <=? 57))%N.

Lemma to_dec_digits n : str_all is_digit (to_dec n) = true.
Proof.
  unfold to_dec. assert (forall d, str_all is_digit (NilEmpty.string_of_uint d) = true) as Hd.
  { induction d; cbn; auto. }
  destruct (N.to_uint (Z.to_N n)) eqn:E; [done|..]; rewrite nilzero_nilempty by done; apply Hd.
Qed.

(** ** Header lists *)

(** A header value: what [HeaderValue::to_str] and [String::from_utf8_lossy] give. *)
Record HeaderValue := mkHeaderValue { to_str : option string; lossy : string }.

Definition header_of (s : string) : HeaderValue := mkHeaderValue (Some s) s.

(** [HeaderMap::get]: the first value appended under the name. *)
Definition header_get (name : string) (hs : list (string * HeaderValue)) : option HeaderValue :=
  match list_find (fun h => h.1 = name) hs with Some (_, h) => Some h.2 | None => None end.

(** [header(key, value)]: the value is appended. *)
Definition header_append (name value : string) (hs : list (string * HeaderValue))
    : list (string * HeaderValue) :=
  hs ++ [(name, header_of value)].

(** ** Media types *)

(** The package mime: parsing, the two parts of a type, and its parameters. *)
Class MimeApi := {
  mime : Type;
  mime_parse : string -> option mime;
  mime_type : mime -> string;
  mime_subtype : mime -> string;
  mime_param : string -> mime -> option string;
}.

Definition mime_is `{MimeApi} (t s : string) (m : mime) : bool :=
  bool_decide (mime_type m = t) && bool_decide (mime_subtype m = s).
