(* ===== verification/StaticCache.v ===== *)
(** * The static resource cache of the HTTP server (http/src/static_cache.rs)

    Resources by key with an expiry time, the index of the expiry times, the counters
    of size and number, the thread that collects expired resources, and the HTTP
    conditions and headers. Times are nanoseconds since the epoch; [now] is [None] when
    the clock stands before the epoch. The checksum and the date format come from other
    packages and are parameters. *)

From Stdlib Require Import Ascii.
From S2P Require Import Prelude HttpText.

Inductive CacheKey :=
| Private (owner key : string)
| Public (key : string).

#[export] Instance CacheKey_eq_dec : EqDecision CacheKey.
Proof. solve_decision. Defined.

#[export] Instance CacheKey_countable : Countable CacheKey.
Proof.
  refine (inj_countable'
    (fun k => match k with Private o k => inl (o, k) | Public k => inr k end)
    (fun x => match x with inl (o, k) => Private o k | inr k => Public k end) _).
  by intros [].
Defined.

Definition is_private (k : CacheKey) : bool := match k with Private _ _ => true | Public _ => false end.

(** The key of a resource with or without an owner. *)
Definition cache_key (owner : option string) (key : string) : CacheKey :=
  match owner with Some o => Private o key | None => Public key end.

Inductive CollectCmd :=
| Stop (reason : string)
| Pause (reason : string)
| Continue (reason : string)
| Index (timeout : Z) (key : CacheKey)
| Clear (size : Z).

(** A resource: expiry time, last modification, type, signature, data. *)
Record Resource := mkResource {
  res_timeout : Z;
  res_modified : Z;
  res_mime : string;
  res_sign : Z;
  res_data : list Z;
}.

Definition value_len (v : list Z) : Z := Z.of_nat (length v).

Inductive CacheRes :=
| CacheEmpty
| CacheExpired
| Cached (last_modified : Z) (mime : string) (sign : Z) (bin : list Z).

Record StaticCache := mkStaticCache {
  max_size : Z;
  max_len : Z;
  cache : gmap CacheKey Resource;
  timeout_index : gmap Z CacheKey;     (* the [BTreeMap] *)
  size : Z;
  len : Z;
  is_running : bool;
  collect : list CollectCmd;           (* the channel *)
}.

Definition new (max_size max_len : Z) : StaticCache :=
  mkStaticCache max_size max_len ∅ ∅ 0 0 false [].

Definition set_cache m s l (c : StaticCache) : StaticCache :=
  mkStaticCache (max_size c) (max_len c) m (timeout_index c) s l (is_running c) (collect c).
Definition set_index i (c : StaticCache) : StaticCache :=
  mkStaticCache (max_size c) (max_len c) (cache c) i (size c) (len c) (is_running c) (collect c).
Definition send_cmd cmd (c : StaticCache) : StaticCache :=
  mkStaticCache (max_size c) (max_len c) (cache c) (timeout_index c) (size c) (len c) (is_running c)
    (collect c ++ [cmd]).

(** [Duration]: seconds in 64 bits and nanoseconds. *)
Definition NANOS : Z := 1000000000.
Definition MAX_DURATION : Z := (2 ^ 64 - 1) * NANOS + (NANOS - 1).

(** [now.checked_add(Duration::from_secs(max_age))] *)
Definition checked_add (now max_age : Z) : option Z :=
  let t := (now + max_age * NANOS)%Z in
  if (t <=? MAX_DURATION)%Z then Some t else None.

(** [SystemTime::duration_since(UNIX_EPOCH)] *)
Definition since_epoch (t : Z) : option Z := if (0 <=? t)%Z then Some t else None.

(** ** Reading *)

Definition contains (owner : option string) (key : string) (c : StaticCache) : bool :=
  bool_decide (is_Some (cache c !! cache_key owner key)).

Definition is_expired (now : option Z) (owner : option string) (key : string) (c : StaticCache) : bool :=
  match cache c !! cache_key owner key, now with
  | Some r, Some now => (res_timeout r <=? now)%Z
  | _, _ => true
  end.

Definition is_unmodified (owner : option string) (key : string) (last : Z) (c : StaticCache) : bool :=
  match cache c !! cache_key owner key with
  | Some r =>
      match since_epoch last, since_epoch (res_modified r) with
      | Some last, Some modified => (last / NANOS =? modified / NANOS)%Z
      | _, _ => false
      end
  | None => false
  end.

Definition get (now : option Z) (owner : option string) (key : string) (c : StaticCache) : CacheRes :=
  match cache c !! cache_key owner key, now with
  | Some r, Some now =>
      if (res_timeout r <=? now)%Z then CacheExpired
      else Cached (res_modified r) (res_mime r) (res_sign r) (res_data r)
  | _, _ => CacheEmpty
  end.

(** ** Writing *)

Section write.
(** [encode_adler32] and [fmt_http_date] *)
Variable adler32 : list Z -> option Z.
Variable fmt_http_date : Z -> list Z.

Definition signature (full_sign : bool) (last_modified : Z) (value : list Z) : Z :=
  match adler32 (if full_sign then value else fmt_http_date last_modified) with
  | Some s => s
  | None => 0
  end.

Definition insert (now : option Z) (owner : option string) (max_age last_modified : Z) (mime : string)
    (full_sign : bool) (key : string) (value : list Z) (c : StaticCache)
    : StaticCache * io_result (Z * CacheRes) :=
  let value_size := value_len value in
  if (max_size c <? wrap64 (size c + value_size))%Z then (send_cmd (Clear value_size) c, Err Other)
  else if (max_len c <? wrap64 (len c + 1))%Z then (send_cmd (Clear 0) c, Err Other)
  else
    match now with
    | None => (c, Err Other)
    | Some now =>
        match checked_add now max_age with
        | None => (c, Err Other)
        | Some timeout =>
            let k := cache_key owner key in
            let sign := signature full_sign last_modified value in
            let r := mkResource timeout last_modified mime sign value in
            let c := send_cmd (Index timeout k) c in
            match cache c !! k with
            | Some old =>
                let s := wrap64 (wrap64 (size c - value_len (res_data old)) + value_size) in
                (set_cache (<[k := r]> (cache c)) s (len c) c,
                 Ok (sign, if (res_timeout old <=? now)%Z then CacheExpired
                           else Cached (res_modified old) (res_mime old) (res_sign old) (res_data old)))
            | None =>
                (set_cache (<[k := r]> (cache c)) (wrap64 (size c + value_size)) (wrap64 (len c + 1)) c,
                 Ok (sign, CacheEmpty))
            end
        end
    end.
End write.

(** [remove], by the key of the resource *)
Definition remove_key (now : option Z) (k : CacheKey) (c : StaticCache) : StaticCache * CacheRes :=
  match cache c !! k with
  | Some r =>
      (set_cache (delete k (cache c)) (wrap64 (size c - value_len (res_data r))) (wrap64 (len c - 1)) c,
       match now with
       | Some now =>
           if (res_timeout r <=? now)%Z then CacheExpired
           else Cached (res_modified r) (res_mime r) (res_sign r) (res_data r)
       | None => CacheEmpty
       end)
  | None => (c, CacheEmpty)
  end.

Definition remove (now : option Z) (owner : option string) (key : string) (c : StaticCache)
    : StaticCache * CacheRes :=
  remove_key now (cache_key owner key) c.

(** [remove_all_cache]: the counters keep their values. *)
Definition remove_all_cache (c : StaticCache) : StaticCache := set_cache ∅ (size c) (len c) c.

(** [pause_collect], [continue_collect] *)
Definition pause_collect (reason : string) (c : StaticCache) : StaticCache * io_result unit :=
  if is_running c then (send_cmd (Pause reason) c, Ok tt) else (c, Ok tt).
Definition continue_collect (reason : string) (c : StaticCache) : StaticCache * io_result unit :=
  if is_running c then (send_cmd (Continue reason) c, Ok tt) else (c, Ok tt).

(** ** Collecting *)

(** The index from the latest time to the earliest: [iter] and [reverse]. *)
Definition entry_le (a b : Z * CacheKey) : Prop := (a.1 <= b.1)%Z.
#[export] Instance entry_le_dec : RelDecision entry_le := fun a b => Z_le_dec a.1 b.1.

Definition index_reversed (c : StaticCache) : list (Z * CacheKey) :=
  reverse (merge_sort entry_le (map_to_list (timeout_index c))).

(** The loop of [collect_expired]. *)
Fixpoint collect_loop (now : Z) (kvs : list (Z * CacheKey)) (c : StaticCache) : StaticCache :=
  match kvs with
  | [] => c
  | (timeout, k) :: kvs' =>
      if (timeout <=? now)%Z then
        collect_loop now kvs'
          (remove_key (Some now) k (set_index (delete timeout (timeout_index c)) c)).1
      else c
  end.

Definition collect_expired (now : option Z) (c : StaticCache) : StaticCache :=
  match now with Some now => collect_loop now (index_reversed c) c | None => c end.

(** The loop of [collect_clear]. *)
Fixpoint clear_loop (now : option Z) (kvs : list (Z * CacheKey)) (n : Z) (c : StaticCache) : StaticCache :=
  match kvs with
  | [] => c
  | (timeout, _) :: kvs' =>
      if (n =? 0)%Z then c
      else
        let '(c, res) :=
          match timeout_index c !! timeout with
          | Some k => remove_key now k (set_index (delete timeout (timeout_index c)) c)
          | None => (c, CacheEmpty)
          end in
        clear_loop now kvs'
          (match res with Cached _ _ _ bin => Z.max 0 (n - value_len bin) | _ => n end) c
  end.

Definition collect_clear (now : option Z) (n : Z) (c : StaticCache) : StaticCache :=
  if (n =? 0)%Z then
    match index_reversed c with
    | (timeout, k) :: _ => (remove_key now k (set_index (delete timeout (timeout_index c)) c)).1
    | [] => c
    end
  else clear_loop now (index_reversed c) n c.

(** The commands the collecting thread takes from the channel in one round, with its
    two flags; then, unless stopped or paused, it sleeps and collects. *)
Definition run_cmd (now : option Z) (st : StaticCache * bool * bool) (cmd : CollectCmd)
    : StaticCache * bool * bool :=
  let '(c, is_runing, is_collect) := st in
  match cmd with
  | Continue _ => (c, is_runing, true)
  | Pause _ => (c, is_runing, false)
  | Stop _ => (c, false, is_collect)
  | Index timeout k => (set_index (<[timeout := k]> (timeout_index c)) c, is_runing, is_collect)
  | Clear n => (collect_clear now n c, is_runing, is_collect)
  end.

Definition set_running b (c : StaticCache) : StaticCache :=
  mkStaticCache (max_size c) (max_len c) (cache c) (timeout_index c) (size c) (len c) b (collect c).

(** The start of [run_collect]: nothing when the thread runs already. *)
Definition run_collect (c : StaticCache) : StaticCache := if is_running c then c else set_running true c.

Definition take_cmds (c : StaticCache) : StaticCache :=
  mkStaticCache (max_size c) (max_len c) (cache c) (timeout_index c) (size c) (len c) (is_running c) [].

Definition collect_round (now now' : option Z) (is_collect : bool) (c : StaticCache)
    : StaticCache * bool * bool :=
  let '(c, is_runing, is_collect) := foldl (run_cmd now) (take_cmds c, true, is_collect) (collect c) in
  if negb is_runing then (set_running false c, false, is_collect)
  else (if is_collect then collect_expired now' c else c, true, is_collect).

(** ** Requests and responses *)

Section http.
(** [parse_http_date] and [fmt_http_date] of the package [httpdate] *)
Variable parse_http_date : string -> option Z.
Variable http_date : Z -> string.

Abbreviation Headers := (list (string * HeaderValue)).

(** The condition on the modification time, as both functions below write it:
    [None] is no header, [Some (Err _)] a header that cannot be read. *)
Definition since_header (name : string) (owner : option string) (key : string) (hs : Headers)
    (c : StaticCache) : option (io_result bool) :=
  match header_get name hs with
  | None => None
  | Some value =>
      Some match to_str value with
           | None => Err Other
           | Some date =>
               match parse_http_date date with
               | None => Err Other
               | Some client => Ok (is_unmodified owner key client c)
               end
           end
  end.

(** The condition on the signature: [Some (Ok (Some b))] when the resource is there. *)
Definition match_header (name : string) (now : option Z) (owner : option string) (key : string)
    (hs : Headers) (c : StaticCache) : option (io_result (option bool)) :=
  match header_get name hs with
  | None => None
  | Some value =>
      Some match to_str value with
           | None => Err Other
           | Some client_sign =>
               match get now owner key c with
               | Cached _ _ sign _ =>
                   Ok (Some match parse_u64 client_sign with
                            | Some n => (n =? sign)%Z | None => false end)
               | _ => Ok None
               end
           end
  end.

(** the function [is_unmodified] of the module *)
Definition req_is_unmodified (now : option Z) (owner : option string) (key : string) (hs : Headers)
    (c : StaticCache) : io_result (option bool) :=
  match since_header "if-unmodified-since" owner key hs c with
  | Some (Err e) => Err e
  | since =>
      let reply := match since with Some (Ok b) => Some b | _ => None end in
      match match_header "if-match" now owner key hs c with
      | Some (Err e) => Err e
      | Some (Ok (Some b)) => Ok (Some b)
      | Some (Ok None) | None => Ok reply
      end
  end.

(** the function [is_modified] of the module *)
Definition req_is_modified (now : option Z) (owner : option string) (key : string) (hs : Headers)
    (c : StaticCache) : io_result bool :=
  match since_header "if-modified-since" owner key hs c with
  | Some (Err e) => Err e
  | since =>
      let reply := match since with Some (Ok b) => negb b | _ => true end in
      match match_header "if-none-match" now owner key hs c with
      | Some (Err e) => Err e
      | Some (Ok (Some b)) => Ok (negb b)
      | Some (Ok None) | None => Ok reply
      end
  end.

(** The loop over the directives of [Cache-Control]; the outer [None] is the panic of
    the index when a directive with max-age has no equals sign. *)
Fixpoint cache_control (vals : list string) (is_store : bool) (max_age : Z)
    : option (io_result (bool * Z)) :=
  match vals with
  | [] => Some (Ok (is_store, max_age))
  | val :: vals' =>
      let val := trim val in
      if bool_decide (val = "no-store"%string) then cache_control vals' false max_age
      else if HttpText.contains "max-age" val then
        match split_on "="%char val with
        | _ :: age :: _ =>
            match parse_u64 age with
            | Some age => cache_control vals' is_store age
            | None => Some (Err Other)
            end
        | _ => None
        end
      else cache_control vals' is_store max_age
  end.

(** [request_get_cache] *)
Definition request_get_cache (now : option Z) (owner : option string) (key : string) (hs : Headers)
    (c : StaticCache) : option (io_result (bool * Z * CacheRes)) :=
  match header_get "cache-control" hs with
  | Some value =>
      match cache_control (split_on ","%char (lossy value)) true 0 with
      | Some (Ok (is_store, max_age)) => Some (Ok (is_store, max_age, get now owner key c))
      | Some (Err e) => Some (Err e)
      | None => None
      end
  | None => Some (Ok (true, 0%Z, CacheEmpty))
  end.

Definition cache_control_value (is_private is_cache is_store is_transform is_only_if_cached : bool)
    (max_age : Z) : string :=
  let v := (if is_private then "private" else "public")%string in
  let v := if is_cache then v else (v +:+ ",no-cache") in
  let v := if is_store then v else (v +:+ ",no-store") in
  let v := if is_transform then v else (v +:+ ",no-transform") in
  let v := if is_only_if_cached then (v +:+ ",only_if_cached") else v in
  v +:+ ",max-age=" +:+ to_dec max_age.

(** [set_cache_resp_headers] *)
Definition set_cache_resp_headers (is_private is_cache is_store is_transform is_only_if_cached : bool)
    (max_age : Z) (last_modified : option Z) (etag : Z) (hs : Headers) : Headers :=
  let hs := header_append "cache-control"
    (cache_control_value is_private is_cache is_store is_transform is_only_if_cached max_age) hs in
  let hs := match last_modified with
            | Some t => header_append "last-modified" (http_date t) hs | None => hs end in
  header_append "etag" (to_dec etag) hs.
End http.

(** ** The counters *)

(** The total size of the resources. *)
Definition total_size (m : gmap CacheKey Resource) : Z :=
  map_fold (fun _ r acc => (value_len (res_data r) + acc)%Z) 0%Z m.

Lemma total_size_insert k r m :
  m !! k = None -> total_size (<[k := r]> m) = (value_len (res_data r) + total_size m)%Z.
Proof. intros Hk. unfold total_size. rewrite map_fold_insert_L; [done| |done]. intros. lia. Qed.

Lemma total_size_delete k r m :
  m !! k = Some r -> total_size m = (value_len (res_data r) + total_size (delete k m))%Z.
Proof. intros Hk. unfold total_size. rewrite (map_fold_delete_L _ _ k r); [done| |done]. intros. lia. Qed.

Lemma total_size_nonneg m : (0 <= total_size m)%Z.
Proof.
  unfold total_size. apply (map_fold_weak_ind (fun r _ => (0 <= r)%Z)); [lia|].
  intros. unfold value_len. lia.
Qed.

(** The counters are the true ones, and the limits [ms] and [ml] are kept. *)
Definition counters_ok (ms ml : Z) (c : StaticCache) : Prop :=
  size c = total_size (cache c) /\ len c = Z.of_nat (base.size (cache c)) /\
  (size c <= ms)%Z /\ (len c <= ml)%Z /\ max_size c = ms /\ max_len c = ml.

Lemma wrap64_small z : (0 <= z < 2 ^ 64)%Z -> wrap64 z = z.
Proof. apply Z.mod_small. Qed.

Lemma size_delete (k : CacheKey) (r : Resource) (m : gmap CacheKey Resource) :
  m !! k = Some r -> base.size m = S (base.size (delete k m)).
Proof.
  intros Hk. rewrite <-(map_size_insert_None k r (delete k m)) by apply lookup_delete_eq.
  by rewrite insert_delete_id.
Qed.

(** The operations on the cache, by its users and by the collecting thread;
    [remove_all_cache] is left out. *)
Inductive cache_step (adler : list Z -> option Z) (fmt : Z -> list Z) : StaticCache -> StaticCache -> Prop :=
| step_insert now owner age lm mime full key value c :
    (value_len value < 2 ^ 63)%Z ->
    cache_step adler fmt c (insert adler fmt now owner age lm mime full key value c).1
| step_remove now owner key c : cache_step adler fmt c (remove now owner key c).1
| step_run c : cache_step adler fmt c (run_collect c)
| step_pause r c : cache_step adler fmt c (pause_collect r c).1
| step_continue r c : cache_step adler fmt c (continue_collect r c).1
| step_round now now' b c : cache_step adler fmt c (collect_round now now' b c).1.1.

Section accounting.
Context (ms ml : Z) (Hm : (0 <= ms < 2 ^ 63)%Z) (Hn : (0 <= ml < 2 ^ 63)%Z).

Lemma remove_key_counters now k c : counters_ok ms ml c -> counters_ok ms ml (remove_key now k c).1.
Proof.
  intros (Hs & Hl & Hms & Hml & Em & El). unfold remove_key.
  destruct (cache c !! k) as [r|] eqn:E; [|done]. unfold counters_ok. cbn.
  pose proof (total_size_delete k r _ E) as Ht. pose proof (total_size_nonneg (delete k (cache c))).
  assert (0 <= value_len (res_data r))%Z by (unfold value_len; lia).
  pose proof (size_delete k r _ E) as Hsz.
  rewrite !wrap64_small by lia. repeat split; lia.
Qed.

Lemma insert_counters adler fmt now owner age lm mime full key value c :
  counters_ok ms ml c -> (value_len value < 2 ^ 63)%Z ->
  counters_ok ms ml (insert adler fmt now owner age lm mime full key value c).1.
Proof.
  intros (Hs & Hl & Hms & Hml & Em & El) Hv. unfold insert, counters_ok.
  pose proof (total_size_nonneg (cache c)).
  assert (0 <= value_len value)%Z by (unfold value_len; lia).
  destruct (Z.ltb_spec (max_size c) (wrap64 (size c + value_len value))) as [?|G]; [cbn; tauto|].
  rewrite wrap64_small in G by lia.
  destruct (Z.ltb_spec (max_len c) (wrap64 (len c + 1))) as [?|G2]; [cbn; tauto|].
  rewrite wrap64_small in G2 by lia.
  destruct now as [now|]; [|cbn; tauto]. destruct (checked_add now age); [|cbn; tauto].
  set (k := cache_key owner key). cbn. destruct (cache c !! k) as [old|] eqn:E; cbn.
  - pose proof (total_size_delete k old _ E) as Ht. pose proof (total_size_nonneg (delete k (cache c))).
    assert (0 <= value_len (res_data old))%Z by (unfold value_len; lia).
    rewrite <-(insert_delete_eq (cache c) k), total_size_insert by apply lookup_delete_eq.
    rewrite map_size_insert_None by apply lookup_delete_eq.
    pose proof (size_delete k old _ E) as Hsz.
    cbn. rewrite !wrap64_small by (rewrite ?wrap64_small; lia). repeat split; lia.
  - rewrite total_size_insert, map_size_insert_None by done. cbn.
    rewrite !wrap64_small by lia. repeat split; lia.
Qed.

Lemma set_index_counters i c : counters_ok ms ml c -> counters_ok ms ml (set_index i c).
Proof. done. Qed.

(** [counters_ok] reads neither the index, nor the flag, nor the channel; one lemma for
    the loops and one for the commands. *)
Lemma collect_loop_counters now kvs c : counters_ok ms ml c -> counters_ok ms ml (collect_loop now kvs c).
Proof.
  revert c; induction kvs as [|[t k] kvs IH]; intros c H; [done|].
  cbn [collect_loop]. case_match; [|done]. by apply IH, remove_key_counters, set_index_counters.
Qed.

Lemma clear_loop_counters now kvs n c : counters_ok ms ml c -> counters_ok ms ml (clear_loop now kvs n c).
Proof.
  revert n c; induction kvs as [|[t k] kvs IH]; intros n c H; [done|].
  cbn [clear_loop]. case_match; [done|].
  destruct (timeout_index c !! t) as [k'|]; [|by apply IH].
  pose proof (remove_key_counters now k' _ (set_index_counters (delete t (timeout_index c)) c H)) as HR.
  destruct (remove_key _ _ _) as [c' res]. by apply IH.
Qed.

Lemma collect_clear_counters now n c : counters_ok ms ml c -> counters_ok ms ml (collect_clear now n c).
Proof.
  intros H. unfold collect_clear. case_match; [|by apply clear_loop_counters].
  destruct (index_reversed c) as [|[t k] ?]; [done|]. by apply remove_key_counters, set_index_counters.
Qed.

Lemma run_cmds_counters now cmds st :
  counters_ok ms ml st.1.1 -> counters_ok ms ml (foldl (run_cmd now) st cmds).1.1.
Proof.
  revert st; induction cmds as [|cmd cmds IH]; intros [[c r] b] H; [done|].
  apply IH. destruct cmd; cbn in *; try done. by apply collect_clear_counters.
Qed.

Lemma collect_round_counters now now' b c :
  counters_ok ms ml c -> counters_ok ms ml (collect_round now now' b c).1.1.
Proof.
  intros H. unfold collect_round.
  pose proof (run_cmds_counters now (collect c) (take_cmds c, true, b) H) as HR.
  destruct (foldl _ _ _) as [[c' r] b']. destruct r; [|done]. cbn in *.
  destruct b', now' as [n|]; cbn; try done. by apply collect_loop_counters.
Qed.

Lemma cache_step_counters adler fmt c c' :
  cache_step adler fmt c c' -> counters_ok ms ml c -> counters_ok ms ml c'.
Proof.
  intros [] ?; [by apply insert_counters|by apply remove_key_counters| | | |by apply collect_round_counters].
  all: unfold run_collect, pause_collect, continue_collect; by case_match.
Qed.

Lemma new_counters : counters_ok ms ml (new ms ml).
Proof. unfold counters_ok; cbn. rewrite map_size_empty. unfold total_size. rewrite map_fold_empty. lia. Qed.
End accounting.

(** C37: In every state reached from a new cache by inserting, removing, pausing,
    continuing and rounds of the collecting thread in any order, the size counter is the
    total length of the resources held, the number counter is their number, and both are
    within the limits given to [new]: no wrap-around, no drift and no overrun. *)
Theorem cache_accounting adler fmt max_size0 max_len0 c
    (Hs : (0 <= max_size0 < 2 ^ 63)%Z) (Hl : (0 <= max_len0 < 2 ^ 63)%Z)
    (Hc : rtc (cache_step adler fmt) (new max_size0 max_len0) c) :
  size c = total_size (cache c) /\ len c = Z.of_nat (base.size (cache c)) /\
  (size c <= max_size0)%Z /\ (len c <= max_len0)%Z.
Proof.
  assert (counters_ok max_size0 max_len0 c) as (?&?&?&?&_); [|done].
  eapply (rtc_ind_r (counters_ok _ _)); [by apply new_counters| |exact Hc].
  intros; by eapply cache_step_counters.
Qed.

(** ** A cleared cache *)

(** What the collecting thread and removals do to an empty cache: it stays empty and
    its counters keep their values. *)
Definition cleared (s : Z) (ms : Z) (c : StaticCache) : Prop :=
  cache c = ∅ /\ size c = s /\ max_size c = ms.

Lemma remove_key_cleared s ms now k c : cleared s ms c -> cleared s ms (remove_key now k c).1.
Proof. intros (Hc & Hs & Hm). unfold remove_key. by rewrite Hc, lookup_empty. Qed.

Lemma collect_loop_cleared s ms now kvs c : cleared s ms c -> cleared s ms (collect_loop now kvs c).
Proof.
  revert c; induction kvs as [|[t k] kvs IH]; intros c H; [done|].
  cbn [collect_loop]. case_match; [|done]. by apply IH, remove_key_cleared.
Qed.

Lemma clear_loop_cleared s ms now kvs n c : cleared s ms c -> cleared s ms (clear_loop now kvs n c).
Proof.
  revert n c; induction kvs as [|[t k] kvs IH]; intros n c H; [done|].
  cbn [clear_loop]. case_match; [done|].
  destruct (timeout_index c !! t) as [k'|]; [|by apply IH].
  pose proof (remove_key_cleared s ms now k' (set_index (delete t (timeout_index c)) c) H) as HR.
  destruct (remove_key _ _ _) as [c' res]. by apply IH.
Qed.

Lemma run_cmds_cleared s ms now cmds st :
  cleared s ms st.1.1 -> cleared s ms (foldl (run_cmd now) st cmds).1.1.
Proof.
  revert st; induction cmds as [|cmd cmds IH]; intros [[c r] b] H; [done|].
  apply IH. destruct cmd; cbn in *; try done. unfold collect_clear.
  case_match; [|by apply clear_loop_cleared].
  destruct (index_reversed c) as [|[t k] ?]; [done|]. by apply remove_key_cleared.
Qed.

Lemma collect_round_cleared s ms now now' b c :
  cleared s ms c -> cleared s ms (collect_round now now' b c).1.1.
Proof.
  intros H. unfold collect_round.
  pose proof (run_cmds_cleared s ms now (collect c) (take_cmds c, true, b) H) as HR.
  destruct (foldl _ _ _) as [[c' r] b']. destruct r; [|done]. cbn in *.
  destruct b', now' as [n|]; cbn; try done. by apply collect_loop_cleared.
Qed.

Inductive clean_step : StaticCache -> StaticCache -> Prop :=
| clean_remove now owner key c : clean_step c (remove now owner key c).1
| clean_round now now' b c : clean_step c (collect_round now now' b c).1.1.

(** [remove_all_cache] does not give the room back: the size counter keeps its value,
    so a value that did not fit before is refused after it too, whatever removals and
    rounds of collection come in between. *)
Theorem remove_all_frees_no_room adler fmt now owner age lm mime full key value c c'
    (Hfull : (max_size c < wrap64 (size c + value_len value))%Z)
    (Hc : rtc clean_step (remove_all_cache c) c') :
  cache c' = ∅ /\
  insert adler fmt now owner age lm mime full key value c' = (send_cmd (Clear (value_len value)) c', Err Other).
Proof.
  assert (cleared (size c) (max_size c) c') as (He & Hs & Hm).
  { eapply (rtc_ind_r (cleared (size c) (max_size c)) (remove_all_cache c)); [done| |exact Hc].
    intros y z _ [] ?; [by apply remove_key_cleared|by apply collect_round_cleared]. }
  split; [done|]. unfold insert. rewrite Hs, Hm. by rewrite (proj2 (Z.ltb_lt _ _)).
Qed.

(** ** Reading what was written *)

(** The room an insertion needs. *)
Definition fits (value : list Z) (c : StaticCache) : Prop :=
  (wrap64 (size c + value_len value) <= max_size c)%Z /\ (wrap64 (len c + 1) <= max_len c)%Z.

(** The whole of a successful insertion. *)
Lemma insert_fits adler fmt now owner age lm mime full key value c timeout :
  fits value c -> checked_add now age = Some timeout ->
  exists c' old,
    insert adler fmt (Some now) owner age lm mime full key value c =
      (c', Ok (signature adler fmt full lm value, old)) /\
    cache c' = <[cache_key owner key :=
                  mkResource timeout lm mime (signature adler fmt full lm value) value]> (cache c) /\
    old = get (Some now) owner key c /\
    collect c' = collect c ++ [Index timeout (cache_key owner key)].
Proof.
  intros [H1 H2] Ht. unfold insert, get.
  destruct (Z.ltb_spec (max_size c) (wrap64 (size c + value_len value))); [lia|].
  destruct (Z.ltb_spec (max_len c) (wrap64 (len c + 1))); [lia|]. rewrite Ht. cbn.
  destruct (cache c !! cache_key owner key) as [old|]; eauto 10.
Qed.

(** A value inserted is read back until its time is over, with its type, its
    modification time and the signature [insert] returned, and as expired from then on;
    what [insert] returns as the previous resource is what [get] returned before, and
    every other resource reads as before. *)
Theorem get_insert adler fmt now owner age lm mime full key value c timeout
    (Hfit : fits value c) (Ht : checked_add now age = Some timeout) :
  exists c' sign,
    insert adler fmt (Some now) owner age lm mime full key value c =
      (c', Ok (sign, get (Some now) owner key c)) /\
    (forall t, get (Some t) owner key c' =
      if (timeout <=? t)%Z then CacheExpired else Cached lm mime sign value) /\
    (forall t owner' key', (owner', key') <> (owner, key) -> get t owner' key' c' = get t owner' key' c).
Proof.
  destruct (insert_fits adler fmt now owner age lm mime full key value c timeout Hfit Ht)
    as (c' & old & Hi & Hc & -> & _).
  eexists c', _. split; [exact Hi|]. split.
  - intros t. unfold get. by rewrite Hc, lookup_insert_eq.
  - intros t owner' key' Hne. unfold get. rewrite Hc, lookup_insert_ne; [done|].
    destruct owner, owner'; cbn; congruence.
Qed.

(** ** Collecting *)

#[export] Instance entry_le_trans : Transitive entry_le.
Proof. intros [] [] []. unfold entry_le. cbn. lia. Qed.
#[export] Instance entry_le_total : Total entry_le.
Proof. intros [] []. unfold entry_le. cbn. lia. Qed.

Lemma index_reversed_lookup c t k : (t, k) ∈ index_reversed c <-> timeout_index c !! t = Some k.
Proof.
  unfold index_reversed. rewrite elem_of_reverse, merge_sort_Permutation. apply elem_of_map_to_list.
Qed.

(** The list starts with the latest time. *)
Lemma index_reversed_head c e kvs :
  index_reversed c = e :: kvs -> Forall (fun e' => entry_le e' e) (e :: kvs).
Proof.
  intros He. constructor; [unfold entry_le; lia|].
  pose proof (StronglySorted_merge_sort entry_le (map_to_list (timeout_index c))) as HS.
  unfold index_reversed in He. apply (f_equal reverse) in He. rewrite reverse_involutive, reverse_cons in He.
  rewrite He in HS. apply Forall_forall. intros x Hx.
  apply StronglySorted_app in HS as (Ha & _). apply Ha; [by apply elem_of_reverse|set_solver].
Qed.

Lemma remove_key_index now k c : timeout_index (remove_key now k c).1 = timeout_index c.
Proof. unfold remove_key. by destruct (cache c !! k). Qed.

Lemma remove_key_cache now k c : cache (remove_key now k c).1 = delete k (cache c).
Proof.
  unfold remove_key. destruct (cache c !! k) eqn:E; cbn; [done|]. by rewrite delete_id.
Qed.

(** When all the listed times are over the loop takes every entry out of the index and
    every named resource out of the cache. *)
Lemma collect_loop_all now kvs c :
  Forall (fun e => (e.1 <= now)%Z) kvs ->
  let c' := collect_loop now kvs c in
  (forall t, timeout_index c' !! t = if decide (t ∈ kvs.*1) then None else timeout_index c !! t) /\
  (forall k, cache c' !! k = if decide (k ∈ kvs.*2) then None else cache c !! k).
Proof.
  revert c; induction kvs as [|[t k] kvs IH]; intros c H; cbn [collect_loop].
  { split; intros; by rewrite decide_False by (cbn; set_solver). }
  apply Forall_cons in H as [Ht H]. cbn in Ht. rewrite (proj2 (Z.leb_le _ _)) by done.
  destruct (IH (remove_key (Some now) k (set_index (delete t (timeout_index c)) c)).1 H) as [I1 I2].
  split.
  - intros t'. rewrite I1, remove_key_index. cbn. destruct (decide (t = t')) as [<-|].
    + rewrite lookup_delete_eq. repeat case_decide; set_solver.
    + rewrite lookup_delete_ne by done. repeat case_decide; set_solver.
  - intros k'. rewrite I2, remove_key_cache. cbn. destruct (decide (k = k')) as [<-|].
    + rewrite lookup_delete_eq. repeat case_decide; set_solver.
    + rewrite lookup_delete_ne by done. repeat case_decide; set_solver.
Qed.

(** A round of [collect_expired] is all or nothing: when the time of every entry of
    the index is over, the index is emptied and every resource it names is removed; when
    a single entry is still valid, nothing is removed, however many others are over (the
    loop goes from the latest time to the earliest and leaves at the first valid one). *)
Theorem collect_expired_all_or_nothing now c :
  if bool_decide (map_Forall (fun t _ => (t <= now)%Z) (timeout_index c))
  then timeout_index (collect_expired (Some now) c) = ∅ /\
       forall t k, timeout_index c !! t = Some k -> cache (collect_expired (Some now) c) !! k = None
  else collect_expired (Some now) c = c.
Proof.
  unfold collect_expired. case_bool_decide as Hall.
  - destruct (collect_loop_all now (index_reversed c) c) as [H1 H2].
    { apply Forall_forall. intros [t k] H. by apply index_reversed_lookup, Hall in H. }
    assert (forall t k, timeout_index c !! t = Some k -> t ∈ (index_reversed c).*1 /\ k ∈ (index_reversed c).*2) as Hin.
    { intros t k Ht. apply index_reversed_lookup in Ht.
      split; [by apply (list_elem_of_fmap_2 fst) in Ht|by apply (list_elem_of_fmap_2 snd) in Ht]. }
    split.
    + apply map_eq. intros t. rewrite H1, lookup_empty. case_decide as Hd; [done|].
      destruct (timeout_index c !! t) eqn:E; [|done]. by apply Hin in E as [? _].
    + intros t k Ht. rewrite H2, decide_True; [done|]. by apply (Hin t).
  - destruct (index_reversed c) as [|[t k] kvs] eqn:E; [done|]. cbn [collect_loop].
    destruct (Z.leb_spec t now) as [Ht|]; [|done]. exfalso. apply Hall. intros t' k' Hk'. cbn.
    apply index_reversed_lookup in Hk'. pose proof (index_reversed_head _ _ _ E) as HF. rewrite <-E in HF.
    rewrite Forall_forall in HF. specialize (HF _ Hk'). unfold entry_le in HF. cbn in HF. lia.
Qed.

Section clearing.
Context (ms ml : Z) (Hm : (0 <= ms < 2 ^ 63)%Z) (Hn : (0 <= ml < 2 ^ 63)%Z).

(** The size falls by what is removed, at least by the resource returned. *)
Lemma remove_key_size now k c :
  counters_ok ms ml c ->
  (size (remove_key now k c).1 <= size c)%Z /\
  forall lm mime sign bin, (remove_key now k c).2 = Cached lm mime sign bin ->
    size (remove_key now k c).1 = (size c - value_len bin)%Z.
Proof.
  intros (Hs & _ & Hms & _ & _). unfold remove_key.
  destruct (cache c !! k) as [r|] eqn:E; [|done]. cbn.
  pose proof (total_size_delete k r _ E). pose proof (total_size_nonneg (delete k (cache c))).
  assert (0 <= value_len (res_data r))%Z by (unfold value_len; lia).
  rewrite wrap64_small by lia. split; [lia|].
  intros ????. by destruct now; [case_match|]; intros [= <- <- <- <-].
Qed.

Lemma clear_loop_frees now kvs n c :
  counters_ok ms ml c -> (0 <= n)%Z ->
  let c' := clear_loop now kvs n c in
  (size c' <= size c)%Z /\
  (forall t, timeout_index c !! t = None -> timeout_index c' !! t = None) /\
  ((n <= size c - size c')%Z \/ forall t, t ∈ kvs.*1 -> timeout_index c' !! t = None).
Proof.
  revert n c; induction kvs as [|[t k] kvs IH]; intros n c Hc H0; cbn [clear_loop].
  { split_and!; [lia|done|]. right. intros t Ht. by apply elem_of_nil in Ht. }
  destruct (Z.eqb_spec n 0) as [->|Hne]; [split_and!; [lia|done|left; lia]|].
  destruct (timeout_index c !! t) as [k'|] eqn:Et; last first.
  { destruct (IH n c Hc H0) as (I1 & I2 & I3). split_and!; [done..|].
    destruct I3 as [?|I3]; [by left|right]. intros t' Ht'. cbn in Ht'.
    apply elem_of_cons in Ht' as [->|]; auto. }
  set (c0 := set_index _ _). assert (counters_ok ms ml c0) as Hc0 by done.
  destruct (remove_key_size now k' c0 Hc0) as [S1 S2]. change (size c0) with (size c) in S1, S2.
  pose proof (remove_key_counters ms ml Hm Hn now k' c0 Hc0) as Hc1.
  assert (forall t', timeout_index (remove_key now k' c0).1 !! t' =
    if decide (t = t') then None else timeout_index c !! t') as Hi.
  { intros t'. rewrite remove_key_index. cbn. case_decide; subst; by simplify_map_eq. }
  destruct (remove_key now k' c0) as [c1 res]. cbn [fst snd] in *.
  set (n' := match res with Cached _ _ _ bin => _ | _ => _ end).
  assert (0 <= n' /\ n - (size c - size c1) <= n')%Z as [Hn' Hle].
  { unfold n'. destruct res as [| |lm mime sign bin]; [lia..|].
    specialize (S2 _ _ _ _ eq_refl). cbn in *. lia. }
  destruct (IH n' c1 Hc1 Hn') as (I1 & I2 & I3). cbn in S1.
  split_and!; [lia| |].
  - intros t' Ht'. apply I2. rewrite Hi. by case_decide.
  - destruct I3 as [?|I3]; [left; lia|right]. intros t' Ht'. cbn in Ht'.
    apply elem_of_cons in Ht' as [->|]; [|auto]. apply I2. rewrite Hi. by case_decide.
Qed.
End clearing.

(** [collect_clear n] makes room: it frees at least [n] bytes, or leaves nothing in
    the index to remove; it never frees by miscounting (the counters stay true). *)
Theorem collect_clear_frees ms ml now n c
    (Hm : (0 <= ms < 2 ^ 63)%Z) (Hn : (0 <= ml < 2 ^ 63)%Z) (Hc : counters_ok ms ml c) (Hpos : (0 < n)%Z) :
  counters_ok ms ml (collect_clear now n c) /\
  ((n <= size c - size (collect_clear now n c))%Z \/ timeout_index (collect_clear now n c) = ∅).
Proof.
  split; [by apply collect_clear_counters|]. unfold collect_clear.
  destruct (Z.eqb_spec n 0); [lia|].
  destruct (clear_loop_frees ms ml Hm Hn now (index_reversed c) n c Hc) as (_ & H2 & [H|H]); [lia|by left|].
  right. apply map_eq. intros t. rewrite lookup_empty.
  destruct (timeout_index c !! t) as [k|] eqn:E; [|by apply H2].
  apply H. apply index_reversed_lookup in E. by apply (list_elem_of_fmap_2 fst) in E.
Qed.

(** ** Conditional requests *)

(** The tag of a resource, sent back: not modified until the resource expires. *)
Lemma own_etag_not_modified parse_date owner key hs c r t :
  cache c !! cache_key owner key = Some r -> (0 <= res_sign r < 2 ^ 64)%Z ->
  header_get "if-modified-since" hs = None ->
  header_get "if-none-match" hs = Some (header_of (to_dec (res_sign r))) ->
  req_is_modified parse_date (Some t) owner key hs c = Ok (res_timeout r <=? t)%Z.
Proof.
  intros Hc Hs H1 H2. unfold req_is_modified, since_header, match_header, get. rewrite H1, H2, Hc. cbn [to_str header_of].
  destruct (res_timeout r <=? t)%Z; [done|]. by rewrite parse_to_dec, Z.eqb_refl.
Qed.

Lemma own_etag_unmodified parse_date owner key hs c r t :
  cache c !! cache_key owner key = Some r -> (0 <= res_sign r < 2 ^ 64)%Z ->
  header_get "if-unmodified-since" hs = None ->
  header_get "if-match" hs = Some (header_of (to_dec (res_sign r))) ->
  req_is_unmodified parse_date (Some t) owner key hs c = Ok (if (res_timeout r <=? t)%Z then None else Some true).
Proof.
  intros Hc Hs H1 H2. unfold req_is_unmodified, since_header, match_header, get. rewrite H1, H2, Hc. cbn [to_str header_of].
  destruct (res_timeout r <=? t)%Z; [done|]. by rewrite parse_to_dec, Z.eqb_refl.
Qed.

Lemma signature_u64 adler fmt full lm value :
  (forall v s, adler v = Some s -> (0 <= s < 2 ^ 32)%Z) -> (0 <= signature adler fmt full lm value < 2 ^ 64)%Z.
Proof. intros Ha. unfold signature. destruct (adler _) eqn:E; [apply Ha in E|]; lia. Qed.

(** The entity tag does its work. What [insert] returns as signature, sent in the
    ETag header of the response and sent back by the client, is recognised: until the
    resource expires, if-none-match gives not modified and if-match gives unmodified;
    once it has expired the resource is taken as modified. *)
Theorem etag_roundtrip adler fmt parse_date http_date now owner age lm mime full key value c timeout
    (priv ca st tr oi : bool) (max_age : Z) (modified : option Z)
    (Hadler : forall v s, adler v = Some s -> (0 <= s < 2 ^ 32)%Z)
    (Hfit : fits value c) (Ht : checked_add now age = Some timeout) :
  exists c' sign prev,
    insert adler fmt (Some now) owner age lm mime full key value c = (c', Ok (sign, prev)) /\
    let resp := set_cache_resp_headers http_date priv ca st tr oi max_age modified sign [] in
    exists etag, header_get "etag" resp = Some etag /\ forall t,
      req_is_modified parse_date (Some t) owner key [("if-none-match"%string, etag)] c' =
        Ok (timeout <=? t)%Z /\
      req_is_unmodified parse_date (Some t) owner key [("if-match"%string, etag)] c' =
        Ok (if (timeout <=? t)%Z then None else Some true).
Proof.
  destruct (insert_fits adler fmt now owner age lm mime full key value c timeout Hfit Ht)
    as (c' & old & Hi & Hc & _ & _).
  pose proof (signature_u64 adler fmt full lm value Hadler) as Hsign.
  eexists c', _, old. split; [exact Hi|]. cbn zeta. exists (header_of (to_dec (signature adler fmt full lm value))).
  split; [by destruct modified|]. intros t.
  assert (cache c' !! cache_key owner key = Some (mkResource timeout lm mime (signature adler fmt full lm value) value)) as Hl
    by (by rewrite Hc, lookup_insert_eq).
  split; [by eapply (own_etag_not_modified _ _ _ _ _ _ _ Hl)|by eapply (own_etag_unmodified _ _ _ _ _ _ _ Hl)].
Qed.

(** ** Concrete runs *)

#[local] Open Scope Z_scope.

(** A checksum for the runs: the number of bytes. *)
Definition len_sum (v : list Z) : option Z :=
  if (value_len v <? 2 ^ 32)%Z then Some (value_len v) else None.
Definition no_date (t : Z) : list Z := [].

Definition page : StaticCache :=
  (insert len_sum no_date (Some 5) None 10 0 "text/html" true "index" [1; 2; 3] (new 8 4)).1.

(** Ten seconds later: the entry is indexed and collected in the next rounds. *)
Lemma cache_accounting_witness :
  let c := (collect_round (Some 6) (Some 7) true page).1.1 in
  size c = total_size (cache c) /\ len c = Z.of_nat (base.size (cache c)) /\
  (size c <= 8)%Z /\ (len c <= 4)%Z.
Proof.
  cbv zeta. apply (cache_accounting len_sum no_date 8 4); [lia|lia|].
  eapply rtc_l; [apply step_insert|eapply rtc_l; [apply step_round|apply rtc_refl]]. reflexivity.
Defined.

Lemma remove_all_frees_no_room_witness :
  let c' := (collect_round (Some 6) (Some 7) true (remove_all_cache page)).1.1 in
  cache c' = ∅ /\
  insert len_sum no_date (Some 8) None 10 0 "text/html" true "index" [1; 2; 3; 4; 5; 6] c' =
    (send_cmd (Clear 6) c', Err Other).
Proof.
  cbv zeta.
  apply (remove_all_frees_no_room len_sum no_date (Some 8) None 10 0 "text/html" true "index"
    [1; 2; 3; 4; 5; 6]%Z page); [reflexivity|].
  eapply rtc_l; [apply clean_round|apply rtc_refl].
Defined.

Lemma get_insert_witness :
  exists c' sign,
    insert len_sum no_date (Some 9) None 10 0 "text/html" true "index" [7]%Z page =
      (c', Ok (sign, get (Some 9) None "index" page)) /\
    (forall t, get (Some t) None "index" c' =
      if (9 + 10 * NANOS <=? t)%Z then CacheExpired else Cached 0 "text/html" sign [7]%Z) /\
    (forall t owner' key', (owner', key') <> (None, "index"%string) ->
      get t owner' key' c' = get t owner' key' page).
Proof.
  apply (get_insert len_sum no_date 9 None 10 0 "text/html" true "index" [7]%Z page (9 + 10 * NANOS)).
  - split; vm_compute; discriminate.
  - reflexivity.
Defined.

Lemma collect_clear_frees_witness :
  let c := (collect_round (Some 6) (Some 7) true page).1.1 in
  counters_ok 8 4 (collect_clear (Some 8) 2 c) /\
  ((2 <= size c - size (collect_clear (Some 8) 2 c))%Z \/ timeout_index (collect_clear (Some 8) 2 c) = ∅).
Proof.
  cbv zeta. apply collect_clear_frees; [lia|lia| |lia].
  apply collect_round_counters; [lia|lia|]. apply insert_counters; [lia|lia| |reflexivity].
  apply new_counters; lia.
Defined.

Lemma etag_roundtrip_witness :
  exists c' sign prev,
    insert len_sum no_date (Some 5) None 10 0 "text/html" true "index" [1; 2; 3]%Z (new 8 4) =
      (c', Ok (sign, prev)) /\
    let resp := set_cache_resp_headers (fun _ => ""%string) false true true true false 10 None sign [] in
    exists etag, header_get "etag" resp = Some etag /\ forall t,
      req_is_modified (fun _ => None) (Some t) None "index" [("if-none-match"%string, etag)] c' =
        Ok (5 + 10 * NANOS <=? t)%Z /\
      req_is_unmodified (fun _ => None) (Some t) None "index" [("if-match"%string, etag)] c' =
        Ok (if (5 + 10 * NANOS <=? t)%Z then None else Some true).
Proof.
  apply (etag_roundtrip len_sum no_date (fun _ => None) (fun _ => ""%string) 5 None 10 0 "text/html"
    true "index" [1; 2; 3]%Z (new 8 4) (5 + 10 * NANOS)).
  - intros v s. unfold len_sum, value_len. destruct (Z.ltb_spec (Z.of_nat (length v)) (2 ^ 32)); [|done].
    intros [= <-]. lia.
  - split; vm_compute; discriminate.
  - reflexivity.
Defined.

(** The tag of the page, and the entries of a mixed index: the valid entry at 30 keeps
    the one at 10, over at 20, in the cache. *)
Example page_signature : get (Some 6) None "index" page = Cached 0 "text/html" 3 [1; 2; 3]%Z.
Proof. vm_compute. reflexivity. Qed.

Example mixed_index :
  let c := set_index {[ 10%Z := Public "old"; 30%Z := Public "new" ]} (new 8 4) in
  collect_expired (Some 20) c = c.
Proof. vm_compute. reflexivity. Qed.
