(* ===== verification/ByteSearch.v ===== *)
(** * Searching bytes

    [find_bytes] and [rfind_bytes] of the package twoway, which the parsers of multipart
    bodies use, with the laws they rely on; the text of bytes. *)

From Stdlib Require Import Ascii.
From S2P Require Import Prelude.

(** The needle stands at [i]. *)
Definition occurs (needle hay : list Z) (i : nat) : Prop :=
  i + length needle <= length hay /\ take (length needle) (drop i hay) = needle.

#[export] Instance occurs_dec needle hay i : Decision (occurs needle hay i).
Proof. unfold occurs. apply _. Defined.

Class ByteSearch := {
  find_bytes : list Z -> list Z -> option nat;
  rfind_bytes : list Z -> list Z -> option nat;
}.

(** The first and the last place. *)
Class ByteSearchLaws `{ByteSearch} := {
  find_bytes_some hay needle i :
    find_bytes hay needle = Some i -> occurs needle hay i /\ forall j, j < i -> ~ occurs needle hay j;
  find_bytes_none hay needle : find_bytes hay needle = None -> forall j, ~ occurs needle hay j;
  rfind_bytes_some hay needle i :
    rfind_bytes hay needle = Some i -> occurs needle hay i /\ forall j, i < j -> ~ occurs needle hay j;
  rfind_bytes_none hay needle : rfind_bytes hay needle = None -> forall j, ~ occurs needle hay j;
}.

Lemma occurs_app_l needle h1 h2 i : occurs needle h1 i -> occurs needle (h1 ++ h2) i.
Proof.
  intros [Hl E]. split; [rewrite length_app; lia|].
  rewrite drop_app_le by lia. by rewrite take_app_le by (rewrite length_drop; lia).
Qed.

Lemma occurs_app_r needle h1 h2 i :
  i + length needle <= length h1 -> occurs needle (h1 ++ h2) i -> occurs needle h1 i.
Proof.
  intros Hl [_ E]. split; [done|].
  rewrite drop_app_le in E by lia. by rewrite take_app_le in E by (rewrite length_drop; lia).
Qed.

Lemma occurs_middle pre needle post : occurs needle (pre ++ needle ++ post) (length pre).
Proof.
  split; [rewrite !length_app; lia|].
  by rewrite drop_app_length, take_app_length.
Qed.

Lemma occurs_split needle hay i :
  occurs needle hay i -> hay = take i hay ++ needle ++ drop (i + length needle) hay.
Proof.
  intros [Hl E]. rewrite <-(take_drop i hay) at 1. f_equal.
  rewrite <-(take_drop (length needle) (drop i hay)) at 1. by rewrite E, drop_drop.
Qed.

Lemma occurs_shift needle h1 h2 i : occurs needle h2 i <-> occurs needle (h1 ++ h2) (length h1 + i).
Proof.
  unfold occurs. rewrite length_app, drop_app_add. split; intros [? E]; (split; [lia|exact E]).
Qed.

Lemma occurs_lookup needle hay i j x : occurs needle hay i -> needle !! j = Some x -> hay !! (i + j) = Some x.
Proof.
  intros [Hl E] Hj. pose proof (lookup_lt_Some _ _ _ Hj) as Hlt.
  assert (take (length needle) (drop i hay) !! j = Some x) as Hj' by (by rewrite E).
  by rewrite lookup_take_lt, lookup_drop in Hj'.
Qed.

Section laws.
Context `{ByteSearchLaws}.

(** The first occurrence stays the first when more follows. *)
Lemma find_bytes_first needle hay i :
  occurs needle hay i -> (forall j, j < i -> ~ occurs needle hay j) -> find_bytes hay needle = Some i.
Proof.
  intros Ho Hf. destruct (find_bytes hay needle) as [k|] eqn:E.
  - apply find_bytes_some in E as [Hk Hj]. destruct (decide (k < i)); [by destruct (Hf k)|].
    destruct (decide (i < k)); [by destruct (Hj i)|]. f_equal. lia.
  - by destruct (find_bytes_none _ _ E i).
Qed.

Lemma find_bytes_absent needle hay : (forall j, ~ occurs needle hay j) -> find_bytes hay needle = None.
Proof. intros Hn. destruct (find_bytes hay needle) as [k|] eqn:E; [|done]. by apply find_bytes_some in E as [? _]; destruct (Hn k). Qed.

Lemma rfind_bytes_last needle hay i :
  occurs needle hay i -> (forall j, i < j -> ~ occurs needle hay j) -> rfind_bytes hay needle = Some i.
Proof.
  intros Ho Hf. destruct (rfind_bytes hay needle) as [k|] eqn:E.
  - apply rfind_bytes_some in E as [Hk Hj]. destruct (decide (i < k)); [by destruct (Hf k)|].
    destruct (decide (k < i)); [by destruct (Hj i)|]. f_equal. lia.
  - by destruct (rfind_bytes_none _ _ E i).
Qed.

Lemma rfind_bytes_absent needle hay : (forall j, ~ occurs needle hay j) -> rfind_bytes hay needle = None.
Proof. intros Hn. destruct (rfind_bytes hay needle) as [k|] eqn:E; [|done]. by apply rfind_bytes_some in E as [? _]; destruct (Hn k). Qed.

Lemma find_bytes_app needle hay more i :
  find_bytes hay needle = Some i -> find_bytes (hay ++ more) needle = Some i.
Proof.
  intros [[Hl Ho] Hf]%find_bytes_some. apply find_bytes_first; [by apply occurs_app_l|].
  intros j Hj Hoj. apply (Hf j Hj). eapply occurs_app_r; [|done]. lia.
Qed.

(** The needle at the end of [pre ++ needle], and not before, is the first one whatever
    follows. *)
Definition first_at_end (pre needle : list Z) : Prop := find_bytes (pre ++ needle) needle = Some (length pre).

Lemma find_first_at_end pre needle post :
  first_at_end pre needle -> find_bytes (pre ++ needle ++ post) needle = Some (length pre).
Proof. intros Hf. rewrite app_assoc. by apply find_bytes_app. Qed.

Lemma first_at_end_nil needle : first_at_end [] needle.
Proof.
  apply find_bytes_first; [|cbn; intros; lia]. pose proof (occurs_middle [] needle []) as Ho.
  by rewrite app_nil_r in Ho.
Qed.

(** A piece without the first byte of the needle. *)
Lemma first_at_end_fresh pre c needle : c ∉ pre -> first_at_end pre (c :: needle).
Proof.
  intros Hc. pose proof (occurs_middle pre (c :: needle) []) as Ho. rewrite app_nil_r in Ho.
  apply find_bytes_first; [done|]. intros j Hj Hoj.
  apply (occurs_lookup _ _ _ 0 c) in Hoj; [|done]. rewrite Nat.add_0_r, lookup_app_l in Hoj by done.
  apply Hc. by eapply list_elem_of_lookup_2.
Qed.

Lemma find_bytes_fresh hay c needle : c ∉ hay -> find_bytes hay (c :: needle) = None.
Proof.
  intros Hc. apply find_bytes_absent. intros j Hoj.
  apply (occurs_lookup _ _ _ 0 c) in Hoj; [|done]. apply Hc. by eapply list_elem_of_lookup_2.
Qed.

Lemma find_bytes_front needle post : find_bytes (needle ++ post) needle = Some 0.
Proof. apply (find_first_at_end [] needle post), first_at_end_nil. Qed.
End laws.

(** ** A direct search *)

Fixpoint search_up (n i : nat) (needle hay : list Z) : option nat :=
  if decide (occurs needle hay i) then Some i
  else match n with O => None | S n => search_up n (S i) needle hay end.

Fixpoint search_down (i : nat) (needle hay : list Z) : option nat :=
  if decide (occurs needle hay i) then Some i
  else match i with O => None | S i => search_down i needle hay end.

#[export] Instance direct_search : ByteSearch := {
  find_bytes hay needle := search_up (length hay) 0 needle hay;
  rfind_bytes hay needle := search_down (length hay) needle hay;
}.

Lemma search_up_spec n i needle hay :
  match search_up n i needle hay with
  | Some k => i <= k /\ occurs needle hay k /\ forall j, i <= j < k -> ~ occurs needle hay j
  | None => forall j, i <= j <= i + n -> ~ occurs needle hay j
  end.
Proof.
  revert i. induction n as [|n IH]; intros i; cbn; destruct (decide _) as [Ho|Hn].
  - split_and!; [done..|]. lia.
  - intros j Hj. by replace j with i by lia.
  - split_and!; [done..|]. lia.
  - specialize (IH (S i)). destruct (search_up n (S i) needle hay) as [k|].
    + destruct IH as (? & ? & Hj). split_and!; [lia|done|]. intros j ?.
      destruct (decide (j = i)) as [->|]; [done|]. apply Hj. lia.
    + intros j ?. destruct (decide (j = i)) as [->|]; [done|]. apply IH. lia.
Qed.

Lemma search_down_spec i needle hay :
  match search_down i needle hay with
  | Some k => k <= i /\ occurs needle hay k /\ forall j, k < j <= i -> ~ occurs needle hay j
  | None => forall j, j <= i -> ~ occurs needle hay j
  end.
Proof.
  induction i as [|i IH]; cbn; destruct (decide _) as [Ho|Hn].
  - split_and!; [done..|]. lia.
  - intros j Hj. by replace j with 0 by lia.
  - split_and!; [done..|]. lia.
  - destruct (search_down i needle hay) as [k|].
    + destruct IH as (? & ? & Hj). split_and!; [lia|done|]. intros j ?.
      destruct (decide (j = S i)) as [->|]; [done|]. apply Hj. lia.
    + intros j ?. destruct (decide (j = S i)) as [->|]; [done|]. apply IH. lia.
Qed.

#[export] Instance direct_search_laws : ByteSearchLaws.
Proof.
  split; intros hay needle; cbn.
  - intros i E. pose proof (search_up_spec (length hay) 0 needle hay) as Hs. rewrite E in Hs.
    destruct Hs as (_ & ? & Hj). split; [done|]. intros j ?. apply Hj. lia.
  - intros E j Ho. pose proof (search_up_spec (length hay) 0 needle hay) as Hs. rewrite E in Hs.
    destruct Ho as [Hl E']. apply (Hs j); [lia|done].
  - intros i E. pose proof (search_down_spec (length hay) needle hay) as Hs. rewrite E in Hs.
    destruct Hs as (_ & ? & Hj). split; [done|]. intros j ? Ho. apply (Hj j); [|done].
    destruct Ho. lia.
  - intros E j Ho. pose proof (search_down_spec (length hay) needle hay) as Hs. rewrite E in Hs.
    apply (Hs j); [|done]. destruct Ho. lia.
Qed.

(** ** Bytes and text *)

Definition byte_of_ascii (c : ascii) : Z := Z.of_N (N_of_ascii c).
Definition ascii_of_byte (b : Z) : ascii := ascii_of_N (Z.to_N b).

(** [str::as_bytes], and the text of bytes that are one. *)
Definition as_bytes (s : string) : list Z := byte_of_ascii <$> String.list_ascii_of_string s.
Definition text_of (l : list Z) : string := String.string_of_list_ascii (ascii_of_byte <$> l).

Lemma text_of_as_bytes s : text_of (as_bytes s) = s.
Proof.
  unfold text_of, as_bytes. rewrite <-list_fmap_compose.
  rewrite (list_fmap_ext _ id (String.list_ascii_of_string s)).
  - rewrite list_fmap_id. clear. induction s as [|c s IH]; cbn; [done|]. by f_equal.
  - intros _ c _. unfold compose, ascii_of_byte, byte_of_ascii. cbn. by rewrite N2Z.id, ascii_N_embedding.
Qed.

Lemma as_bytes_app s t : as_bytes (s +:+ t) = as_bytes s ++ as_bytes t.
Proof.
  unfold as_bytes. rewrite <-fmap_app. f_equal. induction s as [|c s IH]; [done|].
  change (String c s +:+ t) with (String c (s +:+ t)). cbn. by rewrite IH.
Qed.

(** The continuation bytes of a character of UTF-8, and [String::from_utf8]. *)
Definition cont (b : Z) : bool := ((128 <=? b) && (b <=? 191))%Z.
Definition between (lo hi b : Z) : bool := ((lo <=? b) && (b <=? hi))%Z.

Fixpoint utf8_valid (l : list Z) : bool :=
  match l with
  | [] => true
  | a :: l1 =>
      if between 0 127 a then utf8_valid l1
      else
        match l1 with
        | [] => false
        | b :: l2 =>
            if between 194 223 a then cont b && utf8_valid l2
            else
              match l2 with
              | [] => false
              | c :: l3 =>
                  if between 224 239 a then
                    (if (a =? 224)%Z then between 160 191 b
                     else if (a =? 237)%Z then between 128 159 b else cont b)
                    && cont c && utf8_valid l3
                  else
                    match l3 with
                    | [] => false
                    | d :: l4 =>
                        between 240 244 a &&
                        (if (a =? 240)%Z then between 144 191 b
                         else if (a =? 244)%Z then between 128 143 b else cont b)
                        && cont c && cont d && utf8_valid l4
                    end
              end
        end
  end.

Definition from_utf8 (l : list Z) : option string := if utf8_valid l then Some (text_of l) else None.

Lemma utf8_valid_app l1 l2 : utf8_valid l1 = true -> utf8_valid l2 = true -> utf8_valid (l1 ++ l2) = true.
Proof.
  intros H1 H2. remember (length l1) as n eqn:En. assert (length l1 <= n) as Hn by lia. clear En.
  revert l1 Hn H1. induction n as [|n IH]; intros [|a l1] Hn H1; cbn in Hn; try lia; [done|done|].
  cbn [utf8_valid app] in *. destruct (between 0 127 a); [apply IH; [lia|done]|].
  destruct l1 as [|b l1]; [done|]. cbn [app length] in *.
  destruct (between 194 223 a); [apply andb_prop in H1 as [-> H1]; cbn; apply IH; [lia|done]|].
  destruct l1 as [|c l1]; [done|]. cbn [app length] in *.
  destruct (between 224 239 a); [apply andb_prop in H1 as [-> H1]; cbn; apply IH; [lia|done]|].
  destruct l1 as [|d l1]; [done|]. cbn [app length] in *.
  apply andb_prop in H1 as [-> H1]. cbn. apply IH; [lia|done].
Qed.

Lemma from_utf8_as_bytes s : utf8_valid (as_bytes s) = true -> from_utf8 (as_bytes s) = Some s.
Proof. intros Hs. unfold from_utf8. by rewrite Hs, text_of_as_bytes. Qed.

(** [String::from_utf8_lossy]: the bytes of each longest start of a character that cannot
    go on are replaced by those of U+FFFD. *)
Definition REPLACEMENT : list Z := [239; 191; 189]%Z.

Definition second_ok (a b : Z) : bool :=
  (if a =? 224 then between 160 191 b else if a =? 237 then between 128 159 b
   else if a =? 240 then between 144 191 b else if a =? 244 then between 128 143 b else cont b)%Z.

Fixpoint lossy_bytes (l : list Z) : list Z :=
  match l with
  | [] => []
  | a :: l1 =>
      if between 0 127 a then a :: lossy_bytes l1
      else if between 194 244 a then
        match l1 with
        | [] => REPLACEMENT
        | b :: l2 =>
            if second_ok a b then
              if between 194 223 a then a :: b :: lossy_bytes l2
              else
                match l2 with
                | [] => REPLACEMENT
                | c :: l3 =>
                    if cont c then
                      if between 224 239 a then a :: b :: c :: lossy_bytes l3
                      else
                        match l3 with
                        | [] => REPLACEMENT
                        | d :: l4 =>
                            if cont d then a :: b :: c :: d :: lossy_bytes l4
                            else REPLACEMENT ++ lossy_bytes l3
                        end
                    else REPLACEMENT ++ lossy_bytes l2
                end
            else REPLACEMENT ++ lossy_bytes l1
        end
      else REPLACEMENT ++ lossy_bytes l1
  end.

Definition utf8_lossy (l : list Z) : string := text_of (lossy_bytes l).

(** Valid text is kept. *)
Lemma lossy_bytes_valid l : utf8_valid l = true -> lossy_bytes l = l.
Proof.
  remember (length l) as n eqn:En. assert (length l <= n) as Hn by lia. clear En.
  revert l Hn. induction n as [|n IH]; intros [|a l] Hn Hv; cbn in Hn; try lia; [done|done|].
  cbn [utf8_valid lossy_bytes] in *. destruct (between 0 127 a) eqn:E0; [by rewrite IH by (done || lia)|].
  destruct l as [|b l]; [done|]. cbn [length] in Hn. unfold between, cont, second_ok in *.
  destruct ((194 <=? a) && (a <=? 223))%Z eqn:E1.
  { apply andb_prop in Hv as [Hb Hv]. assert ((194 <=? a) && (a <=? 244) = true)%Z as -> by lia.
    replace (a =? 224)%Z with false by lia. replace (a =? 237)%Z with false by lia.
    replace (a =? 240)%Z with false by lia. replace (a =? 244)%Z with false by lia.
    unfold cont. rewrite Hb. by rewrite IH by (done || lia). }
  destruct l as [|c l]; [done|]. cbn [length] in Hn.
  destruct ((224 <=? a) && (a <=? 239))%Z eqn:E2.
  { apply andb_prop in Hv as [[Hb Hc]%andb_prop Hv]. assert ((194 <=? a) && (a <=? 244) = true)%Z as -> by lia.
    replace (a =? 240)%Z with false by lia. replace (a =? 244)%Z with false by lia. unfold cont, between in *.
    rewrite Hb, Hc. by rewrite IH by (done || lia). }
  destruct l as [|d l]; [done|]. cbn [length] in Hn.
  apply andb_prop in Hv as [[[[Ha Hb]%andb_prop Hc]%andb_prop Hd]%andb_prop Hv].
  assert ((194 <=? a) && (a <=? 244) = true)%Z as -> by lia.
  replace (a =? 224)%Z with false by lia. replace (a =? 237)%Z with false by lia. unfold cont, between in *.
  rewrite Hb, Hc, Hd. by rewrite IH by (done || lia).
Qed.

Lemma utf8_lossy_as_bytes s : utf8_valid (as_bytes s) = true -> utf8_lossy (as_bytes s) = s.
Proof. intros Hs. unfold utf8_lossy. by rewrite lossy_bytes_valid, text_of_as_bytes. Qed.

(** A character that is not in a text is not in its bytes. *)
Lemma as_bytes_elem c s : byte_of_ascii c ∈ as_bytes s <-> c ∈ String.list_ascii_of_string s.
Proof.
  unfold as_bytes. split.
  - intros (c' & E & Hc')%list_elem_of_fmap. unfold byte_of_ascii in E. apply N2Z.inj in E.
    rewrite <-(ascii_N_embedding c), E, ascii_N_embedding. done.
  - intros Hc. by apply list_elem_of_fmap_2.
Qed.
