(* ===== verification/Params.v ===== *)
(** * Request parameters of the older HTTP server (https/src/params.rs, url_encode.rs)

    Parameters are a tree of values. A path such as [name[][x]] names a place in it:
    [assign] writes there and builds the tables and arrays on the way, [find] and [take]
    read. A [BTreeMap] is a finite map, as nothing depends on its order. *)

From Stdlib Require Import Ascii.
From S2P Require Import Prelude HttpText.

#[local] Open Scope string_scope.

(** The file of an upload; equality looks at the path only. *)
Record File := mkFile {
  file_path : string;
  filename : option string;
  file_size : Z;
  content_type : string;
}.

(** A floating point number is its bit pattern. *)
Inductive Value :=
| Null
| Boolean (b : bool)
| I64 (z : Z)
| U64 (z : Z)
| F64 (bits : Z)
| VString (s : string)
| Bin (b : list Z)
| VFile (f : File)
| Array (a : list Value)
| VMap (m : gmap string Value).

Abbreviation Map := (gmap string Value).

Inductive ParamsError :=
| BodyError
| UrlDecodingError
| IoError
| InvalidPath
| CannotAppend
| CannotInsert
| NotJsonObject
| InvalidForm
| InvalidFile.

(** ** Paths *)

Definition parse_base (path : string) : result ParamsError (string * string) :=
  let open := default (String.length path) (find_char "["%char path) in
  let base := str_take open path in
  if bool_decide (base = "") then Err InvalidPath else Ok (base, str_drop open path).

Definition parse_index (path : string) : result ParamsError (string * string) :=
  if String.prefix "[" path then
    match find_char "]"%char path with
    | Some close => Ok (str_take (close - 1) (str_drop 1 path), str_drop (1 + close) path)
    | None => Err InvalidPath
    end
  else Err InvalidPath.

(** ** Writing *)

Definition contains_key (key : string) (self : Value) : result ParamsError bool :=
  match self with
  | VMap m => Ok (bool_decide (is_Some (m !! key)))
  | _ => Err CannotInsert
  end.

(** The empty array or table a path continues with. *)
Definition empty_collection (next_key : string) : Value :=
  if bool_decide (next_key = "") then Array [] else VMap ∅.

(** [Value::assign]: the value as the call leaves it, also when it fails. The path gets
    shorter at each call; [fuel] bounds its length. *)
Fixpoint value_assign (fuel : nat) (path : string) (value : Value) (self : Value)
    : Value * result ParamsError unit :=
  match fuel with
  | O => (self, Err InvalidPath)
  | S fuel =>
      if bool_decide (path = "") then (self, Err InvalidPath)
      else
        match parse_index path with
        | Err e => (self, Err e)
        | Ok (key, remainder) =>
            if bool_decide (key = "") then
              match self with
              | Array array =>
                  if bool_decide (remainder = "") then (Array (array ++ [value]), Ok tt)
                  else
                    match parse_index remainder with
                    | Err e => (self, Err e)
                    | Ok (next_key, _) =>
                        if bool_decide (next_key = "") then (self, Err InvalidPath)
                        else
                          let append_map :=
                            match value_assign fuel remainder value (VMap ∅) with
                            | (m, Ok _) => (Array (array ++ [m]), Ok tt)
                            | (_, Err e) => (self, Err e)
                            end in
                          match last array with
                          | Some m =>
                              match contains_key next_key m with
                              | Err e => (self, Err e)
                              | Ok true => append_map
                              | Ok false =>
                                  let '(m, r) := value_assign fuel remainder value m in
                                  (Array (<[length array - 1 := m]> array), r)
                              end
                          | None => append_map
                          end
                    end
              | _ => (self, Err CannotAppend)
              end
            else
              match self with
              | VMap m =>
                  if bool_decide (remainder = "") then (VMap (<[key := value]> m), Ok tt)
                  else
                    match parse_index remainder with
                    | Err e => (self, Err e)
                    | Ok (next_key, _) =>
                        let '(c, r) := value_assign fuel remainder value
                          (default (empty_collection next_key) (m !! key)) in
                        (VMap (<[key := c]> m), r)
                    end
              | _ => (self, Err CannotInsert)
              end
        end
  end.

(** [Map::assign] *)
Definition assign (path : string) (value : Value) (m : Map) : Map * result ParamsError unit :=
  match parse_base path with
  | Err e => (m, Err e)
  | Ok (base, remainder) =>
      if bool_decide (remainder = "") then (<[base := value]> m, Ok tt)
      else
        match parse_index remainder with
        | Err e => (m, Err e)
        | Ok (key, _) =>
            let '(c, r) := value_assign (S (String.length remainder)) remainder value
              (default (empty_collection key) (m !! base)) in
            (<[base := c]> m, r)
        end
  end.

(** ** Reading *)

(** The loop of [find] behind the first key. *)
Fixpoint find_loop (keys : list string) (value : option Value) : option Value :=
  match keys with
  | [] => value
  | key :: keys =>
      match value with
      | Some (VMap m) => find_loop keys (m !! key)
      | _ => None
      end
  end.

Definition find (keys : list string) (m : Map) : option Value :=
  match keys with
  | [] => None
  | key :: keys => find_loop keys (m !! key)
  end.

(** The table with the value at [keys] replaced: the write through the reference the
    loop of [take] holds. *)
Fixpoint put_at (keys : list string) (v : Value) (m : Map) : Map :=
  match keys with
  | [] => m
  | [key] => <[key := v]> m
  | key :: keys =>
      match m !! key with
      | Some (VMap m') => <[key := VMap (put_at keys v m')]> m
      | _ => m
      end
  end.

(** The loop of [take]: [value] is what the reference points to, [here] the keys that
    lead there. The loop starts with a reference to a null value. *)
Fixpoint take_loop (keys here : list string) (value : option Value) (m : Map) : Map * option Value :=
  match keys with
  | [] => (m, None)
  | key :: keys =>
      match value with
      | Some Null =>
          match keys with
          | [] => (delete key m, m !! key)
          | _ => take_loop keys [key] (m !! key) m
          end
      | Some (VMap m') =>
          match keys with
          | [] => (put_at here (VMap (delete key m')) m, m' !! key)
          | _ => take_loop keys (here ++ [key]) (m' !! key) m
          end
      | _ => (m, None)
      end
  end.

Definition take (keys : list string) (m : Map) : Map * option Value :=
  if bool_decide (keys = []) then (m, None) else take_loop keys [] (Some Null) m.

(** ** Paths as lists of keys *)

#[local] Arguments String.append : simpl nomatch.
#[local] Arguments String.prefix : simpl nomatch.

(** The path [k[k1][k2]...] behind its base. *)
Definition index_path (ks : list string) : string :=
  foldr (fun k s => "[" +:+ (k +:+ ("]" +:+ s))) "" ks.

Definition base_ok (k : string) : Prop := k <> "" /\ find_char "["%char k = None.
Definition index_ok (k : string) : Prop := find_char "]"%char k = None.
Definition key_ok (k : string) : Prop := k <> "" /\ index_ok k.

Lemma parse_base_path k ks : base_ok k -> parse_base (k +:+ index_path ks) = Ok (k, index_path ks).
Proof.
  intros [Hk Ho]. unfold parse_base. destruct ks as [|k' ks].
  - cbn [index_path foldr]. rewrite str_app_nil, Ho. cbn. rewrite str_take_all, str_drop_all.
    by rewrite bool_decide_false.
  - cbn [index_path foldr]. change ("[" +:+ ?s) with (String "[" s).
    rewrite (find_char_app _ _ _ Ho). cbn [from_option id]. rewrite str_take_app, str_drop_app.
    by rewrite bool_decide_false.
Qed.

Lemma prefix_bracket s : String.prefix "[" (String "[" s) = true.
Proof. by destruct s. Qed.

Lemma parse_index_path k s : index_ok k -> parse_index ("[" +:+ (k +:+ ("]" +:+ s))) = Ok (k, s).
Proof.
  intros Hk. set (path := "[" +:+ (k +:+ ("]" +:+ s))).
  assert (find_char "]"%char path = Some (S (String.length k))) as Ef.
  { subst path. change ("[" +:+ ?x) with (String "[" x). change ("]" +:+ s) with (String "]" s).
    cbn [find_char]. rewrite bool_decide_false by done. by rewrite (find_char_app "]"%char k s Hk). }
  unfold parse_index. rewrite Ef. rewrite (prefix_bracket _ : String.prefix "[" path = true).
  replace (S (String.length k) - 1) with (String.length k) by lia.
  change (str_drop 1 path) with (k +:+ ("]" +:+ s)). rewrite str_take_app. do 2 f_equal.
  change (str_drop (1 + S (String.length k)) path) with (str_drop (S (String.length k)) (k +:+ ("]" +:+ s))).
  clear. induction k as [|c k IH]; [done|]. apply IH.
Qed.

Lemma parse_index_shorter path k r : parse_index path = Ok (k, r) -> String.length r < String.length path.
Proof.
  unfold parse_index. destruct (String.prefix _ _) eqn:Ep; [|done].
  destruct (find_char _ _) as [n|]; [|done]. remember (str_drop (1 + n) path) as d eqn:Ed.
  intros [= _ <-]. rewrite Ed, str_drop_length.
  destruct path; [done|cbn; lia].
Qed.

(** Fuel above the length of the path is enough. *)
Lemma value_assign_fuel f1 f2 path v self :
  String.length path < f1 -> String.length path < f2 ->
  value_assign f1 path v self = value_assign f2 path v self.
Proof.
  revert f2 path v self. induction f1 as [|f1 IH]; intros [|f2] path v self H1 H2; try lia. cbn.
  case_bool_decide; [done|]. destruct (parse_index path) as [[key r]|] eqn:Ep; [|done].
  apply parse_index_shorter in Ep.
  assert (forall self, value_assign f1 r v self = value_assign f2 r v self) as E by (intros; apply IH; lia).
  rewrite ?E. repeat (case_match; simplify_eq/=; rewrite ?E in *; try done).
Qed.

(** Writing at a list of keys, as the code does it step by step. *)
Fixpoint put_keys (ks : list string) (v : Value) (self : Value) : Value * result ParamsError unit :=
  match ks with
  | [] => (self, Err InvalidPath)
  | k :: ks =>
      match self with
      | VMap m =>
          match ks with
          | [] => (VMap (<[k := v]> m), Ok tt)
          | _ =>
              let '(c, r) := put_keys ks v (default (VMap ∅) (m !! k)) in
              (VMap (<[k := c]> m), r)
          end
      | _ => (self, Err CannotInsert)
      end
  end.

Lemma index_path_nonempty k ks : index_path (k :: ks) <> "".
Proof. done. Qed.

Lemma value_assign_put_keys ks v self :
  Forall key_ok ks -> forall f, String.length (index_path ks) < f ->
  value_assign f (index_path ks) v self = put_keys ks v self.
Proof.
  intros Hks. revert self. induction Hks as [|k ks [Hk Hi] Hks IH]; intros self [|f] Hf; try (cbn in Hf; lia); [done|].
  cbn [value_assign]. rewrite (bool_decide_false _ (index_path_nonempty k ks)).
  cbn [index_path foldr]. change (foldr _ _ ks) with (index_path ks).
  pose proof (parse_index_path k (index_path ks) Hi) as Ep.
  pose proof (parse_index_shorter _ _ _ Ep) as Hl. rewrite Ep.
  rewrite (bool_decide_false (k = "")) by done.
  destruct self; try done. destruct ks as [|k' ks]; [done|].
  rewrite (bool_decide_false _ (index_path_nonempty k' ks)).
  inversion Hks as [|?? [Hk' Hi'] ?]; subst.
  assert (parse_index (index_path (k' :: ks)) = Ok (k', index_path ks)) as -> by (by apply parse_index_path).
  unfold empty_collection. rewrite (bool_decide_false (k' = "")) by done.
  rewrite IH; [done|]. unfold index_path in *. cbn [foldr] in *. lia.
Qed.

Lemma assign_put_keys k ks v m :
  base_ok k -> Forall key_ok ks ->
  let '(m', r) := assign (k +:+ index_path ks) v m in put_keys (k :: ks) v (VMap m) = (VMap m', r).
Proof.
  intros Hk Hks. unfold assign. rewrite (parse_base_path _ _ Hk). destruct ks as [|k' ks]; [done|].
  rewrite (bool_decide_false _ (index_path_nonempty k' ks)).
  inversion Hks as [|?? [Hk' Hi'] ?]; subst.
  assert (parse_index (index_path (k' :: ks)) = Ok (k', index_path ks)) as -> by (by apply parse_index_path).
  unfold empty_collection. rewrite (bool_decide_false (k' = "")) by done.
  rewrite value_assign_put_keys by (done || lia).
  change (put_keys (k :: k' :: ks) v (VMap m)) with
    (let '(c, r) := put_keys (k' :: ks) v (default (VMap ∅) (m !! k)) in (VMap (<[k := c]> m), r)).
  by destruct (put_keys (k' :: ks) v _).
Qed.

(** A value that a path may go on in. *)
Definition open_value (v : option Value) : bool :=
  match v with None => true | Some (VMap _) => true | _ => false end.

Lemma find_loop_none ks : ks <> [] -> find_loop ks None = None.
Proof. by destruct ks. Qed.

Lemma find_loop_empty ks : ks <> [] -> find_loop ks (Some (VMap ∅)) = None.
Proof.
  destruct ks as [|k ks]; [done|]. intros _. cbn. rewrite lookup_empty. by destruct ks.
Qed.

Lemma find_loop_default ks o : ks <> [] -> find_loop ks (Some (default (VMap ∅) o)) = find_loop ks o.
Proof. intros Hks. destruct o; [done|]. cbn. by rewrite find_loop_empty, find_loop_none. Qed.

Lemma put_keys_ok ks v self self' :
  put_keys ks v self = (self', Ok tt) -> find_loop ks (Some self') = Some v.
Proof.
  revert self self'. induction ks as [|k ks IH]; intros self self'; [done|].
  destruct self as [| | | | | | | | |m]; try done. cbn [put_keys]. destruct ks as [|k' ks].
  - intros [= <-]. cbn. by rewrite lookup_insert_eq.
  - destruct (put_keys (k' :: ks) v _) as [c r] eqn:E. intros [= <- ->].
    cbn [find_loop]. rewrite lookup_insert_eq. by eapply IH.
Qed.

(** It succeeds exactly if no value on the way is of another type. *)
Lemma put_keys_result ks v self :
  ks <> [] ->
  ((put_keys ks v self).2 = Ok tt /\ forall p q, ks = (p ++ q)%list -> q <> [] -> open_value (find_loop p (Some self)) = true) \/
  (put_keys ks v self = (self, Err CannotInsert) /\ exists p q, ks = (p ++ q)%list /\ q <> [] /\ open_value (find_loop p (Some self)) = false).
Proof.
  revert self. induction ks as [|k ks IH]; intros self; [done|]. intros _.
  destruct self as [| | | | | | | | |m]; try (right; split; [done|]; by exists [], (k :: ks)).
  cbn [put_keys]. destruct ks as [|k' ks].
  { left. split; [done|]. intros [|k0 p] q E Hq; [done|]. by destruct p, q; simplify_eq/=. }
  specialize (IH (default (VMap ∅) (m !! k)) ltac:(done)).
  destruct (put_keys (k' :: ks) v _) as [c r] eqn:E. cbn in IH.
  destruct IH as [[-> Hall]|[[= -> ->] (p & q & Eks & Hq & Ho)]]; cbn [fst snd].
  - left. split; [done|]. intros [|k0 p] q Eq Hq; [done|]. injection Eq as <- Eq.
    specialize (Hall p q Eq Hq). cbn [find_loop]. destruct p as [|k1 p]; [|by rewrite find_loop_default in Hall].
    cbn in Hall |- *. by destruct (m !! k).
  - right. split.
    + do 2 f_equal. destruct (m !! k) as [w|] eqn:Ew; cbn; [by rewrite insert_id|].
      exfalso. cbn in Ho. destruct p as [|k1 p]; [done|]. cbn in Ho.
      rewrite lookup_empty in Ho. by destruct p.
    + exists (k :: p), q. split; [by rewrite Eks|]. split; [done|]. cbn [find_loop].
      destruct p as [|k1 p]; [|by rewrite find_loop_default in Ho]. cbn in Ho |- *. by destruct (m !! k).
Qed.

(** Places that are neither above nor below the path keep their values. *)
Lemma put_keys_frame ks v self keys :
  ~ keys `prefix_of` ks -> ~ ks `prefix_of` keys ->
  find_loop keys (Some (put_keys ks v self).1) = find_loop keys (Some self).
Proof.
  revert self keys. induction ks as [|k ks IH]; intros self keys H1 H2.
  { by destruct H2; apply prefix_nil. }
  destruct keys as [|k0 keys]; [by destruct H1; apply prefix_nil|].
  destruct self as [| | | | | | | | |m]; try done. cbn [put_keys].
  assert (forall c, k0 <> k -> find_loop (k0 :: keys) (Some (VMap (<[k := c]> m))) =
    find_loop (k0 :: keys) (Some (VMap m))) as Hne by (intros c Hk; cbn; by rewrite lookup_insert_ne).
  destruct ks as [|k' ks].
  - apply Hne. intros ->. destruct H2. apply prefix_cons, prefix_nil.
  - destruct (decide (k0 = k)) as [->|Hk]; [|specialize (IH (default (VMap ∅) (m !! k)));
      destruct (put_keys (k' :: ks) v _) as [c r]; by apply Hne].
    specialize (IH (default (VMap ∅) (m !! k)) keys).
    destruct (put_keys (k' :: ks) v _) as [c r]. cbn [fst] in *. cbn [find_loop]. rewrite lookup_insert_eq.
    assert (~ keys `prefix_of` k' :: ks) as H1' by (intros ?; apply H1; by apply prefix_cons).
    rewrite IH; [|done|intros ?; apply H2; by apply prefix_cons].
    apply find_loop_default. intros ->. destruct H1'. apply prefix_nil.
Qed.

(** Writing at a path of keys such as [a[b][c]] succeeds exactly if every value on the
    way is a table or absent. Then reading the same keys gives the value written, and every
    place that is neither above nor below keeps its value; when it fails with
    [CannotInsert] the parameters are as before. *)
Theorem assign_find k ks v m :
  base_ok k -> Forall key_ok ks ->
  let '(m', r) := assign (k +:+ index_path ks) v m in
  (r = Ok tt <-> forall p q, k :: ks = (p ++ q)%list -> p <> [] -> q <> [] -> open_value (find p m) = true) /\
  (r = Ok tt -> find (k :: ks) m' = Some v) /\
  (r <> Ok tt -> r = Err CannotInsert /\ m' = m) /\
  (forall keys, ~ keys `prefix_of` k :: ks -> ~ k :: ks `prefix_of` keys -> find keys m' = find keys m).
Proof.
  intros Hk Hks. pose proof (assign_put_keys k ks v m Hk Hks) as E.
  destruct (assign _ v m) as [m' r].
  pose proof (put_keys_result (k :: ks) v (VMap m) ltac:(done)) as Hr. rewrite E in Hr. cbn [snd] in Hr.
  assert (forall p, p <> [] -> find_loop p (Some (VMap m)) = find p m) as Ef by (by intros []).
  split_and!.
  - destruct Hr as [[-> Hall]|[[= -> ->] (p & q & Eq & Hq & Ho)]].
    + split; [|done]. intros _ p q Eq Hp Hq. rewrite <-Ef by done. by eapply Hall.
    + split; [done|]. intros Hall. destruct p as [|k0 p]; [done|].
      rewrite Ef in Ho by done. by rewrite (Hall _ _ Eq) in Ho.
  - intros ->. by apply put_keys_ok in E.
  - intros Hne. destruct Hr as [[-> _]|[[= -> ->] _]]; done.
  - intros keys H1 H2. pose proof (put_keys_frame (k :: ks) v (VMap m) keys H1 H2) as F.
    rewrite E in F. destruct keys; [done|]. exact F.
Qed.

(** ** Arrays of tables *)

(** The assignments of a form in order; the first failure ends them. *)
Fixpoint assign_pairs (l : list (string * Value)) (m : Map) : Map * result ParamsError unit :=
  match l with
  | [] => (m, Ok tt)
  | (path, v) :: l =>
      match assign path v m with
      | (m, Ok _) => assign_pairs l m
      | (m, Err e) => (m, Err e)
      end
  end.

Lemma assign_pairs_app l1 l2 m :
  assign_pairs (l1 ++ l2) m =
  match assign_pairs l1 m with (m, Ok _) => assign_pairs l2 m | (m, Err e) => (m, Err e) end.
Proof.
  revert m. induction l1 as [|[p v] l1 IH]; intros m; [done|]. cbn.
  destruct (assign p v m) as [m1 [[]|e]]; [apply IH|done].
Qed.

(** [k[][f]] *)
Definition item_path (k f : string) : string := k +:+ index_path [""; f].

Definition array_of (o : option Value) : option (list Value) :=
  match o with None => Some [] | Some (Array a) => Some a | _ => None end.

Lemma assign_item k f v m a :
  base_ok k -> key_ok f -> array_of (m !! k) = Some a ->
  assign (item_path k f) v m =
  match last a with
  | Some (VMap cur) =>
      if bool_decide (is_Some (cur !! f)) then (<[k := Array (a ++ [VMap {[f := v]}])]> m, Ok tt)
      else (<[k := Array (<[length a - 1 := VMap (<[f := v]> cur)]> a)]> m, Ok tt)
  | Some _ => (<[k := Array a]> m, Err CannotInsert)
  | None => (<[k := Array (a ++ [VMap {[f := v]}])]> m, Ok tt)
  end.
Proof.
  intros Hk [Hf Hi] Ha. unfold assign, item_path. rewrite (parse_base_path _ _ Hk).
  rewrite (bool_decide_false _ (index_path_nonempty "" [f])).
  assert (parse_index (index_path [""; f]) = Ok ("", index_path [f])) as E1 by (by apply parse_index_path).
  assert (parse_index (index_path [f]) = Ok (f, "")) as E2 by (by apply (parse_index_path f "")).
  rewrite E1. unfold empty_collection at 1. cbn [bool_decide decide_rel].
  rewrite (bool_decide_true ("" = "")) by done.
  assert (default (Array []) (m !! k) = Array a) as ->.
  { destruct (m !! k) as [[]|]; by simplify_eq/=. }
  set (n := String.length (index_path [""; f])).
  assert (forall w, value_assign n (index_path [f]) v w = put_keys [f] v w) as Eput.
  { intros w. apply value_assign_put_keys; [by repeat constructor|]. subst n. cbn. lia. }
  cbn [value_assign]. rewrite (bool_decide_false _ (index_path_nonempty "" [f])), E1.
  rewrite (bool_decide_true ("" = "")), (bool_decide_false _ (index_path_nonempty f [])), E2 by done.
  rewrite (bool_decide_false (f = "")), !Eput by done. cbn [put_keys]. rewrite insert_empty.
  destruct (last a) as [[| | | | | | | | |cur]|]; try done. cbn [contains_key]. rewrite Eput.
  by case_bool_decide.
Qed.

(** The fields of a record, each at the path [k[][f]]. *)
Definition item_pairs (k : string) (l : list (string * Value)) : list (string * Value) :=
  (fun fv => (item_path k fv.1, fv.2)) <$> l.

(** A record of a form: it has a field, starts with [f0], and no field comes twice. *)
Definition record_ok (f0 : string) (l : list (string * Value)) : Prop :=
  head l.*1 = Some f0 /\ NoDup l.*1 /\ Forall key_ok l.*1.

Definition tables (records : list (list (string * Value))) : list Value :=
  (fun l => VMap (list_to_map l)) <$> records.

(** The fields behind the first one go to the last table of the array. *)
Lemma assign_fields k l m a cur :
  base_ok k -> Forall key_ok l.*1 -> NoDup l.*1 -> (forall f, f ∈ l.*1 -> cur !! f = None) ->
  m !! k = Some (Array (a ++ [VMap cur])) ->
  assign_pairs (item_pairs k l) m = (<[k := Array (a ++ [VMap (list_to_map l ∪ cur)])]> m, Ok tt).
Proof.
  intros Hk. revert m cur. induction l as [|[f v] l IH]; intros m cur Hok Hnd Hfr Hm.
  { cbn. rewrite (left_id_L ∅ (∪)). by rewrite insert_id. }
  cbn in Hok, Hnd. apply Forall_cons_1 in Hok as [Hf Hok]. apply NoDup_cons in Hnd as [Hfn Hnd].
  cbn. rewrite (assign_item k f v m (a ++ [VMap cur])) by (done || by rewrite Hm).
  rewrite last_snoc, (Hfr f) by (cbn; set_solver). rewrite bool_decide_false by (by intros [? ?]).
  rewrite length_app, Nat.add_sub. cbn [length].
  rewrite insert_app_r_alt, Nat.sub_diag by lia. cbn [insert list_insert].
  rewrite (IH _ (<[f := v]> cur)); [|done..| |by rewrite lookup_insert_eq].
  - rewrite insert_insert_eq. do 6 f_equal. rewrite <-insert_union_l, insert_union_r; [done|].
    by apply not_elem_of_list_to_map_1.
  - intros f' Hf'. rewrite lookup_insert_ne by (intros ->; done). apply Hfr. cbn. set_solver.
Qed.

Lemma assign_record k f0 l m a :
  base_ok k -> record_ok f0 l -> array_of (m !! k) = Some a ->
  (forall v, last a = Some v -> exists cur, v = VMap cur /\ is_Some (cur !! f0)) ->
  assign_pairs (item_pairs k l) m = (<[k := Array (a ++ [VMap (list_to_map l)])]> m, Ok tt).
Proof.
  intros Hk (Hh & Hnd & Hok) Ha Hl. destruct l as [|[f v] l]; [done|]. cbn in Hh. simplify_eq.
  cbn in Hok, Hnd. apply Forall_cons_1 in Hok as [Hf Hok]. apply NoDup_cons in Hnd as [Hfn Hnd].
  assert (assign (item_path k f0) v m = (<[k := Array (a ++ [VMap {[f0 := v]}])]> m, Ok tt)) as E.
  { rewrite (assign_item k f0 v m a) by done. destruct (last a) as [w|]; [|done].
    destruct (Hl w eq_refl) as (cur & -> & Hc). by rewrite bool_decide_true. }
  cbn. rewrite E, (assign_fields k l _ a {[f0 := v]}); [|done..| |by rewrite lookup_insert_eq].
  - rewrite insert_insert_eq. do 6 f_equal. rewrite <-insert_union_singleton_r; [done|].
    by apply not_elem_of_list_to_map_1.
  - intros f' Hf'. apply lookup_singleton_ne. by intros ->.
Qed.

(** A form that lists the fields of its records in order, each at the path [k[][f]],
    is read back as the array of its records, when every record starts with the same
    field and repeats none. *)
Theorem assign_records k f0 records m :
  base_ok k -> records <> [] -> Forall (record_ok f0) records -> m !! k = None ->
  assign_pairs (item_pairs k (concat records)) m = (<[k := Array (tables records)]> m, Ok tt).
Proof.
  intros Hk Hne Hok Hm.
  enough (forall rs m, array_of (m !! k) = Some (tables rs) -> Forall (record_ok f0) rs ->
    exists m', assign_pairs (item_pairs k (concat records)) m = (m', Ok tt) /\
      m' = <[k := Array (tables (rs ++ records))]> m) as H.
  { destruct (H [] m) as (m' & E & ->); [by rewrite Hm|constructor|exact E]. }
  clear m Hm. induction Hok as [|l records Hl Hok IH]; [done|]. intros rs m Hm Hd. cbn [concat].
  unfold item_pairs. rewrite fmap_app, assign_pairs_app. fold (item_pairs k l).
  rewrite (assign_record k f0 l m (tables rs)); [|by auto..|].
  - destruct records as [|l2 records].
    + cbn. eexists. split; [done|]. unfold tables. by rewrite fmap_app.
    + destruct (IH ltac:(done) (rs ++ [l])%list (<[k := Array (tables (rs ++ [l]))]> m)) as (m' & E & ->).
      * by rewrite lookup_insert_eq.
      * by apply Forall_app_2; [|constructor].
      * eexists. split; [unfold tables in E; rewrite fmap_app in E; exact E|].
        by rewrite insert_insert_eq, <-app_assoc.
  - intros v. unfold tables. rewrite fmap_last. destruct (last rs) as [r|] eqn:El; [|done].
    intros [= <-]. eexists. split; [done|].
    apply last_Some_elem_of in El. rewrite Forall_forall in Hd. destruct (Hd r El) as (Hh & Hnd & _).
    destruct r as [|[f w] r]; [done|]. cbn in Hh |- *. simplify_eq. by rewrite lookup_insert_eq.
Qed.

(** ** Taking *)

Lemma find_app p q m : p <> [] -> find (p ++ q) m = find_loop q (find p m).
Proof.
  destruct p as [|k p]; [done|]. intros _. cbn. generalize (m !! k). clear.
  induction p as [|k p IH]; intros o; [done|]. cbn. destruct o as [[]|]; by destruct q.
Qed.

Lemma put_at_find here q v w m :
  find here m = Some w -> find (here ++ q) (put_at here v m) = find_loop q (Some v).
Proof.
  revert m. induction here as [|k here IH]; intros m; [done|]. destruct here as [|k' here].
  - intros _. cbn. by rewrite lookup_insert_eq.
  - cbn [find]. intros Hf. cbn [put_at]. cbn [find_loop] in Hf.
    destruct (m !! k) as [[]|] eqn:Ek; try done. cbn [app find]. rewrite lookup_insert_eq.
    specialize (IH m0). cbn [find app] in IH. cbn [find_loop]. by apply IH.
Qed.

Lemma put_at_frame here v m keys :
  ~ keys `prefix_of` here -> ~ here `prefix_of` keys -> find keys (put_at here v m) = find keys m.
Proof.
  revert m keys. induction here as [|k here IH]; intros m keys H1 H2; [done|].
  destruct keys as [|k0 keys]; [done|]. destruct here as [|k' here].
  - cbn. rewrite lookup_insert_ne; [done|]. intros ->. destruct H2. apply prefix_cons, prefix_nil.
  - cbn [put_at find]. destruct (m !! k) as [[]|] eqn:Ek; try done.
    destruct (decide (k0 = k)) as [->|Hne]; [|by rewrite lookup_insert_ne].
    rewrite lookup_insert_eq, Ek. destruct keys as [|k1 keys].
    { destruct H1. apply prefix_cons, prefix_nil. }
    cbn [find_loop]. specialize (IH m0 (k1 :: keys)). cbn [find] in IH. apply IH.
    + intros ?. apply H1. by apply prefix_cons.
    + intros ?. apply H2. by apply prefix_cons.
Qed.

(** No value on the way is null. *)
Definition no_null (keys : list string) (value : option Value) : Prop :=
  forall p q, keys = (p ++ q)%list -> q <> [] -> find_loop p value <> Some Null.

Lemma no_null_step k keys m : no_null (k :: keys) (Some (VMap m)) -> no_null keys (m !! k).
Proof. intros H p q -> Hq. apply (H (k :: p) q); done. Qed.

Lemma take_loop_spec keys here value m :
  keys <> [] -> here <> [] -> find here m = value -> no_null keys value ->
  (take_loop keys here value m).2 = find_loop keys value /\
  let m' := (take_loop keys here value m).1 in
  find (here ++ keys) m' = None /\
  forall ks, ~ ks `prefix_of` (here ++ keys)%list -> ~ (here ++ keys)%list `prefix_of` ks -> find ks m' = find ks m.
Proof.
  revert here value. induction keys as [|key keys IH]; intros here value Hne Hh Hv Hnn; [done|].
  assert (value <> Some Null) as Hn0 by (by apply (Hnn [] (key :: keys))).
  destruct value as [[| | | | | | | | |m']|];
    try (cbn; split_and!; [done| |done]; by rewrite find_app, Hv); [done|].
  destruct keys as [|key' keys].
  - cbn. split_and!; [done| |].
    + rewrite (put_at_find here [key] _ _ _ Hv). cbn. by rewrite lookup_delete_eq.
    + intros ks H1 H2. destruct (decide (here `prefix_of` ks)) as [[q ->]|Hp].
      * rewrite (put_at_find here q _ _ _ Hv), find_app, Hv by done.
        destruct q as [|k2 q]; [destruct H1; apply prefix_app, prefix_nil|]. cbn.
        rewrite lookup_delete_ne; [done|]. intros ->. destruct H2. apply prefix_app, prefix_cons, prefix_nil.
      * apply put_at_frame; [|done]. intros ?. apply H1. by apply prefix_app_r.
  - apply no_null_step in Hnn. cbn [take_loop].
    assert (find (here ++ [key]) m = m' !! key) as Hv' by (by rewrite find_app, Hv).
    destruct (IH (here ++ [key])%list (m' !! key)) as (E1 & E2 & E3); [done|by destruct here|done|done|].
    rewrite <-app_assoc in E2, E3. split_and!; [exact E1|exact E2|exact E3].
Qed.

(** [take] gives what [find] gives and removes it, and leaves every place that is
    neither above nor below as it was, when no value on the way is null. *)
Theorem take_removes keys m :
  keys <> [] -> (forall p q, keys = (p ++ q)%list -> p <> [] -> q <> [] -> find p m <> Some Null) ->
  let '(m', v) := take keys m in
  v = find keys m /\ find keys m' = None /\
  forall ks, ~ ks `prefix_of` keys -> ~ keys `prefix_of` ks -> find ks m' = find ks m.
Proof.
  intros Hne Hnn. unfold take. rewrite bool_decide_false by done.
  destruct keys as [|k keys]; [done|]. cbn [take_loop]. destruct keys as [|k' keys].
  - cbn. rewrite lookup_delete_eq. split_and!; [done..|]. intros [|k0 ks] H1 H2; [done|]. cbn.
    rewrite lookup_delete_ne; [done|]. intros ->. destruct H2. apply prefix_cons, prefix_nil.
  - destruct (take_loop_spec (k' :: keys) [k] (m !! k) m) as (E1 & E2 & E3); [done..| |].
    + intros p q E Hq. change (find_loop p (m !! k)) with (find (k :: p) m). apply (Hnn (k :: p) q); [by rewrite E|done..].
    + destruct (take_loop _ _ _ _) as [m' v]. cbn in E1, E2, E3 |- *. done.
Qed.

Lemma take_loop_null p q here value m :
  q <> [] -> find_loop p value = Some Null -> p <> [] \/ value = Some Null ->
  (forall p1 p2, p = (p1 ++ p2)%list -> p2 <> [] -> find_loop p1 value <> Some Null) ->
  take_loop (p ++ q) here value m = take q m.
Proof.
  intros Hq. revert here value. induction p as [|k p IH]; intros here value Hf Hor Hn.
  { cbn in Hf. subst value. unfold take. rewrite bool_decide_false by done. destruct q as [|k0 [|k1 q]]; [done|reflexivity..]. }
  destruct value as [[| | | | | | | | |m']|]; try (cbn in Hf; done).
  cbn [app take_loop]. destruct (p ++ q)%list as [|k2 r] eqn:E.
  { apply app_eq_nil in E as [_ ->]. done. }
  apply IH; [done| |].
  - destruct p; [right; exact Hf|by left].
  - intros p1 p2 -> Hp2. apply (Hn (k :: p1) p2); done.
Qed.

(** A null value on the way makes [take] start over at the top: the keys behind it are
    looked up in the outermost table, and what they name there is removed. *)
Theorem take_through_null k p q m :
  find (k :: p) m = Some Null -> q <> [] ->
  (forall p1 p2, k :: p = (p1 ++ p2)%list -> p1 <> [] -> p2 <> [] -> find p1 m <> Some Null) ->
  take (k :: p ++ q) m = take q m.
Proof.
  intros Hf Hq Hn. unfold take at 1. rewrite bool_decide_false by done. cbn [take_loop].
  destruct (p ++ q)%list as [|k2 r] eqn:E; [by apply app_eq_nil in E as [_ ->]|]. rewrite <-E.
  apply take_loop_null; [done|done| |].
  - destruct p; [right; exact Hf|by left].
  - intros p1 p2 -> Hp2. apply (Hn (k :: p1) p2); done.
Qed.

(** ** Witnesses *)

Definition sample : Map := (assign "user[name]" (VString "ann") ∅).1.

Lemma key_ok_check k : bool_decide (k <> "" /\ find_char "]"%char k = None) = true -> key_ok k.
Proof. intros H. by apply bool_decide_eq_true in H. Qed.

Lemma assign_find_witness :
  let '(m', r) := assign "user[mail][home]" (U64 7) sample in
  (r = Ok tt <-> forall p q, ["user"; "mail"; "home"] = (p ++ q)%list -> p <> [] -> q <> [] ->
     open_value (find p sample) = true) /\
  (r = Ok tt -> find ["user"; "mail"; "home"] m' = Some (U64 7)) /\
  (r <> Ok tt -> r = Err CannotInsert /\ m' = sample) /\
  (forall keys, ~ keys `prefix_of` ["user"; "mail"; "home"] -> ~ ["user"; "mail"; "home"] `prefix_of` keys ->
     find keys m' = find keys sample).
Proof.
  apply (assign_find "user" ["mail"; "home"] (U64 7) sample); [by split|].
  by repeat constructor.
Defined.

Lemma assign_records_witness :
  assign_pairs (item_pairs "p" [("x", U64 1); ("y", U64 2); ("x", U64 3)]) ∅ =
  (<["p" := Array [VMap {["x" := U64 1; "y" := U64 2]}; VMap {["x" := U64 3]}]]> ∅, Ok tt).
Proof.
  apply (assign_records "p" "x" [[("x", U64 1); ("y", U64 2)]; [("x", U64 3)]] ∅); [by split|done| |done].
  repeat constructor; set_solver.
Defined.

Lemma take_removes_witness :
  let '(m', v) := take ["user"; "name"] sample in
  v = Some (VString "ann") /\ find ["user"; "name"] m' = None /\
  forall ks, ~ ks `prefix_of` ["user"; "name"] -> ~ ["user"; "name"] `prefix_of` ks -> find ks m' = find ks sample.
Proof.
  apply (take_removes ["user"; "name"] sample); [done|].
  intros [|a [|b [|c p]]] q E Hp Hq; simplify_eq/=; done.
Defined.

Lemma take_through_null_witness :
  take ["a"; "b"] {["a" := Null; "b" := U64 1]} = ({["a" := Null]}, Some (U64 1)).
Proof.
  apply (eq_trans (take_through_null "a" [] ["b"] {["a" := Null; "b" := U64 1]} ltac:(by vm_compute) ltac:(done)
    ltac:(intros [|x p1] p2 E Hp1 Hp2; [done|]; destruct p1; simplify_eq/=; done))).
  reflexivity.
Defined.

(** A path that goes wrong behind its first index leaves an empty table. *)
Example assign_not_atomic : assign "a[b]x" (U64 1) ∅ = ({["a" := VMap ∅]}, Err InvalidPath).
Proof. reflexivity. Qed.
