(* ===== verification/ParamsValue.v ===== *)
(** * Conversions of request parameters (https/src/params.rs)

    [FromValue] turns a parameter into a Rust type; [ToParams] turns a JSON document into
    parameters. A Rust integer type is a range of [Z]. The casts of the package num and
    the values of serde_json come from their classes. *)

From Stdlib Require Import Ascii DecimalString DecimalN.
From S2P Require Import Prelude HttpText Params.

#[local] Open Scope string_scope.

(** ** Values to Rust types *)

Class FromValue (T : Type) := from_value : Value -> option T.
#[global] Hint Mode FromValue ! : typeclass_instances.

Definition FALSE_STRINGS : list string := ["0"; "f"; "F"; "false"; "FALSE"; "off"; "OFF"].
Definition TRUE_STRINGS : list string := ["1"; "t"; "T"; "true"; "TRUE"; "on"; "ON"].

#[export] Instance bool_from_value : FromValue bool := fun v =>
  match v with
  | Boolean b => Some b
  | I64 z | U64 z => if (z =? 0)%Z then Some false else if (z =? 1)%Z then Some true else None
  | VString s =>
      if bool_decide (s ∈ FALSE_STRINGS) then Some false
      else if bool_decide (s ∈ TRUE_STRINGS) then Some true else None
  | _ => None
  end.

(** An integer type: its least and its greatest value. *)
Record IntType := mkIntType { int_min : Z; int_max : Z }.
Definition u8 := mkIntType 0 (2 ^ 8 - 1).
Definition u16 := mkIntType 0 (2 ^ 16 - 1).
Definition u32 := mkIntType 0 (2 ^ 32 - 1).
Definition u64 := mkIntType 0 (2 ^ 64 - 1).
Definition i8 := mkIntType (- 2 ^ 7) (2 ^ 7 - 1).
Definition i16 := mkIntType (- 2 ^ 15) (2 ^ 15 - 1).
Definition i32 := mkIntType (- 2 ^ 31) (2 ^ 31 - 1).
Definition i64 := mkIntType (- 2 ^ 63) (2 ^ 63 - 1).

Definition in_type (t : IntType) (z : Z) : bool := ((int_min t <=? z) && (z <=? int_max t))%Z.

(** [FromStr] of the integer types: a sign, which may be a minus if the type has negative
    values, and digits. *)
Definition parse_digits (s : string) : option Z :=
  match s with
  | EmptyString => None
  | _ => (fun d => Z.of_N (N.of_uint d)) <$> NilEmpty.uint_of_string s
  end.

Definition parse_int (t : IntType) (s : string) : option Z :=
  let n :=
    match s with
    | String c s' =>
        if bool_decide (c = "+"%char) then parse_digits s'
        else if bool_decide (c = "-"%char) && (int_min t <? 0)%Z then Z.opp <$> parse_digits s'
        else parse_digits s
    | EmptyString => None
    end in
  match n with Some z => if in_type t z then Some z else None | None => None end.

(** [NumCast::from] of the package num, on integers and on floating point numbers, and
    the text of a floating point number. *)
Class NumApi := {
  num_cast : IntType -> Z -> option Z;
  num_cast_f64 : IntType -> Z -> option Z;
  f64_to_string : Z -> string;
}.

Class NumLaws `{NumApi} := {
  num_cast_spec t z : num_cast t z = if in_type t z then Some z else None;
  num_cast_f64_range t bits z : num_cast_f64 t bits = Some z -> in_type t z = true;
}.

Section num.
Context `{NumApi}.

(** The macro [num_from_value], for an integer type. *)
Definition num_from_value (t : IntType) (v : Value) : option Z :=
  match v with
  | I64 z | U64 z => num_cast t z
  | F64 bits => num_cast_f64 t bits
  | VString s => parse_int t s
  | _ => None
  end.

(** [i64::to_string] *)
Definition int_to_string (z : Z) : string :=
  if (z <? 0)%Z then String "-" (to_dec (- z)) else to_dec z.

Definition bool_to_string (b : bool) : string := if b then "true" else "false".

#[export] Instance string_from_value : FromValue string := fun v =>
  match v with
  | Null => Some ""
  | Boolean b => Some (bool_to_string b)
  | I64 z | U64 z => Some (int_to_string z)
  | F64 bits => Some (f64_to_string bits)
  | VString s => Some s
  | _ => None
  end.
End num.

#[export] Instance option_from_value {T} `{FromValue T} : FromValue (option T) := fun v =>
  match v with Null => Some None | _ => Some <$> from_value v end.

(** The loop of the conversion to [Vec<T>]. *)
Fixpoint vec_loop {T} (f : Value -> option T) (array : list Value) (vec : list T) : option (list T) :=
  match array with
  | [] => Some vec
  | v :: array => match f v with Some x => vec_loop f array (vec ++ [x]) | None => None end
  end.

#[export] Instance vec_from_value {T} `{FromValue T} : FromValue (list T) := fun v =>
  match v with Array array => vec_loop from_value array [] | _ => None end.

(** The loop of [to_strict_map] over the entries. *)
Fixpoint strict_loop {T} (f : Value -> option T) (l : list (string * Value)) (map : gmap string T)
    : option (gmap string T) :=
  match l with
  | [] => Some map
  | (k, v) :: l => match f v with Some x => strict_loop f l (<[k := x]> map) | None => None end
  end.

Definition to_strict_map {T} `{FromValue T} (m : Map) : option (gmap string T) :=
  strict_loop from_value (map_to_list m) ∅.

#[export] Instance map_from_value {T} `{FromValue T} : FromValue (gmap string T) := fun v =>
  match v with VMap m => to_strict_map m | _ => None end.

#[export] Instance file_from_value : FromValue File := fun v =>
  match v with VFile f => Some f | _ => None end.

#[export] Instance value_from_value : FromValue Value := fun v => Some v.

(** ** JSON documents to values *)

Inductive json_view (J N : Type) :=
| JNumber (n : N)
| JString (s : string)
| JBool (b : bool)
| JNull
| JArray (l : list J)
| JObject (l : list (string * J)).
Arguments JNumber {J N} n.
Arguments JString {J N} s.
Arguments JBool {J N} b.
Arguments JNull {J N}.
Arguments JArray {J N} l.
Arguments JObject {J N} l.

(** A document of serde_json: what it is, and how deep it is. A number is given by what
    [as_u64], [as_i64] and [as_f64] return. *)
Class JsonApi (J : Type) := {
  number : Type;
  as_u64 : number -> option Z;
  as_i64 : number -> option Z;
  as_f64 : number -> Z;
  view : J -> json_view J number;
  depth : J -> nat;
}.

Class JsonLaws (J : Type) `{JsonApi J} := {
  depth_array j l x : view j = JArray l -> x ∈ l -> depth x < depth j;
  depth_object j l k x : view j = JObject l -> (k, x) ∈ l -> depth x < depth j;
}.

Section json.
Context {J : Type} `{JsonApi J}.

Definition number_value (n : number) : Value :=
  match as_u64 n with
  | Some z => U64 z
  | None => match as_i64 n with Some z => I64 z | None => F64 (as_f64 n) end
  end.

(** The two loops of [to_value]. *)
Fixpoint collect_array (f : J -> result ParamsError Value) (l : list J) (acc : list Value)
    : result ParamsError (list Value) :=
  match l with
  | [] => Ok acc
  | x :: l => match f x with Ok v => collect_array f l (acc ++ [v]) | Err e => Err e end
  end.

Fixpoint collect_object (f : J -> result ParamsError Value) (l : list (string * J)) (acc : Map)
    : result ParamsError Map :=
  match l with
  | [] => Ok acc
  | (k, x) :: l => match f x with Ok v => collect_object f l (<[k := v]> acc) | Err e => Err e end
  end.

(** [to_value]; [fuel] bounds the depth of the document. *)
Fixpoint to_value (fuel : nat) (j : J) : result ParamsError Value :=
  match fuel with
  | O => Err NotJsonObject
  | S fuel =>
      match view j with
      | JNumber n => Ok (number_value n)
      | JString s => Ok (VString s)
      | JBool b => Ok (Boolean b)
      | JNull => Ok Null
      | JArray l =>
          match collect_array (to_value fuel) l [] with Ok a => Ok (Array a) | Err e => Err e end
      | JObject l =>
          match collect_object (to_value fuel) l ∅ with Ok m => Ok (VMap m) | Err e => Err e end
      end
  end.

Definition to_map (j : J) : result ParamsError Map :=
  match to_value (S (depth j)) j with
  | Ok (VMap m) => Ok m
  | Ok _ => Err NotJsonObject
  | Err e => Err e
  end.
End json.

(** ** Theorems *)

Section num_laws.
Context `{NumLaws}.

Lemma to_dec_parse z : (0 <= z)%Z -> parse_digits (to_dec z) = Some z.
Proof.
  intros Hz. destruct (to_dec_plus z) as (c & s & E & _).
  assert (NilEmpty.uint_of_string (to_dec z) = Some (N.to_uint (Z.to_N z))) as Ed.
  { unfold to_dec. rewrite nilzero_nilempty; [apply NilEmpty.usu|].
    destruct (Z.to_N z) as [|q]; [done|]. apply DecimalPos.Unsigned.to_uint_nonnil. }
  unfold parse_digits. rewrite Ed. rewrite E at 1. cbn [fmap option_fmap option_map].
  by rewrite DecimalN.Unsigned.of_to, Z2N.id.
Qed.

Lemma to_dec_sign z : exists c s, to_dec z = String c s /\ c <> "+"%char /\ c <> "-"%char.
Proof.
  unfold to_dec, NilZero.string_of_uint. destruct (N.to_uint (Z.to_N z)); cbn; eauto 10.
Qed.

Lemma parse_int_to_string t z : in_type t z = true -> parse_int t (int_to_string z) = Some z.
Proof.
  intros Hz. pose proof Hz as [H1 H2]%andb_prop. apply Z.leb_le in H1, H2.
  unfold int_to_string. destruct (Z.ltb_spec z 0) as [Hn|Hn].
  - unfold parse_int. cbv beta iota zeta. rewrite bool_decide_false, bool_decide_true by done.
    rewrite (proj2 (Z.ltb_lt _ _)) by lia. cbn [andb]. rewrite to_dec_parse by lia. cbn.
    by rewrite Z.opp_involutive, Hz.
  - destruct (to_dec_sign z) as (c & s & E & Hp & Hm). unfold parse_int. rewrite E.
    rewrite !bool_decide_false by done. cbn [andb]. rewrite <-E, to_dec_parse by done. by rewrite Hz.
Qed.

(** Converting a parameter to an integer type never leaves its range; a number keeps
    its value or is refused, and the text of any number of the type is read back as it. *)
Theorem num_from_value_bounds t :
  (forall v z, num_from_value t v = Some z -> (int_min t <= z <= int_max t)%Z) /\
  (forall z, num_from_value t (I64 z) = if in_type t z then Some z else None) /\
  (forall z, num_from_value t (U64 z) = if in_type t z then Some z else None) /\
  (forall z, in_type t z = true ->
     (from_value (I64 z) ≫= fun s => num_from_value t (VString s)) = Some z).
Proof.
  split_and!; [|intros z; apply num_cast_spec..|].
  - intros v z Hv. enough (in_type t z = true) as [H1 H2]%andb_prop by (apply Z.leb_le in H1, H2; lia).
    destruct v; try done; cbn in Hv.
    + rewrite num_cast_spec in Hv. by case_match; simplify_eq.
    + rewrite num_cast_spec in Hv. by case_match; simplify_eq.
    + by eapply num_cast_f64_range.
    + unfold parse_int in Hv. destruct (match s with EmptyString => _ | _ => _ end); [|done].
      by case_match; simplify_eq.
  - intros z Hz. cbn. by apply parse_int_to_string.
Qed.
End num_laws.

Lemma vec_loop_spec {T} (f : Value -> option T) array vec :
  vec_loop f array vec = (fun l => (vec ++ l)%list) <$> mapM f array.
Proof.
  revert vec. induction array as [|v array IH]; intros vec; cbn; [by rewrite app_nil_r|].
  destruct (f v) as [x|]; cbn; [|done]. rewrite IH. destruct (mapM f array); cbn; [|done].
  by rewrite <-app_assoc.
Qed.

Lemma strict_loop_spec {T} (f : Value -> option T) l map :
  NoDup l.*1 -> (forall k, k ∈ l.*1 -> map !! k = None) ->
  match strict_loop f l map with
  | Some r => forall k, r !! k = match (list_to_map l : Map) !! k with Some v => f v | None => map !! k end
  | None => exists k v, (k, v) ∈ l /\ f v = None
  end.
Proof.
  revert map. induction l as [|[k v] l IH]; intros map Hnd Hm; [done|]. cbn in Hnd |- *.
  apply NoDup_cons in Hnd as [Hk Hnd]. destruct (f v) as [x|] eqn:Ef; [|by exists k, v; split; [left|]].
  specialize (IH (<[k := x]> map) Hnd). destruct (strict_loop f l _) as [r|].
  - intros k'. rewrite IH.
    + destruct (decide (k' = k)) as [->|Hne].
      * rewrite !lookup_insert_eq. by rewrite (not_elem_of_list_to_map_1 l).
      * by rewrite !lookup_insert_ne.
    + intros k0 Hk0. rewrite lookup_insert_ne by (by intros ->). apply Hm. by right.
  - destruct IH as (k' & v' & Hin & E); [|by exists k', v'; split; [right|]].
    intros k0 Hk0. rewrite lookup_insert_ne by (by intros ->). apply Hm. by right.
Qed.

(** [to_strict_map] converts every entry or refuses the table. *)
Lemma to_strict_map_spec {T} `{FromValue T} (m : Map) :
  match @to_strict_map T _ m with
  | Some r => forall k, r !! k = m !! k ≫= (from_value : Value -> option T)
  | None => exists k v, m !! k = Some v /\ (from_value v : option T) = None
  end.
Proof.
  unfold to_strict_map. pose proof (strict_loop_spec (from_value : Value -> option T) (map_to_list m) ∅) as E.
  destruct (strict_loop _ _ _) as [r|].
  - intros k. rewrite E; [|apply NoDup_fst_map_to_list|by intros; apply lookup_empty].
    rewrite list_to_map_to_list. by destruct (m !! k).
  - destruct E as (k & v & Hin & E); [apply NoDup_fst_map_to_list|by intros; apply lookup_empty|].
    exists k, v. split; [by apply elem_of_map_to_list|done].
Qed.

Section json_laws.
Context {J : Type} `{JsonLaws J}.

Lemma collect_array_total f (l : list J) acc :
  (forall x, x ∈ l -> exists v, f x = Ok v) -> exists a, collect_array f l acc = Ok a.
Proof.
  revert acc. induction l as [|x l IH]; intros acc Hf; cbn; [eauto|].
  destruct (Hf x) as [v ->]; [by left|]. apply IH. intros y Hy. apply Hf. by right.
Qed.

Lemma collect_object_total f (l : list (string * J)) acc :
  (forall k x, (k, x) ∈ l -> exists v, f x = Ok v) -> exists m, collect_object f l acc = Ok m.
Proof.
  revert acc. induction l as [|[k x] l IH]; intros acc Hf; cbn; [eauto|].
  destruct (Hf k x) as [v ->]; [by left|]. apply IH. intros k' y Hy. apply (Hf k'). by right.
Qed.

(** Fuel above the depth is enough, and no document is refused. *)
Lemma to_value_total fuel (j : J) : depth j < fuel -> exists v, to_value fuel j = Ok v.
Proof.
  revert j. induction fuel as [|fuel IH]; intros j Hf; [lia|]. cbn [to_value].
  destruct (view j) as [n|s|b| |l|l] eqn:Ev; eauto.
  - destruct (collect_array_total (to_value fuel) l []) as [a ->]; [|eauto].
    intros x Hx. apply IH. pose proof (depth_array j l x Ev Hx). lia.
  - destruct (collect_object_total (to_value fuel) l ∅) as [a ->]; [|eauto].
    intros k x Hx. apply IH. pose proof (depth_object j l k x Ev Hx). lia.
Qed.

(** [to_map] refuses exactly the documents that are not objects. *)
Lemma to_map_object (j : J) :
  match view j with JObject _ => exists m, to_map j = Ok m | _ => to_map j = Err NotJsonObject end.
Proof.
  unfold to_map. destruct (to_value_total (S (depth j)) j) as [v Ev]; [lia|]. rewrite Ev.
  cbn [to_value] in Ev. destruct (view j) as [n|s|b| |l|l]; case_all_in Ev; simplify_eq; eauto.
  unfold number_value. by repeat case_match.
Qed.
End json_laws.

(** ** Witnesses *)

#[local] Instance sample_num : NumApi := {
  num_cast t z := if in_type t z then Some z else None;
  num_cast_f64 t bits := None;
  f64_to_string bits := "" }.

#[local] Instance sample_num_laws : NumLaws.
Proof. by split. Qed.

Lemma num_from_value_bounds_witness :
  (forall v z, num_from_value i8 v = Some z -> (-128 <= z <= 127)%Z) /\
  (forall z, num_from_value i8 (I64 z) = if in_type i8 z then Some z else None) /\
  (forall z, num_from_value i8 (U64 z) = if in_type i8 z then Some z else None) /\
  (forall z, in_type i8 z = true ->
     (from_value (I64 z) ≫= fun s => num_from_value i8 (VString s)) = Some z).
Proof. apply (num_from_value_bounds i8). Defined.

Example minus_refused : num_from_value u8 (VString "-1") = None /\ num_from_value i8 (VString "-128") = Some (-128)%Z.
Proof. done. Qed.
