(* ===== verification/ParamsRequest.v ===== *)
(** * Parameters of a request (https/src/params.rs, parser.rs, url_encode.rs)

    The sources of the parameters of a request: a JSON body, a multipart form, the query
    and an encoded body, in the order [Params::eval] reads them. A panic is [None]. *)

From Stdlib Require Import Ascii.
From S2P Require Import Prelude HttpText ByteSearch Params ParamsValue.

#[local] Open Scope string_scope.

(** ** The body as text *)

Definition DEFAULT_BODY_LIMIT : nat := N.to_nat (100 * 1024 * 1024).

Record LimitReader := mkLimitReader { limit : nat; inner : list Z }.

(** [LimitReader::read] into a buffer of [len] bytes; the reader inside is a slice. *)
Definition read (len : nat) (r : LimitReader) : LimitReader * io_result (list Z) :=
  if bool_decide (limit r = 0) then (r, Err InvalidInput)
  else
    let len := Nat.min (limit r) len in
    let got := firstn len (inner r) in
    (mkLimitReader (limit r - length got) (drop len (inner r)), Ok got).

(** [Read::read_to_end]: reads until a read gives nothing; the [i]-th buffer has
    [bufs i] bytes. *)
Fixpoint read_to_end (fuel i : nat) (bufs : nat -> nat) (r : LimitReader) (acc : list Z)
    : option (io_result (list Z)) :=
  match fuel with
  | O => None
  | S fuel =>
      match read (bufs i) r with
      | (_, Err e) => Some (Err e)
      | (_, Ok []) => Some (Ok acc)
      | (r, Ok got) => read_to_end fuel (S i) bufs r (acc ++ got)
      end
  end.

(** The request: its type header, what [get_body_contents] gives, and its query. *)
Record Request := mkRequest {
  content_header : option HeaderValue;
  body_contents : io_result (list Z);
  query_text : string;
  url_query : option string;
}.

(** [read_body_as_utf8] *)
Definition read_body_as_utf8 (limit : nat) (bufs : nat -> nat) (req : Request)
    : result ParamsError string :=
  match body_contents req with
  | Err _ => Err BodyError
  | Ok [] => Ok (query_text req)
  | Ok body =>
      match read_to_end (S (length body)) 0 bufs (mkLimitReader limit body) [] with
      | Some (Ok bytes) =>
          match from_utf8 bytes with Some s => Ok s | None => Err BodyError end
      | _ => Err BodyError
      end
  end.

Abbreviation QueryMap := (gmap string (list string)).

Section request.
Context `{MimeApi} {J : Type} `{JsonApi J}.
(** [serde_json::from_str] and [form_urlencoded::parse] *)
Variable from_str : string -> option J.
Variable form_urlencoded : string -> list (string * string).

(** The type of the body: the header up to its first comma; a header that is not text
    makes [unwrap] panic. *)
Definition body_mime (req : Request) : option (option mime) :=
  match content_header req with
  | None => Some None
  | Some v =>
      if bool_decide (lossy v = "") then Some None
      else match to_str v with
           | None => None
           | Some s => Some (head (split_on ","%char s) ≫= mime_parse)
           end
  end.

(** [Raw::eval], [Json::eval] *)
Definition raw (limit : nat) (bufs : nat -> nat) (req : Request)
    : option (result ParamsError (option string)) :=
  m ← body_mime req;
  Some (match m with
        | Some m =>
            if mime_is "multipart" "form-data" m then Ok None
            else match read_body_as_utf8 limit bufs req with Ok s => Ok (Some s) | Err e => Err e end
        | None => match read_body_as_utf8 limit bufs req with Ok s => Ok (Some s) | Err e => Err e end
        end).

Definition json (limit : nat) (bufs : nat -> nat) (req : Request) : option (result ParamsError (option J)) :=
  r ← raw limit bufs req;
  Some (match r with
        | Err e => Err e
        | Ok None => Ok None
        | Ok (Some s) => match from_str s with Some j => Ok (Some j) | None => Err BodyError end
        end).

Definition try_parse_json_into_map (limit : nat) (bufs : nat -> nat) (req : Request)
    : option (result ParamsError Map) :=
  m ← body_mime req;
  if match m with Some m => mime_is "application" "json" m | None => false end then
    j ← json limit bufs req;
    Some (match j with Err e => Err e | Ok None => Ok ∅ | Ok (Some j) => to_map j end)
  else Some (Ok ∅).

(** ** Encoded parameters *)

Inductive query_result :=
| Query (q : QueryMap)
| EmptyQuery
| QueryError.

(** [combine_duplicates] *)
Definition add_duplicate (m : QueryMap) (kv : string * string) : QueryMap :=
  match m !! kv.1 with
  | Some vs => <[kv.1 := (vs ++ [kv.2])%list]> m
  | None => <[kv.1 := [kv.2]]> m
  end.

Definition combine_duplicates (l : list (string * string)) : QueryMap := foldl add_duplicate ∅ l.

Definition create_param_hashmap (data : string) : query_result :=
  if bool_decide (data = "") then EmptyQuery else Query (combine_duplicates (form_urlencoded data)).

(** [UrlEncodedQuery::eval], [UrlEncodedBody::eval] *)
Definition url_encoded_query (req : Request) : query_result :=
  match url_query req with Some q => create_param_hashmap q | None => EmptyQuery end.

Definition url_encoded_body (limit : nat) (bufs : nat -> nat) (req : Request) : option query_result :=
  r ← raw limit bufs req;
  Some (match r with Err _ => QueryError | Ok s => create_param_hashmap (default "" s) end).

(** The pairs that [try_parse_url_encode] assigns: the entries of the table in the order
    in which its iterator gives them. *)
Definition query_pairs (order : list (string * list string)) : list (string * Value) :=
  concat ((fun kv : string * list string => (fun v => (kv.1, VString v)) <$> kv.2) <$> order).

(** [order] lists the entries of the table, in the order of the hash map. *)
Definition try_parse_url_encode (order : QueryMap -> list (string * list string)) (q : query_result) (m : Map)
    : Map * result ParamsError unit :=
  match q with
  | EmptyQuery => (m, Ok tt)
  | QueryError => (m, Err UrlDecodingError)
  | Query q => assign_pairs (query_pairs (order q)) m
  end.

(** ** All the parameters *)

(** [Params::eval]; the multipart form is read by [form]. *)
Definition eval (limit : nat) (bufs : nat -> nat) (order : QueryMap -> list (string * list string))
    (form : Map -> option (Map * result ParamsError unit)) (req : Request)
    : option (result ParamsError Map) :=
  r ← try_parse_json_into_map limit bufs req;
  match r with
  | Err e => Some (Err e)
  | Ok m =>
      let has_json_body := negb (bool_decide (m = ∅)) in
      '(m, r) ← form m;
      match r with
      | Err e => Some (Err e)
      | Ok _ =>
          match try_parse_url_encode order (url_encoded_query req) m with
          | (_, Err e) => Some (Err e)
          | (m, Ok _) =>
              if has_json_body then Some (Ok m)
              else
                q ← url_encoded_body limit bufs req;
                match try_parse_url_encode order q m with
                | (_, Err e) => Some (Err e)
                | (m, Ok _) => Some (Ok m)
                end
          end
      end
  end.
End request.

(** ** The size limit of a body *)

Lemma read_to_end_spec fuel i bufs r acc :
  (forall j, 0 < bufs j) -> length (inner r) < fuel ->
  read_to_end fuel i bufs r acc =
  Some (if decide (length (inner r) < limit r) then Ok (acc ++ inner r)%list else Err InvalidInput).
Proof.
  intros Hb. revert i r acc. induction fuel as [|fuel IH]; intros i [l b] acc Hf; [lia|].
  cbn [read_to_end]. unfold read. cbn [limit inner] in *.
  case_bool_decide as Hl; [subst l; by rewrite decide_False by lia|].
  specialize (Hb i). destruct b as [|x b].
  { rewrite take_nil. rewrite decide_True by (cbn; lia). by rewrite app_nil_r. }
  set (n := Nat.min l (bufs i)). assert (0 < n) as Hn by lia.
  destruct (firstn n (x :: b)) as [|y got] eqn:Et; [destruct n; [lia|done]|].
  assert (length (firstn n (x :: b)) = Nat.min n (length (x :: b))) as Elen by apply length_take.
  rewrite Et in Elen. rewrite IH by (cbn [inner]; rewrite length_drop; cbn in *; lia).
  cbn [limit inner]. rewrite length_drop, <-app_assoc, <-Et, take_drop. rewrite Et, Elen.
  f_equal. destruct (decide (_ < _)), (decide (_ < _)); try done; cbn [length] in *; lia.
Qed.

(** A body is read exactly if it is shorter than the limit, whatever the sizes of the
    buffers are; a body of the length of the limit is refused like a longer one. *)
Theorem body_limit limit bufs req body :
  (forall j, 0 < bufs j) -> body_contents req = Ok body -> body <> [] ->
  read_body_as_utf8 limit bufs req =
  if decide (length body < limit) then match from_utf8 body with Some s => Ok s | None => Err BodyError end
  else Err BodyError.
Proof.
  intros Hb Hbody Hne. unfold read_body_as_utf8. rewrite Hbody. destruct body as [|x body]; [done|].
  rewrite read_to_end_spec by (done || (cbn; lia)). cbn [inner ParamsRequest.limit app]. by destruct (decide _).
Qed.

(** ** Grouping *)

Lemma combine_duplicates_snoc l kv : combine_duplicates (l ++ [kv]) = add_duplicate (combine_duplicates l) kv.
Proof. unfold combine_duplicates. by rewrite foldl_app. Qed.

(** The values of a key, in the order of the query. *)
Definition values_of (k : string) (l : list (string * string)) : list string :=
  (filter (fun kv => kv.1 = k) l).*2.

Lemma combine_duplicates_lookup l k :
  combine_duplicates l !! k = match values_of k l with [] => None | vs => Some vs end.
Proof.
  induction l as [|[k' v] l IH] using rev_ind; [done|]. rewrite combine_duplicates_snoc.
  unfold values_of in *. rewrite filter_app, fmap_app, filter_cons, filter_nil. cbn [fst].
  unfold add_duplicate. cbn [fst snd].
  destruct (decide (k' = k)) as [->|Hne].
  - rewrite IH. destruct ((filter _ l).*2) as [|w ws]; cbn; by rewrite lookup_insert_eq.
  - rewrite app_nil_r, <-IH. by destruct (combine_duplicates l !! k'); rewrite lookup_insert_ne.
Qed.

(** A key that names a parameter itself. *)
Lemma assign_plain k v m : base_ok k -> assign k v m = (<[k := v]> m, Ok tt).
Proof.
  intros [Hk Ho]. unfold assign, parse_base. rewrite Ho. cbn [from_option id].
  by rewrite str_take_all, str_drop_all, (bool_decide_false (k = "")).
Qed.

Lemma assign_pairs_plain l m :
  Forall base_ok l.*1 -> assign_pairs l m = (foldl (fun m kv => <[kv.1 := kv.2]> m) m l, Ok tt).
Proof.
  revert m. induction l as [|[k v] l IH]; intros m Hok; [done|]. cbn in Hok.
  apply Forall_cons_1 in Hok as [Hk Hok]. cbn. by rewrite (assign_plain k v m Hk), IH.
Qed.

Lemma foldl_insert_lookup l (m : Map) k :
  foldl (fun m kv => <[kv.1 := kv.2]> m) m l !! k =
  match last (filter (fun kv => kv.1 = k) l) with Some kv => Some kv.2 | None => m !! k end.
Proof.
  induction l as [|[k' v] l IH] using rev_ind; [done|].
  rewrite foldl_app, filter_app, filter_cons, filter_nil. cbn [foldl fst snd].
  destruct (decide (k' = k)) as [->|Hne].
  - by rewrite lookup_insert_eq, last_snoc.
  - by rewrite lookup_insert_ne, app_nil_r.
Qed.

Lemma filter_same_key k k' vs :
  filter (fun kv : string * Value => kv.1 = k) ((fun v => (k', VString v)) <$> vs) =
  if decide (k' = k) then (fun v => (k', VString v)) <$> vs else [].
Proof.
  induction vs as [|v vs IH]; [by destruct (decide _)|]. rewrite fmap_cons, filter_cons. cbn [fst].
  rewrite IH. by destruct (decide _).
Qed.

Lemma query_pairs_filter order k :
  NoDup order.*1 ->
  filter (fun kv => kv.1 = k) (query_pairs order) =
  (fun v => (k, VString v)) <$> default [] ((list_to_map order : QueryMap) !! k).
Proof.
  intros Hnd. unfold query_pairs. induction order as [|[k' vs] order IH]; [done|].
  cbn in Hnd. apply NoDup_cons in Hnd as [Hk Hnd]. rewrite fmap_cons. cbn [concat fst snd]. rewrite list_to_map_cons.
  rewrite filter_app, (IH Hnd), filter_same_key. destruct (decide (k' = k)) as [->|Hne].
  - rewrite lookup_insert_eq, (not_elem_of_list_to_map_1 order) by done. cbn. by rewrite app_nil_r.
  - by rewrite lookup_insert_ne.
Qed.

(** The parameters of a query whose keys are plain do not depend on the order of the
    hash map: each key names the last of its values in the query, and other parameters
    stay as they were. *)
Theorem url_encode_plain form_urlencoded order data m :
  (forall q, order q ≡ₚ map_to_list q) -> data <> "" ->
  Forall base_ok (form_urlencoded data).*1 ->
  exists m', try_parse_url_encode order (create_param_hashmap form_urlencoded data) m = (m', Ok tt) /\
    forall k, m' !! k = match last (values_of k (form_urlencoded data)) with
                        | Some v => Some (VString v)
                        | None => m !! k
                        end.
Proof.
  intros Hord Hd Hok. unfold create_param_hashmap. rewrite bool_decide_false by done.
  unfold try_parse_url_encode. set (l := form_urlencoded data) in *. set (q := combine_duplicates l).
  assert (NoDup (order q).*1) as Hnd by (rewrite (Hord q); apply NoDup_fst_map_to_list).
  assert (forall k, k ∈ (order q).*1 -> k ∈ l.*1) as Hkeys.
  { intros k Hk. rewrite (Hord q) in Hk. apply list_elem_of_fmap in Hk as ([k' vs] & -> & Hin).
    apply elem_of_map_to_list in Hin. unfold q in Hin. rewrite combine_duplicates_lookup in Hin.
    destruct (values_of k' l) as [|v vs'] eqn:Ev; [done|].
    assert (v ∈ values_of k' l) as Hv by (rewrite Ev; left). unfold values_of in Hv.
    apply list_elem_of_fmap in Hv as (kv & _ & [E Hkv]%list_elem_of_filter). cbn in E |- *. subst k'.
    apply list_elem_of_fmap. eauto. }
  rewrite assign_pairs_plain.
  - eexists. split; [done|]. intros k. rewrite foldl_insert_lookup, (query_pairs_filter _ _ Hnd).
    assert (list_to_map (order q) = q) as ->.
    { rewrite (list_to_map_proper (order q) (map_to_list q)); [apply list_to_map_to_list|done|apply Hord]. }
    unfold q. rewrite combine_duplicates_lookup.
    destruct (values_of k l) as [|v vs]; [done|]. cbn [from_option id default].
    rewrite fmap_last. by destruct (last (v :: vs)).
  - rewrite Forall_forall in Hok |- *. intros k Hk. apply Hok, Hkeys.
    unfold query_pairs in Hk. apply list_elem_of_fmap in Hk as ([k' w] & -> & Hin).
    apply list_elem_of_In, in_concat in Hin as (ws & Hws & Hw). apply list_elem_of_In in Hws, Hw.
    apply list_elem_of_fmap in Hws as ([k2 vs] & -> & Ho).
    apply list_elem_of_fmap in Hw as (x & [= -> ->] & _). apply list_elem_of_fmap. by exists (k2, vs).
Qed.

(** ** Witnesses *)

Definition abc : list Z := [97; 98; 99]%Z.

Lemma body_limit_witness :
  read_body_as_utf8 3 (fun _ => 32) (mkRequest None (Ok abc) "" None) =
  if decide (3 < 3) then Ok "abc" else Err BodyError.
Proof. apply (body_limit 3 (fun _ => 32) (mkRequest None (Ok abc) "" None) abc); [lia|done|done]. Defined.

Lemma url_encode_plain_witness :
  exists m', try_parse_url_encode map_to_list
    (create_param_hashmap (fun _ => [("a", "1"); ("b", "2"); ("a", "3")]) "a=1&b=2&a=3") ∅ = (m', Ok tt) /\
    forall k, m' !! k = match last (values_of k [("a", "1"); ("b", "2"); ("a", "3")]) with
                        | Some v => Some (VString v)
                        | None => (∅ : Map) !! k
                        end.
Proof.
  apply (url_encode_plain (fun _ => [("a", "1"); ("b", "2"); ("a", "3")]) map_to_list "a=1&b=2&a=3" ∅); [done|done|].
  by repeat constructor.
Defined.

(** The table groups the values by key, so records of an encoded query are mixed up. *)
Example records_mixed_up :
  let l := [("p[][x]", "1"); ("p[][y]", "2"); ("p[][x]", "3")] in
  assign_pairs ((fun kv => (kv.1, VString kv.2)) <$> l) ∅ =
    ({["p" := Array [VMap {["x" := VString "1"; "y" := VString "2"]}; VMap {["x" := VString "3"]}]]}, Ok tt) /\
  assign_pairs (query_pairs [("p[][x]", ["1"; "3"]); ("p[][y]", ["2"])]) ∅ =
    ({["p" := Array [VMap {["x" := VString "1"]}; VMap {["x" := VString "3"; "y" := VString "2"]}]]}, Ok tt).
Proof. split; reflexivity. Qed.
