(* ===== verification/ParamsForm.v ===== *)
(** * Multipart forms of the older HTTP server (https/src/params.rs, util.rs)

    [split_bytes] and the parser of the parts of a form. A panic is [None]. *)

From Stdlib Require Import Ascii.
From S2P Require Import Prelude HttpText ByteSearch Params ParamsRequest.

#[local] Open Scope string_scope.
#[local] Open Scope list_scope.

Definition HTTP_LINE_BREAK : list Z := [13; 10]%Z.
Definition FORM_LINE_BREAK : list Z := [13; 10; 13; 10]%Z.
Definition FORM_TAIL : list Z := [45; 45; 13; 10]%Z.
Definition BOUNDARY_PREFIX : string := "--".
Definition FORM_DATA_HEAD_FIRST_SPLIT_CHAR : list Z := [59]%Z.
Definition FORM_DATA_HEAD_SECOND_SPLIT_CHAR : ascii := "=".
Definition FORM_DATA_HEAD : string := "content-disposition: form-data".
Definition FORM_DATA_FILE_KEY : string := "$file_name".

Section form.
Context `{ByteSearch}.

(** The loop of [split_bytes]; the slice gets shorter at each turn. *)
Fixpoint split_loop (fuel pos : nat) (slice sub : list Z) (bytes_len : nat) (vec : list (list Z))
    : list (list Z) :=
  match fuel with
  | O => vec
  | S fuel =>
      match find_bytes slice sub with
      | Some O => split_loop fuel pos (drop (length sub) slice) sub bytes_len vec
      | Some top =>
          let pos := top + length sub in
          split_loop fuel pos (drop pos slice) sub bytes_len (vec ++ [firstn top slice])
      | None => if bool_decide (pos < bytes_len) then vec ++ [slice] else vec
      end
  end.

Definition split_bytes (bytes sub : list Z) : list (list Z) :=
  if bool_decide (bytes = [] \/ sub = [] \/ length bytes < length sub) then []
  else split_loop (S (length bytes)) 0 bytes sub (length bytes) [].

(** [trim_matches] of a quotation mark. *)
Definition quote : ascii := ascii_of_N 34.

Fixpoint trim_quotes_start (s : string) : string :=
  match s with
  | String c s' => if bool_decide (c = quote) then trim_quotes_start s' else s
  | EmptyString => EmptyString
  end.

Fixpoint trim_quotes_end (s : string) : string :=
  match s with
  | String c s' =>
      match trim_quotes_end s' with
      | EmptyString => if bool_decide (c = quote) then EmptyString else String c EmptyString
      | t => String c t
      end
  | EmptyString => EmptyString
  end.

Definition trim_quotes (s : string) : string := trim_quotes_end (trim_quotes_start s).

(** The value of a pair [k=v] of a header: the second piece, which must be there. *)
Definition pair_value (k : string) : option string :=
  trim_quotes <$> split_on FORM_DATA_HEAD_SECOND_SPLIT_CHAR (trim k) !! 1.

Definition is_form_data (h : string) : bool := bool_decide (to_lowercase (trim h) = FORM_DATA_HEAD).

(** [&value[0..(value.len() - 2)]] *)
Definition cut_tail (value : list Z) : option (list Z) :=
  if bool_decide (2 <= length value) then Some (firstn (length value - 2) value) else None.

Definition parse_form_text (prefix value : list Z) (m : Map) : option (Map * result ParamsError unit) :=
  match split_bytes prefix FORM_DATA_HEAD_FIRST_SPLIT_CHAR with
  | [h; k] =>
      match from_utf8 h with
      | Some h =>
          if is_form_data h then
            match from_utf8 k with
            | Some k =>
                key ← pair_value k;
                value ← cut_tail value;
                match from_utf8 value with
                | Some v => Some (assign key (VString v) m)
                | None => Some (m, Err InvalidForm)
                end
            | None => Some (m, Err InvalidForm)
            end
          else Some (m, Err InvalidForm)
      | None => Some (m, Err InvalidForm)
      end
  | _ => Some (m, Err InvalidForm)
  end.

(** The file name of a binary part. *)
Definition assign_file_name (k : list Z) (m : Map) : option (Map * result ParamsError unit) :=
  match from_utf8 k with
  | Some k => v ← pair_value k; Some (assign FORM_DATA_FILE_KEY (VString v) m)
  | None => Some (m, Err InvalidForm)
  end.

Definition parse_form_binary (prefix value : list Z) (m : Map) : option (Map * result ParamsError unit) :=
  match split_bytes prefix FORM_DATA_HEAD_FIRST_SPLIT_CHAR with
  | [h; k; name] =>
      match from_utf8 h with
      | Some h =>
          if is_form_data h then
            match from_utf8 k with
            | Some k =>
                key ← pair_value k;
                match assign key (Bin value) m with
                | (m, Err e) => Some (m, Err e)
                | (m, Ok _) => assign_file_name name m
                end
            | None => assign_file_name name m
            end
          else Some (m, Err InvalidForm)
      | None => Some (m, Err InvalidForm)
      end
  | _ => Some (m, Err InvalidForm)
  end.

(** One part of a form. *)
Definition parse_form_part (part : list Z) (m : Map) : option (Map * result ParamsError unit) :=
  if bool_decide (part = FORM_TAIL) then Some (m, Ok tt)
  else
    match find_bytes part FORM_LINE_BREAK with
    | Some pos =>
        let prefix := firstn (pos + 4) part in
        let content := drop (pos + 4) part in
        match split_bytes prefix HTTP_LINE_BREAK with
        | [f0; _] => parse_form_text f0 content m
        | [f0; _; _] => slice ← cut_tail content; parse_form_binary f0 slice m
        | _ => Some (m, Err InvalidForm)
        end
    | None => Some (m, Err InvalidForm)
    end.

Fixpoint parse_parts (parts : list (list Z)) (m : Map) : option (Map * result ParamsError unit) :=
  match parts with
  | [] => Some (m, Ok tt)
  | part :: parts =>
      '(m, r) ← parse_form_part part m;
      match r with Ok _ => parse_parts parts m | Err e => Some (m, Err e) end
  end.

Definition parse_multipart (boundary : string) (data : list Z) (m : Map)
    : option (Map * result ParamsError unit) :=
  parse_parts (split_bytes data (as_bytes boundary)) m.
End form.

Section request.
Context `{ByteSearch} `{MimeApi}.

(** [multipart_boundary] *)
Definition multipart_boundary (req : Request) : option (option string) :=
  m ← body_mime req;
  Some (match m with
        | Some m =>
            if mime_is "multipart" "form-data" m then
              (fun b => BOUNDARY_PREFIX +:+ b) <$> mime_param "boundary" m
            else None
        | None => None
        end).

(** [try_parse_multipart] with [read_form] *)
Definition try_parse_multipart (req : Request) (m : Map) : option (Map * result ParamsError unit) :=
  b ← multipart_boundary req;
  match b with
  | None => Some (m, Ok tt)
  | Some boundary =>
      match body_contents req with
      | Err _ => Some (m, Err IoError)
      | Ok [] => Some (m, Ok tt)
      | Ok data => parse_multipart boundary data m
      end
  end.
End request.

(** ** Splitting *)

Section split.
Context `{ByteSearchLaws}.

(** Where the loop of [split_bytes] stands behind the pieces. *)
Definition end_pos (pieces : list (list Z)) (sub : list Z) (pos : nat) : nat :=
  match last pieces with Some p => length p + length sub | None => pos end.

Lemma split_loop_pieces fuel pos pieces rest sub n vec :
  sub <> [] -> Forall (fun p => p <> [] /\ first_at_end p sub) pieces ->
  split_loop (length pieces + fuel) pos (concat ((fun p => (p ++ sub)%list) <$> pieces) ++ rest) sub n vec =
  split_loop fuel (end_pos pieces sub pos) rest sub n (vec ++ pieces).
Proof.
  intros Hs Hok. revert pos vec. induction Hok as [|p pieces [Hp Hf] Hok IH]; intros pos vec.
  { cbn. by rewrite app_nil_r. }
  cbn [length Nat.add split_loop fmap list_fmap concat]. rewrite <-!app_assoc.
  rewrite (find_first_at_end p sub _ Hf). destruct (length p) as [|k] eqn:Ek; [by destruct p|]. rewrite <-Ek.
  rewrite app_assoc, drop_app_length' by (rewrite length_app; done).
  rewrite <-app_assoc, take_app_length, IH, <-app_assoc. unfold end_pos. cbn [app]. f_equal.
  rewrite last_cons. by destruct (last pieces).
Qed.

Lemma split_loop_front fuel pos rest sub n vec :
  split_loop (S fuel) pos (sub ++ rest) sub n vec = split_loop fuel pos rest sub n vec.
Proof. cbn [split_loop]. by rewrite find_bytes_front, drop_app_length. Qed.

Lemma split_loop_last fuel pos rest sub n vec :
  find_bytes rest sub = None -> pos < n -> split_loop (S fuel) pos rest sub n vec = vec ++ [rest].
Proof. intros Hf Hp. cbn [split_loop]. by rewrite Hf, bool_decide_true. Qed.

(** The pieces behind a leading separator. *)
Lemma split_bytes_pieces pieces rest sub :
  sub <> [] -> Forall (fun p => p <> [] /\ first_at_end p sub) pieces -> find_bytes rest sub = None ->
  split_bytes (sub ++ concat ((fun p => (p ++ sub)%list) <$> pieces) ++ rest) sub = pieces ++ [rest].
Proof.
  intros Hs Hok Hf. unfold split_bytes.
  set (data := concat ((fun p => (p ++ sub)%list) <$> pieces) ++ rest).
  assert (length pieces <= length data /\ end_pos pieces sub 0 <= length data) as [Hlen Hend].
  { subst data. rewrite length_app. clear Hf. unfold end_pos. induction Hok as [|p pieces [Hp Hf] Hok IH]; [cbn; lia|].
    cbn [fmap list_fmap concat length]. rewrite last_cons, !length_app.
    destruct p; [done|]. cbn [length]. revert IH. destruct (last pieces); intros [? ?]; cbn [length]; split; lia. }
  rewrite bool_decide_false; [|rewrite length_app; destruct sub; naive_solver lia].
  rewrite split_loop_front. rewrite length_app.
  replace (length sub + length data) with (length pieces + S (length sub + length data - length pieces - 1));
    [|destruct sub; cbn; [done|lia]].
  subst data. rewrite split_loop_pieces by done. cbn [app].
  apply split_loop_last; [done|]. destruct sub; cbn [length]; [done|lia].
Qed.
End split.

(** ** Text fields *)

Definition LINE_BREAK2 : string := String (ascii_of_N 13) (String (ascii_of_N 10) "").

Definition form_head : string := "Content-Disposition: form-data".
Definition form_name (k : string) : string := " name=" +:+ String quote (k +:+ String quote "").

(** A part of a form as a browser writes it, and the form. *)
Definition form_part (f : string * string) : list Z :=
  HTTP_LINE_BREAK ++ as_bytes form_head ++ FORM_DATA_HEAD_FIRST_SPLIT_CHAR ++ as_bytes (form_name f.1) ++
  FORM_LINE_BREAK ++ as_bytes f.2 ++ HTTP_LINE_BREAK.

Definition render_form (boundary : string) (fields : list (string * string)) : list Z :=
  concat ((fun f => (as_bytes boundary ++ form_part f)%list) <$> fields) ++ as_bytes boundary ++ FORM_TAIL.

(** A field that can be written so: its name has no separator in it, and the boundary is
    not in the part. *)
Definition name_chars (k : string) : Prop :=
  forall c, c ∈ String.list_ascii_of_string k -> ~ (c ∈ [ascii_of_N 13; ascii_of_N 10; quote; "="%char; ";"%char]).

Definition field_ok `{ByteSearch} (boundary : string) (f : string * string) : Prop :=
  name_chars f.1 /\ utf8_valid (as_bytes f.1) = true /\ utf8_valid (as_bytes f.2) = true /\
  first_at_end (form_part f) (as_bytes boundary).

Section roundtrip.
Context `{ByteSearchLaws}.

Lemma name_absent k c : name_chars k -> c ∈ [ascii_of_N 13; ascii_of_N 10; quote; "="%char; ";"%char] -> find_char c k = None.
Proof.
  intros Hk Hc. induction k as [|x k IH]; [done|]. cbn. rewrite bool_decide_false.
  - rewrite IH; [done|]. intros c' Hc'. apply Hk. cbn. by right.
  - intros ->. apply (Hk c); [cbn; by left|done].
Qed.

Lemma trim_quotes_end_quote k : find_char quote k = None -> trim_quotes_end (k +:+ String quote "") = k.
Proof.
  induction k as [|c k IH]; [done|]. intros Hk. cbn in Hk. case_bool_decide as Hc; [done|].
  change (String c k +:+ ?s) with (String c (k +:+ s)). cbn [trim_quotes_end].
  apply fmap_None in Hk. rewrite IH by done. destruct k; [by rewrite bool_decide_false|done].
Qed.

Lemma trim_quotes_quoted k : find_char quote k = None -> trim_quotes (String quote (k +:+ String quote "")) = k.
Proof.
  intros Hk. unfold trim_quotes. cbn [trim_quotes_start]. rewrite bool_decide_true by done.
  destruct k as [|c k]; [done|]. change (String c k +:+ ?s) with (String c (k +:+ s)). cbn [trim_quotes_start].
  cbn in Hk. case_bool_decide as Hc; [done|]. rewrite bool_decide_false by done.
  apply (trim_quotes_end_quote (String c k)). cbn. by rewrite bool_decide_false.
Qed.

Lemma pair_value_name k : name_chars k -> pair_value (form_name k) = Some k.
Proof.
  intros Hk. unfold pair_value, form_name, trim.
  change (trim_start (" name=" +:+ ?s)) with ("name=" +:+ s).
  replace ("name=" +:+ String quote (k +:+ String quote "")) with
    (("name=" +:+ String quote k) +:+ String quote "") by done.
  rewrite trim_end_last by done.
  change (("name=" +:+ String quote k) +:+ String quote "") with
    ("name" +:+ String "=" (String quote (k +:+ String quote ""))).
  unfold FORM_DATA_HEAD_SECOND_SPLIT_CHAR. rewrite split_on_app by done. rewrite split_on_absent.
  - cbn. f_equal. apply trim_quotes_quoted, name_absent; [done|set_solver].
  - change (find_char "="%char (String quote ?s)) with (S <$> find_char "="%char s).
    rewrite find_char_app_none; [done| |done]. apply name_absent; [done|set_solver].
Qed.

(** The bytes of the name have no line break and no semicolon. *)
Lemma form_name_bytes k (c : ascii) :
  name_chars k -> c ∈ [ascii_of_N 13; ascii_of_N 10; ";"%char] -> byte_of_ascii c ∉ as_bytes (form_name k).
Proof.
  intros Hk Hc. rewrite as_bytes_elem. intros Hin.
  assert (c ∈ [ascii_of_N 13; ascii_of_N 10; quote; "="%char; ";"%char]) as Hc' by set_solver.
  enough (find_char c (form_name k) = None) as E by (by destruct (find_char_elem _ _ Hin)).
  unfold form_name. apply find_char_app_none.
  - repeat (apply elem_of_cons in Hc as [->|Hc]; [done|]). by apply not_elem_of_nil in Hc.
  - assert (find_char c (String quote "") = None) as Eq.
    { repeat (apply elem_of_cons in Hc as [->|Hc]; [done|]). by apply not_elem_of_nil in Hc. }
    change (String quote ?s) with (String quote "" +:+ s).
    apply find_char_app_none; [done|]. apply find_char_app_none; [by apply name_absent|done].
Qed.

Lemma utf8_form_name k : utf8_valid (as_bytes k) = true -> utf8_valid (as_bytes (form_name k)) = true.
Proof.
  intros Hk. unfold form_name. change (String quote ?s) with (String quote "" +:+ s).
  rewrite !as_bytes_app. by repeat apply utf8_valid_app.
Qed.

Definition form_line (k : string) : list Z :=
  as_bytes form_head ++ FORM_DATA_HEAD_FIRST_SPLIT_CHAR ++ as_bytes (form_name k).

Lemma form_line_bytes k c :
  name_chars k -> c ∈ [ascii_of_N 13; ascii_of_N 10] -> byte_of_ascii c ∉ form_line k.
Proof.
  intros Hk Hc. unfold form_line. rewrite !not_elem_of_app. split_and!.
  - repeat (apply elem_of_cons in Hc as [->|Hc]; [by apply (bool_decide_unpack _)|]).
    by apply not_elem_of_nil in Hc.
  - repeat (apply elem_of_cons in Hc as [->|Hc]; [by apply (bool_decide_unpack _)|]).
    by apply not_elem_of_nil in Hc.
  - apply form_name_bytes; [done|set_solver].
Qed.

(** The header of a part: the line, and the empty line behind it. *)
Lemma split_form_line k :
  name_chars k -> split_bytes (HTTP_LINE_BREAK ++ form_line k ++ FORM_LINE_BREAK) HTTP_LINE_BREAK = [form_line k; []].
Proof.
  intros Hk. unfold split_bytes. rewrite bool_decide_false by (cbn; naive_solver lia).
  set (n := length _). assert (4 <= n) as Hn by (subst n; rewrite !length_app; cbn; lia).
  replace (S n) with (S (1 + S (S (n - 3)))) by lia. rewrite split_loop_front.
  change FORM_LINE_BREAK with (HTTP_LINE_BREAK ++ HTTP_LINE_BREAK ++ []).
  pose proof (split_loop_pieces (S (S (n - 3))) 0 [form_line k] (HTTP_LINE_BREAK ++ []) HTTP_LINE_BREAK n []) as E.
  cbn [length fmap list_fmap concat] in E. rewrite app_nil_r, <-app_assoc in E. rewrite E; [|done|].
  - rewrite split_loop_front. apply split_loop_last.
    + apply (find_bytes_fresh [] 13%Z [10%Z]), not_elem_of_nil.
    + unfold end_pos. cbn [last]. subst n. rewrite !length_app. cbn. lia.
  - repeat constructor; [done|]. apply (first_at_end_fresh _ 13%Z [10%Z]).
    by apply (form_line_bytes k (ascii_of_N 13)); [done|left].
Qed.

Lemma split_form_head k :
  name_chars k ->
  split_bytes (form_line k) FORM_DATA_HEAD_FIRST_SPLIT_CHAR = [as_bytes form_head; as_bytes (form_name k)].
Proof.
  intros Hk. unfold split_bytes. rewrite bool_decide_false by (cbn; naive_solver lia).
  set (n := length _). assert (length (as_bytes form_head) + 1 < n) as Hn.
  { subst n. unfold form_line, form_name. rewrite as_bytes_app, !length_app.
    change (length (as_bytes " name=")) with 6. cbn [length FORM_DATA_HEAD_FIRST_SPLIT_CHAR]. lia. }
  pose proof (split_loop_pieces (S (n - 1)) 0 [as_bytes form_head] (as_bytes (form_name k))
    FORM_DATA_HEAD_FIRST_SPLIT_CHAR n []) as E.
  cbn [fmap list_fmap concat] in E. rewrite app_nil_r, <-app_assoc in E.
  assert (length [as_bytes form_head] + S (n - 1) = S n) as En by (cbn [length]; lia).
  rewrite En in E. unfold form_line at 1. rewrite E; [|done|].
  - apply split_loop_last; [|exact Hn].
    apply find_bytes_fresh. apply (form_name_bytes k ";"%char); [done|]. do 2 right. left.
  - repeat constructor; [done|]. apply first_at_end_fresh. by apply (bool_decide_unpack _).
Qed.

(** The empty line is found behind the header line. *)
Lemma find_form_line k post :
  name_chars k ->
  find_bytes (HTTP_LINE_BREAK ++ form_line k ++ FORM_LINE_BREAK ++ post) FORM_LINE_BREAK =
  Some (length (HTTP_LINE_BREAK ++ form_line k)).
Proof.
  intros Hk. rewrite app_assoc. apply find_first_at_end.
  pose proof (occurs_middle (HTTP_LINE_BREAK ++ form_line k) FORM_LINE_BREAK []) as Ho. rewrite app_nil_r in Ho.
  apply find_bytes_first; [done|]. intros j Hj Hoj.
  pose proof (form_line_bytes k (ascii_of_N 13) Hk ltac:(by left)) as H13.
  pose proof (occurs_lookup _ _ _ 0 13%Z Hoj eq_refl) as E0. pose proof (occurs_lookup _ _ _ 2 13%Z Hoj eq_refl) as E2.
  rewrite Nat.add_0_r in E0. destruct j as [|[|j]]; [done|done|].
  assert ((form_line k ++ FORM_LINE_BREAK) !! j = Some 13%Z) as E by exact E0.
  rewrite length_app in Hj. change (length HTTP_LINE_BREAK) with 2 in Hj.
  rewrite lookup_app_l in E by lia. apply H13. by eapply list_elem_of_lookup_2.
Qed.

Lemma parse_form_part_text boundary f m :
  field_ok boundary f -> parse_form_part (form_part f) m = Some (assign f.1 (VString f.2) m).
Proof.
  intros (Hk & Uk & Uv & _). unfold parse_form_part. rewrite bool_decide_false by done.
  assert (form_part f = HTTP_LINE_BREAK ++ form_line f.1 ++ FORM_LINE_BREAK ++ as_bytes f.2 ++ HTTP_LINE_BREAK) as ->.
  { unfold form_part, form_line. by rewrite <-!app_assoc. }
  rewrite find_form_line by done.
  assert (forall l : list Z, HTTP_LINE_BREAK ++ form_line f.1 ++ FORM_LINE_BREAK ++ l =
    (HTTP_LINE_BREAK ++ form_line f.1 ++ FORM_LINE_BREAK) ++ l) as -> by (intros; by rewrite <-!app_assoc).
  replace (length (HTTP_LINE_BREAK ++ form_line f.1) + 4) with
    (length (HTTP_LINE_BREAK ++ form_line f.1 ++ FORM_LINE_BREAK)) by (rewrite !length_app; cbn; lia).
  rewrite take_app_length, drop_app_length, split_form_line by done.
  unfold parse_form_text. rewrite split_form_head by done.
  change (from_utf8 (as_bytes form_head)) with (Some form_head). change (is_form_data form_head) with true.
  rewrite (from_utf8_as_bytes (form_name f.1)) by (by apply utf8_form_name). rewrite pair_value_name by done.
  cbn [mbind option_bind]. unfold cut_tail. rewrite bool_decide_true by (rewrite length_app; cbn; lia).
  cbn [mbind option_bind]. rewrite length_app, Nat.add_sub, take_app_length. by rewrite from_utf8_as_bytes.
Qed.

(** A form of text fields, written as a browser writes it, is parsed to the assignments
    of its fields in order, whatever paths the fields have, and stops at the first field
    that cannot be assigned. *)
Theorem form_roundtrip boundary fields m :
  boundary <> "" -> find_bytes FORM_TAIL (as_bytes boundary) = None -> Forall (field_ok boundary) fields ->
  parse_multipart boundary (render_form boundary fields) m =
  Some (assign_pairs ((fun f => (f.1, VString f.2)) <$> fields) m).
Proof.
  intros Hb Ht Hok. unfold parse_multipart.
  assert (render_form boundary fields = as_bytes boundary ++
    concat ((fun p => p ++ as_bytes boundary) <$> (form_part <$> fields)) ++ FORM_TAIL) as ->.
  { unfold render_form. clear. rewrite app_assoc. symmetry. rewrite app_assoc. f_equal.
    induction fields as [|f fields IH]; [cbn; by rewrite app_nil_r|]. rewrite !fmap_cons. cbn [concat].
    rewrite <-!app_assoc. do 2 f_equal. exact IH. }
  rewrite split_bytes_pieces; [|by destruct boundary| |done].
  - clear Ht. revert m. induction Hok as [|f fields Hf Hok IH]; intros m; [done|]. rewrite !fmap_cons. cbn [app parse_parts]. rewrite (parse_form_part_text boundary) by done. cbn [mbind option_bind assign_pairs].
    destruct (assign f.1 _ m) as [m' [[]|e]]; [apply IH|done].
  - rewrite Forall_fmap. eapply Forall_impl; [exact Hok|]. intros f (_ & _ & _ & Hf). by split.
Qed.
End roundtrip.

(** ** Witnesses *)

Lemma form_roundtrip_witness :
  parse_multipart "--xyz" (render_form "--xyz" [("user[name]", "ann"); ("n", "5")]) ∅ =
  Some (assign_pairs [("user[name]", VString "ann"); ("n", VString "5")] ∅).
Proof.
  apply (form_roundtrip "--xyz" [("user[name]", "ann"); ("n", "5")] ∅); [done|by vm_compute|].
  repeat constructor; try (by vm_compute);
    intros c Hc; cbn in Hc; repeat (apply elem_of_cons in Hc as [->|Hc];
      [by apply (bool_decide_unpack _)|]); by apply not_elem_of_nil in Hc.
Defined.

(** A part whose header has no pair makes the server panic. *)
Example form_panics :
  parse_form_part (HTTP_LINE_BREAK ++ as_bytes "Content-Disposition: form-data; name" ++ FORM_LINE_BREAK ++ HTTP_LINE_BREAK) ∅
  = None.
Proof. by vm_compute. Qed.
