(* ===== verification/BufferPool.v ===== *)
(** * The pool of write buffers of the older TCP crate (tcp/src/buffer_pool.rs, util.rs)

    A pool hands out write buffers; a finished buffer becomes a read-only view, whose
    handle is weak; when nobody holds a view, its list goes back to the pool. Threads
    share the pool: a step is one atomic action, a call of a channel, a load or a
    compare-and-swap of the size, and steps of different threads come in any order.
    A send on a full channel blocks its thread. *)

From S2P Require Import Prelude.

(** ** Lists of data *)

(** [IoBytes]: its bytes, and whether it is a borrowed slice. *)
Record IoBytes := mkIoBytes { is_slice : bool; io_data : list Z }.

Definition io_len (b : IoBytes) : nat := length (io_data b).

(** [IoList]: the number of bytes and the queue. *)
Record IoList := mkIoList { byte_len : nat; queue : list IoBytes }.

Definition with_capacity : IoList := mkIoList 0 [].

Definition iolist_of (l : list IoBytes) : IoList := mkIoList (sum_list_with io_len l) l.

Definition push_front (b : IoBytes) (l : IoList) : IoList :=
  if bool_decide (io_len b = 0) then l else mkIoList (byte_len l + io_len b) (b :: queue l).

Definition push_back (b : IoBytes) (l : IoList) : IoList :=
  if bool_decide (io_len b = 0) then l else mkIoList (byte_len l + io_len b) (queue l ++ [b]).

Definition clear (l : IoList) : IoList := mkIoList 0 [].

(** [From<IoBytes> for Vec<u8>]: a slice makes it panic. *)
Definition into_vec (b : IoBytes) : option (list Z) := if is_slice b then None else Some (io_data b).

Definition concat_list (l : IoList) : option (list Z) := mjoin <$> mapM into_vec (queue l).

(** ** The pool *)

(** A view: its data, the strong pointers that clients hold, the weak ones. *)
Record View := mkView { contents : list IoBytes; held : nat; weak : nat }.

(** Where a thread is that found no free list: before the load of the size, and in the
    loop with the size it read. *)
Inductive alloc_state := Missed | Loaded (cur_size : nat).

Record Pool := mkPool {
  capacity : nat;
  frees : list IoList;              (* the channel of the free lists *)
  ready : list nat;                 (* the channel of the finished views, by address *)
  size : nat;
  buffers : gmap nat IoList;        (* [WriteBuffer]s in use, by address *)
  views : gmap nat View;            (* the views that are alive *)
  taken : list nat;                 (* views a [collect] took out of the channel *)
  allocs : gmap nat alloc_state;    (* threads inside [new_iolist] *)
}.

Definition set_frees x p := mkPool (capacity p) x (ready p) (size p) (buffers p) (views p) (taken p) (allocs p).
Definition set_ready x p := mkPool (capacity p) (frees p) x (size p) (buffers p) (views p) (taken p) (allocs p).
Definition set_size x p := mkPool (capacity p) (frees p) (ready p) x (buffers p) (views p) (taken p) (allocs p).
Definition set_buffers x p := mkPool (capacity p) (frees p) (ready p) (size p) x (views p) (taken p) (allocs p).
Definition set_views x p := mkPool (capacity p) (frees p) (ready p) (size p) (buffers p) x (taken p) (allocs p).
Definition set_taken x p := mkPool (capacity p) (frees p) (ready p) (size p) (buffers p) (views p) x (allocs p).
Definition set_allocs x p := mkPool (capacity p) (frees p) (ready p) (size p) (buffers p) (views p) (taken p) x.

(** [WriteBufferPool::new] *)
Definition new (pool_capacity init_count : nat) : io_result Pool :=
  if bool_decide (pool_capacity = 0) then Err Other
  else if bool_decide (pool_capacity < init_count) then Err Other
  else Ok (mkPool pool_capacity (replicate init_count with_capacity) [] init_count ∅ ∅ [] ∅).

(** *** Actions *)

(** A send on a bounded channel; [None] when it is full. *)
Definition send_free (l : IoList) (p : Pool) : option Pool :=
  if bool_decide (length (frees p) < capacity p) then Some (set_frees (frees p ++ [l]) p) else None.

Definition send_ready (v : nat) (p : Pool) : option Pool :=
  if bool_decide (length (ready p) < capacity p) then Some (set_ready (ready p ++ [v]) p) else None.

(** [alloc]: the receive, which gives a buffer at the fresh address [b] or sends the
    thread [t] to [new_iolist]. *)
Definition alloc_recv (t b : nat) (p : Pool) : Pool :=
  match frees p with
  | l :: ls => set_buffers (<[b := l]> (buffers p)) (set_frees ls p)
  | [] => set_allocs (<[t := Missed]> (allocs p)) p
  end.

(** The load of the size in [new_iolist]: no room ends the call with nothing. *)
Definition alloc_load (t : nat) (p : Pool) : Pool :=
  if bool_decide (capacity p <= size p) then set_allocs (delete t (allocs p)) p
  else set_allocs (<[t := Loaded (size p)]> (allocs p)) p.

(** One turn of its loop. *)
Definition alloc_cas (t b cur_size : nat) (p : Pool) : Pool :=
  if bool_decide (size p = cur_size) then
    set_allocs (delete t (allocs p)) (set_size (S cur_size) (set_buffers (<[b := with_capacity]> (buffers p)) p))
  else if bool_decide (capacity p <= size p) then set_allocs (delete t (allocs p)) p
  else set_allocs (<[t := Loaded (size p)]> (allocs p)) p.

(** [get_iolist_mut] and a write to the list. *)
Definition write_buffer (b : nat) (f : IoList -> IoList) (p : Pool) : Pool :=
  match buffers p !! b with Some l => set_buffers (<[b := f l]> (buffers p)) p | None => p end.

(** [Drop] of a [WriteBuffer]: the list is cleared and sent back. *)
Definition drop_buffer (b : nat) (l : IoList) (p : Pool) : option Pool :=
  send_free (clear l) (set_buffers (delete b (buffers p)) p).

(** [finish]: the view at the fresh address [v], with one handle. *)
Definition finish (b v : nat) (l : IoList) (p : Pool) : option Pool :=
  send_ready v (set_views (<[v := mkView (queue l) 0 1]> (views p)) (set_buffers (delete b (buffers p)) p)).

(** [Drop] of a [ReadableView], when its last strong pointer goes. *)
Definition drop_view (v : nat) (w : View) (p : Pool) : option Pool :=
  send_free (clear (iolist_of (contents w))) (set_views (delete v (views p)) p).

(** Clones and drops of the handles. *)
Definition set_weak (v : nat) (n : nat) (w : View) (p : Pool) : Pool :=
  set_views (<[v := mkView (contents w) (held w) n]> (views p)) p.

(** [get_shared]: a strong pointer for the client. *)
Definition get_shared (v : nat) (w : View) (p : Pool) : Pool :=
  set_views (<[v := mkView (contents w) (S (held w)) (weak w)]> (views p)) p.

(** The client drops a strong pointer: the last one drops the view. *)
Definition drop_shared (v : nat) (w : View) (p : Pool) : option Pool :=
  if bool_decide (held w = 1 /\ v ∉ ready p /\ v ∉ taken p) then drop_view v w p
  else Some (set_views (<[v := mkView (contents w) (held w - 1) (weak w)]> (views p)) p).

(** [collect] takes the views out of the channel, *)
Definition collect_take (p : Pool) : Pool :=
  if bool_decide (length (ready p) < length (frees p)) then p
  else set_ready [] (set_taken (taken p ++ ready p) p).

(** and looks at each: without a handle it drops its pointer, else it puts it back. *)
Definition collect_one (v : nat) (w : View) (p : Pool) : option Pool :=
  let p := set_taken (filter (fun u => u <> v) (taken p)) p in
  if bool_decide (weak w = 0) then
    if bool_decide (held w = 0) then drop_view v w p else Some p
  else send_ready v p.

(** *** Steps of the threads *)

Inductive pool_step : Pool -> Pool -> Prop :=
| step_recv t b p : buffers p !! b = None -> pool_step p (alloc_recv t b p)
| step_load t p : allocs p !! t = Some Missed -> pool_step p (alloc_load t p)
| step_cas t b c p : allocs p !! t = Some (Loaded c) -> buffers p !! b = None -> pool_step p (alloc_cas t b c p)
| step_push_front b d p : pool_step p (write_buffer b (push_front d) p)
| step_push_back b d p : pool_step p (write_buffer b (push_back d) p)
| step_drop_buffer b l p p' : buffers p !! b = Some l -> drop_buffer b l p = Some p' -> pool_step p p'
| step_finish b v l p p' :
    buffers p !! b = Some l -> views p !! v = None -> finish b v l p = Some p' -> pool_step p p'
| step_clone_handle v w p : views p !! v = Some w -> 0 < weak w -> pool_step p (set_weak v (S (weak w)) w p)
| step_drop_handle v w p : views p !! v = Some w -> 0 < weak w -> pool_step p (set_weak v (weak w - 1) w p)
| step_get_shared v w p : views p !! v = Some w -> 0 < weak w -> pool_step p (get_shared v w p)
| step_drop_shared v w p p' : views p !! v = Some w -> 0 < held w -> drop_shared v w p = Some p' -> pool_step p p'
| step_collect p : pool_step p (collect_take p)
| step_collect_one v w p p' :
    views p !! v = Some w -> v ∈ taken p -> collect_one v w p = Some p' -> pool_step p p'.

(** A whole [collect] of one thread. *)
Fixpoint collect_loop (vs : list nat) (p : Pool) : option Pool :=
  match vs with
  | [] => Some p
  | v :: vs => w ← views p !! v; p ← collect_one v w p; collect_loop vs p
  end.

Definition collect (p : Pool) : option Pool :=
  if bool_decide (length (ready p) < length (frees p)) then Some p
  else collect_loop (ready p) (set_ready [] (set_taken (ready p) p)).

(** ** The invariant *)

Abbreviation count := base.size.

(** The number of bytes of a list is that of its data. *)
Definition list_ok (l : IoList) : Prop := byte_len l = sum_list_with io_len (queue l).

(** Every list is free, in a buffer or in a view; there are never more than the capacity;
    free lists are empty; a view that no client holds is in the channel or with a
    [collect]. *)
Record pool_inv (p : Pool) : Prop := {
  inv_size : size p = length (frees p) + count (buffers p) + count (views p);
  inv_capacity : size p <= capacity p;
  inv_frees : Forall (fun l => l = with_capacity) (frees p);
  inv_nodup : NoDup (ready p ++ taken p);
  inv_alive v : v ∈ ready p ++ taken p -> is_Some (views p !! v);
  inv_held v w : views p !! v = Some w -> held w = 0 -> v ∈ ready p ++ taken p;
  inv_allocs t c : allocs p !! t = Some (Loaded c) -> c < capacity p;
  inv_buffers b l : buffers p !! b = Some l -> list_ok l;
}.

Lemma pool_new_inv cap n p : new cap n = Ok p -> pool_inv p.
Proof.
  unfold new. case_bool_decide; [done|]. case_bool_decide; [done|]. intros [= <-].
  split; cbn; try by intros.
  - rewrite length_replicate, !map_size_empty. lia.
  - lia.
  - apply Forall_replicate. done.
  - constructor.
  - by intros v ?%not_elem_of_nil.
Qed.

Lemma push_front_ok d l : list_ok l -> list_ok (push_front d l).
Proof. unfold push_front, list_ok. case_bool_decide; [done|]. cbn. lia. Qed.

Lemma push_back_ok d l : list_ok l -> list_ok (push_back d l).
Proof.
  unfold push_back, list_ok. case_bool_decide; [done|]. cbn. rewrite sum_list_with_app. cbn. lia.
Qed.

Lemma ready_le_views p : pool_inv p -> length (ready p ++ taken p) <= count (views p).
Proof.
  intros I. rewrite <-size_dom, <-(size_list_to_set (C := gset nat)) by apply I.
  apply subseteq_size. intros v Hv. apply elem_of_list_to_set in Hv. apply elem_of_dom. by apply I.
Qed.

Lemma write_buffer_inv b f p : (forall l, list_ok l -> list_ok (f l)) -> pool_inv p -> pool_inv (write_buffer b f p).
Proof.
  intros Hf I. unfold write_buffer. destruct (buffers p !! b) as [l|] eqn:El; [|done].
  destruct I. split; cbn; try done.
  - by rewrite map_size_insert_Some by eauto.
  - intros b' l' [[<- <-]|[_ Hl]]%lookup_insert_Some; eauto.
Qed.

Lemma alloc_recv_inv t b p : buffers p !! b = None -> pool_inv p -> pool_inv (alloc_recv t b p).
Proof.
  intros Hb []. unfold alloc_recv. destruct (frees p) as [|l ls] eqn:Ef; split; cbn; try done.
  - by rewrite Ef.
  - by rewrite Ef.
  - intros t' c [[_ [=]]|[_ Ha]]%lookup_insert_Some. eauto.
  - rewrite map_size_insert_None by done. cbn in *. lia.
  - by apply Forall_cons_1 in inv_frees0 as [_ ?].
  - apply Forall_cons_1 in inv_frees0 as [-> _]. intros b' l' [[_ <-]|[_ Hl]]%lookup_insert_Some; [done|eauto].
Qed.

Lemma alloc_load_inv t p : pool_inv p -> pool_inv (alloc_load t p).
Proof.
  intros []. unfold alloc_load. case_bool_decide; split; cbn; try done.
  - intros t' c [_ Ha]%lookup_delete_Some. eauto.
  - intros t' c [[_ [= <-]]|[_ Ha]]%lookup_insert_Some; [lia|eauto].
Qed.

Lemma alloc_cas_inv t b c p :
  allocs p !! t = Some (Loaded c) -> buffers p !! b = None -> pool_inv p -> pool_inv (alloc_cas t b c p).
Proof.
  intros Ht Hb []. pose proof (inv_allocs0 _ _ Ht). unfold alloc_cas.
  case_bool_decide; [|case_bool_decide]; split; cbn; try done.
  - rewrite map_size_insert_None by done. lia.
  - intros t' c' [_ Ha]%lookup_delete_Some. eauto.
  - intros b' l' [[_ <-]|[_ Hl]]%lookup_insert_Some; [done|eauto].
  - intros t' c' [_ Ha]%lookup_delete_Some. eauto.
  - intros t' c' [[_ [= <-]]|[_ Ha]]%lookup_insert_Some; [lia|eauto].
Qed.

Lemma drop_buffer_ok b l p :
  buffers p !! b = Some l -> pool_inv p -> exists p', drop_buffer b l p = Some p' /\ pool_inv p'.
Proof.
  intros Hb I. pose proof (ready_le_views p I). destruct I.
  assert (0 < count (buffers p)) as Hpos.
  { apply Nat.neq_0_lt_0. intros E%map_size_empty_iff. by rewrite E in Hb. }
  unfold drop_buffer, send_free. cbn. rewrite bool_decide_true by lia. eexists. split; [done|].
  split; cbn; try done.
  - rewrite map_size_delete_Some, length_app by eauto. cbn. lia.
  - apply Forall_app. split; [done|]. by constructor.
  - intros b' l' [_ Hl]%lookup_delete_Some. eauto.
Qed.

Lemma snoc_middle (l1 l2 : list nat) v : (l1 ++ [v]) ++ l2 ≡ₚ v :: l1 ++ l2.
Proof. rewrite <-app_assoc. symmetry. apply Permutation_middle. Qed.

Lemma finish_ok b v l p :
  buffers p !! b = Some l -> views p !! v = None -> pool_inv p ->
  exists p', finish b v l p = Some p' /\ pool_inv p'.
Proof.
  intros Hb Hv I. pose proof (ready_le_views p I) as Hle. rewrite length_app in Hle. destruct I.
  assert (0 < count (buffers p)) as Hpos.
  { apply Nat.neq_0_lt_0. intros E%map_size_empty_iff. by rewrite E in Hb. }
  assert (v ∉ ready p ++ taken p) as Hnv.
  { intros Hin. destruct (inv_alive0 v Hin). congruence. }
  unfold finish, send_ready. cbn. rewrite bool_decide_true by lia. eexists. split; [done|].
  split; cbn; try done.
  - rewrite map_size_delete_Some, map_size_insert_None by eauto. lia.
  - rewrite snoc_middle. by apply NoDup_cons.
  - intros u. rewrite snoc_middle, elem_of_cons. intros [->|Hu]; [rewrite lookup_insert_eq; eauto|].
    rewrite lookup_insert_ne by congruence. by apply inv_alive0.
  - intros u w. rewrite snoc_middle, elem_of_cons. intros [[-> _]|[_ Hu]]%lookup_insert_Some Hw; [by left|].
    right. by eapply inv_held0.
  - intros b' l' [_ Hl]%lookup_delete_Some. eauto.
Qed.

(** Dropping the last pointer of a view. *)
Lemma drop_view_ok v w p q :
  views p !! v = Some w -> v ∉ ready q ++ taken q -> ready q ++ taken q ⊆ ready p ++ taken p ->
  NoDup (ready q ++ taken q) -> (forall u, u <> v -> u ∈ ready p ++ taken p -> u ∈ ready q ++ taken q) ->
  (capacity q, frees q, size q, buffers q, views q, allocs q) =
  (capacity p, frees p, size p, buffers p, views p, allocs p) ->
  pool_inv p -> exists p', drop_view v w q = Some p' /\ pool_inv p' /\
    (ready p', taken p', views p', buffers p', frees p', capacity p', size p') =
    (ready q, taken q, delete v (views p), buffers p, frees p ++ [with_capacity], capacity p, size p).
Proof.
  intros Hv Hnv Hsub Hnd Hother [= E1 E2 E3 E4 E5 E6] I. destruct I.
  assert (0 < count (views p)) as Hpos.
  { apply Nat.neq_0_lt_0. intros E%map_size_empty_iff. by rewrite E in Hv. }
  unfold drop_view, send_free. cbn. rewrite E1, E2, E5. rewrite bool_decide_true by lia.
  eexists. split; [done|]. split; [|cbn; by rewrite E1, E3, E4].
  split; cbn; rewrite ?E1, ?E3, ?E4, ?E6; try done.
  - rewrite map_size_delete_Some, length_app by eauto. cbn. lia.
  - apply Forall_app. split; [done|]. by constructor.
  - intros u Hu. rewrite lookup_delete_ne by (intros ->; by apply Hnv). by apply inv_alive0, Hsub.
  - intros u w' [Hne Hu]%lookup_delete_Some Hw. apply Hother; [done|]. by eapply inv_held0.
Qed.

Lemma set_view_inv v w w' p :
  views p !! v = Some w -> (held w' = 0 -> v ∈ ready p ++ taken p) -> pool_inv p ->
  pool_inv (set_views (<[v := w']> (views p)) p).
Proof.
  intros Hv Hh []. split; cbn; try done.
  - by rewrite map_size_insert_Some by eauto.
  - intros u Hu. destruct (decide (u = v)) as [->|Hne]; [rewrite lookup_insert_eq; eauto|].
    rewrite lookup_insert_ne by done. by apply inv_alive0.
  - intros u w0 [[<- <-]|[_ Hu]]%lookup_insert_Some; [done|eauto].
Qed.

Lemma drop_shared_ok v w p :
  views p !! v = Some w -> 0 < held w -> pool_inv p -> exists p', drop_shared v w p = Some p' /\ pool_inv p'.
Proof.
  intros Hv Hh I. unfold drop_shared. case_bool_decide as Hc.
  - destruct Hc as (_ & Hr & Ht). destruct (drop_view_ok v w p p) as (p' & -> & I' & _); eauto; try apply I.
    by rewrite elem_of_app; intros [].
  - eexists. split; [done|]. apply (set_view_inv v w); [done| |done]. cbn. intros E.
    apply dec_stable. rewrite elem_of_app. intros Hn. apply Hc. split; [lia|]. split; intros ?; apply Hn; auto.
Qed.

Lemma collect_take_inv p : pool_inv p -> pool_inv (collect_take p).
Proof.
  intros I. unfold collect_take. case_bool_decide; [done|].
  assert (taken p ++ ready p ≡ₚ ready p ++ taken p) as E by apply Permutation_app_comm.
  destruct I. split; cbn; try done.
  - by rewrite E.
  - intros v. rewrite E. apply inv_alive0.
  - intros v w. rewrite E. apply inv_held0.
Qed.

Lemma filter_out (l : list nat) v : v ∈ l -> NoDup l -> l ≡ₚ v :: filter (fun u => u <> v) l.
Proof.
  intros Hv Hnd. induction Hnd as [|x l Hx Hnd IH]; [by apply not_elem_of_nil in Hv|].
  rewrite filter_cons. apply elem_of_cons in Hv as [->|Hv].
  - rewrite decide_False by (by intros []). f_equiv. clear -Hx.
    induction l as [|y l IH]; [done|]. apply not_elem_of_cons in Hx as [? Hx].
    rewrite filter_cons_True by done. by rewrite <-IH.
  - rewrite decide_True by (by intros ->). rewrite (IH Hv) at 1. apply Permutation_swap.
Qed.

(** Looking at a view taken: it is dropped, left to its holders, or put back. *)
Definition collect_views (v : nat) (w : View) (p : Pool) : gmap nat View :=
  if bool_decide (weak w = 0 /\ held w = 0) then delete v (views p) else views p.

Lemma collect_one_ok v w p :
  views p !! v = Some w -> v ∈ taken p -> pool_inv p ->
  exists p', collect_one v w p = Some p' /\ pool_inv p' /\
    views p' = collect_views v w p /\ taken p' = filter (fun u => u <> v) (taken p) /\
    ready p' = (if bool_decide (weak w = 0) then ready p else ready p ++ [v]) /\
    buffers p' = buffers p /\ capacity p' = capacity p /\ size p' = size p.
Proof.
  intros Hv Ht I. unfold collect_one, collect_views.
  pose proof (inv_nodup _ I) as Hnd. pose proof Hnd as Hnd'. apply NoDup_app in Hnd' as (Hr & Hrt & Ht').
  pose proof (filter_out _ _ Ht Ht') as Ep. set (ts := filter _ (taken p)) in *.
  assert (ready p ++ taken p ≡ₚ v :: ready p ++ ts) as E by (rewrite Ep; symmetry; apply Permutation_middle).
  assert (v ∉ ready p ++ ts /\ NoDup (ready p ++ ts)) as [Hnv Hnd2] by (rewrite E in Hnd; by apply NoDup_cons in Hnd).
  destruct (bool_decide (weak w = 0)) eqn:Ew; [apply bool_decide_eq_true in Ew|apply bool_decide_eq_false in Ew].
  - destruct (bool_decide (held w = 0)) eqn:Eh; [apply bool_decide_eq_true in Eh|apply bool_decide_eq_false in Eh].
    + rewrite bool_decide_true by done.
      destruct (drop_view_ok v w p (set_taken ts p)) as (p' & -> & I' & [= ? ? ? ? ? ? ?]); cbn; try done.
      * intros u. rewrite E. by right.
      * intros u Hu. rewrite E. by intros [->|?]%elem_of_cons.
      * exists p'. split_and!; try done; congruence.
    + rewrite bool_decide_false by naive_solver. eexists. split; [done|]. split; [|by split_and!].
      destruct I. split; cbn; try done.
      * intros u Hu. apply inv_alive0. rewrite E. by right.
      * intros u w' Hu Hw'. specialize (inv_held0 _ _ Hu Hw'). rewrite E in inv_held0.
        apply elem_of_cons in inv_held0 as [->|?]; [congruence|done].
  - rewrite bool_decide_false by naive_solver. unfold send_ready. cbn.
    pose proof (ready_le_views p I) as Hle. rewrite E in Hle. cbn in Hle. rewrite length_app in Hle.
    pose proof (inv_size p I). pose proof (inv_capacity p I).
    rewrite bool_decide_true by lia. eexists. split; [done|]. split; [|by split_and!].
    destruct I. split; cbn; try done.
    + rewrite snoc_middle. by apply NoDup_cons.
    + intros u. rewrite snoc_middle, <-E. apply inv_alive0.
    + intros u w' Hu Hw'. rewrite snoc_middle, <-E. by eapply inv_held0.
Qed.

Lemma pool_step_inv p p' : pool_step p p' -> pool_inv p -> pool_inv p'.
Proof.
  intros [] I.
  - by apply alloc_recv_inv.
  - by apply alloc_load_inv.
  - by apply alloc_cas_inv.
  - by apply write_buffer_inv; [apply push_front_ok|].
  - by apply write_buffer_inv; [apply push_back_ok|].
  - destruct (drop_buffer_ok b l p0) as (? & ? & ?); [done..|]. congruence.
  - destruct (finish_ok b v l p0) as (? & ? & ?); [done..|]. congruence.
  - apply (set_view_inv v w); [done| |done]. by apply (inv_held p0 I v w).
  - apply (set_view_inv v w); [done| |done]. by apply (inv_held p0 I v w).
  - by apply (set_view_inv v w).
  - destruct (drop_shared_ok v w p0) as (? & ? & ?); [done..|]. congruence.
  - by apply collect_take_inv.
  - destruct (collect_one_ok v w p0) as (? & ? & ? & _); [done..|]. congruence.
Qed.

Lemma pool_reachable_inv cap n p0 p : new cap n = Ok p0 -> rtc pool_step p0 p -> pool_inv p.
Proof.
  intros Hn Hr. eapply (rtc_ind_r pool_inv p0); [by eapply pool_new_inv| |exact Hr].
  intros; by eapply pool_step_inv.
Qed.

(** ** Theorems *)

(** However the threads interleave, the lists of a pool are never more than its
    capacity: each one is free and empty, in a buffer whose length is that of its data,
    or in a view; the views in the channel are alive and each is there once. *)
Theorem pool_accounts cap n p0 p :
  new cap n = Ok p0 -> rtc pool_step p0 p ->
  length (frees p) + count (buffers p) + count (views p) = size p /\ size p <= cap /\
  Forall (fun l => l = with_capacity) (frees p) /\
  (forall b l, buffers p !! b = Some l -> byte_len l = sum_list_with io_len (queue l)) /\
  NoDup (ready p) /\ (forall v, v ∈ ready p -> is_Some (views p !! v)).
Proof.
  intros Hn Hr. destruct (pool_reachable_inv _ _ _ _ Hn Hr).
  assert (capacity p = cap) as Ec.
  { assert (capacity p0 = cap) as <- by (unfold new in Hn; do 2 (case_bool_decide; [done|]); by injection Hn as <-).
    clear -Hr. induction Hr as [|p1 p2 p3 Hs Hr IH]; [done|]. rewrite IH. clear IH Hr.
    destruct Hs; unfold alloc_recv, alloc_load, alloc_cas, write_buffer, collect_take,
      drop_buffer, finish, drop_shared, collect_one, drop_view, send_free, send_ready in *;
      repeat case_match; simplify_eq/=; done. }
  split_and!; [lia|lia|done..| |].
  - by apply NoDup_app in inv_nodup0 as [? _].
  - intros v Hv. apply inv_alive0. apply elem_of_app. by left.
Qed.

(** No thread ever blocks on a channel of the pool: whatever the threads did before, a
    buffer can be dropped or finished, a pointer to a view dropped, and a view that
    [collect] took put back or recycled. *)
Theorem pool_never_blocks cap n p0 p :
  new cap n = Ok p0 -> rtc pool_step p0 p ->
  (forall b l, buffers p !! b = Some l ->
     is_Some (drop_buffer b l p) /\ forall v, views p !! v = None -> is_Some (finish b v l p)) /\
  (forall v w, views p !! v = Some w ->
     (0 < held w -> is_Some (drop_shared v w p)) /\ (v ∈ taken p -> is_Some (collect_one v w p))).
Proof.
  intros Hn Hr. pose proof (pool_reachable_inv _ _ _ _ Hn Hr) as I. split.
  - intros b l Hb. split; [by destruct (drop_buffer_ok b l p) as (? & -> & _)|].
    intros v Hv. by destruct (finish_ok b v l p) as (? & -> & _).
  - intros v w Hv. split; intros Hx.
    + by destruct (drop_shared_ok v w p) as (? & -> & _).
    + by destruct (collect_one_ok v w p) as (? & -> & _).
Qed.

(** The view has a handle. *)
Definition has_handle (vs : gmap nat View) (v : nat) : bool :=
  match vs !! v with Some w => negb (bool_decide (weak w = 0)) | None => false end.

Lemma filter_ext_elem (f g : nat -> bool) (l : list nat) :
  (forall u, u ∈ l -> f u = g u) -> filter (fun u => f u = true) l = filter (fun u => g u = true) l.
Proof.
  induction l as [|u l IH]; intros Hfg; [done|]. rewrite !filter_cons, (Hfg u) by (by left).
  rewrite IH; [done|]. intros x Hx. apply Hfg. by right.
Qed.

Lemma collect_loop_spec vs p :
  pool_inv p -> taken p = vs ->
  exists p', collect_loop vs p = Some p' /\ pool_inv p' /\ taken p' = [] /\
    buffers p' = buffers p /\ capacity p' = capacity p /\ size p' = size p /\
    (forall v w, views p' !! v = Some w <-> views p !! v = Some w /\ ~ (v ∈ vs /\ weak w = 0 /\ held w = 0)) /\
    ready p' = ready p ++ filter (fun v => has_handle (views p) v = true) vs.
Proof.
  revert p. induction vs as [|v vs IH]; intros p I Et.
  { exists p. split_and!; try done; [|by rewrite app_nil_r]. intros v w. rewrite elem_of_nil. naive_solver. }
  assert (v ∈ taken p) as Ht by (rewrite Et; left).
  destruct (inv_alive p I v) as [w Hv]; [apply elem_of_app; by right|].
  cbn [collect_loop]. rewrite Hv. cbn [mbind option_bind].
  destruct (collect_one_ok v w p Hv Ht I) as (p1 & -> & I1 & Ev1 & Et1 & Er1 & Eb1 & Ec1 & Es1).
  pose proof (inv_nodup p I) as Hnd. apply NoDup_app in Hnd as (_ & _ & Hnd). rewrite Et in Hnd.
  apply NoDup_cons in Hnd as [Hn Hnd].
  assert (filter (fun u => u <> v) (v :: vs) = vs) as Efl.
  { rewrite filter_cons_False by (by intros []). clear -Hn. induction vs as [|x vs IH]; [done|].
    apply not_elem_of_cons in Hn as [? Hn]. rewrite filter_cons_True by done. by rewrite IH. }
  rewrite Et, Efl in Et1. cbn [mbind option_bind].
  destruct (IH p1 I1 Et1) as (p' & E & I' & Et' & Eb & Ec & Es & Ev & Er).
  exists p'. rewrite E. unfold collect_views in Ev1.
  assert (forall u w', u <> v -> views p1 !! u = Some w' <-> views p !! u = Some w') as Hne.
  { intros u w' Hu. rewrite Ev1. destruct (bool_decide _); [by rewrite lookup_delete_ne|done]. }
  split_and!; try done; [congruence..| |].
  - intros u w'. rewrite Ev. destruct (decide (u = v)) as [->|Hu].
    + rewrite Ev1. destruct (bool_decide (weak w = 0 /\ held w = 0)) eqn:Hw;
        [apply bool_decide_eq_true in Hw|apply bool_decide_eq_false in Hw].
      * rewrite lookup_delete_eq, Hv. split; [by intros []|]. intros [[= <-] Hx]. destruct Hx. split; [left|done].
      * rewrite Hv. split; intros [[= <-] ?]; (split; [done|]); [intros (_ & ? & ?); naive_solver|naive_solver].
    + rewrite (Hne u w' Hu), elem_of_cons. naive_solver.
  - rewrite Er, Er1, filter_cons.
    rewrite (filter_ext_elem (has_handle (views p1)) (has_handle (views p)) vs).
    + assert (has_handle (views p) v = negb (bool_decide (weak w = 0))) as -> by (unfold has_handle; by rewrite Hv).
      destruct (bool_decide (weak w = 0)); [done|]. by rewrite <-app_assoc.
    + intros u Hu. unfold has_handle. rewrite Ev1. destruct (bool_decide (weak w = 0 /\ held w = 0)); [|done].
      rewrite lookup_delete_ne; [done|]. by intros ->.
Qed.

(** A [collect] that runs alone, when at least as many views are finished as lists are
    free, recycles exactly the finished views that nobody holds, keeps the others in the
    channel in their order if they have a handle, and never blocks; otherwise it does
    nothing. *)
Theorem collect_recycles cap n p0 p :
  new cap n = Ok p0 -> rtc pool_step p0 p -> taken p = [] ->
  exists p', collect p = Some p' /\ buffers p' = buffers p /\ size p' = size p /\
    if bool_decide (length (ready p) < length (frees p)) then p' = p
    else
      (forall v w, views p' !! v = Some w <->
         views p !! v = Some w /\ ~ (v ∈ ready p /\ weak w = 0 /\ held w = 0)) /\
      ready p' = filter (fun v => has_handle (views p) v = true) (ready p) /\
      length (frees p') + count (views p') = length (frees p) + count (views p).
Proof.
  intros Hn Hr Ht. pose proof (pool_reachable_inv _ _ _ _ Hn Hr) as I. unfold collect.
  case_bool_decide as Hlt; [by exists p|].
  pose proof (collect_take_inv p I) as I1. unfold collect_take in I1.
  rewrite bool_decide_false, Ht in I1 by done. cbn [app] in I1.
  destruct (collect_loop_spec (ready p) _ I1 eq_refl) as (p' & E & I' & Et' & Eb & Ec & Es & Ev & Er).
  exists p'. split_and!; try done.
  pose proof (inv_size p I). pose proof (inv_size p' I'). cbn in Eb, Es. rewrite Eb in *. lia.
Qed.

(** ** Witnesses *)

(** One buffer was taken, filled and finished. *)
Definition one_view : Pool :=
  mkPool 2 [] [0] 1 ∅ {[0 := mkView [mkIoBytes false [7%Z]] 0 0]} [] ∅.

Lemma one_view_reachable : rtc pool_step (mkPool 2 [with_capacity] [] 1 ∅ ∅ [] ∅) one_view.
Proof.
  eapply rtc_l; [by apply (step_recv 0 0)|].
  eapply rtc_l; [apply (step_push_back 0 (mkIoBytes false [7%Z]))|].
  eapply rtc_l; [by eapply (step_finish 0 0)|].
  eapply rtc_l; [apply (step_drop_handle 0 (mkView [mkIoBytes false [7%Z]] 0 1)); [done|cbn; lia]|]. apply rtc_refl.
Qed.

Lemma pool_accounts_witness :
  length (frees one_view) + count (buffers one_view) + count (views one_view) = 1 /\ 1 <= 2 /\
  Forall (fun l => l = with_capacity) (frees one_view) /\
  (forall b l, buffers one_view !! b = Some l -> byte_len l = sum_list_with io_len (queue l)) /\
  NoDup [0] /\ (forall v, v ∈ [0] -> is_Some (views one_view !! v)).
Proof. exact (pool_accounts 2 1 _ one_view eq_refl one_view_reachable). Defined.

Lemma pool_never_blocks_witness :
  (forall b l, buffers one_view !! b = Some l ->
     is_Some (drop_buffer b l one_view) /\ forall v, views one_view !! v = None -> is_Some (finish b v l one_view)) /\
  (forall v w, views one_view !! v = Some w ->
     (0 < held w -> is_Some (drop_shared v w one_view)) /\ (v ∈ taken one_view -> is_Some (collect_one v w one_view))).
Proof. exact (pool_never_blocks 2 1 _ one_view eq_refl one_view_reachable). Defined.

Lemma collect_recycles_witness :
  exists p', collect one_view = Some p' /\ buffers p' = ∅ /\ size p' = 1 /\
    (forall v w, views p' !! v = Some w <->
       views one_view !! v = Some w /\ ~ (v ∈ [0] /\ weak w = 0 /\ held w = 0)) /\
    ready p' = filter (fun v => has_handle (views one_view) v = true) [0] /\
    length (frees p') + count (views p') = 0 + 1.
Proof. exact (collect_recycles 2 1 _ one_view eq_refl one_view_reachable eq_refl). Defined.
