(* ===== verification/HttpMessage.v ===== *)
(** * HTTP messages (http/src/request.rs, response.rs, utils.rs)

    The request of a connection, the response that the middlewares fill, and the channel
    through which the application writes a body. The response and the handles of the
    application share cells; the operations of a handle act on the response. *)

From Stdlib Require Import Ascii.
From S2P Require Import Prelude HttpText ByteSearch.

#[local] Open Scope string_scope.
#[local] Open Scope list_scope.

(** ** The packages http, url and flate2 *)

Class HttpApi := {
  url : Type;
  url_parse : string -> option url;
  url_path : url -> string;
  url_query_pairs : url -> list (string * string);
  (** [Method::from_str], as the text of the method *)
  method_parse : string -> option string;
  (** [HeaderName::from_str], as the text of the name *)
  header_name : string -> option string;
  (** [HeaderValue::from_str] *)
  header_value : string -> option HeaderValue;
  (** the order in which [HeaderMap::iter] lists the values that were appended *)
  header_iter : list (string * HeaderValue) -> list (string * HeaderValue);
}.

(** The characters of lower-case names, and those of texts. *)
Definition name_char (c : ascii) : bool :=
  let n := N_of_ascii c in ((97 <=? n) && (n <=? 122) || (n =? 45))%N.
Definition visible_char (c : ascii) : bool := let n := N_of_ascii c in ((32 <=? n) && (n <=? 126))%N.

Class HttpLaws `{HttpApi} := {
  header_name_lower s : s <> "" -> str_all name_char s = true -> header_name s = Some s;
  header_value_visible s : str_all visible_char s = true -> header_value s = Some (header_of s);
  header_value_lossy s v : header_value s = Some v -> lossy v = s;
  header_iter_perm hs : header_iter hs ≡ₚ hs;
}.

Abbreviation HeaderMap := (list (string * HeaderValue)).

(** [HeaderMap::insert]: the values under the name are replaced. *)
Definition header_insert (name : string) (v : HeaderValue) (hs : HeaderMap) : HeaderMap :=
  filter (fun h => h.1 <> name) hs ++ [(name, v)].

(** ** The channel of a body *)

(** [HttpRecvResult] *)
Inductive HttpRecvResult (A : Type) :=
| RecvErr (e : ErrorKind)
| RecvOk (a : A)
| RecvFin (a : A).
Arguments RecvErr {A} e.
Arguments RecvOk {A} a.
Arguments RecvFin {A} a.

Abbreviation part := (Z * list Z)%type.

(** The receiver: the messages in the channel, those that the tasks the application left
    behind will send, whether the response still has its own sender, and whether the
    application keeps a sender for ever. [None] is the message that ends the body. *)
Record HttpReceiver := mkHttpReceiver {
  bound : nat;
  msgs : list (option part);
  coming : list (option part);
  own_sender : bool;
  app_sender : bool;
}.

(** [channel(size)] *)
Definition channel (size : nat) : HttpReceiver := mkHttpReceiver size [] [] true false.

(** [HttpSender::send] of a task that the receiver waits for: a full channel blocks it. *)
Definition send (m : option part) (r : HttpReceiver) : outcome HttpReceiver :=
  if bool_decide (length (msgs r) < bound r) then
    Done (mkHttpReceiver (bound r) (msgs r ++ [m]) (coming r) (own_sender r) (app_sender r))
  else Blocked.

(** [Receiver::recv_async]: the next message, an error when every sender is gone. *)
Definition recv_async (r : HttpReceiver) : outcome (HttpReceiver * io_result (option part)) :=
  match msgs r, coming r with
  | m :: ms, _ => Done (mkHttpReceiver (bound r) ms (coming r) (own_sender r) (app_sender r), Ok m)
  | [], m :: ms => Done (mkHttpReceiver (bound r) [] ms (own_sender r) (app_sender r), Ok m)
  | [], [] => if own_sender r || app_sender r then Blocked else Done (r, Err BrokenPipe)
  end.

(** [HttpReceiver::recv]; the loop takes one message at a turn. *)
Fixpoint recv_loop (fuel : nat) (r : HttpReceiver) (buf : list part)
    : outcome (HttpReceiver * HttpRecvResult (list part)) :=
  match fuel with
  | O => NoFuel
  | S fuel =>
      m ← recv_async r;
      match m with
      | (r, Err e) => Done (r, RecvErr BrokenPipe)
      | (r, Ok None) => Done (r, RecvFin buf)
      | (r, Ok (Some data)) => recv_loop fuel r (buf ++ [data])
      end
  end.

Definition recv (r : HttpReceiver) : outcome (HttpReceiver * HttpRecvResult (list part)) :=
  recv_loop (S (length (msgs r) + length (coming r))) r [].

(** [HttpReceiver::next] *)
Definition next_part (r : HttpReceiver) : outcome (HttpReceiver * HttpRecvResult (option part)) :=
  m ← recv_async r;
  match m with
  | (r, Err e) => Done (r, RecvErr BrokenPipe)
  | (r, Ok None) => Done (r, RecvFin None)
  | (r, Ok item) => Done (r, RecvOk item)
  end.

(** ** The body of a response *)

Record RespBody := mkRespBody {
  body_is_stream : bool;
  consumer : HttpReceiver;
  buf : option (list Z);
}.

Definition set_buf (x : option (list Z)) (b : RespBody) : RespBody :=
  mkRespBody (body_is_stream b) (consumer b) x.
Definition set_consumer (x : HttpReceiver) (b : RespBody) : RespBody :=
  mkRespBody (body_is_stream b) x (buf b).

Definition init (b : RespBody) : RespBody * bool :=
  match buf b with Some _ => (b, false) | None => (set_buf (Some []) b, true) end.

Definition body_len (b : RespBody) : option nat := length <$> buf b.

Definition push (bin : list Z) (b : RespBody) : RespBody :=
  match buf b with Some x => set_buf (Some (x ++ bin)) b | None => b end.

Definition reset (bin : list Z) (b : RespBody) : RespBody :=
  match buf b with Some _ => set_buf (Some bin) b | None => b end.

(** [RespBody::body], [RespBody::next]: an initialised body has no consumer. *)
Definition body_parts (b : RespBody) : outcome (RespBody * HttpRecvResult (list part)) :=
  match buf b with
  | Some _ => Done (b, RecvErr Other)
  | None => r ← recv (consumer b); Done (set_consumer r.1 b, r.2)
  end.

Definition body_next (b : RespBody) : outcome (RespBody * HttpRecvResult (option part)) :=
  match buf b with
  | Some _ => Done (b, RecvErr Other)
  | None => r ← next_part (consumer b); Done (set_consumer r.1 b, r.2)
  end.

(** The loop with which the last middlewares collect the body ([HttpPort::response],
    [FileLoad::response], [UploadFile::response]). *)
Fixpoint collect_body (fuel : nat) (body_bufs : list (list Z)) (b : RespBody)
    : outcome (RespBody * io_result unit) :=
  match fuel with
  | O => NoFuel
  | S fuel =>
      '(b, res) ← body_parts b;
      match res with
      | RecvErr e => Done (b, Err e)
      | RecvOk bodys => collect_body fuel (body_bufs ++ bodys.*2) b
      | RecvFin bodys =>
          let b := (init b).1 in
          let b := foldl (fun b bin => push bin b) b body_bufs in
          Done (foldl (fun b bin => push bin b) b bodys.*2, Ok tt)
      end
  end.

(** ** The response *)

Inductive ContentEncode := EncEmpty | EncDeflate (level : Z) | EncGzip (level : Z) | EncBr (level : Z).

Record HttpResponse := mkHttpResponse {
  is_stream : bool;
  content_encode : ContentEncode;
  start : option Z;                (* the status code *)
  headers : HeaderMap;
  resp_body : option RespBody;
}.

Definition set_is_stream x r := mkHttpResponse x (content_encode r) (start r) (headers r) (resp_body r).
Definition set_content_encode x r := mkHttpResponse (is_stream r) x (start r) (headers r) (resp_body r).
Definition set_start x r := mkHttpResponse (is_stream r) (content_encode r) x (headers r) (resp_body r).
Definition set_headers x r := mkHttpResponse (is_stream r) (content_encode r) (start r) x (resp_body r).
Definition set_body x r := mkHttpResponse (is_stream r) (content_encode r) (start r) (headers r) x.

Definition MAX_HTTP_RESP_BODY_BUFFER_LEN : Z := 0xffff.
Definition DEFAULT_STREAM_TRANSFER_ENCODING : string := "chunked".

Definition empty_resp : HttpResponse := mkHttpResponse false EncEmpty (Some 200%Z) [] None.

Definition new_resp (size : nat) : option HttpResponse :=
  if (MAX_HTTP_RESP_BODY_BUFFER_LEN <? Z.of_nat size)%Z then None
  else Some (mkHttpResponse false EncEmpty (Some 200%Z) [] (Some (mkRespBody false (channel size) None))).

(** The response that [HttpResponse::new(2)] gives. *)
Definition fresh : HttpResponse :=
  mkHttpResponse false EncEmpty (Some 200%Z) [] (Some (mkRespBody false (channel 2) None)).

Definition stream_resp (size : nat) : HttpResponse :=
  mkHttpResponse false EncEmpty None [] (Some (mkRespBody true (channel size) None)).

Section response.
Context `{HttpApi}.

(** [header]: a name or a value that is not valid is ignored. *)
Definition header (key value : string) (r : HttpResponse) : HttpResponse :=
  match header_name key with
  | Some key =>
      match header_value value with
      | Some v => set_headers (headers r ++ [(key, v)]) r
      | None => r
      end
  | None => r
  end.

Definition status (code : Z) (r : HttpResponse) : HttpResponse :=
  match start r with Some _ => set_start (Some code) r | None => r end.

Definition enable_stream (r : HttpResponse) : HttpResponse :=
  set_is_stream true (header "transfer-encoding" DEFAULT_STREAM_TRANSFER_ENCODING r).

Definition set_content_encode_by_stream (e : ContentEncode) (r : HttpResponse) : HttpResponse :=
  if is_stream r then
    set_content_encode e
      match e with
      | EncDeflate _ => header "content-encoding" "deflate" r
      | EncGzip _ => header "content-encoding" "gzip" r
      | EncBr _ => header "content-encoding" "br" r
      | EncEmpty => r
      end
  else r.

Definition get_header (key : string) (r : HttpResponse) : option HeaderValue := header_get key (headers r).

Definition contains_header (key : string) (r : HttpResponse) : bool := bool_decide (is_Some (get_header key r)).

(** The first lines of a response. *)
Definition CRLF : list Z := [13; 10]%Z.

Definition start_bytes (r : HttpResponse) : list Z :=
  match start r with
  | Some code => as_bytes ("HTTP/1.1 " +:+ to_dec code) ++ CRLF
  | None => []
  end.

Definition header_bytes (h : string * HeaderValue) : list Z :=
  as_bytes h.1 ++ as_bytes ":" ++ as_bytes (lossy h.2) ++ CRLF.

Definition head_bytes (r : HttpResponse) : list Z :=
  start_bytes r ++ concat (header_bytes <$> header_iter (headers r)) ++ CRLF.

(** [From<HttpResponse> for Vec<u8>]: a stream makes it panic. *)
Definition into_vec (r : HttpResponse) : option (list Z) :=
  if is_stream r then None
  else Some (head_bytes r ++ match resp_body r with Some b => default [] (buf b) | None => [] end).

(** [into_header_and_body]: the response drops its own sender. *)
Definition drop_sender (b : RespBody) : RespBody :=
  let c := consumer b in
  set_consumer (mkHttpReceiver (bound c) (msgs c) (coming c) false (app_sender c)) b.

Definition into_header_and_body (r : HttpResponse) : list Z * option RespBody :=
  (head_bytes r, drop_sender <$> resp_body r).

(** ** The handle of the application *)

(** What a task does with a [ResponseHandler]. *)
Inductive handler_op :=
| OpEnableStream
| OpStatus (code : Z)
| OpHeader (key value : string)
| OpWrite (index : Z) (bin : list Z)
| OpFinish.

(** Sending through the channel of the body. *)
Definition send_part (m : option part) (r : HttpResponse) : outcome HttpResponse :=
  match resp_body r with
  | Some b => c ← send m (consumer b); Done (set_body (Some (set_consumer c b)) r)
  | None => Done r
  end.

(** [ResponseHandler::enable_stream], [status], [header], [write_index], [finish] *)
Definition run_op (op : handler_op) (r : HttpResponse) : outcome HttpResponse :=
  match op with
  | OpEnableStream => Done (enable_stream r)
  | OpStatus code => Done (status code r)
  | OpHeader key value => Done (header key value r)
  | OpWrite index bin => send_part (Some (index, bin)) r
  | OpFinish => send_part None r
  end.

Fixpoint run_ops (ops : list handler_op) (r : HttpResponse) : outcome HttpResponse :=
  match ops with [] => Done r | op :: ops => r ← run_op op r; run_ops ops r end.

(** ** The request *)

Record StartLine := mkStartLine { method : string; req_url : url; version : string }.

Definition new_start_line (m u v : string) : option StartLine :=
  m ← method_parse m; u ← url_parse u; Some (mkStartLine m u v).

Record HttpRequest := mkHttpRequest {
  req_start : StartLine;
  req_headers : HeaderMap;
  content_len : option nat;
  req_body : list Z;
  req_body_len : nat;
}.

Definition set_req_body x q := mkHttpRequest (req_start q) (req_headers q) (content_len q) x (req_body_len q).
Definition set_req_body_len x q := mkHttpRequest (req_start q) (req_headers q) (content_len q) (req_body q) x.

(** The length that is left to read of the body. *)
Definition parse_content_len (hs : HeaderMap) (preffix : list Z) : option nat :=
  v ← header_get "content-length" hs;
  s ← to_str v;
  n ← parse_u64 s;
  Some (Z.to_nat n - length preffix).

(** [HttpRequest::new] *)
Definition new_request (m u v : string) (hs : HeaderMap) (preffix : list Z) : option HttpRequest :=
  st ← new_start_line m u v;
  Some (mkHttpRequest st hs (parse_content_len hs preffix) preffix (length preffix)).

(** [set_body] *)
Definition set_request_body (bin : list Z) (q : HttpRequest) : HttpRequest * bool :=
  match content_len q with
  | Some len => if bool_decide (0 < len) then (q, false) else (set_req_body bin q, true)
  | None => (q, true)
  end.
End response.

(** ** Receiving *)

(** All that the receiver will get. *)
Definition to_come (r : HttpReceiver) : list (option part) := msgs r ++ coming r.

Lemma recv_async_cons r m ms :
  to_come r = m :: ms ->
  exists r', recv_async r = Done (r', Ok m) /\ to_come r' = ms /\
    own_sender r' = own_sender r /\ app_sender r' = app_sender r.
Proof.
  destruct r as [n [|m1 ms1] [|m2 ms2] o a]; cbn; intros E; simplify_eq; cbn; eexists; by split_and!.
Qed.

Lemma recv_async_nil r :
  to_come r = [] ->
  recv_async r = if own_sender r || app_sender r then Blocked else Done (r, Err BrokenPipe).
Proof. destruct r as [n [|] [|] o a]; done. Qed.

(** A receiver that gets the parts of a body and its end collects the parts; one that
    does not get the end waits for ever, or fails when all senders are gone. *)
Lemma recv_loop_ends fuel r acc parts rest :
  to_come r = (Some <$> parts) ++ None :: rest -> length parts < fuel ->
  exists r', recv_loop fuel r acc = Done (r', RecvFin (acc ++ parts)) /\ to_come r' = rest.
Proof.
  revert r acc parts. induction fuel as [|fuel IH]; intros r acc parts Hr Hf; [lia|].
  destruct parts as [|p parts]; cbn in Hr; cbn [recv_loop].
  - destruct (recv_async_cons _ _ _ Hr) as (r' & -> & Hr' & _). cbn. rewrite app_nil_r. eauto.
  - destruct (recv_async_cons _ _ _ Hr) as (r' & -> & Hr' & _). cbn [mbind outcome_bind].
    destruct (IH r' (acc ++ [p]) parts Hr') as (r2 & -> & ?); [cbn in Hf; lia|].
    rewrite <-app_assoc. eauto.
Qed.

Lemma recv_loop_open fuel r acc parts :
  to_come r = Some <$> parts -> length parts < fuel ->
  (own_sender r || app_sender r = true -> recv_loop fuel r acc = Blocked) /\
  (own_sender r || app_sender r = false -> exists r', recv_loop fuel r acc = Done (r', RecvErr BrokenPipe)).
Proof.
  revert r acc parts. induction fuel as [|fuel IH]; intros r acc parts Hr Hf; [lia|].
  destruct parts as [|p parts]; cbn in Hr; cbn [recv_loop].
  - rewrite (recv_async_nil r Hr). split; intros ->; cbn; eauto.
  - destruct (recv_async_cons _ _ _ Hr) as (r' & -> & Hr' & E1 & E2). cbn [mbind outcome_bind].
    rewrite <-E1, <-E2. apply (IH r' (acc ++ [p]) parts Hr'). cbn in Hf. lia.
Qed.

Lemma recv_ends r parts rest :
  to_come r = (Some <$> parts) ++ None :: rest ->
  exists r', recv r = Done (r', RecvFin parts) /\ to_come r' = rest.
Proof.
  intros Hr. unfold recv. apply (recv_loop_ends _ r [] parts rest Hr). rewrite <-length_app. fold (to_come r).
  rewrite Hr, length_app, length_fmap. cbn. lia.
Qed.

Lemma recv_open r parts :
  to_come r = Some <$> parts ->
  (own_sender r || app_sender r = true -> recv r = Blocked) /\
  (own_sender r || app_sender r = false -> exists r', recv r = Done (r', RecvErr BrokenPipe)).
Proof.
  intros Hr. unfold recv. apply (recv_loop_open _ r [] parts Hr). rewrite <-length_app. fold (to_come r).
  rewrite Hr, length_fmap. lia.
Qed.

(** ** Collecting a body *)

Lemma push_all bins b x :
  buf b = Some x -> foldl (fun b bin => push bin b) b bins = set_buf (Some (x ++ concat bins)) b.
Proof.
  revert b x. induction bins as [|bin bins IH]; intros b x Hb; cbn [foldl concat].
  { rewrite app_nil_r. destruct b; cbn in *; by subst. }
  rewrite (IH _ (x ++ bin)).
  - unfold push. rewrite Hb. cbn. by rewrite <-app_assoc.
  - unfold push. by rewrite Hb.
Qed.

Lemma collect_body_ends b parts rest :
  buf b = None -> to_come (consumer b) = (Some <$> parts) ++ None :: rest ->
  exists b', collect_body 2 [] b = Done (b', Ok tt) /\ buf b' = Some (concat parts.*2) /\
    body_is_stream b' = body_is_stream b.
Proof.
  intros Ef Hm. cbn [collect_body]. unfold body_parts. rewrite Ef. destruct (recv_ends _ _ _ Hm) as (c' & -> & _).
  cbn [mbind outcome_bind fst snd foldl]. unfold init. cbn [set_consumer buf]. rewrite Ef. cbn [fst].
  rewrite (push_all _ _ []) by done. eexists. by split_and!.
Qed.

(** A body whose end does not come is waited for for ever. *)
Lemma collect_body_open b parts :
  buf b = None -> to_come (consumer b) = Some <$> parts -> own_sender (consumer b) = true ->
  collect_body 2 [] b = Blocked.
Proof.
  intros Ef Hm Ho. cbn [collect_body]. unfold body_parts. rewrite Ef.
  destruct (recv_open _ _ Hm) as [Hb _]. by rewrite Hb by (by rewrite Ho).
Qed.

(** ** Writing *)

(** The messages that an operation of a handle sends. *)
Definition op_msgs (op : handler_op) : list (option part) :=
  match op with OpWrite i bin => [Some (i, bin)] | OpFinish => [None] | _ => [] end.

Section writing.
Context `{HttpApi}.

Lemma header_body key value r : resp_body (header key value r) = resp_body r.
Proof. unfold header. by repeat case_match. Qed.

Lemma header_start key value r : start (header key value r) = start r.
Proof. unfold header. by repeat case_match. Qed.

Lemma status_body code r : resp_body (status code r) = resp_body r.
Proof. unfold status. by case_match. Qed.

(** One operation: it sends its messages if the channel has room, else it blocks. *)
Lemma run_op_spec op r b :
  resp_body r = Some b ->
  if decide (length (msgs (consumer b)) + length (op_msgs op) <= bound (consumer b) \/ op_msgs op = []) then
    exists r' b', run_op op r = Done r' /\ resp_body r' = Some b' /\
      msgs (consumer b') = msgs (consumer b) ++ op_msgs op /\ bound (consumer b') = bound (consumer b) /\
      coming (consumer b') = coming (consumer b) /\ buf b' = buf b /\
      own_sender (consumer b') = own_sender (consumer b)
  else run_op op r = Blocked.
Proof.
  intros Hb. destruct op; cbn [op_msgs run_op].
  - rewrite decide_True by auto. exists (enable_stream r), b. rewrite app_nil_r. cbn. by rewrite header_body.
  - rewrite decide_True by auto. exists (status code r), b. rewrite app_nil_r. by rewrite status_body.
  - rewrite decide_True by auto. exists (header key value r), b. rewrite app_nil_r. by rewrite header_body.
  - unfold send_part, send. rewrite Hb. destruct (decide _) as [[Hd|]|Hd]; [|done|].
    + cbn in Hd. rewrite bool_decide_true by lia. cbn. eexists _, _. by split_and!.
    + rewrite bool_decide_false; [done|]. intros ?. apply Hd. left. cbn. lia.
  - unfold send_part, send. rewrite Hb. destruct (decide _) as [[Hd|]|Hd]; [|done|].
    + cbn in Hd. rewrite bool_decide_true by lia. cbn. eexists _, _. by split_and!.
    + rewrite bool_decide_false; [done|]. intros ?. apply Hd. left. cbn. lia.
Qed.

(** A task that runs before anybody receives: all its messages fit, or it blocks. *)
Lemma run_ops_spec ops r b :
  resp_body r = Some b -> length (msgs (consumer b)) <= bound (consumer b) ->
  if decide (length (msgs (consumer b)) + length (concat (op_msgs <$> ops)) <= bound (consumer b)) then
    exists r' b', run_ops ops r = Done r' /\ resp_body r' = Some b' /\
      msgs (consumer b') = msgs (consumer b) ++ concat (op_msgs <$> ops) /\
      bound (consumer b') = bound (consumer b) /\
      coming (consumer b') = coming (consumer b) /\ buf b' = buf b /\
      own_sender (consumer b') = own_sender (consumer b)
  else run_ops ops r = Blocked.
Proof.
  revert r b. induction ops as [|op ops IH]; intros r b Hb Hle; cbn [run_ops].
  { cbn. rewrite decide_True by lia. exists r, b. by rewrite app_nil_r. }
  rewrite fmap_cons. cbn [concat]. rewrite length_app.
  pose proof (run_op_spec op r b Hb) as H1. destruct (decide _) as [Hd|Hd].
  - destruct H1 as (r1 & b1 & -> & Hb1 & Em & Eb & Ec & Ef & Eo). cbn [mbind outcome_bind].
    specialize (IH r1 b1 Hb1). rewrite Em, Eb, Ec, Ef, Eo, !length_app in IH.
    assert (length (msgs (consumer b)) + length (op_msgs op) <= bound (consumer b)) as Hle1.
    { destruct Hd as [?| ->]; [done|]. cbn. lia. }
    specialize (IH Hle1). rewrite <-app_assoc, <-Nat.add_assoc in IH. exact IH.
  - rewrite H1. rewrite decide_False; [done|]. intros ?. apply Hd. left. lia.
Qed.
End writing.

(** ** Headers of a response *)

Section headers.
Context `{HttpLaws}.

(** A header whose name is lower-case and whose value is visible is added. *)
Lemma header_added key value r :
  key <> "" -> str_all name_char key = true -> str_all visible_char value = true ->
  header key value r = set_headers (headers r ++ [(key, header_of value)]) r.
Proof. intros Hk Hn Hv. unfold header. by rewrite header_name_lower, header_value_visible. Qed.

Lemma to_dec_visible n : str_all visible_char (to_dec n) = true.
Proof.
  eapply str_all_impl; [|apply to_dec_digits]. intros c Hc.
  unfold is_digit, visible_char in *. apply andb_prop in Hc as [H1%N.leb_le H2%N.leb_le].
  apply andb_true_intro. by split; apply N.leb_le; lia.
Qed.

Lemma header_get_snoc_ne k k' v (hs : HeaderMap) : k' <> k -> header_get k (hs ++ [(k', v)]) = header_get k hs.
Proof.
  intros Hne. unfold header_get. destruct (list_find _ (hs ++ _)) as [[i x]|] eqn:E.
  - apply list_find_app_Some in E as [E|(_ & E & Hl)]; [by rewrite E|].
    exfalso. cbn in Hl. rewrite decide_False in Hl by (by cbn). done.
  - apply list_find_None in E. apply Forall_app in E as [E _].
    by rewrite (proj2 (list_find_None _ _) E).
Qed.

Lemma header_get_snoc_eq k v (hs : HeaderMap) : header_get k hs = None -> header_get k (hs ++ [(k, v)]) = Some v.
Proof.
  unfold header_get. intros E. destruct (list_find (fun h => h.1 = k) hs) as [[i x]|] eqn:El; [done|].
  rewrite list_find_app_r by (by apply El). cbn. by rewrite decide_True by (by cbn).
Qed.

Lemma contains_header_false k r : contains_header k r = false <-> header_get k (headers r) = None.
Proof. unfold contains_header, get_header. rewrite bool_decide_eq_false. symmetry. apply eq_None_not_Some. Qed.
End headers.
