(* ===== verification/HttpSample.v ===== *)
(** * Concrete packages for the HTTP layer

    Simple stand-ins for the packages http and url, with which the theorems of the HTTP
    files are applied to concrete messages. *)

From Stdlib Require Import Ascii.
From S2P Require Import Prelude HeadLoop HttpText ByteSearch HttpMessage.

#[local] Open Scope string_scope.
#[local] Open Scope list_scope.

(** Behind [http://] or [https://]: the host, and the path with its query. *)
Definition sample_rest (u : string) : option string :=
  if String.prefix "http://" u then Some (str_drop 7 u)
  else if String.prefix "https://" u then Some (str_drop 8 u) else None.

Definition sample_url_parse (u : string) : option (string * string) :=
  rest ← sample_rest u;
  i ← find_char "/"%char rest;
  let p := str_drop i rest in
  match find_char "?"%char p with
  | Some j => Some (str_take j p, str_drop (S j) p)
  | None => Some (p, "")
  end.

Definition sample_pairs (query : string) : list (string * string) :=
  split_on "&"%char query ≫= fun kv =>
    match split_on "="%char kv with [k; v] => [(k, v)] | _ => [] end.

#[export] Instance sample_http : HttpApi := {
  url := string * string;
  url_parse := sample_url_parse;
  url_path u := u.1;
  url_query_pairs u := sample_pairs u.2;
  method_parse m := if str_all (fun c => negb (is_space c)) m then Some m else None;
  header_name k := if bool_decide (k = "") then None else Some (to_lowercase k);
  header_value v := if str_all (fun c => (32 <=? N_of_ascii c)%N) v then Some (header_of v) else None;
  header_iter hs := hs }.

#[export] Instance sample_http_laws : HttpLaws.
Proof.
  split; [| | |done].
  - intros s Hs Hn. cbn. rewrite bool_decide_false by done. f_equal. apply str_all_lower.
    eapply str_all_impl; [|exact Hn]. intros c Hc. apply bool_decide_eq_true. unfold name_char, lower in *.
    destruct ((65 <=? N_of_ascii c) && (N_of_ascii c <=? 90))%N eqn:E; [|done]. exfalso.
    apply andb_prop in E as [E1%N.leb_le E2%N.leb_le].
    apply orb_prop in Hc as [[H1%N.leb_le H2%N.leb_le]%andb_prop|H1%N.eqb_eq]; lia.
  - intros s Hs. cbn. rewrite (str_all_impl visible_char); [done| |done].
    intros c Hc. unfold visible_char in Hc. by apply andb_prop in Hc as [Hc _].
  - intros s v. cbn. destruct (str_all _ _); [|done]. by intros [= <-].
Qed.

(** A request with these headers. *)
Definition sample_request (m p : string) (hs : list (string * string)) : HttpRequest :=
  mkHttpRequest (mkStartLine m (p, "") "HTTP/1.1") ((fun h => (h.1, header_of h.2)) <$> hs)
    (parse_content_len ((fun h => (h.1, header_of h.2)) <$> hs) []) [] 0.

(** A response whose body is ready. *)
Definition sample_body (bin : list Z) : RespBody := mkRespBody false (channel 2) (Some bin).
Definition sample_response (bin : list Z) : HttpResponse :=
  mkHttpResponse false EncEmpty (Some 200%Z) [] (Some (sample_body bin)).

(** A parser of heads: lines up to an empty one, the first of three words; the version
    is known once the first line is there. *)
Definition LF : ascii := "010"%char.
Definition is_cr (c : ascii) : bool := bool_decide (c = "013"%char).

Definition sample_header (line : string) : option (string * list Z) :=
  i ← find_char ":"%char line; Some (str_take i line, as_bytes (trim (str_drop (S i) line))).

Definition sample_version (lines : list string) : option Z :=
  match split_on " "%char (default "" (hd_error (removelast lines))) with
  | [_; _; v] => Some (if bool_decide (trim_matches is_cr v = "HTTP/1.1") then 1 else 0)%Z
  | _ => None
  end.

Definition sample_parse (limit : nat) (bytes : list Z) : Parsed :=
  let lines := split_on LF (text_of bytes) in
  match list_find (fun l => trim_matches is_cr l = "") (removelast lines) with
  | None => Partial (sample_version lines)
  | Some (i, _) =>
      let len := foldr (fun l n => String.length l + 1 + n) 0 (firstn (S i) lines) in
      let hs := sample_header <$> drop 1 (firstn i lines) in
      match split_on " "%char (default "" (hd_error lines)) with
      | [m; p; _] =>
          if bool_decide (length hs <= limit /\ None ∉ hs) then Complete len (Some m) (Some p) (omap id hs) else ParseError
      | _ => ParseError
      end
  end.

#[export] Instance sample_head_parser : HeadParser := { parse_head := sample_parse }.

(** The condition on a head, computed. *)
Definition head_check (limit : nat) (head rest : list Z) (m p : string) (l : list (string * list Z)) : bool :=
  bool_decide (0 < length head) &&
  forallb (fun k => bool_decide (parse_head limit (take k (head ++ rest)) ∈ [Partial None; Partial (Some HTTP_VERSION)])) (seq 1 (length head - 1)) &&
  forallb (fun k => bool_decide (parse_head limit (take k (head ++ rest)) = Complete (length head) (Some m) (Some p) l))
    (seq (length head) (length rest + 1)).

Lemma head_check_ok limit head rest m p l :
  head_check limit head rest m p l = true -> starts_with_head limit head rest m p l.
Proof.
  unfold head_check. intros [[H1%bool_decide_eq_true H2]%andb_prop H3]%andb_prop.
  rewrite forallb_forall in H2, H3. split; [done|]. split; intros k Hk.
  - specialize (H2 k ltac:(apply in_seq; lia)). apply bool_decide_eq_true_1 in H2. set_solver.
  - rewrite length_app in Hk. eapply bool_decide_eq_true_1, H3, in_seq. lia.
Qed.
