(* ===== verification/HttpBody.v ===== *)
(** * Reading the body of a request (http/src/request.rs)

    The asynchronous methods of a request read from the connection, a [ByteSource]. Their
    loops look at the read buffer, call [read_ready] and await its value; a loop that goes
    on without ever waiting is [NoFuel] for every fuel. *)

From S2P Require Import Prelude ByteSource HttpText HttpMessage.

Section body.
Context `{HttpApi} {S : Type} `{ByteSource S}.

(** The loop of [body] and [take_body]: [false] when the connection was closed. *)
Fixpoint wait_body (fuel len : nat) (s : S) : outcome (S * bool) :=
  match fuel with
  | O => NoFuel
  | Datatypes.S fuel =>
      let current_body_len := length (src_buffered s) in
      if bool_decide (current_body_len < len) then
        '(s, more) ← read_more (len - current_body_len) s;
        if (more : bool) then wait_body fuel len s else Done (s, false)
      else Done (s, true)
  end.

(** [HttpRequest::body]: the whole read buffer is lent. *)
Definition body (fuel : nat) (q : HttpRequest) (s : S) : outcome (S * HttpRequest * option (list Z)) :=
  match content_len q with
  | Some 0 => Done (s, q, Some [])
  | Some len =>
      '(s, whole) ← wait_body fuel len s;
      if (whole : bool) then Done (s, set_req_body_len (length (src_buffered s)) q, Some (src_buffered s))
      else Done (s, q, None)
  | None => Done (s, q, None)
  end.

(** [HttpRequest::take_body] *)
Definition take_body (fuel : nat) (q : HttpRequest) (s : S) : outcome (S * HttpRequest * option (list Z)) :=
  match content_len q with
  | Some 0 => Done (s, q, Some [])
  | Some len =>
      '(s, whole) ← wait_body fuel len s;
      if (whole : bool) then
        '(s', bytes) ← lift (src_take len s);
        Done (s', set_req_body_len (length (src_buffered s)) q, Some bytes)
      else Done (s, q, None)
  | None => Done (s, q, None)
  end.

(** [HttpRequest::next_body] *)
Fixpoint next_body (fuel block_size : nat) (q : HttpRequest) (s : S)
    : outcome (S * HttpRequest * option (list Z)) :=
  match fuel with
  | O => NoFuel
  | Datatypes.S fuel =>
      let remaining := length (src_buffered s) in
      if bool_decide (remaining = 0) then
        '(s, more) ← read_more 0 s;
        if (more : bool) then next_body fuel block_size q s else Done (s, q, None)
      else
        let block_size := if bool_decide (remaining < block_size) then remaining else block_size in
        '(s, bytes) ← lift (src_take block_size s);
        Done (s, set_req_body_len (req_body_len q + length bytes) q, Some bytes)
  end.
End body.

Section properties.
Context `{HttpApi} {S : Type} `{ByteSourceLaws S}.

Lemma wait_body_enough fuel len s :
  len <= length (src_buffered s) -> wait_body (Datatypes.S fuel) len s = Done (s, true).
Proof. intros Hl. cbn [wait_body]. by rewrite bool_decide_false by lia. Qed.

(** With some bytes buffered, but fewer than wanted and no fewer than those missing, no
    turn of the loop waits: it never ends. *)
Lemma wait_body_spins fuel len s :
  src_live s -> 0 < length (src_buffered s) < len -> len <= 2 * length (src_buffered s) ->
  wait_body fuel len s = NoFuel.
Proof.
  revert s. induction fuel as [|fuel IH]; intros s Hl Hb H2; [done|]. cbn [wait_body].
  rewrite bool_decide_true by lia.
  destruct (src_ready_now (len - length (src_buffered s)) s Hl) as (Ea & s' & E & Hl' & Eb & _); [lia..|].
  unfold read_more. rewrite E, Ea. cbn. apply IH; [done|rewrite Eb; lia|rewrite Eb; lia].
Qed.

(** The body is whole when nothing of it was there before the wait, or all of it. *)
Lemma wait_body_delivers fuel len s :
  src_live s -> src_buffered s = [] \/ len <= length (src_buffered s) -> len <= length (src_stream s) ->
  exists s', wait_body (2 + fuel) len s = Done (s', true) /\ src_live s' /\
    src_stream s' = src_stream s /\ len <= length (src_buffered s').
Proof.
  intros Hl Hb Hn. change (2 + fuel) with (Datatypes.S (Datatypes.S fuel)).
  destruct (decide (len <= length (src_buffered s))) as [Hle|Hlt].
  { exists s. by rewrite wait_body_enough. }
  destruct Hb as [Hb|]; [|lia]. rewrite Hb in Hlt. cbn in Hlt.
  destruct (read_more_wait len s Hl) as (s' & E & Hl' & Es & Hlen); [rewrite Hb; cbn; lia|done|].
  exists s'. split; [|done]. cbn [wait_body]. rewrite bool_decide_true by (rewrite Hb; cbn; lia).
  rewrite Hb. cbn [length]. rewrite Nat.sub_0_r, E. cbn [mbind outcome_bind fst snd].
  by rewrite bool_decide_false by lia.
Qed.

(** [take_body] when nothing of the body has come with the head, or all of it. *)
Lemma take_body_spec fuel len q s :
  content_len q = Some len -> src_live s ->
  src_buffered s = [] \/ len <= length (src_buffered s) -> len <= length (src_stream s) ->
  exists s' n, take_body (2 + fuel) q s = Done (s', set_req_body_len n q, Some (take len (src_stream s))) /\
    src_live s' /\ src_stream s' = drop len (src_stream s).
Proof.
  intros Hq Hl Hb Hn. unfold take_body. rewrite Hq. destruct len as [|len].
  { exists s, (req_body_len q). destruct q. by rewrite take_0, drop_0. }
  destruct (wait_body_delivers fuel (Datatypes.S len) s Hl Hb Hn) as (s1 & -> & Hl1 & Es & Hlen).
  cbn [mbind outcome_bind fst snd]. destruct (src_take_ok _ s1 Hl1 Hlen) as (s2 & -> & Hl2 & _ & Es2).
  cbn. eexists _, _. rewrite src_buffered_take, Es by done. split_and!; [done..|]. by rewrite Es2, Es.
Qed.

(** A body of which nothing has come with the head, or all of it, is taken exactly,
    however it is cut into segments; the bytes behind it stay in the stream. *)
Theorem take_body_delivers fuel len q s :
  content_len q = Some len -> src_live s ->
  src_buffered s = [] \/ len <= length (src_buffered s) -> len <= length (src_stream s) ->
  exists s' q', take_body (2 + fuel) q s = Done (s', q', Some (take len (src_stream s))) /\
    src_live s' /\ src_stream s' = drop len (src_stream s).
Proof. intros Hq Hl Hb Hn. destruct (take_body_spec fuel len q s) as (s' & n & ?); eauto. Qed.

(** When a part of a body has come with the head, at least half of it but not all, both
    [body] and [take_body] loop for ever without waiting: the missing bytes are asked for
    as if they were all that has to be buffered. *)
Theorem body_loop_spins len q s :
  content_len q = Some len -> src_live s ->
  length (src_buffered s) < len -> 0 < length (src_buffered s) -> len <= 2 * length (src_buffered s) ->
  forall fuel, body fuel q s = NoFuel /\ take_body fuel q s = NoFuel.
Proof.
  intros Hq Hl Hlt Hp H2 fuel. unfold body, take_body. rewrite Hq. destruct len as [|len]; [lia|].
  by rewrite wait_body_spins by (done || lia).
Qed.

(** A block of a streamed body is a non-empty prefix of the stream of at most the size
    asked for, and the rest stays; nothing is given only if the wait was woken by an event
    without data. *)
Theorem next_body_block fuel block_size q s :
  src_live s -> src_stream s <> [] -> 0 < block_size ->
  exists s' q' r, next_body (2 + fuel) block_size q s = Done (s', q', r) /\ src_live s' /\
    match r with
    | Some bin => bin <> [] /\ length bin <= block_size /\ src_stream s = bin ++ src_stream s'
    | None => src_buffered s = [] /\ src_stream s' = src_stream s
    end.
Proof.
  intros Hl Hs Hb.
  enough (forall fuel s, src_live s -> src_buffered s <> [] ->
    exists s' q' bin, next_body (1 + fuel) block_size q s = Done (s', q', Some bin) /\ src_live s' /\
      bin <> [] /\ length bin <= block_size /\ src_stream s = bin ++ src_stream s') as Hk.
  { destruct (decide (src_buffered s = [])) as [E|E].
    - destruct (src_ready_any s Hl E Hs) as (Ea & v & s1 & E1 & Hl1 & Ev & Es1).
      change (2 + fuel) with (Datatypes.S (1 + fuel)). cbn [next_body]. rewrite E. cbn [length].
      rewrite bool_decide_true by done. unfold read_more. rewrite E1, Ea. cbn [orb mbind outcome_bind fst snd].
      destruct v as [|v]; cbn [negb bool_decide].
      + exists s1, q, None. by split_and!.
      + rewrite bool_decide_false by done. cbn [negb].
        destruct (Hk fuel s1 Hl1) as (s' & q' & bin & -> & ? & ? & ? & ?); [by destruct (src_buffered s1)|].
        exists s', q', (Some bin). rewrite <-Es1. by split_and!.
    - destruct (Hk (1 + fuel) s Hl E) as (s' & q' & bin & E1 & ? & ? & ? & ?). exists s', q', (Some bin). by split_and!. }
  clear s Hl Hs fuel. intros fuel s Hl Hne. change (1 + fuel) with (Datatypes.S fuel). cbn [next_body].
  assert (length (src_buffered s) <> 0) as Hne' by (by destruct (src_buffered s)).
  rewrite bool_decide_false by done.
  set (n := if bool_decide _ then _ else _).
  assert (0 < n <= length (src_buffered s) /\ n <= block_size) as [Hn1 Hn2] by (unfold n; case_bool_decide; lia).
  destruct (src_take_ok n s Hl) as (s' & -> & Hl' & _ & Es); [lia|]. cbn.
  eexists s', _, _. split; [done|]. split; [done|]. split_and!.
  - destruct (src_buffered s); [done|]. destruct n; [lia|done].
  - rewrite length_take. lia.
  - rewrite Es, src_buffered_take by lia. by rewrite take_drop.
Qed.
End properties.
