(* ===== verification/HttpRoute.v ===== *)
(** * Routes and virtual hosts (http/src/route.rs, virtual_host.rs)

    A router keeps the routes of one method: a table of fixed paths, and two lists of
    patterns with [*] and [**] that the package regex matches. The table of routers by
    method belongs to a virtual host, which is found by the name of the host. A table that
    was cloned is shared and can no longer be written. *)

From Stdlib Require Import Ascii.
From S2P Require Import Prelude HttpText.

#[local] Open Scope string_scope.
#[local] Open Scope list_scope.

(** The package regex: whether a pattern compiles, and whether it is found in a text. *)
Class RegexApi := {
  regex_ok : string -> bool;
  regex_match : string -> string -> bool;
}.

(** [str::replace] of a pattern that is not empty; [skip] characters belong to the match. *)
Fixpoint replace_loop (pat to : string) (skip : nat) (s : string) : string :=
  match s with
  | EmptyString => EmptyString
  | String c s' =>
      match skip with
      | S skip => replace_loop pat to skip s'
      | O => if String.prefix pat s then to +:+ replace_loop pat to (String.length pat - 1) s'
             else String c (replace_loop pat to 0 s')
      end
  end.

Definition replace (pat to s : string) : string := replace_loop pat to 0 s.

Definition DOT_CHAR : string := ".".
Definition SINGLE_STAR_CHAR : string := "*".
Definition DOUBLE_STAR_CHAR : string := "**".
Definition REPLACED_DOT : string := "\.".
Definition REPLACED_SINGLE_STAR : string := "([\w \.-])+".
Definition REPLACED_DOUBLE_STAR : string := "/?([\w \.-]/?)+".

(** The filter: at least one character that is no star, then a dot or a star at the end. *)
Fixpoint filter_loop (s : string) : bool :=
  match s with
  | EmptyString => false
  | String c EmptyString => bool_decide (c = "."%char \/ c = "*"%char)
  | String c s => negb (bool_decide (c = "*"%char)) && filter_loop s
  end.

Definition filter_match (s : string) : bool :=
  match s with String c (String c' s) => filter_loop (String c (String c' s)) | _ => false end.

Section route.
Context `{RegexApi} {Handler : Type}.

(** ** Patterns *)

(** [WildcardRouter]; the patterns of the matcher are those at the time of [finish]. *)
Record WildcardRouter := mkWildcardRouter {
  matchor : option (list string);
  route : list string;
  handlers : list Handler;
  w_shared : bool;
}.

Definition new_wildcard : WildcardRouter := mkWildcardRouter None [] [] false.

Definition wildcard_add (r : string) (h : Handler) (w : WildcardRouter) : option WildcardRouter :=
  if w_shared w then None
  else Some (mkWildcardRouter (matchor w) (route w ++ [r]) (handlers w ++ [h]) false).

Definition wildcard_finish (w : WildcardRouter) : WildcardRouter * io_result unit :=
  if forallb regex_ok (route w) then
    (mkWildcardRouter (Some (route w)) (route w) (handlers w) (w_shared w), Ok tt)
  else (w, Err Other).

(** [RegexSet::is_match], [RegexSet::matches]: the indices in order. *)
Definition set_matches (path : string) (set : list string) : list nat :=
  imap (fun i p => (i, p)) set ≫= fun ip => if regex_match ip.2 path then [ip.1] else [].

Definition wildcard_is_match (path : string) (w : WildcardRouter) : bool :=
  match matchor w with Some set => existsb (fun p => regex_match p path) set | None => false end.

(** [match_route]: the last pattern that was added; [None] is a panic of the index. *)
Definition wildcard_match_route (path : string) (w : WildcardRouter) : option (option Handler) :=
  match matchor w with
  | Some set =>
      match last (set_matches path set) with
      | Some i => h ← handlers w !! i; Some (Some h)
      | None => Some None
      end
  | None => Some None
  end.

(** ** The routes of a method *)

Record Router := mkRouter {
  fixed : gmap string Handler;
  single_wildcard : WildcardRouter;
  mutil_wildcard : WildcardRouter;
  r_shared : bool;
}.

Definition new_router : Router := mkRouter ∅ new_wildcard new_wildcard false.

Definition double_star_pattern (route : string) : string :=
  replace SINGLE_STAR_CHAR REPLACED_SINGLE_STAR
    (replace DOUBLE_STAR_CHAR REPLACED_DOUBLE_STAR (replace DOT_CHAR REPLACED_DOT route)).
Definition single_star_pattern (route : string) : string :=
  replace SINGLE_STAR_CHAR REPLACED_SINGLE_STAR (replace DOT_CHAR REPLACED_DOT route).

(** [Router::add]; [None] is its panic on a shared table. *)
Definition router_add (r : string) (h : Handler) (t : Router) : option Router :=
  let r := if filter_match r then replace ".*" "" r else r in
  if contains DOUBLE_STAR_CHAR r then
    w ← wildcard_add (double_star_pattern r) h (mutil_wildcard t);
    Some (mkRouter (fixed t) (single_wildcard t) w (r_shared t))
  else if contains SINGLE_STAR_CHAR r then
    w ← wildcard_add (single_star_pattern r) h (single_wildcard t);
    Some (mkRouter (fixed t) w (mutil_wildcard t) (r_shared t))
  else if r_shared t then None
  else Some (mkRouter (<[r := h]> (fixed t)) (single_wildcard t) (mutil_wildcard t) false).

Definition router_with (r : string) (h : Handler) : option Router := router_add r h new_router.

Definition router_finish (t : Router) : Router * io_result unit :=
  let '(w1, e1) := wildcard_finish (single_wildcard t) in
  match e1 with
  | Err e => (mkRouter (fixed t) w1 (mutil_wildcard t) (r_shared t), Err e)
  | Ok _ =>
      let '(w2, e2) := wildcard_finish (mutil_wildcard t) in
      (mkRouter (fixed t) w1 w2 (r_shared t), e2)
  end.

Definition router_is_match (path : string) (t : Router) : bool :=
  bool_decide (is_Some (fixed t !! path)) || wildcard_is_match path (single_wildcard t) ||
  wildcard_is_match path (mutil_wildcard t).

Definition router_match_route (path : string) (t : Router) : option (option Handler) :=
  match fixed t !! path with
  | Some h => Some (Some h)
  | None =>
      h ← wildcard_match_route path (single_wildcard t);
      match h with
      | Some h => Some (Some h)
      | None => wildcard_match_route path (mutil_wildcard t)
      end
  end.

(** ** The table of routers *)

Abbreviation RouterTab := (gmap string Router).

(** [RouterTab::add] *)
Definition tab_add (r m : string) (h : Handler) (tab : RouterTab) : option RouterTab :=
  match tab !! m with
  | None => t ← router_with r h; Some (<[m := t]> tab)
  | Some t => t ← router_add r h t; Some (<[m := t]> tab)
  end.

(** [RouterTab::finish]: the routers in the order of the hash map, up to the first error. *)
Fixpoint tab_finish (order : list string) (tab : RouterTab) : RouterTab * io_result unit :=
  match order with
  | [] => (tab, Ok tt)
  | m :: order =>
      match tab !! m with
      | None => tab_finish order tab
      | Some t =>
          let '(t, e) := router_finish t in
          match e with
          | Err e => (<[m := t]> tab, Err e)
          | Ok _ => tab_finish order (<[m := t]> tab)
          end
      end
  end.

Definition tab_is_match (m path : string) (tab : RouterTab) : bool :=
  match tab !! m with Some t => router_is_match path t | None => false end.

Definition tab_match_route (m path : string) (tab : RouterTab) : option (option Handler) :=
  match tab !! m with Some t => router_match_route path t | None => Some None end.

(** [Clone]: the tables are shared from now on. *)
Definition share_wildcard (w : WildcardRouter) : WildcardRouter :=
  mkWildcardRouter (matchor w) (route w) (handlers w) true.
Definition share_router (t : Router) : Router :=
  mkRouter (fixed t) (share_wildcard (single_wildcard t)) (share_wildcard (mutil_wildcard t)) true.
Definition share_tab (tab : RouterTab) : RouterTab := share_router <$> tab.

(** ** The configuration *)

Record HttpRoute := mkHttpRoute { tab : RouterTab; path : string }.

Definition new_route : HttpRoute := mkHttpRoute ∅ "".
Definition at_path (p : string) (c : HttpRoute) : HttpRoute := mkHttpRoute (tab c) p.

Definition add_method (m : string) (h : Handler) (c : HttpRoute) : option HttpRoute :=
  t ← tab_add (path c) m h (tab c); Some (mkHttpRoute t (path c)).

Definition options := add_method "OPTIONS".
Definition head := add_method "HEAD".
Definition get := add_method "GET".
Definition post := add_method "POST".

(** [From<HttpRoute> for RouterTab]: the result of [finish] is ignored. *)
Definition route_into (order : list string) (c : HttpRoute) : RouterTab := (tab_finish order (tab c)).1.

(** ** Virtual hosts *)

Record VirtualHostTab := mkHostTab { hosts : gmap string RouterTab; h_shared : bool }.

Definition new_hosts : VirtualHostTab := mkHostTab ∅ false.

(** [get]: the name up to the first colon, or the default host. *)
Definition get_host (name : string) (t : VirtualHostTab) : option RouterTab :=
  match hosts t !! default "" (hd_error (split_on ":"%char name)) with
  | Some host => Some host
  | None => hosts t !! ""
  end.

Definition add_host (name : string) (host : RouterTab) (t : VirtualHostTab) : VirtualHostTab * io_result unit :=
  if h_shared t then (t, Err Other) else (mkHostTab (<[name := host]> (hosts t)) false, Ok tt).

Definition add_default (host : RouterTab) (t : VirtualHostTab) := add_host "" host t.

(** [VirtualHost::with], [new_service]: the service has a clone of the routes. *)
Definition virtual_host (order : list string) (c : HttpRoute) : RouterTab := route_into order c.
Definition new_service (host : RouterTab) : RouterTab * RouterTab := (share_tab host, share_tab host).
End route.

(** ** The route that is found *)

Section lookup.
Context `{RegexApi} {Handler : Type}.

(** A configuration lists its routes with their methods and handlers. *)
Abbreviation entry := (string * string * Handler)%type.

Fixpoint configure (l : list entry) (c : HttpRoute) : option HttpRoute :=
  match l with
  | [] => Some c
  | (r, m, h) :: l => c ← add_method m h (at_path r c); configure l c
  end.

Definition normal (r : string) : string := if filter_match r then replace ".*" "" r else r.

Definition is_multi (r : string) : bool := contains DOUBLE_STAR_CHAR (normal r).
Definition is_single (r : string) : bool := negb (is_multi r) && contains SINGLE_STAR_CHAR (normal r).
Definition is_fixed (r : string) : bool := negb (is_multi r) && negb (contains SINGLE_STAR_CHAR (normal r)).

Definition pattern_of (r : string) : string :=
  if is_multi r then double_star_pattern (normal r) else single_star_pattern (normal r).

(** What the configuration means: the last fixed route that is the path, else the last
    route with [*] that is found in it, else the last one with [**]. *)
Definition last_route (ok : string -> bool) (l : list (string * Handler)) : option Handler :=
  snd <$> last (filter (fun e => ok e.1 = true) l).

Definition of_method (m : string) (l : list entry) : list (string * Handler) :=
  l ≫= fun e => if bool_decide (e.1.2 = m) then [(e.1.1, e.2)] else [].

Definition expected (m path : string) (l : list entry) : option Handler :=
  let rs := of_method m l in
  match last_route (fun r => is_fixed r && bool_decide (normal r = path)) rs with
  | Some h => Some h
  | None =>
      match last_route (fun r => is_single r && regex_match (pattern_of r) path) rs with
      | Some h => Some h
      | None => last_route (fun r => is_multi r && regex_match (pattern_of r) path) rs
      end
  end.

(** *** The tables that a configuration builds *)

Definition wild (ok : string -> bool) (rs : list (string * Handler)) : list (string * Handler) :=
  (fun e => (pattern_of e.1, e.2)) <$> filter (fun e => ok e.1 = true) rs.

Definition wildcard_of (l : list (string * Handler)) : WildcardRouter := mkWildcardRouter None l.*1 l.*2 false.

Definition fixed_of (rs : list (string * Handler)) : gmap string Handler :=
  foldl (fun m e => if is_fixed e.1 then <[normal e.1 := e.2]> m else m) ∅ rs.

Definition router_of (rs : list (string * Handler)) : Router :=
  mkRouter (fixed_of rs) (wildcard_of (wild is_single rs)) (wildcard_of (wild is_multi rs)) false.

Lemma filter_one {A} (ok : A -> bool) e : filter (fun e => ok e = true) [e] = if ok e then [e] else [].
Proof. rewrite filter_cons, filter_nil. by destruct (ok e). Qed.

Lemma wild_snoc ok rs e : wild ok (rs ++ [e]) = wild ok rs ++ (if ok e.1 then [(pattern_of e.1, e.2)] else []).
Proof.
  unfold wild. rewrite filter_app, fmap_app. f_equal. rewrite (filter_one (fun e => ok e.1)).
  by destruct (ok e.1).
Qed.

Lemma wildcard_add_of l r h : wildcard_add r h (wildcard_of l) = Some (wildcard_of (l ++ [(r, h)])).
Proof. unfold wildcard_add, wildcard_of. cbn. by rewrite !fmap_app. Qed.

Lemma router_add_of rs r h : router_add r h (router_of rs) = Some (router_of (rs ++ [(r, h)])).
Proof.
  unfold router_add. fold (normal r). unfold router_of, fixed_of. rewrite !wild_snoc, foldl_app. cbn [foldl fst snd].
  destruct (contains DOUBLE_STAR_CHAR (normal r)) eqn:E2.
  - assert (is_multi r = true /\ is_single r = false /\ is_fixed r = false) as (Em & Es & Ef).
    { unfold is_single, is_fixed, is_multi. by rewrite E2. }
    rewrite Em, Es, Ef, app_nil_r. cbn [mutil_wildcard]. rewrite wildcard_add_of. cbn.
    unfold pattern_of. by rewrite Em.
  - destruct (contains SINGLE_STAR_CHAR (normal r)) eqn:E1.
    + assert (is_multi r = false /\ is_single r = true /\ is_fixed r = false) as (Em & Es & Ef).
      { unfold is_single, is_fixed, is_multi. by rewrite E2, E1. }
      rewrite Em, Es, Ef, app_nil_r. cbn [single_wildcard]. rewrite wildcard_add_of. cbn.
      unfold pattern_of. by rewrite Em.
    + assert (is_multi r = false /\ is_single r = false /\ is_fixed r = true) as (Em & Es & Ef).
      { unfold is_single, is_fixed, is_multi. by rewrite E2, E1. }
      by rewrite Em, Es, Ef, !app_nil_r.
Qed.

Definition tab_of (l : list entry) (t : gmap string Router) : Prop :=
  forall m, t !! m = if bool_decide (of_method m l = []) then None else Some (router_of (of_method m l)).

Lemma of_method_snoc m l r m' h :
  of_method m (l ++ [(r, m', h)]) = of_method m l ++ (if bool_decide (m' = m) then [(r, h)] else []).
Proof. unfold of_method. rewrite bind_app. cbn. by rewrite app_nil_r. Qed.

Lemma tab_add_of l t r m h :
  tab_of l t -> exists t', tab_add r m h t = Some t' /\ tab_of (l ++ [(r, m, h)]) t'.
Proof.
  intros Ht. unfold tab_add. rewrite (Ht m).
  assert (forall x m' : string, m' <> m -> of_method m' (l ++ [(r, m, h)]) = of_method m' l) as Hne.
  { intros _ m' Hne. rewrite of_method_snoc, bool_decide_false by done. apply app_nil_r. }
  case_bool_decide as E.
  - unfold router_with. change new_router with (router_of []). rewrite router_add_of. cbn [mbind option_bind].
    eexists. split; [done|]. intros m'. destruct (decide (m' = m)) as [->|Hm].
    + by rewrite lookup_insert_eq, of_method_snoc, E, (bool_decide_true (m = m)) by done.
    + rewrite lookup_insert_ne by done. rewrite (Hne "" m' Hm). apply Ht.
  - rewrite router_add_of. cbn [mbind option_bind]. eexists. split; [done|]. intros m'.
    destruct (decide (m' = m)) as [->|Hm].
    + rewrite lookup_insert_eq, of_method_snoc, (bool_decide_true (m = m)) by done.
      rewrite bool_decide_false; [done|]. by destruct (of_method m l).
    + rewrite lookup_insert_ne by done. rewrite (Hne "" m' Hm). apply Ht.
Qed.

Lemma configure_of l : exists c, configure l new_route = Some c /\ tab_of l (tab c).
Proof.
  enough (forall l1 c, tab_of l1 (tab c) -> exists c', configure l c = Some c' /\ tab_of (l1 ++ l) (tab c')) as Hk.
  { destruct (Hk [] new_route) as (c & ? & ?); [|by exists c]. intros m. cbn. by rewrite lookup_empty. }
  induction l as [|[[r m] h] l IH]; intros l1 c Hc; cbn [configure].
  { exists c. by rewrite app_nil_r. }
  unfold add_method, at_path. cbn [tab path]. destruct (tab_add_of l1 (tab c) r m h Hc) as (t & -> & Ht).
  cbn [mbind option_bind]. destruct (IH (l1 ++ [(r, m, h)]) (mkHttpRoute t r) Ht) as (c' & ? & ?).
  exists c'. by rewrite <-app_assoc in *.
Qed.

(** *** Finishing *)

(** The patterns of a router compile. *)
Definition compiles (t : Router (Handler := Handler)) : Prop :=
  forallb regex_ok (route (single_wildcard t)) = true /\ forallb regex_ok (route (mutil_wildcard t)) = true.

Definition finished (t : Router (Handler := Handler)) : Router :=
  let w t := mkWildcardRouter (Some (route t)) (route t) (handlers t) (w_shared t) in
  mkRouter (fixed t) (w (single_wildcard t)) (w (mutil_wildcard t)) (r_shared t).

Lemma router_finish_ok t : compiles t -> router_finish t = (finished t, Ok tt).
Proof. intros [E1 E2]. unfold router_finish, wildcard_finish. by rewrite E1, E2. Qed.

Lemma finished_idemp t : finished (finished t) = finished t.
Proof. done. Qed.

Lemma tab_finish_ok order t :
  (forall m r, t !! m = Some r -> compiles r) ->
  (tab_finish order t).2 = Ok tt /\
  forall m, (tab_finish order t).1 !! m = if bool_decide (m ∈ order) then finished <$> t !! m else t !! m.
Proof.
  revert t. induction order as [|m0 order IH]; intros t Ht; cbn [tab_finish].
  { split; [done|]. intros m. rewrite bool_decide_false; [done|]. apply not_elem_of_nil. }
  destruct (t !! m0) as [r|] eqn:E.
  - rewrite (router_finish_ok r) by (by eapply Ht).
    destruct (IH (<[m0 := finished r]> t)) as [I1 I2].
    { intros m r' Hm. destruct (decide (m = m0)) as [->|]; [|rewrite lookup_insert_ne in Hm by done; by eapply Ht].
      rewrite lookup_insert_eq in Hm. simplify_eq. exact (Ht m0 r E). }
    split; [done|]. intros m. rewrite I2. destruct (decide (m = m0)) as [->|Hm].
    + rewrite lookup_insert_eq, E. rewrite (bool_decide_true (m0 ∈ m0 :: order)) by (apply elem_of_cons; by left).
      by case_bool_decide.
    + rewrite lookup_insert_ne by done. by rewrite (bool_decide_ext (m ∈ m0 :: order) (m ∈ order)) by (rewrite elem_of_cons; naive_solver).
  - destruct (IH t Ht) as [I1 I2]. split; [done|]. intros m. rewrite I2.
    destruct (decide (m = m0)) as [->|Hm]; [rewrite E; by repeat case_bool_decide|].
    by rewrite (bool_decide_ext (m ∈ m0 :: order) (m ∈ order)) by (rewrite elem_of_cons; naive_solver).
Qed.

(** *** Matching *)

Lemma set_matches_snoc path l p :
  set_matches path (l ++ [p]) = set_matches path l ++ (if regex_match p path then [length l] else []).
Proof.
  unfold set_matches. rewrite imap_app, bind_app. f_equal. cbn. rewrite Nat.add_0_r. apply app_nil_r.
Qed.

Lemma set_matches_lt path l i : i ∈ set_matches path l -> i < length l.
Proof.
  induction l as [|p l IH] using rev_ind; [by intros ?%not_elem_of_nil|].
  rewrite set_matches_snoc, length_app, elem_of_app. intros [Hi|Hi]; [apply IH in Hi; cbn; lia|].
  destruct (regex_match p path); [|by apply not_elem_of_nil in Hi].
  apply list_elem_of_singleton in Hi as ->. cbn. lia.
Qed.

Lemma wildcard_match_last path l sh :
  wildcard_match_route path (mkWildcardRouter (Some l.*1) l.*1 l.*2 sh) =
  Some (snd <$> last (filter (fun ph => regex_match ph.1 path = true) l) : option Handler).
Proof.
  unfold wildcard_match_route. cbn. induction l as [|[p h] l IH] using rev_ind; [done|].
  rewrite fmap_app, filter_app, (filter_one (fun ph : string * Handler => regex_match ph.1 path)).
  cbn [fmap list_fmap fst snd]. rewrite set_matches_snoc.
  destruct (regex_match p path) eqn:E.
  - rewrite !last_snoc. cbn. rewrite fmap_app, length_fmap.
    rewrite lookup_app_r by (by rewrite length_fmap). by rewrite length_fmap, Nat.sub_diag.
  - rewrite !app_nil_r.
    destruct (last (set_matches path l.*1)) as [i|] eqn:Ei; [|done]. rewrite <-IH, fmap_app.
    rewrite lookup_app_l; [done|]. rewrite length_fmap, <-(length_fmap fst l).
    apply (set_matches_lt path). by apply last_Some_elem_of.
Qed.

Lemma last_wild ok path rs :
  snd <$> last (filter (fun ph => regex_match ph.1 path = true) (wild ok rs)) =
  last_route (fun r => ok r && regex_match (pattern_of r) path) rs.
Proof.
  unfold last_route. induction rs as [|[r h] rs IH] using rev_ind; [done|].
  rewrite wild_snoc, !filter_app, (filter_one (fun e : string * Handler => ok e.1 && regex_match (pattern_of e.1) path)). cbn [fst].
  destruct (ok r); cbn [andb fst snd]; [|by rewrite filter_nil, !app_nil_r].
  rewrite (filter_one (fun ph : string * Handler => regex_match ph.1 path)). cbn [fst].
  destruct (regex_match _ _); [by rewrite !last_snoc|by rewrite !app_nil_r].
Qed.

Lemma fixed_of_lookup path rs :
  fixed_of rs !! path = last_route (fun r => is_fixed r && bool_decide (normal r = path)) rs.
Proof.
  unfold fixed_of, last_route. induction rs as [|[r h] rs IH] using rev_ind; [apply lookup_empty|].
  rewrite foldl_app, filter_app, (filter_one (fun e : string * Handler => is_fixed e.1 && bool_decide (normal e.1 = path))). cbn [foldl fst snd].
  destruct (is_fixed r); cbn [andb]; [|by rewrite app_nil_r]. case_bool_decide as E; cbn.
  - rewrite last_snoc. rewrite <-E. apply lookup_insert_eq.
  - rewrite app_nil_r, lookup_insert_ne by done. done.
Qed.

(** C12: The handler of a request is that of the last fixed route of its method that is its
    path, else of the last route with [*] whose pattern is found in the path, else of the
    last with [**], when every pattern compiles. *)
Theorem route_found l order :
  (forall r m h, (r, m, h) ∈ l -> m ∈ order) ->
  (forall r m h, (r, m, h) ∈ l -> is_fixed r = false -> regex_ok (pattern_of r) = true) ->
  exists c, configure l new_route = Some c /\
    forall m path, tab_match_route m path (route_into order c) = Some (expected m path l).
Proof.
  intros Hord Hok. destruct (configure_of l) as (c & E & Hc). exists c. split; [done|]. intros m path.
  assert (forall m r, tab c !! m = Some r -> compiles r) as Hcomp.
  { intros m' r Hr. rewrite Hc in Hr. case_bool_decide; [done|]. simplify_eq.
    assert (forall ok, (forall r, ok r = true -> is_fixed r = false) ->
      forallb regex_ok (wild ok (of_method m' l)).*1 = true) as Hw.
    { intros ok Hokf. apply forallb_forall. intros p Hp. apply list_elem_of_In in Hp.
      apply list_elem_of_fmap in Hp as ([p' h] & -> & Hp). apply list_elem_of_fmap in Hp as ([r h'] & [= -> ->] & Hp).
      apply list_elem_of_filter in Hp as [Hr Hp]. unfold of_method in Hp.
      apply list_elem_of_bind in Hp as ([[r0 m0] h0] & Hp & Hin). cbn in *. case_bool_decide; [|by apply not_elem_of_nil in Hp].
      apply list_elem_of_singleton in Hp as [= -> ->]. eapply Hok; [done|]. by apply Hokf. }
    split; apply Hw; unfold is_fixed, is_single; intros r0 Hr0; by destruct (is_multi r0), (contains _ _). }
  destruct (tab_finish_ok order (tab c) Hcomp) as [_ Hf].
  unfold tab_match_route, route_into. rewrite Hf. unfold expected.
  destruct (decide (of_method m l = [])) as [Enil|Hne].
  { rewrite (Hc m), Enil. case_bool_decide; done. }
  rewrite bool_decide_true; last first.
  { destruct (of_method m l) as [|e rs] eqn:El; [done|].
    assert (e ∈ of_method m l) as He by (rewrite El; apply elem_of_cons; by left).
    apply list_elem_of_bind in He as ([[r0 m0] h0] & Hp & Hin). cbn in Hp.
    case_bool_decide as Em; [|by apply not_elem_of_nil in Hp]. subst m0. by eapply Hord. }
  rewrite (Hc m), bool_decide_false by done. cbn [fmap option_fmap option_map].
  unfold router_match_route, finished, router_of. unfold wildcard_of.
  cbn [fixed single_wildcard mutil_wildcard route handlers w_shared].
  rewrite fixed_of_lookup. destruct (last_route _ _); [done|].
  rewrite !wildcard_match_last, !last_wild. cbn [mbind option_bind]. by destruct (last_route _ _).
Qed.

(** *** A pattern that does not compile *)

Lemma tab_finish_bad o1 m o2 t r :
  t !! m = Some r -> ~ compiles r ->
  forall m', m' <> m -> m' ∉ o1 -> (tab_finish (o1 ++ m :: o2) t).1 !! m' = t !! m'.
Proof.
  intros Hm Hr m' Hne. assert (exists e, (router_finish r).2 = Err e) as [e He].
  { unfold router_finish, wildcard_finish. unfold compiles in Hr.
    destruct (forallb regex_ok (route (single_wildcard r))), (forallb regex_ok (route (mutil_wildcard r))); eauto.
    by destruct Hr. }
  revert t Hm. induction o1 as [|a o1 IH]; intros t Hm Hn; cbn [app tab_finish].
  - rewrite Hm. destruct (router_finish r) as [r' e']. cbn in He. subst e'. by apply lookup_insert_ne.
  - apply not_elem_of_cons in Hn as [Ha Hn]. destruct (t !! a) as [ra|] eqn:Ea; [|by apply IH].
    destruct (decide (a = m)) as [->|Ham].
    + assert (ra = r) as -> by congruence. destruct (router_finish r) as [r' e']. cbn in He. subst e'.
      by apply lookup_insert_ne.
    + destruct (router_finish ra) as [r' [|e']]; [|by apply lookup_insert_ne].
      rewrite IH; [by apply lookup_insert_ne|by rewrite lookup_insert_ne|done].
Qed.

(** When a pattern of one method does not compile, no error is reported, and every
    method that comes behind it in the hash map answers its fixed routes only. *)
Theorem bad_pattern_silences l order1 m order2 r h m' path :
  (r, m, h) ∈ l -> is_fixed r = false -> regex_ok (pattern_of r) = false ->
  m' <> m -> m' ∉ order1 ->
  exists c, configure l new_route = Some c /\
    tab_match_route m' path (route_into (order1 ++ m :: order2) c) =
    Some (last_route (fun r => is_fixed r && bool_decide (normal r = path)) (of_method m' l)).
Proof.
  intros Hin Hf Hbad Hne Hn. destruct (configure_of l) as (c & E & Hc). exists c. split; [done|].
  assert ((r, h) ∈ of_method m l) as Hr.
  { apply list_elem_of_bind. exists (r, m, h). cbn. rewrite bool_decide_true by done. split; [by left|done]. }
  assert (tab c !! m = Some (router_of (of_method m l))) as Em.
  { rewrite Hc, bool_decide_false; [done|]. intros E0. rewrite E0 in Hr. by apply not_elem_of_nil in Hr. }
  unfold tab_match_route, route_into. rewrite (tab_finish_bad _ _ _ _ _ Em); [|clear Em|done..].
  - rewrite (Hc m'). case_bool_decide as E0; [by rewrite E0|]. unfold router_match_route, router_of. cbn.
    rewrite fixed_of_lookup. by destruct (last_route _ _).
  - unfold compiles, router_of. cbn. intros [C1 C2].
    assert (forall ok, ok r = true -> forallb regex_ok (wild ok (of_method m l)).*1 = true -> False) as Hw.
    { intros ok Hok Ha. rewrite forallb_forall in Ha. specialize (Ha (pattern_of r)). rewrite Ha in Hbad; [done|].
      apply list_elem_of_In. apply list_elem_of_fmap. exists (pattern_of r, h). split; [done|].
      apply list_elem_of_fmap. exists (r, h). split; [done|]. by apply list_elem_of_filter. }
    destruct (is_multi r) eqn:Ei; [by apply (Hw is_multi)|]. apply (Hw is_single); [|done].
    unfold is_fixed in Hf. unfold is_single. rewrite Ei in *. cbn in *. by destruct (contains _ _).
Qed.
End lookup.

(** ** Witnesses *)

(** Patterns whose text in front of the first group is looked for. *)
#[local] Instance sample_regex : RegexApi := {
  regex_ok p := negb (contains "((" p);
  regex_match p s := contains (default "" (hd_error (split_on "("%char p))) s }.

Definition sample_routes : list (string * string * nat) :=
  [("/index", "GET", 1); ("/files/*", "GET", 2); ("/files/a", "GET", 3); ("/files/**", "GET", 4);
   ("/index", "POST", 5); ("/index", "GET", 6)].

Lemma route_found_witness :
  exists c, configure sample_routes new_route = Some c /\
    forall m path, tab_match_route m path (route_into ["POST"; "GET"] c) = Some (expected m path sample_routes).
Proof.
  apply (route_found sample_routes ["POST"; "GET"]); intros r m h Hin; apply list_elem_of_In in Hin;
    cbn in Hin; destruct_or! Hin; simplify_eq.
  all: try (apply list_elem_of_In; cbn; auto).
  all: vm_compute; done.
Defined.

Example sample_expected :
  (fun p => expected "GET" p sample_routes) <$> ["/index"; "/files/a"; "/files/b"; "/x/files/c/d"; "/y"] =
  [Some 6; Some 3; Some 2; Some 2; None].
Proof. vm_compute. reflexivity. Qed.

Lemma bad_pattern_silences_witness :
  let l := [("/((*", "POST", 1); ("/files/*", "GET", 2)] in
  exists c, configure l new_route = Some c /\
    tab_match_route "GET" "/files/x" (route_into ([] ++ "POST" :: ["GET"]) c) =
    Some (last_route (fun r => is_fixed r && bool_decide (normal r = "/files/x")) (of_method "GET" l)).
Proof.
  cbv zeta. eapply (bad_pattern_silences _ [] "POST" ["GET"] "/((*" 1).
  - apply list_elem_of_In. by left.
  - by vm_compute.
  - by vm_compute.
  - done.
  - apply not_elem_of_nil.
Defined.
