(* ===== verification/HttpMiddleware.v ===== *)
(** * The gateway and its middlewares (http/src/middleware.rs, gateway.rs)

    A service routes a request to a chain of middlewares. A middleware sees the request,
    then the response, and says how to go on. The world [W] has the connection, the
    context of the gateway and the state of the middlewares; a [Focus] is the part of it
    that one of them uses. *)

From S2P Require Import Prelude ByteSource HttpText HttpMessage.

(** [SystemTime::now] *)
Class Clock (W : Type) := clock : W -> Z.

(** ** The context of the gateway *)

(** The values of the package pi_handler that the middlewares build. *)
Inductive SGenType := SStr (s : string) | SBin (b : list Z).

Record GatewayContext := mkGatewayContext {
  params : gmap string SGenType;
  parts : gmap string SGenType;
  cache_args : option (string * string * Z);
  files_size : Z;
  files_len : nat;
  attrs : gmap string SGenType;
  part_buf : option (list Z);
}.

Definition new_context : GatewayContext := mkGatewayContext ∅ ∅ None 0 0 ∅ None.

Definition set_params x c := mkGatewayContext x (parts c) (cache_args c) (files_size c) (files_len c) (attrs c) (part_buf c).
Definition set_parts x c := mkGatewayContext (params c) x (cache_args c) (files_size c) (files_len c) (attrs c) (part_buf c).
Definition set_cache_args x c := mkGatewayContext (params c) (parts c) x (files_size c) (files_len c) (attrs c) (part_buf c).
Definition set_files_size x c := mkGatewayContext (params c) (parts c) (cache_args c) x (files_len c) (attrs c) (part_buf c).
Definition set_files_len x c := mkGatewayContext (params c) (parts c) (cache_args c) (files_size c) x (attrs c) (part_buf c).
Definition set_attrs x c := mkGatewayContext (params c) (parts c) (cache_args c) (files_size c) (files_len c) x (part_buf c).
Definition set_part_buf x c := mkGatewayContext (params c) (parts c) (cache_args c) (files_size c) (files_len c) (attrs c) x.

Definition clear_params (c : GatewayContext) : GatewayContext := set_params ∅ c.
Definition clear_parts (c : GatewayContext) : GatewayContext := set_parts ∅ c.
Definition insert_param (k : string) (v : SGenType) (c : GatewayContext) : GatewayContext :=
  set_params (<[k := v]> (params c)) c.
Definition insert_part (k : string) (v : SGenType) (c : GatewayContext) : GatewayContext :=
  set_parts (<[k := v]> (parts c)) c.

(** [set], [remove]: the value before. *)
Definition set_attr (k : string) (v : SGenType) (c : GatewayContext) : GatewayContext * option SGenType :=
  (set_attrs (<[k := v]> (attrs c)) c, attrs c !! k).
Definition remove_attr (k : string) (c : GatewayContext) : GatewayContext * option SGenType :=
  (set_attrs (delete k (attrs c)) c, attrs c !! k).

Definition take_part_buf (c : GatewayContext) : GatewayContext * option (list Z) :=
  (set_part_buf None c, part_buf c).
Definition push_part_buf (bin : list Z) (c : GatewayContext) : GatewayContext :=
  match part_buf c with
  | Some b => set_part_buf (Some (b ++ bin)) c
  | None => set_part_buf (Some bin) c
  end.

Section middleware.
Context `{HttpApi} {W : Type}.

Inductive MiddlewareResult :=
| ContinueRequest (q : HttpRequest)
| ContinueResponse (q : HttpRequest) (r : HttpResponse)
| Break (r : HttpResponse)
| Finish (q : HttpRequest) (r : HttpResponse)
| Throw (e : ErrorKind).

Record Middleware := mkMiddleware {
  mw_request : HttpRequest -> W -> outcome (W * MiddlewareResult);
  mw_response : HttpRequest -> HttpResponse -> W -> outcome (W * MiddlewareResult);
}.

(** ** Chains *)

Record MiddlewareChain := mkChain { chain_buf : option (list Middleware); chain : list Middleware }.

Definition new_chain : MiddlewareChain := mkChain (Some []) [].

Definition push_front (m : Middleware) (c : MiddlewareChain) : MiddlewareChain :=
  match chain_buf c with Some b => mkChain (Some (m :: b)) (chain c) | None => c end.

Definition push_back (m : Middleware) (c : MiddlewareChain) : MiddlewareChain :=
  match chain_buf c with Some b => mkChain (Some (b ++ [m])) (chain c) | None => c end.

Definition finish_chain (c : MiddlewareChain) : MiddlewareChain :=
  match chain_buf c with Some b => mkChain None b | None => c end.

Fixpoint request_loop (ms : list Middleware) (q : HttpRequest) (w : W) : outcome (W * MiddlewareResult) :=
  match ms with
  | [] => Done (w, Finish q empty_resp)
  | m :: ms =>
      '(w, res) ← mw_request m q w;
      match res with
      | ContinueRequest q => request_loop ms q w
      | res => Done (w, res)
      end
  end.

Fixpoint response_loop (ms : list Middleware) (q : HttpRequest) (r : HttpResponse) (w : W)
    : outcome (W * MiddlewareResult) :=
  match ms with
  | [] => Done (w, Finish q r)
  | m :: ms =>
      '(w, res) ← mw_response m q r w;
      match res with
      | ContinueResponse q r => response_loop ms q r w
      | res => Done (w, res)
      end
  end.

(** [impl Middleware for Arc<MiddlewareChain>] *)
Definition chain_middleware (c : MiddlewareChain) : Middleware :=
  mkMiddleware (request_loop (chain c)) (response_loop (rev (chain c))).

(** ** The gateway *)

(** What [call] does with the handler of the route, once the context is reset. *)
Definition run_ware (ware : Middleware) (q : HttpRequest) (w : W) : outcome (W * io_result HttpResponse) :=
  '(w, res) ← mw_request ware q w;
  match res with
  | Break r => Done (w, Ok r)
  | Finish q r =>
      '(w, res) ← mw_response ware q r w;
      Done (w, match res with
               | Break r => Ok r
               | Finish _ r => Ok r
               | Throw e => Err e
               | _ => Err Other
               end)
  | Throw e => Done (w, Err e)
  | _ => Done (w, Err Other)
  end.

(** [HttpGateway::call]: [context] is the context of the gateway, which the call clones;
    only the table of parameters is shared with the clone. [route] is the result of
    [match_route], [None] its panic. *)
Definition call `{Focus GatewayContext W} (route : option (option Middleware)) (context : GatewayContext)
    (q : HttpRequest) (w : W) : outcome (W * GatewayContext * io_result HttpResponse) :=
  middleware ← lift route;
  match middleware with
  | Some ware =>
      let w := focus_put (set_cache_args None (clear_params context)) w in
      '(w, res) ← run_ware ware q w;
      Done (w, set_params (params (focus_get w)) context, res)
  | None => Done (w, context, Err Other)
  end.
End middleware.
Arguments MiddlewareResult {_}.
Arguments Middleware {_} W.
Arguments MiddlewareChain {_} W.

(** ** The order of the middlewares *)

Section order.
Context `{HttpApi} {W : Type}.

Inductive phase := OnRequest (i : nat) | OnResponse (i : nat).

(** A middleware that notes its calls. *)
Definition logged (im : nat * Middleware W) : Middleware (W * list phase) := {|
  mw_request q w := '(w', res) ← mw_request im.2 q w.1; Done ((w', w.2 ++ [OnRequest im.1]), res);
  mw_response q r w := '(w', res) ← mw_response im.2 q r w.1; Done ((w', w.2 ++ [OnResponse im.1]), res) |}.

Definition logged_chain (ms : list (Middleware W)) : MiddlewareChain (W * list phase) :=
  mkChain None (logged <$> zip (seq 0 (length ms)) ms).

(** Going on through middlewares: the request, with the world, that the last of them hands
    on, provided that every one of them goes on. *)
Definition request_step (s : HttpRequest * W) (m : Middleware W) : option (HttpRequest * W) :=
  match mw_request m s.1 s.2 with
  | Done (w, ContinueRequest q) => Some (q, w)
  | _ => None
  end.

Definition response_step (s : HttpRequest * HttpResponse * W) (m : Middleware W)
    : option (HttpRequest * HttpResponse * W) :=
  match mw_response m s.1.1 s.1.2 s.2 with
  | Done (w, ContinueResponse q r) => Some (q, r, w)
  | _ => None
  end.

Fixpoint through {A} (step : A -> Middleware W -> option A) (s : A) (ms : list (Middleware W)) : option A :=
  match ms with
  | [] => Some s
  | m :: ms => s ← step s m; through step s ms
  end.

(** The request pass asks the first [n] middlewares and gives [a] in the world [w']: either
    all of them went on, or all before the last did and the last answered [a]. *)
Definition request_pass (ms : list (Middleware W)) (q : HttpRequest) (w : W)
    (n : nat) (w' : W) (a : MiddlewareResult) : Prop :=
  exists k qk wk, through request_step (q, w) (take k ms) = Some (qk, wk) /\
    (k = length ms /\ n = k /\ w' = wk /\ a = Finish qk empty_resp \/
     exists m, ms !! k = Some m /\ n = S k /\ mw_request m qk wk = Done (w', a) /\
       forall q', a <> ContinueRequest q').

Definition response_pass (ms : list (Middleware W)) (q : HttpRequest) (r : HttpResponse) (w : W)
    (n : nat) (w' : W) (a : MiddlewareResult) : Prop :=
  exists k qk rk wk, through response_step (q, r, w) (take k ms) = Some (qk, rk, wk) /\
    (k = length ms /\ n = k /\ w' = wk /\ a = Finish qk rk \/
     exists m, ms !! k = Some m /\ n = S k /\ mw_response m qk rk wk = Done (w', a) /\
       forall q' r', a <> ContinueResponse q' r').

(** What the gateway takes from the last answer of the response pass. *)
Definition final_response (a : MiddlewareResult) : io_result HttpResponse :=
  match a with
  | Break r | Finish _ r => Ok r
  | Throw e => Err e
  | _ => Err Other
  end.

Lemma request_pass_cons m ms q w q1 w1 n w' a :
  mw_request m q w = Done (w1, ContinueRequest q1) -> request_pass ms q1 w1 n w' a ->
  request_pass (m :: ms) q w (S n) w' a.
Proof.
  intros E (k & qk & wk & Ht & Hk). exists (S k), qk, wk.
  assert (request_step (q, w) m = Some (q1, w1)) as Es by (unfold request_step; cbn; by rewrite E).
  cbn [take through]. rewrite Es. split; [exact Ht|]. cbn [length lookup list_lookup]. naive_solver.
Qed.

Lemma response_pass_cons m ms q r w q1 r1 w1 n w' a :
  mw_response m q r w = Done (w1, ContinueResponse q1 r1) -> response_pass ms q1 r1 w1 n w' a ->
  response_pass (m :: ms) q r w (S n) w' a.
Proof.
  intros E (k & qk & rk & wk & Ht & Hk). exists (S k), qk, rk, wk.
  assert (response_step (q, r, w) m = Some (q1, r1, w1)) as Es by (unfold response_step; cbn; by rewrite E).
  cbn [take through]. rewrite Es. split; [exact Ht|]. cbn [length lookup list_lookup]. naive_solver.
Qed.

Lemma request_loop_pass ps q w l w' a :
  request_loop ps.*2 q w = Done (w', a) ->
  exists n, request_pass ps.*2 q w n w' a /\
    request_loop (logged <$> ps) q (w, l) = Done ((w', l ++ (OnRequest <$> take n ps.*1)), a).
Proof.
  revert q w l. induction ps as [|[i m] ps IH]; intros q w l E; cbn [fmap list_fmap request_loop snd fst] in *.
  { injection E as <- <-. exists 0. rewrite app_nil_r. split; [|done]. exists 0, q, w. split; [done|]. by left. }
  cbn [logged mw_request fst snd]. destruct (mw_request m q w) as [[w1 res]| | |] eqn:Em; try done.
  cbn [mbind outcome_bind] in *. destruct res as [q1|q1 r1|r1|q1 r1|e1];
    try (injection E as <- <-; exists 1; cbn; rewrite take_0; split; [|done]; exists 0, q, w; split; [done|];
         right; exists m; rewrite Em; by split_and!).
  destruct (IH q1 w1 (l ++ [OnRequest i]) E) as (n & Hn & ->). exists (S n). split; [by eapply request_pass_cons|].
  cbn. by rewrite <-app_assoc.
Qed.

Lemma response_loop_pass ps q r w l w' a :
  response_loop ps.*2 q r w = Done (w', a) ->
  exists n, response_pass ps.*2 q r w n w' a /\
    response_loop (logged <$> ps) q r (w, l) = Done ((w', l ++ (OnResponse <$> take n ps.*1)), a).
Proof.
  revert q r w l. induction ps as [|[i m] ps IH]; intros q r w l E; cbn [fmap list_fmap response_loop snd fst] in *.
  { injection E as <- <-. exists 0. rewrite app_nil_r. split; [|done]. exists 0, q, r, w. split; [done|]. by left. }
  cbn [logged mw_response fst snd]. destruct (mw_response m q r w) as [[w1 res]| | |] eqn:Em; try done.
  cbn [mbind outcome_bind] in *. destruct res as [q1|q1 r1|r1|q1 r1|e1];
    try (injection E as <- <-; exists 1; cbn; rewrite take_0; split; [|done]; exists 0, q, r, w; split; [done|];
         right; exists m; rewrite Em; by split_and!).
  destruct (IH q1 r1 w1 (l ++ [OnResponse i]) E) as (n & Hn & ->). exists (S n). split; [by eapply response_pass_cons|].
  cbn. by rewrite <-app_assoc.
Qed.

Lemma zip_seq_fst {A} (l : list A) : (zip (seq 0 (length l)) l).*1 = seq 0 (length l).
Proof. apply fst_zip. by rewrite length_seq. Qed.

Lemma zip_seq_snd {A} (l : list A) : (zip (seq 0 (length l)) l).*2 = l.
Proof. apply snd_zip. by rewrite length_seq. Qed.

Lemma fmap_rev {A B} (f : A -> B) (l : list A) : f <$> rev l = rev (f <$> l).
Proof. exact (List.map_rev f l). Qed.

(** C22: A chain asks its middlewares in order, each with the request and the world that the
    one before handed on, up to the first that does not go on, or through all of them. If
    that one finishes the request, or none stopped it, the response goes in the same way
    through the whole chain in the reverse order, whichever middleware finished it. No other
    middleware is called, and the last answer makes the result: a response for [Break] and
    [Finish], an error else. *)
Theorem chain_in_order ms q w w' res :
  run_ware (chain_middleware (mkChain None ms)) q w = Done (w', res) ->
  exists n w1 a log,
    request_pass ms q w n w1 a /\
    run_ware (chain_middleware (logged_chain ms)) q (w, []) = Done ((w', log), res) /\
    match a with
    | Finish q1 r1 => exists j b, response_pass (rev ms) q1 r1 w1 j w' b /\ res = final_response b /\
        log = (OnRequest <$> take n (seq 0 (length ms))) ++ (OnResponse <$> take j (rev (seq 0 (length ms))))
    | a => w' = w1 /\ res = final_response a /\ log = OnRequest <$> take n (seq 0 (length ms))
    end.
Proof.
  unfold run_ware, chain_middleware, logged_chain. cbn [mw_request mw_response chain]. rewrite <-fmap_rev.
  set (ps := zip (seq 0 (length ms)) ms).
  assert (ps.*1 = seq 0 (length ms) /\ ps.*2 = ms) as [E1 E2] by (split; [apply zip_seq_fst|apply zip_seq_snd]).
  destruct (request_loop ms q w) as [[w1 a]| | |] eqn:E; try done. cbn [mbind outcome_bind]. rewrite <-E2 in E.
  destruct (request_loop_pass ps q w [] w1 a E) as (n & Hn & ->). rewrite E1, E2 in *. cbn [app mbind outcome_bind].
  intros Hrun. destruct a as [q1|q1 r1|r1|q1 r1|e1]; try (injection Hrun as <- <-; by eexists n, w1, _, _; split_and!).
  destruct (response_loop (rev ms) q1 r1 w1) as [[w2 b]| | |] eqn:Er; try done. injection Hrun as -> Hres.
  rewrite <-E2, <-fmap_rev in Er.
  destruct (response_loop_pass (rev ps) q1 r1 w1 (OnRequest <$> take n (seq 0 (length ms))) w' b Er) as (j & Hj & ->).
  rewrite !fmap_rev, E1, E2 in *. subst res. eexists n, w1, _, _. split_and!; [done|by destruct b|].
  exists j, b. split_and!; [done|by destruct b|done].
Qed.
End order.
