(* ===== verification/HttpRange.v ===== *)
(** * Range requests (http/src/range_load.rs)

    The middleware cuts the body of a response to the range that the request asks for.
    Lengths are machine words, and the arithmetic wraps as in a release build. *)

From Stdlib Require Import Ascii.
From S2P Require Import Prelude ByteSource HttpText ByteSearch HttpMessage HttpMiddleware HttpSample.

#[local] Open Scope string_scope.
#[local] Open Scope list_scope.

Section range.
Context `{HttpApi}.

Definition on_body (f : RespBody -> RespBody) (r : HttpResponse) : HttpResponse :=
  match resp_body r with Some b => set_body (Some (f b)) r | None => r end.

(** The length of the body as [response] computes it. *)
Definition range_body_len (r : HttpResponse) : Z :=
  match resp_body r with
  | Some b => match body_len b with Some n => Z.of_nat n | None => 0 end
  | None => 0
  end.

(** [&bin[start..(end + 1)]]; its bounds are checked before. *)
Definition slice (start end_ : Z) (bin : list Z) : list Z :=
  firstn (Z.to_nat (end_ + 1 - start)) (drop (Z.to_nat start) bin).

(** [RangeLoad::response], behind the check of the header. *)
Definition range_cut (range_str : string) (start : Z) (end_ : option Z) (q : HttpRequest) (r : HttpResponse)
    : MiddlewareResult :=
  let len := range_body_len r in
  let last := default (wrap64 (len - 1)) end_ in
  if (last <? start)%Z || (len <=? last)%Z then
    Break (header "content-length" "0" (header "accept-ranges" "bytes" (status 416 (on_body (reset []) r))))
  else
    let r := on_body (fun b => reset (slice start last (default [] (buf b))) b) r in
    let r := header "accept-ranges" "bytes" (status 206 r) in
    let range := match end_ with Some _ => range_str | None => range_str +:+ to_dec last end in
    ContinueResponse q (header "content-range" ("bytes " +:+ range +:+ "/" +:+ to_dec len) r).

Definition range_response (q : HttpRequest) (r : HttpResponse) : outcome MiddlewareResult :=
  match v ← header_get "range" (req_headers q); to_str v with
  | None => Done (ContinueResponse q r)
  | Some v =>
      if bool_decide (is_Some (find_char ","%char v)) then Done (ContinueResponse q r)
      else
        let tmp := split_on "="%char (to_lowercase (trim v)) in
        unit ← lift (tmp !! 1);
        let range_str := trim unit in
        let vec := split_on "-"%char range_str in
        first ← lift (vec !! 0);
        match parse_u64 first with
        | None => Done (ContinueResponse q r)
        | Some start =>
            second ← lift (vec !! 1);
            Done (range_cut range_str start (parse_u64 second) q r)
        end
  end.

(** [impl Middleware for RangeLoad] *)
Definition range_load {W : Type} : Middleware W := {|
  mw_request q w := Done (w, ContinueRequest q);
  mw_response q r w := res ← range_response q r; Done (w, res) |}.

(** ** What a range gives *)

(** A value of the header: [bytes=a-b], or [bytes=a-] without [b]. *)
Definition range_text (a : Z) (b : option Z) : string :=
  to_dec a +:+ "-" +:+ match b with Some b => to_dec b | None => "" end.
Definition range_value (a : Z) (b : option Z) : string := "bytes=" +:+ range_text a b.

Definition range_char (c : ascii) : bool := is_digit c || bool_decide (c = "-"%char).

Lemma is_digit_chars c : is_digit c = true ->
  c ∈ ["0"; "1"; "2"; "3"; "4"; "5"; "6"; "7"; "8"; "9"]%char.
Proof. destruct c as [[] [] [] [] [] [] [] []]; cbn; try done; intros _; apply list_elem_of_In; cbn; tauto. Qed.

Lemma range_text_chars a b : str_all range_char (range_text a b) = true.
Proof.
  assert (forall n, str_all range_char (to_dec n) = true) as Hd.
  { intros n. eapply str_all_impl; [|apply to_dec_digits]. intros c Hc. unfold range_char. by rewrite Hc. }
  unfold range_text. rewrite !str_all_app, Hd. destruct b; [by rewrite Hd|done].
Qed.

Lemma range_char_plain c : range_char c = true -> is_space c = false /\ lower c = c /\ c <> "="%char /\ c <> ","%char.
Proof. destruct c as [[] [] [] [] [] [] [] []]; cbn; by intros. Qed.

(** The two numbers of a range are read back. *)
Lemma range_response_value a b q r hv :
  (0 <= a < 2 ^ 64)%Z -> (forall b', b = Some b' -> (0 <= b' < 2 ^ 64)%Z) ->
  header_get "range" (req_headers q) = Some hv -> to_str hv = Some (range_value a b) ->
  range_response q r = Done (range_cut (range_text a b) a b q r).
Proof.
  intros Ha Hb Hh Hv. unfold range_response. rewrite Hh. cbn [mbind option_bind]. rewrite Hv.
  pose proof (range_text_chars a b) as Hc.
  assert (forall c, range_char c = false -> find_char c (range_text a b) = None) as Habs
    by (intros c; by apply str_all_absent).
  assert (find_char ","%char (range_value a b) = None) as ->.
  { unfold range_value. apply find_char_app_none; [done|by apply Habs]. }
  rewrite bool_decide_false by (intros []; done).
  assert (trim (range_value a b) = range_value a b) as ->.
  { apply str_all_trim. unfold range_value. rewrite str_all_app. cbn.
    eapply str_all_impl; [|exact Hc]. intros c Hr. apply range_char_plain in Hr as [-> _]. done. }
  assert (to_lowercase (range_value a b) = range_value a b) as ->.
  { apply str_all_lower. unfold range_value. rewrite str_all_app. cbn.
    eapply str_all_impl; [|exact Hc]. intros c Hr. apply range_char_plain in Hr as (_ & -> & _).
    by rewrite bool_decide_true. }
  unfold range_value. change ("bytes=" +:+ range_text a b) with ("bytes" +:+ String "="%char (range_text a b)).
  rewrite split_on_app by done. rewrite split_on_absent by (by apply Habs). cbn [lookup list_lookup lift mbind outcome_bind].
  rewrite str_all_trim; last first.
  { eapply str_all_impl; [|exact Hc]. intros c Hr. apply range_char_plain in Hr as [-> _]. done. }
  assert (split_on "-"%char (range_text a b) = [to_dec a; match b with Some b => to_dec b | None => "" end]) as ->.
  { assert (forall n, find_char "-"%char (to_dec n) = None) as Hn
      by (intros n; apply (str_all_absent is_digit); [apply to_dec_digits|done]).
    unfold range_text. change ("-" +:+ ?s) with (String "-"%char s). rewrite split_on_app by done.
    destruct b; [by rewrite split_on_absent|done]. }
  cbn [lookup list_lookup lift mbind outcome_bind]. rewrite parse_to_dec by done.
  destruct b as [b|]; [|done]. by rewrite parse_to_dec by (by apply Hb).
Qed.

Lemma status_start code r : start (status code r) = (fun _ => code) <$> start r.
Proof. unfold status. destruct (start r) eqn:E; [done|]. by rewrite E. Qed.

Lemma status_headers code r : headers (status code r) = headers r.
Proof. unfold status. by case_match. Qed.

Lemma on_body_start f r : start (on_body f r) = start r.
Proof. unfold on_body. by case_match. Qed.

Lemma on_body_headers f r : headers (on_body f r) = headers r.
Proof. unfold on_body. by case_match. Qed.

Lemma header_headers key value r1 r2 :
  headers r1 = headers r2 -> headers (header key value r1) = headers (header key value r2).
Proof. intros E. unfold header. repeat case_match; cbn; by rewrite ?E. Qed.

(** The parts of a response that the middleware sets. *)
Lemma range_cut_spec range a e q r b bin :
  (0 <= a)%Z -> (forall e', e = Some e' -> (0 <= e')%Z) ->
  resp_body r = Some b -> buf b = Some bin -> (Z.of_nat (length bin) < 2 ^ 64)%Z ->
  let len := Z.of_nat (length bin) in
  let last := default (len - 1)%Z e in
  if decide (a <= last < len)%Z then
    exists r', range_cut range a e q r = ContinueResponse q r' /\
      resp_body r' = Some (set_buf (Some (slice a last bin)) b) /\ start r' = (fun _ => 206%Z) <$> start r /\
      headers r' = headers (header "content-range"
        ("bytes " +:+ match e with Some _ => range | None => range +:+ to_dec last end +:+ "/" +:+ to_dec len)
        (header "accept-ranges" "bytes" r))
  else
    exists r', range_cut range a e q r = Break r' /\ resp_body r' = Some (set_buf (Some []) b) /\
      start r' = (fun _ => 416%Z) <$> start r.
Proof.
  intros Ha He Hb Hbuf Hlen len last. unfold range_cut, range_body_len, body_len. rewrite Hb, Hbuf.
  cbn [fmap option_fmap option_map]. fold len. set (last' := default (wrap64 (len - 1)) e).
  assert (reset [] b = set_buf (Some []) b) as Er by (unfold reset; by rewrite Hbuf).
  assert ((a <= last < len)%Z -> last' = last) as El.
  { unfold last', last. intros ?. destruct e; [done|]. cbn in *. unfold wrap. apply Z.mod_small. lia. }
  destruct (decide _) as [Hd|Hd].
  - rewrite El by done. rewrite (proj2 (Z.ltb_ge _ _)), (proj2 (Z.leb_gt _ _)) by lia. cbn [orb].
    eexists. split; [done|]. rewrite !header_body, !header_start, status_body, status_start, on_body_start.
    split_and!; [|done|].
    + unfold on_body. rewrite Hb. cbn. unfold reset. by rewrite Hbuf.
    + do 2 apply header_headers. by rewrite status_headers, on_body_headers.
  - assert ((last' <? a)%Z || (len <=? last')%Z = true) as ->.
    { unfold last', last, len in *. destruct e as [e|]; cbn in *.
      - destruct (Z.ltb_spec e a), (Z.leb_spec (Z.of_nat (length bin)) e); try done. lia.
      - destruct (decide (length bin = 0)) as [->|]; [apply orb_true_iff; right; by apply Z.leb_le|].
        assert (wrap64 (Z.of_nat (length bin) - 1) = Z.of_nat (length bin) - 1)%Z as ->
          by (unfold wrap; apply Z.mod_small; lia).
        destruct (Z.ltb_spec (Z.of_nat (length bin) - 1) a); [done|]. lia. }
    eexists. split; [done|]. rewrite !header_body, !header_start, status_body, status_start, on_body_start.
    split; [|done]. unfold on_body. rewrite Hb. cbn. by rewrite Er.
Qed.

(** C40: A range [bytes=a-b] or [bytes=a-] that lies in the body gives status 206 and
    exactly those bytes, with their place in the header; one that is empty or reaches
    beyond the body gives status 416 and an empty body. No range reads out of bounds. *)
Theorem range_slices a e q r b bin hv :
  (0 <= a < 2 ^ 64)%Z -> (forall e', e = Some e' -> (0 <= e' < 2 ^ 64)%Z) ->
  header_get "range" (req_headers q) = Some hv -> to_str hv = Some (range_value a e) ->
  resp_body r = Some b -> buf b = Some bin -> (Z.of_nat (length bin) < 2 ^ 64)%Z ->
  let len := Z.of_nat (length bin) in
  let last := default (len - 1)%Z e in
  if decide (a <= last < len)%Z then
    exists r', range_response q r = Done (ContinueResponse q r') /\
      resp_body r' = Some (set_buf (Some (slice a last bin)) b) /\
      Z.of_nat (length (slice a last bin)) = (last - a + 1)%Z /\
      (forall i, (0 <= i <= last - a)%Z -> slice a last bin !! Z.to_nat i = bin !! Z.to_nat (a + i)) /\
      start r' = (fun _ => 206%Z) <$> start r /\
      headers r' = headers (header "content-range"
        ("bytes " +:+ to_dec a +:+ "-" +:+ to_dec last +:+ "/" +:+ to_dec len)
        (header "accept-ranges" "bytes" r))
  else
    exists r', range_response q r = Done (Break r') /\ resp_body r' = Some (set_buf (Some []) b) /\
      start r' = (fun _ => 416%Z) <$> start r.
Proof.
  intros Ha He Hh Hv Hb Hbuf Hlen len last. rewrite (range_response_value a e q r hv) by done.
  pose proof (range_cut_spec (range_text a e) a e q r b bin ltac:(lia) ltac:(intros e' E; specialize (He e' E); lia)
    Hb Hbuf Hlen) as Hc. cbv zeta in Hc. fold len in Hc. fold last in Hc.
  destruct (decide _) as [Hd|Hd].
  - destruct Hc as (r' & -> & Eb & Es & Eh). exists r'. split; [done|]. split; [done|]. split_and!.
    + unfold slice, len in *. rewrite length_take, length_drop. lia.
    + intros i Hi. unfold slice. rewrite lookup_take_lt by lia. rewrite lookup_drop. f_equal. lia.
    + done.
    + rewrite Eh. do 3 f_equal. unfold range_text, last. destruct e as [e|]; cbn [default from_option id];
      by rewrite ?str_app_assoc, ?str_app_nil.
  - destruct Hc as (r' & -> & ? & ?). by exists r'.
Qed.

(** A range without an equals sign makes the middleware panic; so does one that has a
    first number and no dash. *)
Theorem range_panics q r hv v :
  header_get "range" (req_headers q) = Some hv -> to_str hv = Some v -> find_char ","%char v = None ->
  (find_char "="%char (to_lowercase (trim v)) = None \/
   exists n, v = "bytes=" +:+ to_dec n /\ (0 <= n < 2 ^ 64)%Z) ->
  range_response q r = Panic.
Proof.
  intros Hh Hv Hc Hp. unfold range_response. rewrite Hh. cbn [mbind option_bind]. rewrite Hv, Hc.
  rewrite bool_decide_false by (intros []; done). destruct Hp as [He|(n & -> & Hn)].
  - rewrite split_on_absent by done. done.
  - assert (str_all range_char (to_dec n) = true) as Hd.
    { eapply str_all_impl; [|apply to_dec_digits]. intros c Hr. unfold range_char. by rewrite Hr. }
    assert (forall c, range_char c = false -> find_char c (to_dec n) = None) as Habs
      by (intros c; by apply str_all_absent).
    rewrite str_all_trim; last first.
    { rewrite str_all_app. cbn. eapply str_all_impl; [|exact Hd]. intros c Hr.
      apply range_char_plain in Hr as [-> _]. done. }
    rewrite str_all_lower; last first.
    { rewrite str_all_app. cbn. eapply str_all_impl; [|exact Hd]. intros c Hr.
      apply range_char_plain in Hr as (_ & -> & _). by rewrite bool_decide_true. }
    change ("bytes=" +:+ to_dec n) with ("bytes" +:+ String "="%char (to_dec n)).
    rewrite split_on_app by done. rewrite split_on_absent by (by apply Habs).
    cbn [lookup list_lookup lift mbind outcome_bind]. rewrite str_all_trim; last first.
    { eapply str_all_impl; [|exact Hd]. intros c Hr. apply range_char_plain in Hr as [-> _]. done. }
    rewrite split_on_absent; [|apply (str_all_absent is_digit); [apply to_dec_digits|done]].
    cbn [lookup list_lookup lift mbind outcome_bind]. by rewrite parse_to_dec by done.
Qed.
End range.

(** ** Witnesses *)

Definition hello : list Z := as_bytes "hello world".

Lemma range_slices_witness :
  exists r', range_response (sample_request "GET" "/" [("range", "bytes=6-8")]) (sample_response hello) =
      Done (ContinueResponse (sample_request "GET" "/" [("range", "bytes=6-8")]) r') /\
    resp_body r' = Some (set_buf (Some (slice 6 8 hello)) (sample_body hello)) /\
    Z.of_nat (length (slice 6 8 hello)) = 3%Z /\
    (forall i, (0 <= i <= 2)%Z -> slice 6 8 hello !! Z.to_nat i = hello !! Z.to_nat (6 + i)) /\
    start r' = Some 206%Z /\
    headers r' = [("accept-ranges", header_of "bytes"); ("content-range", header_of "bytes 6-8/11")].
Proof.
  apply (range_slices 6 (Some 8%Z) (sample_request "GET" "/" [("range", "bytes=6-8")])
    (sample_response hello) (sample_body hello) hello (header_of "bytes=6-8")); try reflexivity; try lia.
  intros e' [= <-]. lia.
Defined.

Lemma range_panics_witness :
  range_response (sample_request "GET" "/" [("range", "bytes=7")]) (sample_response hello) = Panic.
Proof.
  apply (range_panics _ _ (header_of "bytes=7") "bytes=7"); try reflexivity. right. exists 7%Z. split; [reflexivity|lia].
Defined.

Example range_without_end :
  match range_response (sample_request "GET" "/" [("range", "bytes=6-")]) (sample_response hello) with
  | Done (ContinueResponse _ r) => (resp_body r ≫= buf, headers r)
  | _ => (None, [])
  end = (Some (as_bytes "world"), [("accept-ranges", header_of "bytes"); ("content-range", header_of "bytes 6-10/11")]).
Proof. vm_compute. reflexivity. Qed.
