(* ===== verification/HttpCors.v ===== *)
(** * Cross-origin requests (http/src/cors_handler.rs)

    The middleware answers preflight requests and lets other requests through when their
    origin is allowed: any origin, or those that were added, with methods, headers and an
    age. Origins that were let through are remembered by their text. Times are in
    nanoseconds. *)

From Stdlib Require Import Ascii.
From S2P Require Import Prelude ByteSource HttpText ByteSearch HttpMessage HttpMiddleware HttpSample.

#[local] Open Scope string_scope.
#[local] Open Scope list_scope.

(** [Uri::from_str] of the package http (scheme, host and port), [Host::parse] of url. *)
Class UriApi := {
  uri_parse : string -> option (option string * option string * option Z);
  host_parse : string -> option string;
}.

(** [Origin::Tuple]: scheme, host and port. *)
Abbreviation Origin := (string * string * Z)%type.

Section cors.
Context `{HttpApi} `{UriApi}.

Record CORSHandler := mkCORSHandler {
  default_methods : string;
  allow_any_origin_max_age : option Z;
  allow_origins : gmap Origin (list string * option string * option Z);
  allowed : gmap string (option (Z * Z));
}.

Definition new_cors (methods : string) (max_age : option Z) : CORSHandler := mkCORSHandler methods max_age ∅ ∅.

Definition insert_origin (k : Origin) v (c : CORSHandler) : CORSHandler :=
  mkCORSHandler (default_methods c) (allow_any_origin_max_age c) (<[k := v]> (allow_origins c)) (allowed c).
Definition insert_allowed (o : string) v (c : CORSHandler) : CORSHandler :=
  mkCORSHandler (default_methods c) (allow_any_origin_max_age c) (allow_origins c) (<[o := v]> (allowed c)).

(** The loops of [allow_origin] over the methods and the headers. *)
Definition parse_methods (methods : list string) : option (list string) := mapM method_parse methods.

Fixpoint parse_headers (headers : list string) : option (list string) :=
  match headers with
  | [] => Some []
  | h :: hs =>
      if bool_decide (to_lowercase (trim h) = "") then parse_headers hs
      else n ← header_name h; ns ← parse_headers hs; Some (n :: ns)
  end.

(** [slice::join] of texts *)
Definition join (sep : string) (l : list string) : string := String.concat sep l.

Definition allow_origin (scheme host : string) (port : Z) (methods headers : list string) (max_age : option Z)
    (c : CORSHandler) : CORSHandler * io_result unit :=
  match host_parse host with
  | None => (c, Err AddrNotAvailable)
  | Some h =>
      match parse_methods methods, parse_headers headers with
      | Some ms, Some hs =>
          (insert_origin (scheme, h, port)
             (ms, if bool_decide (hs = []) then None else Some (join "," hs), max_age) c, Ok tt)
      | _, _ => (c, Err AddrNotAvailable)
      end
  end.

(** [get_origin] of the text of the header *)
Definition get_origin (origin : string) : io_result Origin :=
  match uri_parse origin with
  | None => Err AddrNotAvailable
  | Some (s, h, p) =>
      let '(scheme, host, port) :=
        match s with
        | Some s =>
            match h with
            | Some h => (s, h, match p with Some p => p | None => if bool_decide (s = "https") then 443 else 80 end)
            | None => (s, "", 80)
            end
        | None => ("http", "", 80)
        end%Z in
      match host_parse host with Some h => Ok (scheme, h, port) | None => Err AddrNotAvailable end
  end.

(** The loop over the methods that the client asks for. *)
Definition methods_allowed (asked : string) (methods : list string) : bool :=
  forallb (fun m => bool_decide (trim m ∈ methods)) (split_on ","%char asked).

(** The header [Access-Control-Allow-Headers], when the request names headers. *)
Definition allow_headers_of (q : HttpRequest) (fixed : option string) (r : HttpResponse) : HttpResponse :=
  match header_get "access-control-request-headers" (req_headers q) with
  | Some v => header "access-control-allow-headers" (match fixed with Some hs => hs | None => lossy v end) r
  | None => r
  end.

Definition no_body (r : HttpResponse) : HttpResponse := header "content-length" "0" r.

(** [handle_options_request] *)
Definition handle_options_request (now : Z) (q : HttpRequest) (r : HttpResponse) (c : CORSHandler)
    : CORSHandler * MiddlewareResult :=
  match header_get "origin" (req_headers q), header_get "access-control-request-method" (req_headers q) with
  | Some origin, Some methods =>
      match get_origin (lossy origin) with
      | Err e => (c, Throw e)
      | Ok key =>
          match allow_any_origin_max_age c with
          | Some max_age =>
              let r := header "access-control-allow-origin" "*" r in
              let r := header "access-control-allow-methods" (default_methods c) r in
              let r := allow_headers_of q None r in
              (c, Break (no_body (header "access-control-max-age" (to_dec max_age) r)))
          | None =>
              match allow_origins c !! key with
              | Some (allow_methods, allow_headers, allow_max_age) =>
                  if methods_allowed (lossy methods) allow_methods then
                    let r := header "access-control-allow-origin" (lossy origin) r in
                    let r := header "access-control-allow-methods" (join "," allow_methods) r in
                    let r := allow_headers_of q allow_headers r in
                    match allow_max_age with
                    | Some max_age =>
                        (insert_allowed (lossy origin) (Some (max_age, now)) c,
                         Break (no_body (header "access-control-max-age" (to_dec max_age) r)))
                    | None => (insert_allowed (lossy origin) None c, Break (no_body r))
                    end
                  else (c, Break (no_body r))
              | None => (c, Break (no_body r))
              end
          end
      end
  | _, _ => (c, Break (no_body (header "allow" (default_methods c) r)))
  end.

Definition NANOS : Z := 1000000000.

(** [handle_simple_request]; [r] is the response that it makes. *)
Definition handle_simple_request (now : Z) (q : HttpRequest) (r : HttpResponse) (c : CORSHandler)
    : CORSHandler * MiddlewareResult :=
  match header_get "origin" (req_headers q) with
  | None => (c, ContinueRequest q)
  | Some value =>
      if bool_decide (is_Some (allow_any_origin_max_age c)) then (c, ContinueRequest q)
      else
        let origin := lossy value in
        match allowed c !! origin with
        | None =>
            match get_origin origin with
            | Err e => (c, Throw e)
            | Ok key =>
                match allow_origins c !! key with
                | Some _ => (insert_allowed origin None c, ContinueRequest q)
                | None => (c, Break (no_body r))
                end
            end
        | Some (Some (timeout, time)) =>
            if (now <? time)%Z then (c, Throw Other)
            else if (timeout <? (now - time) / NANOS)%Z then (c, Break (no_body r))
            else (c, ContinueRequest q)
        | Some None => (c, ContinueRequest q)
        end
  end.

(** [impl Middleware for CORSHandler] *)
Definition cors_request (now : Z) (q : HttpRequest) (c : CORSHandler) : outcome (CORSHandler * MiddlewareResult) :=
  r ← lift (new_resp 2);
  Done (if bool_decide (method (req_start q) = "OPTIONS") then handle_options_request now q r c
        else handle_simple_request now q r c).

Definition cors_response (q : HttpRequest) (r : HttpResponse) (c : CORSHandler) : MiddlewareResult :=
  ContinueResponse q
    match header_get "origin" (req_headers q) with
    | Some allow_origin =>
        header "access-control-allow-origin"
          (if bool_decide (is_Some (allow_any_origin_max_age c)) then "*" else lossy allow_origin) r
    | None => r
    end.

Definition cors_handler {W : Type} `{Focus CORSHandler W} `{Clock W} : Middleware W := {|
  mw_request q w := '(c, res) ← cors_request (clock w) q (focus_get w); Done (focus_put c w, res);
  mw_response q r w := Done (w, cors_response q r (focus_get w)) |}.

(** ** Who is let through *)

(** The life of a handler: origins are added, requests come at any time. *)
Inductive cors_step (c : CORSHandler) : CORSHandler -> Prop :=
| step_allow scheme host port methods headers max_age :
    cors_step c (allow_origin scheme host port methods headers max_age c).1
| step_request now q c' res : cors_request now q c = Done (c', res) -> cors_step c c'.

(** An origin is configured when its text parses to an origin that was added. *)
Definition configured (c : CORSHandler) (origin : string) : Prop :=
  exists key, get_origin origin = Ok key /\ is_Some (allow_origins c !! key).

Definition cors_inv (c : CORSHandler) : Prop := forall o, is_Some (allowed c !! o) -> configured c o.

Lemma insert_allowed_inv o v c : cors_inv c -> configured c o -> cors_inv (insert_allowed o v c).
Proof.
  intros Hc Ho o' [v' Hv']. cbn in Hv'. destruct (decide (o' = o)) as [->|Hne]; [exact Ho|].
  rewrite lookup_insert_ne in Hv' by done. by apply Hc; eexists.
Qed.

Lemma insert_origin_inv k v c : cors_inv c -> cors_inv (insert_origin k v c).
Proof.
  intros Hc o Ho. destruct (Hc o Ho) as (key & Ek & [v' Hv]). exists key. split; [done|]. cbn.
  destruct (decide (key = k)) as [->|]; [rewrite lookup_insert_eq|rewrite lookup_insert_ne by done]; eauto.
Qed.

Lemma cors_step_inv c c' : cors_inv c -> cors_step c c' -> cors_inv c'.
Proof.
  intros Hc [scheme host port methods headers max_age|now q c2 res E].
  - unfold allow_origin. repeat case_match; try done; by apply insert_origin_inv.
  - unfold cors_request in E. cbn in E. injection E as E. case_bool_decide.
    + unfold handle_options_request in E. repeat case_match; simplify_eq; try done; cbn in *.
      all: apply insert_allowed_inv; [done|]; eexists; by split; [done|eexists].
    + unfold handle_simple_request in E. repeat case_match; simplify_eq; try done; cbn in *.
      all: apply insert_allowed_inv; [done|]; eexists; by split; [done|eexists].
Qed.

Lemma cors_step_any c c' : cors_step c c' -> allow_any_origin_max_age c' = allow_any_origin_max_age c.
Proof.
  intros [scheme host port methods headers max_age|now q c2 res E].
  - unfold allow_origin. by repeat case_match.
  - unfold cors_request in E. cbn in E. injection E as E.
    unfold handle_options_request, handle_simple_request in E. repeat case_match; by simplify_eq.
Qed.

Lemma cors_reachable methods c :
  rtc cors_step (new_cors methods None) c -> cors_inv c /\ allow_any_origin_max_age c = None.
Proof.
  intros Hr. eapply (rtc_ind_r (fun c => cors_inv c /\ allow_any_origin_max_age c = None)); [|clear Hr c|exact Hr].
  - split; [|done]. intros o [v Hv]. cbn in Hv. by rewrite lookup_empty in Hv.
  - intros c c' _ Hs [Hi Ha]. split; [by eapply cors_step_inv|]. by rewrite (cors_step_any _ _ Hs).
Qed.

Lemma cors_request_eq now q c :
  cors_request now q c =
  Done (if bool_decide (method (req_start q) = "OPTIONS") then handle_options_request now q fresh c
        else handle_simple_request now q fresh c).
Proof. done. Qed.

(** Unless any origin is allowed, and whatever requests came before at whatever times,
    a request whose origin was not added never goes on to the other middlewares: it is
    answered without any header that allows the origin, or refused, and nothing is
    remembered of it. *)
Theorem cors_refuses methods c now q origin :
  rtc cors_step (new_cors methods None) c ->
  header_get "origin" (req_headers q) = Some origin -> ~ configured c (lossy origin) ->
  exists res, cors_request now q c = Done (c, res) /\
    (res = Throw AddrNotAvailable \/ res = Break (no_body fresh) \/
     (method (req_start q) = "OPTIONS" /\ header_get "access-control-request-method" (req_headers q) = None /\
      res = Break (no_body (header "allow" (default_methods c) fresh)))).
Proof.
  intros Hr Ho Hnc. apply cors_reachable in Hr as [Hi Ha]. rewrite cors_request_eq.
  assert (get_origin (lossy origin) = Err AddrNotAvailable \/
    exists key, get_origin (lossy origin) = Ok key /\ allow_origins c !! key = None) as Hg.
  { destruct (get_origin (lossy origin)) as [key|e] eqn:E.
    - right. exists key. split; [done|]. apply eq_None_not_Some. intros Hs. apply Hnc. by exists key.
    - left. unfold get_origin in E. by repeat case_match; simplify_eq. }
  case_bool_decide as Hm.
  - unfold handle_options_request. rewrite Ho. destruct (header_get "access-control-request-method" _); [|eauto 10].
    destruct Hg as [->|(key & -> & Hk)]; [eauto|]. rewrite Ha, Hk. eauto.
  - unfold handle_simple_request. rewrite Ho, Ha, bool_decide_false by (by intros []).
    assert (allowed c !! lossy origin = None) as ->.
    { apply eq_None_not_Some. intros Hs. by apply Hnc, Hi. }
    destruct Hg as [->|(key & -> & Hk)]; [eauto|]. rewrite Hk. eauto.
Qed.

Lemma allow_origins_insert o v c : allow_origins (insert_allowed o v c) = allow_origins c.
Proof. done. Qed.

(** A preflight of an added origin with an age lets its requests through for that many
    seconds; later ones are refused, although the origin is still allowed, until the next
    preflight. Without a preflight the requests of the origin are always let through. *)
Theorem cors_age now now' q q' c origin asked key ms hs max_age :
  allow_any_origin_max_age c = None ->
  header_get "origin" (req_headers q) = Some origin -> header_get "origin" (req_headers q') = Some origin ->
  header_get "access-control-request-method" (req_headers q) = Some asked ->
  method (req_start q) = "OPTIONS" -> method (req_start q') <> "OPTIONS" ->
  get_origin (lossy origin) = Ok key -> allow_origins c !! key = Some (ms, hs, Some max_age) ->
  methods_allowed (lossy asked) ms = true -> (now <= now')%Z ->
  exists c' r, cors_request now q c = Done (c', Break r) /\
    cors_request now' q' c' = Done (c',
      if ((now' - now) / NANOS <=? max_age)%Z then ContinueRequest q' else Break (no_body fresh)) /\
    (allowed c !! lossy origin = None ->
     cors_request now' q' c = Done (insert_allowed (lossy origin) None c, ContinueRequest q') /\
     forall now2, cors_request now2 q' (insert_allowed (lossy origin) None c) =
       Done (insert_allowed (lossy origin) None c, ContinueRequest q')).
Proof.
  intros Ha Ho Ho' Hasked Hm Hm' Hk Hrule Hms Hle. eexists _, _. rewrite !cors_request_eq.
  rewrite bool_decide_true, !bool_decide_false by done. split_and!.
  - unfold handle_options_request. by rewrite Ho, Hasked, Hk, Ha, Hrule, Hms.
  - unfold handle_simple_request. rewrite Ho'. cbn [insert_allowed allow_any_origin_max_age allowed].
    rewrite Ha, bool_decide_false, lookup_insert_eq by (by intros []).
    rewrite (proj2 (Z.ltb_ge _ _)) by lia. rewrite Z.leb_antisym. by destruct (_ <? _)%Z.
  - intros Hn. split.
    + unfold handle_simple_request. rewrite Ho', Ha, bool_decide_false by (by intros []). by rewrite Hn, Hk, Hrule.
    + intros now2. rewrite cors_request_eq, bool_decide_false by done. unfold handle_simple_request. rewrite Ho'.
      cbn [insert_allowed allow_any_origin_max_age allowed].
      by rewrite Ha, bool_decide_false, lookup_insert_eq by (by intros []).
Qed.
End cors.

(** ** Witnesses *)

#[local] Instance sample_uri : UriApi := {
  uri_parse s :=
    rest ← sample_rest s;
    Some (Some (if String.prefix "https" s then "https" else "http"), Some (default rest (hd_error (split_on ":"%char rest))),
          split_on ":"%char rest !! 1 ≫= parse_u64);
  host_parse h := if bool_decide (h = "") then None else Some (to_lowercase h) }.

Definition sample_cors : CORSHandler :=
  (allow_origin "http" "a.com" 80 ["GET"; "POST"] [] (Some 60%Z) (new_cors "GET" None)).1.

Lemma cors_refuses_witness :
  exists res, cors_request 5 (sample_request "GET" "/" [("origin", "http://b.com")]) sample_cors = Done (sample_cors, res) /\
    (res = Throw AddrNotAvailable \/ res = Break (no_body fresh) \/
     (method (req_start (sample_request "GET" "/" [("origin", "http://b.com")])) = "OPTIONS" /\
      header_get "access-control-request-method" [("origin", header_of "http://b.com")] = None /\
      res = Break (no_body (header "allow" (default_methods sample_cors) fresh)))).
Proof.
  apply (cors_refuses "GET" sample_cors 5 (sample_request "GET" "/" [("origin", "http://b.com")]) (header_of "http://b.com")).
  - apply rtc_once, step_allow.
  - reflexivity.
  - intros (key & E & Hs). vm_compute in E. injection E as <-. vm_compute in Hs. by destruct Hs.
Defined.

Definition sample_preflight : HttpRequest :=
  sample_request "OPTIONS" "/" [("origin", "http://a.com"); ("access-control-request-method", "GET")].

Lemma cors_age_witness :
  let q' := sample_request "GET" "/" [("origin", "http://a.com")] in
  exists c' r, cors_request 0 sample_preflight sample_cors = Done (c', Break r) /\
    cors_request (61 * NANOS) q' c' = Done (c', Break (no_body fresh)) /\
    (allowed sample_cors !! "http://a.com" = None ->
     cors_request (61 * NANOS) q' sample_cors = Done (insert_allowed "http://a.com" None sample_cors, ContinueRequest q') /\
     forall now2, cors_request now2 q' (insert_allowed "http://a.com" None sample_cors) =
       Done (insert_allowed "http://a.com" None sample_cors, ContinueRequest q')).
Proof.
  apply (cors_age 0 (61 * NANOS) sample_preflight (sample_request "GET" "/" [("origin", "http://a.com")]) sample_cors
    (header_of "http://a.com") (header_of "GET") ("http", "a.com", 80%Z) ["GET"; "POST"] None 60); try reflexivity; done.
Defined.
