(* ===== verification/HttpPort.v ===== *)
(** * The port to the application (http/src/port.rs)

    The last middleware of a chain hands the request to the application and collects the
    body that the application writes. The application is a parameter: from its arguments it
    gives what its future does with the response handle, what the tasks that it leaves
    behind send later, and whether it keeps a handle for ever. *)

From S2P Require Import Prelude ByteSource HttpText ByteSearch HttpMessage HttpMiddleware HttpSample.

#[local] Open Scope string_scope.
#[local] Open Scope list_scope.

Section port.
Context `{HttpApi}.

(** The arguments of the handler. *)
Record PortArgs := mkPortArgs {
  arg_gray : option Z;
  arg_path : string;
  arg_method : string;
  arg_headers : HeaderMap;
  arg_params : gmap string SGenType;
}.

Record AppRun := mkAppRun { own_ops : list handler_op; later : list (option part); keeps : bool }.

Record HttpPort := mkHttpPort { gray : option Z; handler : PortArgs -> AppRun }.

(** [get_gray], [set_gray] *)
Definition get_gray (p : HttpPort) : option Z := gray p.
Definition set_gray (g : option Z) (p : HttpPort) : HttpPort * option Z := (mkHttpPort g (handler p), gray p).

(** The parts of a form go to the parameters. *)
Definition fill_params (c : GatewayContext) : GatewayContext :=
  if bool_decide (parts c = ∅) then c else set_parts ∅ (set_params (parts c ∪ params c) c).

(** The receiver gets what the application sends later. *)
Definition leave_behind (run : AppRun) (r : HttpResponse) : HttpResponse :=
  match resp_body r with
  | Some b =>
      let c := consumer b in
      set_body (Some (set_consumer (mkHttpReceiver (bound c) (msgs c) (later run) (own_sender c) (keeps run)) b)) r
  | None => r
  end.

(** [HttpPort::request] *)
Definition port_request (p : HttpPort) (q : HttpRequest) (c : GatewayContext)
    : outcome (GatewayContext * MiddlewareResult) :=
  let c := fill_params c in
  r ← lift (new_resp 2);
  let run := handler p (mkPortArgs (get_gray p) (url_path (req_url (req_start q))) (method (req_start q))
                          (req_headers q) (params c)) in
  r ← run_ops (own_ops run) r;
  Done (c, Finish q (leave_behind run r)).

(** [HttpPort::response] *)
Definition port_response (q : HttpRequest) (r : HttpResponse) : outcome MiddlewareResult :=
  if is_stream r then Done (Break r)
  else match resp_body r with
       | None => Done (ContinueResponse q r)
       | Some b =>
           '(b, res) ← collect_body 2 [] b;
           Done match res with Err e => Throw e | Ok _ => ContinueResponse q (set_body (Some b) r) end
       end.

(** [impl Middleware for HttpPort] *)
Definition port_middleware {W : Type} `{Focus GatewayContext W} (p : HttpPort) : Middleware W := {|
  mw_request q w := '(c, res) ← port_request p q (focus_get w); Done (focus_put c w, res);
  mw_response q r w := res ← port_response q r; Done (w, res) |}.

(** ** What the application sends *)

(** All the messages of a run, in order. *)
Definition run_msgs (run : AppRun) : list (option part) := concat (op_msgs <$> own_ops run) ++ later run.

Definition own_msgs (run : AppRun) : nat := length (concat (op_msgs <$> own_ops run)).

(** The arguments with which the application is called. *)
Definition args_of (p : HttpPort) (q : HttpRequest) (c : GatewayContext) : PortArgs :=
  mkPortArgs (get_gray p) (url_path (req_url (req_start q))) (method (req_start q)) (req_headers q)
    (params (fill_params c)).

Lemma port_request_run p q c :
  let run := handler p (args_of p q c) in
  if decide (own_msgs run <= 2) then
    exists r b, port_request p q c = Done (fill_params c, Finish q r) /\ resp_body r = Some b /\
      to_come (consumer b) = run_msgs run /\ buf b = None /\
      own_sender (consumer b) = true /\ app_sender (consumer b) = keeps run
  else port_request p q c = Blocked.
Proof.
  intros run. unfold port_request. change (new_resp 2) with (Some fresh).
  cbn [lift mbind outcome_bind]. fold (args_of p q c). fold run.
  pose proof (run_ops_spec (own_ops run) fresh
    (mkRespBody false (channel 2) None) eq_refl ltac:(cbn; lia)) as Hs. cbn [consumer channel msgs bound length Nat.add] in Hs.
  unfold own_msgs. destruct (decide _) as [Hd|Hd].
  - destruct Hs as (r & b & E & Hb & Em & _ & _ & Ef & Eo). rewrite E. cbn [mbind outcome_bind]. eexists _, _. split; [done|].
    unfold leave_behind. rewrite Hb. cbn. split; [done|]. unfold to_come. cbn. rewrite Em. by split_and!.
  - by rewrite Hs.
Qed.

(** When the future of the application sends at most two messages and the end of the
    body comes at some time, from the future or from a task it left behind, the response
    goes on with the body that was sent up to the end, in the order of the sends. *)
Theorem port_collects p q c parts rest :
  let run := handler p (args_of p q c) in
  own_msgs run <= 2 -> run_msgs run = (Some <$> parts) ++ None :: rest ->
  exists r, port_request p q c = Done (fill_params c, Finish q r) /\
    if is_stream r then port_response q r = Done (Break r)
    else exists r' b, port_response q r = Done (ContinueResponse q r') /\ resp_body r' = Some b /\
      buf b = Some (concat parts.*2) /\ headers r' = headers r /\ start r' = start r.
Proof.
  intros run Hown Hmsgs. pose proof (port_request_run p q c) as Hr. cbv zeta in Hr. fold run in Hr.
  rewrite decide_True in Hr by done. destruct Hr as (r & b & E & Hb & Ec & Ef & _).
  exists r. split; [done|]. unfold port_response. destruct (is_stream r) eqn:Es; [done|]. rewrite Hb.
  rewrite Hmsgs in Ec. destruct (collect_body_ends _ _ _ Ef Ec) as (b' & -> & Eb & _).
  cbn [mbind outcome_bind]. eexists _, _. split; [done|]. by split_and!.
Qed.

(** A future that sends a third message never ends, since nobody receives before it
    does. A response whose body is never ended is waited for for ever, also when the
    application has dropped every handle, because the response keeps one itself. *)
Theorem port_waits p q c :
  let run := handler p (args_of p q c) in
  (2 < own_msgs run -> port_request p q c = Blocked) /\
  (own_msgs run <= 2 -> None ∉ run_msgs run ->
   exists r, port_request p q c = Done (fill_params c, Finish q r) /\
     (is_stream r = false -> port_response q r = Blocked)).
Proof.
  intros run. pose proof (port_request_run p q c) as Hr. cbv zeta in Hr. fold run in Hr. split.
  - intros Hlt. by rewrite decide_False in Hr by lia.
  - intros Hle Hno. rewrite decide_True in Hr by done. destruct Hr as (r & b & E & Hb & Ec & Ef & Eo & _).
    exists r. split; [done|]. intros Es. unfold port_response. rewrite Es, Hb. cbn [collect_body]. unfold body_parts.
    rewrite Ef. assert (exists parts, run_msgs run = Some <$> parts) as [parts Hp].
    { clear -Hno. induction (run_msgs run) as [|[m|] ms IH]; [by exists []| |].
      - apply not_elem_of_cons in Hno as [_ Hno]. destruct (IH Hno) as [parts ->]. by exists (m :: parts).
      - apply not_elem_of_cons in Hno as [Hno _]. done. }
    rewrite Hp in Ec. destruct (recv_open _ _ Ec) as [Hblk _]. by rewrite Hblk by (by rewrite Eo).
Qed.
End port.

(** ** Witnesses *)

Definition sample_port (ops : list handler_op) (ms : list (option part)) : HttpPort :=
  mkHttpPort None (fun _ => mkAppRun ops ms false).

Lemma port_collects_witness :
  exists r, port_request (sample_port [OpStatus 201; OpWrite 7 [1; 2]%Z] [Some (3, [9]%Z); None; Some (4, [5]%Z)]%Z)
      (sample_request "GET" "/" []) new_context = Done (fill_params new_context, Finish (sample_request "GET" "/" []) r) /\
    if is_stream r then port_response (sample_request "GET" "/" []) r = Done (Break r)
    else exists r' b, port_response (sample_request "GET" "/" []) r = Done (ContinueResponse (sample_request "GET" "/" []) r') /\
      resp_body r' = Some b /\ buf b = Some [1; 2; 9]%Z /\ headers r' = headers r /\ start r' = start r.
Proof.
  apply (port_collects (sample_port [OpStatus 201; OpWrite 7 [1; 2]%Z] [Some (3, [9]%Z); None; Some (4, [5]%Z)]%Z)
    (sample_request "GET" "/" []) new_context [(7, [1; 2]%Z); (3, [9]%Z)]%Z [Some (4, [5]%Z)]%Z).
  - vm_compute. lia.
  - reflexivity.
Defined.
