(* ===== verification/HttpMultipart.v ===== *)
(** * Multipart bodies (http/src/multi_parts.rs)

    The middleware reads the body of a form block by block. What a block leaves without a
    boundary behind it is kept in the context and joined to the next block. *)

From Stdlib Require Import Ascii.
From S2P Require Import Prelude ByteSource HttpText ByteSearch HttpMessage HttpBody HttpMiddleware HttpSample.

#[local] Open Scope string_scope.
#[local] Open Scope list_scope.

(** [httparse::parse_headers] with room for eight headers ([None] is its error, the inner
    one an incomplete head, else the length of the head and its lines), and
    [HeaderValue::from_bytes]. *)
Class PartApi := {
  part_head : list Z -> option (option (nat * list (string * list Z)));
  value_of_bytes : list Z -> option HeaderValue;
}.

Section multipart.
Context `{HttpApi} `{MimeApi} `{ByteSearch} `{PartApi}.

Definition PREFIX_SUFFIX : list Z := as_bytes "--".
Definition LINE_BREAK : list Z := CRLF.
Definition filter_char (c : ascii) : bool :=
  bool_decide (c = " "%char \/ c = ascii_of_N 9 \/ c = ascii_of_N 34).

(** The parameters of [Content-Disposition]. *)
Fixpoint disposition (ps : list string) (name_key : option string) (c : GatewayContext)
    : GatewayContext * option string :=
  match ps with
  | [] => (c, name_key)
  | p :: ps =>
      match split_on "="%char p with
      | k :: v :: _ =>
          let k := trim_matches filter_char k in
          let v := trim_matches filter_char v in
          if bool_decide (k = "name") then disposition ps (Some v) c
          else if bool_decide (k = "filename") then disposition ps name_key (insert_part k (SStr v) c)
          else disposition ps name_key c
      | _ => disposition ps name_key c
      end
  end.

(** [&part[offset..(part.len() - 2)]]; [None] is its panic. *)
Definition part_value (part : list Z) (offset : nat) : option (list Z) :=
  if bool_decide (2 <= length part /\ offset <= length part - 2) then
    Some (firstn (length part - 2 - offset) (drop offset part))
  else None.

Definition is_binary (m : mime) : bool :=
  bool_decide (mime_type m ∈ ["audio"; "video"; "image"; "font"]) ||
  bool_decide (mime_type m = "application" /\
    (mime_subtype m = "octet-stream" \/ mime_subtype m = "pdf" \/ mime_subtype m = "x-msdownload")).

(** The loop over the headers of a part. *)
Fixpoint part_headers (part : list Z) (offset : nat) (hs : list (string * list Z)) (name_key : option string)
    (c : GatewayContext) : outcome (GatewayContext * option string * io_result unit) :=
  match hs with
  | [] => Done (c, name_key, Ok tt)
  | (name, value) :: hs =>
      match header_name name with
      | None => Done (c, name_key, Err InvalidData)
      | Some key =>
          match value_of_bytes value with
          | None => Done (c, name_key, Err InvalidData)
          | Some v =>
              match to_str v with
              | None => part_headers part offset hs name_key c
              | Some s =>
                  if bool_decide (key = "content-disposition") then
                    let '(c, name_key) := disposition (split_on ";"%char s) name_key c in
                    part_headers part offset hs name_key c
                  else if bool_decide (key = "content-type") then
                    match name_key with
                    | None => part_headers part offset hs None c
                    | Some k =>
                        match mime_parse s with
                        | None => part_headers part offset hs None c
                        | Some m =>
                            bin ← lift (part_value part offset);
                            let v := if is_binary m then SBin bin else SStr (utf8_lossy bin) in
                            part_headers part offset hs None (insert_part k v c)
                        end
                    end
                  else part_headers part offset hs name_key c
              end
          end
      end
  end.

(** [parse_part_headers_body] *)
Definition parse_part_headers_body (part : list Z) (c : GatewayContext)
    : outcome (GatewayContext * io_result unit) :=
  if bool_decide (length part = 0) then Done (c, Ok tt)
  else match part_head part with
       | None => Done (c, Err Other)
       | Some None => Done (c, Err Other)
       | Some (Some (offset, hs)) =>
           '(c, name_key, res) ← part_headers part offset hs None c;
           match res with
           | Err e => Done (c, Err e)
           | Ok _ =>
               match name_key with
               | Some k => bin ← lift (part_value part offset); Done (insert_part k (SStr (utf8_lossy bin)) c, Ok tt)
               | None => Done (c, Ok tt)
               end
           end
       end.

(** The loop of [parse_part]: [parsed] tells if a part was found. *)
Fixpoint part_loop (fuel : nat) (boundary bin : list Z) (parsed : bool) (c : GatewayContext)
    : outcome (GatewayContext * io_result bool) :=
  match fuel with
  | O => NoFuel
  | S fuel =>
      match find_bytes bin boundary with
      | Some index =>
          '(c, res) ← parse_part_headers_body (firstn index bin) c;
          match res with
          | Err e => Done (c, Err e)
          | Ok _ =>
              let offset := index + length boundary in
              if bool_decide (length bin <= offset) then Done (c, Ok true)
              else part_loop fuel boundary (drop offset bin) true c
          end
      | None => Done (push_part_buf bin c, Ok parsed)
      end
  end.

(** [parse_part]: the kept bytes come first. *)
Definition parse_part (boundary bin : list Z) (c : GatewayContext) : outcome (GatewayContext * io_result bool) :=
  match take_part_buf c with
  | (c, Some part_buf) => let bin := part_buf ++ bin in part_loop (S (length bin)) boundary bin false c
  | (c, None) => part_loop (S (length bin)) boundary bin false c
  end.

Definition check_part_end (buf boundary_end : list Z) : option nat := rfind_bytes buf boundary_end.

(** [parse_part_end] *)
Definition parse_part_end (boundary boundary_end : list Z) (c : GatewayContext)
    : outcome (GatewayContext * io_result unit) :=
  '(c, res) ← match take_part_buf c with
              | (c, Some part_buf) => parse_part (PREFIX_SUFFIX ++ boundary ++ LINE_BREAK) part_buf c
              | (c, None) => Done (c, Ok false)
              end;
  match res with
  | Err e => Done (c, Err e)
  | Ok _ =>
      match take_part_buf c with
      | (c, Some part_buf) =>
          match check_part_end part_buf boundary_end with
          | Some index =>
              '(c, res) ← parse_part_headers_body (firstn index part_buf) c;
              Done (c, match res with Err e => Err e | Ok _ => Ok tt end)
          | None => Done (c, Ok tt)
          end
      | (c, None) => Done (c, Ok tt)
      end
  end.

Definition boundary_bin (param : string) : list Z := PREFIX_SUFFIX ++ as_bytes param ++ LINE_BREAK.
Definition boundary_end_bin (param : string) : list Z := PREFIX_SUFFIX ++ as_bytes param ++ PREFIX_SUFFIX ++ LINE_BREAK.

(** One block: an error, the end of the form, or more to read. *)
Inductive block_result := BlockErr (e : ErrorKind) | BlockEnd | BlockMore.

Definition parse_block (param : string) (bin : list Z) (c : GatewayContext)
    : outcome (GatewayContext * block_result) :=
  '(c, res) ← parse_part (boundary_bin param) bin c;
  Done (c, match res with
           | Err e => BlockErr e
           | Ok _ => match check_part_end bin (boundary_end_bin param) with Some _ => BlockEnd | None => BlockMore end
           end).

(** The boundary of a form, from the header. *)
Definition form_boundary (q : HttpRequest) : option string :=
  v ← header_get "content-type" (req_headers q);
  s ← to_str v;
  m ← mime_parse s;
  if mime_is "multipart" "form-data" m then mime_param "boundary" m else None.

Section connection.
Context {S : Type} `{ByteSource S}.

(** The loop that reads the blocks of the body. *)
Fixpoint blocks_loop (fuel block_size : nat) (param : string) (q : HttpRequest) (s : S) (c : GatewayContext)
    : outcome (S * HttpRequest * GatewayContext * io_result unit) :=
  match fuel with
  | O => NoFuel
  | Datatypes.S fuel =>
      '(s, q, block) ← next_body fuel block_size q s;
      match block with
      | None => Done (s, q, c, Ok tt)
      | Some bin =>
          '(c, res) ← parse_block param bin c;
          match res with
          | BlockErr e => Done (s, q, c, Err e)
          | BlockEnd => Done (s, q, c, Ok tt)
          | BlockMore => blocks_loop fuel block_size param q s c
          end
      end
  end.

(** [MutilParts::request] *)
Definition multi_request (fuel block_size : nat) (q : HttpRequest) (s : S) (c : GatewayContext)
    : outcome (S * GatewayContext * MiddlewareResult) :=
  match form_boundary q with
  | None => Done (s, c, ContinueRequest q)
  | Some param =>
      '(s, q, c, res) ← blocks_loop fuel block_size param q s c;
      match res with
      | Err e => Done (s, c, Throw e)
      | Ok _ =>
          '(c, res) ← parse_part_end (as_bytes param) (boundary_end_bin param) c;
          match res with Err e => Done (s, c, Throw e) | Ok _ => Done (s, c, ContinueRequest q) end
      end
  end.

(** [impl Middleware for MutilParts]; [block_size] is its field. *)
Definition mutil_parts {W : Type} `{Focus S W} `{Focus GatewayContext W} (fuel block_size : nat) : Middleware W := {|
  mw_request q w :=
    '(s, c, res) ← multi_request fuel block_size q (focus_get w) (focus_get w);
    Done (focus_put s (focus_put c w), res);
  mw_response q r w := Done (w, ContinueResponse q r) |}.
End connection.
End multipart.

(** ** Blocks *)

Section blocks.
Context `{HttpApi} `{MimeApi} `{ByteSearchLaws} `{PartApi}.

Definition erase (o : outcome (GatewayContext * io_result bool)) : outcome (GatewayContext * io_result unit) :=
  '(c, res) ← o; Done (c, match res with Ok _ => Ok tt | Err e => Err e end).

(** The blocks of a body, one after the other. *)
Fixpoint feed (boundary : list Z) (blocks : list (list Z)) (c : GatewayContext)
    : outcome (GatewayContext * io_result unit) :=
  match blocks with
  | [] => Done (c, Ok tt)
  | b :: blocks =>
      '(c, res) ← erase (parse_part boundary b c);
      match res with Err e => Done (c, Err e) | Ok _ => feed boundary blocks c end
  end.

Lemma disposition_part_buf ps nk c : part_buf (disposition ps nk c).1 = part_buf c.
Proof.
  revert nk c. induction ps as [|p ps IH]; intros nk c; cbn [disposition]; [done|].
  repeat case_match; by rewrite IH.
Qed.

Lemma part_headers_part_buf part offset hs nk c c' nk' res :
  part_headers part offset hs nk c = Done (c', nk', res) -> part_buf c' = part_buf c.
Proof.
  revert nk c. induction hs as [|[name value] hs IH]; intros nk c; cbn [part_headers]; [by intros [= <- _ _]|].
  destruct (header_name name) as [key|]; [|by intros [= <- _ _]].
  destruct (value_of_bytes value) as [v|]; [|by intros [= <- _ _]].
  destruct (to_str v) as [s|]; [|apply IH]. case_bool_decide.
  { destruct (disposition _ nk c) as [c1 nk1] eqn:E. intros E'. apply IH in E' as ->.
    rewrite <-(disposition_part_buf (split_on ";"%char s) nk c). by rewrite E. }
  case_bool_decide; [|apply IH]. destruct nk as [k|]; [|apply IH]. destruct (mime_parse s); [|apply IH].
  destruct (part_value part offset); [|done]. cbn [lift mbind outcome_bind]. intros E. by apply IH in E as ->.
Qed.

Lemma parse_body_part_buf part c c' res :
  parse_part_headers_body part c = Done (c', res) -> part_buf c' = part_buf c.
Proof.
  unfold parse_part_headers_body. case_bool_decide; [by intros [= <- _]|].
  destruct (part_head part) as [[[offset hs]|]|]; [|by intros [= <- _]..].
  destruct (part_headers _ _ _ _ _) as [[[c1 nk] r]| | |] eqn:E; [|done..]. cbn [mbind outcome_bind].
  apply part_headers_part_buf in E. destruct r; [|by intros [= <- _]].
  destruct nk; [|by intros [= <- _]]. destruct (part_value _ _); [|done]. cbn. by intros [= <- _].
Qed.

(** Enough fuel is enough. *)
Lemma part_loop_fuel boundary f1 f2 bin p c :
  boundary <> [] -> length bin < f1 -> length bin < f2 ->
  part_loop f1 boundary bin p c = part_loop f2 boundary bin p c.
Proof.
  intros Hb. revert f2 bin p c. induction f1 as [|f1 IH]; intros [|f2] bin p c H1' H2'; try lia.
  cbn [part_loop]. destruct (find_bytes bin boundary) as [i|] eqn:E; [|done].
  destruct (parse_part_headers_body _ _) as [[c1 [b|e]]| | |]; try done. cbn [mbind outcome_bind].
  case_bool_decide; [done|]. assert (0 < length boundary) by (destruct boundary; [done|cbn; lia]).
  apply IH; rewrite length_drop; lia.
Qed.

Definition loop (boundary bin : list Z) (p : bool) (c : GatewayContext) :=
  part_loop (S (length bin)) boundary bin p c.

Lemma loop_found boundary bin p c i :
  boundary <> [] -> find_bytes bin boundary = Some i ->
  loop boundary bin p c =
  '(c, res) ← parse_part_headers_body (firstn i bin) c;
  match res with
  | Err e => Done (c, Err e)
  | Ok _ =>
      if bool_decide (length bin <= i + length boundary) then Done (c, Ok true)
      else loop boundary (drop (i + length boundary) bin) true c
  end.
Proof.
  intros Hb E. unfold loop at 1. cbn [part_loop]. rewrite E.
  destruct (parse_part_headers_body _ _) as [[c1 [b|e]]| | |]; try done. cbn [mbind outcome_bind].
  case_bool_decide; [done|]. assert (0 < length boundary) by (destruct boundary; [done|cbn; lia]).
  apply part_loop_fuel; [done|rewrite length_drop; lia..].
Qed.

Lemma loop_none boundary bin p c :
  find_bytes bin boundary = None -> loop boundary bin p c = Done (push_part_buf bin c, Ok p).
Proof. intros E. unfold loop. cbn [part_loop]. by rewrite E. Qed.

Lemma erase_loop boundary bin p p' c :
  boundary <> [] -> erase (loop boundary bin p c) = erase (loop boundary bin p' c).
Proof.
  intros Hb. destruct (find_bytes bin boundary) as [i|] eqn:E.
  - by rewrite !(loop_found _ _ _ _ i).
  - by rewrite !loop_none.
Qed.

Lemma parse_part_loop boundary bin c :
  parse_part boundary bin c = loop boundary (default [] (part_buf c) ++ bin) false (set_part_buf None c).
Proof. unfold parse_part, take_part_buf. by destruct (part_buf c). Qed.

Lemma set_part_buf_none c : part_buf c = None -> set_part_buf None c = c.
Proof. intros E. destruct c. cbn in *. by subst. Qed.

(** Cutting the bytes somewhere makes no difference. *)
Lemma loop_split boundary b1 b2 p c :
  boundary <> [] -> b2 <> [] -> part_buf c = None ->
  erase (loop boundary (b1 ++ b2) p c) =
  '(c1, res) ← loop boundary b1 p c;
  match res with Err e => Done (c1, Err e) | Ok _ => erase (parse_part boundary b2 c1) end.
Proof.
  intros Hb Hne2. assert (exists n, length b1 <= n) as [n Hn] by eauto. revert b1 p c Hn.
  induction n as [|n IH]; intros b1 p c Hn Hc.
  all: destruct (find_bytes b1 boundary) as [i|] eqn:E.
  all: try (rewrite (loop_none _ b1) by done; cbn [mbind outcome_bind]; rewrite parse_part_loop;
    unfold push_part_buf; rewrite Hc; cbn [part_buf set_part_buf default];
    rewrite (erase_loop _ _ _ false) by done; do 2 f_equal; by destruct c; cbn in *; subst).
  all: pose proof (find_bytes_some _ _ _ E) as [[Hi _] _];
    assert (0 < length boundary) as Hb0 by (destruct boundary; [done|cbn; lia]).
  1: lia.
  rewrite (loop_found _ b1 _ _ i), (loop_found _ (b1 ++ b2) _ _ i) by (done || by apply find_bytes_app).
  rewrite take_app_le by lia. destruct (parse_part_headers_body _ _) as [[c1 [x|e]]| | |] eqn:Eb; try done.
  cbn [mbind outcome_bind]. apply parse_body_part_buf in Eb. rewrite Hc in Eb.
  assert (length b2 <> 0) by (by destruct b2). rewrite (bool_decide_false (length (b1 ++ b2) <= _)) by (rewrite length_app; lia).
  case_bool_decide as Hd.
  - cbn [mbind outcome_bind]. rewrite parse_part_loop, Eb. cbn [default app]. rewrite set_part_buf_none by done.
    rewrite drop_app_ge, (proj2 (Nat.sub_0_le _ _)), drop_0 by lia. by apply erase_loop.
  - rewrite drop_app_le by lia. apply IH; [rewrite length_drop; lia|done].
Qed.

(** However the body of a form is cut into blocks, the parts that are found, the bytes
    kept for later and the errors are those of the whole body read in one piece. *)
Theorem blocks_independent boundary blocks c :
  boundary <> [] -> part_buf c = None -> blocks <> [] -> Forall (fun b => b <> []) blocks ->
  feed boundary blocks c = erase (parse_part boundary (concat blocks) c).
Proof.
  intros Hb Hc Hne Hall.
  enough (forall blocks b c, part_buf c = None -> Forall (fun b => b <> []) blocks ->
    feed boundary (b :: blocks) c = erase (parse_part boundary (b ++ concat blocks) c)) as Hk.
  { destruct Hall as [|b blocks Hb' Hall]; [done|]. by apply Hk. }
  clear c Hc blocks Hne Hall. induction blocks as [|b2 blocks IH]; intros b c Hc Hall.
  { cbn [feed concat]. rewrite app_nil_r. by destruct (parse_part boundary b c) as [[c1 [x|e]]| | |]. }
  inversion_clear Hall as [|? ? Hb2 Hall']. cbn [concat]. rewrite (parse_part_loop _ (b ++ _)), Hc.
  cbn [default app]. rewrite set_part_buf_none by done.
  rewrite loop_split; [|done| |done]; last by destruct b2.
  cbn [feed]. rewrite parse_part_loop, Hc. cbn [default app]. rewrite (set_part_buf_none c) by done.
  destruct (loop boundary b false c) as [[c1 [x|e]]| | |]; try done.
  change (erase (Done (c1, Ok x))) with (Done (c1, Ok tt) : outcome (GatewayContext * io_result unit)).
  cbn [mbind outcome_bind].
  specialize (IH (default [] (part_buf c1) ++ b2) (set_part_buf None c1) eq_refl Hall').
  cbn [feed] in IH |- *. rewrite !parse_part_loop in IH |- *. cbn [part_buf set_part_buf default app] in IH.
  rewrite <-!app_assoc in IH. exact IH.
Qed.
End blocks.

(** ** Forms of text fields *)

Section form.
Context `{HttpApi} `{MimeApi} `{ByteSearchLaws} `{PartApi}.

Definition quote : ascii := ascii_of_N 34.
Definition name_value (k : string) : string := "form-data; name=" +:+ String quote (k +:+ String quote "").

Definition key_char (c : ascii) : bool := negb (filter_char c) && negb (bool_decide (c = ";"%char \/ c = "="%char)).

(** A part that has one header, which names the field, and the value behind the head. *)
Definition text_part (k : string) (value part : list Z) : Prop :=
  part <> [] /\ str_all key_char k = true /\
  exists offset n v hv, part_head part = Some (Some (offset, [(n, v)])) /\
    header_name n = Some "content-disposition" /\ value_of_bytes v = Some hv /\
    to_str hv = Some (name_value k) /\ part_value part offset = Some value.

Lemma disposition_name k c :
  str_all key_char k = true ->
  disposition (split_on ";"%char (name_value k)) None c = (c, Some k).
Proof.
  intros Hk. assert (forall x, key_char x = false -> find_char x k = None) as Habs
    by (intros x Hx; by apply (str_all_absent key_char)).
  assert (forall x, x <> quote -> key_char x = false -> find_char x (String quote (k +:+ String quote "")) = None) as Hq.
  { intros x Hx Hf. apply find_char_cons_none; [done|]. apply find_char_app_none; [by apply Habs|].
    by apply find_char_cons_none. }
  unfold name_value.
  change ("form-data; name=" +:+ ?s) with ("form-data" +:+ String ";"%char (" name" +:+ String "="%char s)).
  rewrite split_on_app by done. rewrite (split_on_absent ";"%char); last first.
  { apply find_char_app_none; [done|]. apply find_char_cons_none; [done|]. by apply Hq. }
  cbn [disposition]. rewrite (split_on_absent "="%char "form-data") by done.
  rewrite split_on_app by done. rewrite split_on_absent by (by apply Hq).
  change (trim_matches filter_char " name") with "name".
  rewrite trim_matches_quoted; [done| |done].
  eapply str_all_impl; [|exact Hk]. intros x Hx. by apply andb_prop in Hx as [Hx _].
Qed.

Lemma text_part_parsed k value part c :
  text_part k value part ->
  parse_part_headers_body part c = Done (insert_part k (SStr (utf8_lossy value)) c, Ok tt).
Proof.
  intros (Hne & Hk & offset & n & v & hv & Hh & Hn & Hv & Hs & Hval). unfold parse_part_headers_body.
  rewrite bool_decide_false by (by destruct part). rewrite Hh. cbn [part_headers]. rewrite Hn, Hv, Hs.
  rewrite bool_decide_true by done. rewrite disposition_name by done. cbn [part_headers mbind outcome_bind].
  rewrite Hval. done.
Qed.

(** A form: its parts behind the boundary, and the end marker. *)
Definition render_parts (param : string) (fields : list (string * list Z * list Z)) : list Z :=
  concat ((fun f : string * list Z * list Z => boundary_bin param ++ f.2) <$> fields) ++ boundary_end_bin param.

Definition store_parts (fields : list (string * list Z * list Z)) (c : GatewayContext) : GatewayContext :=
  foldl (fun c f => insert_part f.1.1 (SStr (utf8_lossy f.1.2)) c) c fields.

Definition field_ok (param : string) (f : string * list Z * list Z) : Prop :=
  text_part f.1.1 f.1.2 f.2 /\ first_at_end f.2 (boundary_bin param) /\
  find_bytes (f.2 ++ boundary_end_bin param) (boundary_bin param) = None.

Lemma boundary_bin_ne param : boundary_bin param <> [].
Proof. done. Qed.

Lemma store_parts_buf fields c : part_buf (store_parts fields c) = part_buf c.
Proof. revert c. induction fields as [|f fields IH]; intros c; [done|]. exact (IH (insert_part f.1.1 (SStr (utf8_lossy f.1.2)) c)). Qed.

(** Behind the first boundary, every part but the last is stored, the last is kept. *)
Lemma loop_fields param f fields p c :
  Forall (field_ok param) (f :: fields) -> part_buf c = None ->
  exists g rest, f :: fields = rest ++ [g] /\
    erase (loop (boundary_bin param)
      (f.2 ++ concat ((fun f : string * list Z * list Z => boundary_bin param ++ f.2) <$> fields) ++ boundary_end_bin param) p c) =
    Done (set_part_buf (Some (g.2 ++ boundary_end_bin param)) (store_parts rest c), Ok tt).
Proof.
  revert f p c. induction fields as [|f2 fields IH]; intros f p c Hall Hc.
  all: apply Forall_cons in Hall as [(Ht & Hf & He) Hall].
  - exists f, []. split; [done|]. cbn [fmap list_fmap concat app]. rewrite loop_none by done. cbn.
    unfold push_part_buf. by rewrite Hc.
  - cbn [fmap list_fmap concat]. rewrite <-!app_assoc.
    rewrite (loop_found _ _ _ _ (length f.2)); [|done|by apply find_first_at_end].
    rewrite take_app_length, (text_part_parsed f.1.1 f.1.2) by done. cbn [mbind outcome_bind].
    apply Forall_cons in Hall as [Hf2 Hall]. destruct Hf2 as [Ht2 Hf2].
    rewrite bool_decide_false; last first.
    { rewrite !length_app. destruct Ht2 as [Hne _]. assert (0 < length f2.2) by (destruct (f2.2); [done|cbn; lia]). lia. }
    rewrite drop_app_ge, Nat.add_comm, Nat.add_sub, drop_app_length by lia.
    destruct (IH f2 true (insert_part f.1.1 (SStr (utf8_lossy f.1.2)) c)) as (g & rest & E & ->); [by constructor|done|].
    exists g, (f :: rest). by rewrite E.
Qed.

(** A form of text fields, sent with its end marker in blocks of any sizes, leaves in
    the context each field with its value, when its last block has been read. *)
Theorem form_collected param fields blocks c :
  fields <> [] -> Forall (field_ok param) fields -> part_buf c = None ->
  concat blocks = render_parts param fields -> Forall (fun b => b <> []) blocks ->
  exists c1, feed (boundary_bin param) blocks c = Done (c1, Ok tt) /\
    parse_part_end (as_bytes param) (boundary_end_bin param) c1 = Done (store_parts fields c, Ok tt).
Proof.
  intros Hfne Hall Hc Hcat Hb. assert (blocks <> []) as Hne.
  { intros ->. cbn in Hcat. unfold render_parts in Hcat. symmetry in Hcat. apply app_eq_nil in Hcat as [_ Hcat]. done. }
  rewrite blocks_independent by done. rewrite Hcat, parse_part_loop, Hc. cbn [default app].
  rewrite (set_part_buf_none c) by done.
  assert (forall g rest, fields = rest ++ [g] ->
    parse_part_end (as_bytes param) (boundary_end_bin param)
      (set_part_buf (Some (g.2 ++ boundary_end_bin param)) (store_parts rest c)) = Done (store_parts fields c, Ok tt)) as Hend.
  { intros g rest ->. apply Forall_app in Hall as [_ Hg]. apply Forall_singleton in Hg as (Ht & _ & He).
    unfold parse_part_end, take_part_buf. cbn [part_buf set_part_buf]. rewrite parse_part_loop.
    cbn [part_buf set_part_buf default app]. fold (boundary_bin param). rewrite loop_none by done.
    cbn [mbind outcome_bind]. unfold push_part_buf. cbn [part_buf set_part_buf].
    unfold check_part_end. rewrite (rfind_bytes_last _ _ (length g.2)); last first.
    { intros j Hj [Hl _]. rewrite length_app in Hl. lia. }
    { pose proof (occurs_middle g.2 (boundary_end_bin param) []) as Ho. by rewrite app_nil_r in Ho. }
    rewrite take_app_length, (text_part_parsed g.1.1 g.1.2) by done. cbn [mbind outcome_bind].
    unfold store_parts at 2. rewrite foldl_app. cbn [foldl]. fold (store_parts rest c).
    do 2 f_equal. pose proof (store_parts_buf rest c) as Hp. rewrite Hc in Hp.
    destruct (store_parts rest c); cbn in *; by subst. }
  unfold render_parts. destruct fields as [|f fields]; [done|]. cbn [fmap list_fmap concat]. rewrite <-!app_assoc.
  rewrite (loop_found _ _ _ _ 0) by (done || apply find_bytes_front). rewrite take_0.
  change (parse_part_headers_body [] c) with (Done (c, Ok tt) : outcome (GatewayContext * io_result unit)).
  cbn [mbind outcome_bind Nat.add]. rewrite bool_decide_false; last first.
  { apply Forall_cons in Hall as [((Hne' & _) & _) _]. rewrite !length_app.
    assert (0 < length f.2) by (destruct (f.2); [done|cbn; lia]). lia. }
  rewrite drop_app_length. destruct (loop_fields param f fields true c Hall Hc) as (g & rest & E & ->).
  eexists. split; [done|]. by apply Hend.
Qed.
End form.

(** ** Witnesses *)

(** Lines of a head, without their carriage returns. *)
Definition sample_lines (head : list Z) : list (string * list Z) :=
  split_on (ascii_of_N 10) (text_of (filter (fun b => b <> 13%Z) head)) ≫= fun l =>
    match find_char ":"%char l with
    | Some i => [(str_take i l, as_bytes (trim (str_drop (S i) l)))]
    | None => []
    end.

#[local] Instance sample_parts : PartApi := {
  part_head bin :=
    Some match find_bytes bin [13; 10; 13; 10]%Z with
         | Some i => Some (i + 4, sample_lines (firstn i bin))
         | None => None
         end;
  value_of_bytes b := Some (header_of (text_of b)) }.

#[local] Instance sample_mime : MimeApi := {
  mime := string;
  mime_parse s := Some s;
  mime_type s := default "" (hd_error (split_on "/"%char s));
  mime_subtype s := default "" (split_on "/"%char s !! 1);
  mime_param _ _ := Some "B" }.

Definition sample_head (k : string) : list Z := as_bytes ("Content-Disposition: " +:+ name_value k) ++ CRLF ++ CRLF.
Definition sample_field (k v : string) : string * list Z * list Z :=
  (k, as_bytes v, sample_head k ++ as_bytes v ++ CRLF).
Definition sample_fields : list (string * list Z * list Z) := [sample_field "a" "1"; sample_field "b" ""].

Lemma sample_field_ok k v :
  str_all key_char k = true -> part_head (sample_field k v).2 =
    Some (Some (length (sample_head k), [("Content-Disposition", as_bytes (name_value k))])) ->
  text_of (as_bytes (name_value k)) = name_value k ->
  part_value (sample_field k v).2 (length (sample_head k)) = Some (as_bytes v) ->
  first_at_end (sample_field k v).2 (boundary_bin "B") ->
  find_bytes ((sample_field k v).2 ++ boundary_end_bin "B") (boundary_bin "B") = None ->
  field_ok "B" (sample_field k v).
Proof.
  intros Hk Hh Ht Hv Hf He. split_and!; [|done..]. split; [done|]. split; [done|].
  eexists _, _, _, _. split_and!; [exact Hh|reflexivity|reflexivity| |exact Hv]. cbn. by rewrite Ht.
Qed.

Lemma form_collected_witness :
  exists c1, feed (boundary_bin "B")
      [firstn 7 (render_parts "B" sample_fields); drop 7 (render_parts "B" sample_fields)] new_context = Done (c1, Ok tt) /\
    parse_part_end (as_bytes "B") (boundary_end_bin "B") c1 = Done (store_parts sample_fields new_context, Ok tt).
Proof.
  apply (form_collected "B" sample_fields
    [firstn 7 (render_parts "B" sample_fields); drop 7 (render_parts "B" sample_fields)] new_context).
  - discriminate.
  - repeat apply Forall_cons_2; [..|apply Forall_nil_2]; apply sample_field_ok; vm_compute; reflexivity.
  - reflexivity.
  - vm_compute. reflexivity.
  - repeat apply Forall_cons_2; [..|apply Forall_nil_2]; vm_compute; discriminate.
Defined.

Lemma blocks_independent_witness :
  feed (boundary_bin "B") [[1]%Z; [45; 45]%Z; [66; 13]%Z; [10; 7]%Z] new_context =
  erase (parse_part (boundary_bin "B") (concat [[1]%Z; [45; 45]%Z; [66; 13]%Z; [10; 7]%Z]) new_context).
Proof.
  apply blocks_independent; [discriminate|reflexivity|discriminate|].
  repeat apply Forall_cons_2; [..|apply Forall_nil_2]; discriminate.
Defined.

(** An end marker that is cut between two blocks is not seen in either. *)
Example end_marker_cut :
  let bin := render_parts "B" [sample_field "a" "1"] in
  let n := length bin - 3 in
  match parse_block "B" (firstn n bin) new_context with
  | Done (c, BlockMore) => match parse_block "B" (drop n bin) c with Done (_, res) => Some res | _ => None end
  | _ => None
  end = Some BlockMore.
Proof. vm_compute. reflexivity. Qed.
