(* ===== verification/HttpParser.v ===== *)
(** * The default parser (http/src/default_parser.rs)

    On the way in the middleware turns the query and the body into parameters; on the way
    out it compresses the body in an encoding the client accepts and sets the length. The
    compressors are a parameter. *)

From Stdlib Require Import Ascii.
From S2P Require Import Prelude ByteSource HttpText ByteSearch HttpMessage HttpBody HttpMiddleware HttpSample.

#[local] Open Scope string_scope.
#[local] Open Scope list_scope.

(** The packages flate2 and brotli: [compress] is given the input and the room for its
    output, and gives the bytes it wrote; and form_urlencoded and serde_json. *)
Inductive deflate_status := BufError | BufOk | StreamEnd.

Class CodecApi := {
  Compress : Type;
  new_deflate : Compress;
  compress : list Z -> nat -> Compress -> Compress * io_result (deflate_status * list Z);
  total_out : Compress -> nat;
  deflate_reset : Compress -> Compress;
  gzip : list Z -> io_result (list Z);
  brotli : list Z -> io_result (list Z);
  form_pairs : list Z -> list (string * string);
  json_text : list Z -> option string;
}.

Section parser.
Context `{HttpApi} `{MimeApi} `{CodecApi}.

(** [DefaultParser]: the least size that is compressed, and the idle compressors. *)
Record DefaultParser := mkDefaultParser { min_plain_limit : nat; idle : list Compress }.

(** ** The request *)

(** Pairs of texts become parameters; later ones replace earlier ones. *)
Definition insert_pairs (l : list (string * string)) (c : GatewayContext) : GatewayContext :=
  foldl (fun c kv => insert_param kv.1 (SStr kv.2) c) c l.

(** The content type of the request, if it is one. *)
Definition request_mime (q : HttpRequest) : option mime :=
  v ← header_get "content-type" (req_headers q); s ← to_str v; mime_parse s.

Definition bad_charset (m : mime) : bool :=
  match mime_param "charset" m with Some cs => negb (bool_decide (cs = "utf-8")) | None => false end.

(** What the body gives to the parameters; [None] when the type has no parser. *)
Definition body_params (m : mime) : option (list Z -> GatewayContext -> GatewayContext) :=
  if mime_is "application" "x-www-form-urlencoded" m then Some (fun bin => insert_pairs (form_pairs bin))
  else if mime_is "application" "json" m then
    Some (fun bin c => match json_text bin with Some j => insert_param "" (SStr j) c | None => c end)
  else if mime_is "application" "octet-stream" m then Some (fun bin => insert_param "" (SBin bin))
  else if bool_decide (mime_type m = "text") then Some (fun bin => insert_param "" (SStr (utf8_lossy bin)))
  else None.

(** [DefaultParser::request] *)
Definition parser_request {S : Type} `{ByteSource S} (fuel : nat) (q : HttpRequest) (s : S) (c : GatewayContext)
    : outcome (S * GatewayContext * MiddlewareResult) :=
  let c := insert_pairs (url_query_pairs (req_url (req_start q))) c in
  match request_mime q with
  | None => Done (s, c, ContinueRequest q)
  | Some m =>
      if bad_charset m then Done (s, c, Break (status 415 empty_resp))
      else
        match body_params m with
        | None => Done (s, c, ContinueRequest q)
        | Some f =>
            '(s, q, bin) ← take_body fuel q s;
            Done (s, match bin with Some bin => f bin c | None => c end, ContinueRequest q)
        end
  end.

(** ** The response *)

Definition codable (r : HttpResponse) : bool :=
  match v ← get_header "content-type" r; s ← to_str v; mime_parse s with
  | Some m =>
      negb (bool_decide (mime_type m = "application" /\ (mime_subtype m = "octet-stream" \/ mime_subtype m = "pdf")) ||
            bool_decide (mime_type m ∈ ["image"; "audio"; "video"]))
  | None => true
  end.

(** [Vec::resize] with zeros *)
Definition resize (n : nat) (l : list Z) : list Z := firstn n l ++ replicate (n - length l) 0%Z.

(** [encode_deflate]: when the output is full it is made larger, and the input is
    compressed from its start again. *)
Fixpoint encode_deflate (fuel : nat) (d : Compress) (input output : list Z)
    : outcome (Compress * list Z * io_result unit) :=
  match fuel with
  | O => NoFuel
  | S fuel =>
      let '(d, res) := compress input (length output) d in
      match res with
      | Err _ => Done (d, output, Err Other)
      | Ok (BufError, w) => Done (d, w ++ drop (length w) output, Err Other)
      | Ok (BufOk, w) =>
          let output := w ++ drop (length w) output in
          let limit := length input * 2 in
          if bool_decide (total_out d < limit) then encode_deflate fuel d input (resize limit output)
          else Done (d, output, Err Other)
      | Ok (StreamEnd, w) => Done (d, firstn (total_out d) (w ++ drop (length w) output), Ok tt)
      end
  end.

(** The body is replaced by its encoding, or by nothing for a HEAD request. *)
Definition replace_body (q : HttpRequest) (output : list Z) (b : RespBody) : RespBody :=
  if bool_decide (method (req_start q) = "HEAD") then reset [] b else reset output b.

Definition encoded (q : HttpRequest) (b : RespBody) (output : list Z) (encoding : string) (len : nat)
    (r : HttpResponse) : HttpResponse :=
  header "content-length" (to_dec (Z.of_nat len))
    (header "content-encoding" encoding (set_body (Some (replace_body q output b)) r)).

(** One encoding that the server knows. *)
Definition encode_with (fuel : nat) (encoding : string) (q : HttpRequest) (p : DefaultParser) (b : RespBody)
    (r : HttpResponse) : outcome (DefaultParser * io_result HttpResponse) :=
  match buf b with
  | None => Done (p, Ok r)
  | Some input =>
      if bool_decide (length input < min_plain_limit p) then Done (p, Ok r)
      else if bool_decide (encoding = "deflate") then
        let '(d, rest) := match idle p with d :: ds => (d, ds) | [] => (new_deflate, []) end in
        '(d, output, res) ← encode_deflate fuel d input (replicate (length input) 0%Z);
        match res with
        | Err e => Done (mkDefaultParser (min_plain_limit p) rest, Err e)
        | Ok _ =>
            Done (mkDefaultParser (min_plain_limit p) (rest ++ [deflate_reset d]),
                  Ok (encoded q b output "deflate" (total_out d) r))
        end
      else
        match (if bool_decide (encoding = "gzip") then gzip input else brotli input) with
        | Err e => Done (p, Err e)
        | Ok output => Done (p, Ok (encoded q b output encoding (length output) r))
        end
  end.

(** The loop over the encodings of the client: the first known one is used. *)
Fixpoint encode_loop (fuel : nat) (vals : list string) (q : HttpRequest) (p : DefaultParser) (b : RespBody)
    (r : HttpResponse) : outcome (DefaultParser * io_result HttpResponse) :=
  match vals with
  | [] => Done (p, Ok r)
  | val :: vals =>
      let encoding := trim (default "" (hd_error (split_on ";"%char (trim val)))) in
      if bool_decide (encoding ∈ ["deflate"; "gzip"; "br"]) then encode_with fuel encoding q p b r
      else encode_loop fuel vals q p b r
  end.

(** The length of a response that has none yet. *)
Definition set_length (q : HttpRequest) (r : HttpResponse) : HttpResponse :=
  if contains_header "content-length" r then r
  else
    let len := match resp_body r with Some b => default 0 (body_len b) | None => 0 end in
    let r := header "content-length" (to_dec (Z.of_nat len)) r in
    if bool_decide (method (req_start q) = "HEAD") then
      match resp_body r with Some b => set_body (Some (reset [] b)) r | None => r end
    else r.

(** [DefaultParser::response] *)
Definition parser_response (fuel : nat) (q : HttpRequest) (r : HttpResponse) (p : DefaultParser)
    : outcome (DefaultParser * MiddlewareResult) :=
  match resp_body r with
  | None => Done (p, ContinueResponse q r)
  | Some b =>
      '(p, res) ←
        match (if codable r then v ← header_get "accept-encoding" (req_headers q); to_str v else None) with
        | Some value => encode_loop fuel (split_on ","%char value) q p b r
        | None => Done (p, Ok r)
        end;
      Done (p, match res with Err e => Throw e | Ok r => ContinueResponse q (set_length q r) end)
  end.

(** [impl Middleware for DefaultParser] *)
Definition default_parser {S W : Type} `{ByteSource S} `{Focus S W} `{Focus GatewayContext W} `{Focus DefaultParser W}
    (fuel : nat) : Middleware W := {|
  mw_request q w :=
    '(s, c, res) ← parser_request fuel q (focus_get (A := S) w) (focus_get w);
    Done (focus_put s (focus_put c w), res);
  mw_response q r w := '(p, res) ← parser_response fuel q r (focus_get w); Done (focus_put p w, res) |}.
End parser.

(** ** Properties *)

(** The response without its body, as a HEAD request wants it. *)
Definition bodiless (r : HttpResponse) : HttpResponse := set_body (reset [] <$> resp_body r) r.

Section properties.
Context `{HttpLaws} `{MimeApi} `{CodecApi}.

(** *** Parameters *)

Lemma insert_pairs_params l c : params (insert_pairs l c) = foldl (fun m kv => <[kv.1 := SStr kv.2]> m) (params c) l.
Proof. revert c. unfold insert_pairs. induction l as [|kv l IH]; intros c; [done|]. cbn. by rewrite IH. Qed.

(** The last value of a name counts. *)
Definition last_value (k : string) (l : list (string * string)) : option string :=
  snd <$> last (filter (fun kv => kv.1 = k) l).

Lemma insert_pairs_lookup k l c :
  params (insert_pairs l c) !! k =
  match last_value k l with Some v => Some (SStr v) | None => params c !! k end.
Proof.
  unfold last_value. rewrite insert_pairs_params. generalize (params c). induction l as [|[k' v] l IH] using rev_ind; [done|].
  intros m. rewrite foldl_app, filter_app. cbn [foldl fst snd]. destruct (decide (k' = k)) as [->|Hne].
  - rewrite filter_cons_True by done. cbn. rewrite last_snoc. cbn. by rewrite lookup_insert_eq.
  - rewrite filter_cons_False by done. cbn. rewrite app_nil_r, lookup_insert_ne by done. apply IH.
Qed.

(** A form whose body comes whole is parsed exactly once: each parameter has the last
    value the form gives it, else the last value of the query, else its value before; the
    request goes on and the bytes behind the body stay in the stream. *)
Theorem form_request {S : Type} `{ByteSourceLaws S} fuel len m (q : HttpRequest) (s : S) c :
  request_mime q = Some m -> bad_charset m = false ->
  mime_is "application" "x-www-form-urlencoded" m = true ->
  content_len q = Some len -> src_live s ->
  src_buffered s = [] \/ len <= length (src_buffered s) -> len <= length (src_stream s) ->
  exists s' c' n, parser_request (2 + fuel) q s c = Done (s', c', ContinueRequest (set_req_body_len n q)) /\
    src_stream s' = drop len (src_stream s) /\
    forall k, params c' !! k =
      match last_value k (form_pairs (take len (src_stream s))) with
      | Some v => Some (SStr v)
      | None =>
          match last_value k (url_query_pairs (req_url (req_start q))) with
          | Some v => Some (SStr v)
          | None => params c !! k
          end
      end.
Proof.
  intros Hm Hc Hf Hq Hl Hb Hn. unfold parser_request. rewrite Hm, Hc. unfold body_params. rewrite Hf.
  destruct (take_body_spec fuel len q s) as (s' & n & -> & _ & Es); [done..|].
  cbn. eexists _, _, n. split; [done|]. split; [done|]. intros k. by rewrite !insert_pairs_lookup.
Qed.

(** *** The length of a response *)

Lemma length_added n r :
  header "content-length" (to_dec n) r = set_headers (headers r ++ [("content-length", header_of (to_dec n))]) r.
Proof. apply header_added; [done..|apply to_dec_visible]. Qed.

Lemma length_contained n r : contains_header "content-length" (header "content-length" (to_dec n) r) = true.
Proof.
  apply not_false_iff_true. rewrite contains_header_false, length_added. cbn. unfold header_get.
  intros E. destruct (list_find _ _) as [[i h]|] eqn:El; [by inversion E|]. apply list_find_None in El.
  apply Forall_app in El as [_ [El _]%Forall_cons]. by apply El.
Qed.

(** Both answers, to a GET and to a HEAD request, are the response itself, or one that has
    its length, without the body for HEAD, or the same error. *)
Definition head_answer (r : HttpResponse) (x y : io_result HttpResponse) : Prop :=
  match x, y with
  | Ok rx, Ok ry => rx = r /\ ry = r \/ contains_header "content-length" rx = true /\ ry = bodiless rx
  | Err e, Err e' => e = e'
  | _, _ => False
  end.

(** The same outcome, with related answers. *)
Definition same_way {P} (R : io_result HttpResponse -> io_result HttpResponse -> Prop)
    (x y : outcome (P * io_result HttpResponse)) : Prop :=
  match x, y with
  | Done (p, a), Done (p', b) => p = p' /\ R a b
  | x, y => x = y /\ forall z, x <> Done z
  end.

Lemma encoded_head q q' b output encoding len r :
  method (req_start q) <> "HEAD" -> method (req_start q') = "HEAD" -> is_Some (buf b) ->
  head_answer r (Ok (encoded q b output encoding len r)) (Ok (encoded q' b output encoding len r)).
Proof.
  intros Hq Hq' [x Hb]. right. unfold encoded, replace_body.
  rewrite bool_decide_false, bool_decide_true by done. split; [apply length_contained|].
  rewrite !length_added. unfold bodiless. cbn. rewrite !header_body. cbn. unfold reset. rewrite Hb. cbn.
  unfold header. by repeat case_match.
Qed.

Lemma encode_with_head fuel encoding q q' p b r :
  method (req_start q) <> "HEAD" -> method (req_start q') = "HEAD" ->
  same_way (head_answer r) (encode_with fuel encoding q p b r) (encode_with fuel encoding q' p b r).
Proof.
  intros Hq Hq'. unfold encode_with. destruct (buf b) as [input|] eqn:Hb; [|by split; [|left]].
  assert (is_Some (buf b)) as Hs by (rewrite Hb; eauto).
  destruct (bool_decide (length input < _)); [by split; [|left]|].
  destruct (bool_decide (encoding = "deflate")).
  - destruct (match idle p with [] => _ | _ :: _ => _ end) as [d rest].
    destruct (encode_deflate _ _ _ _) as [[[d' out] res]| | |]; cbn; [|split; [done|by intros]..].
    destruct res; cbn; [|by split]. split; [done|]. by apply encoded_head.
  - destruct (if bool_decide _ then _ else _); cbn; [|by split]. split; [done|]. by apply encoded_head.
Qed.

Lemma encode_loop_head fuel vals q q' p b r :
  method (req_start q) <> "HEAD" -> method (req_start q') = "HEAD" ->
  same_way (head_answer r) (encode_loop fuel vals q p b r) (encode_loop fuel vals q' p b r).
Proof.
  intros Hq Hq'. induction vals as [|val vals IH]; cbn [encode_loop]; [by split; [|left]|].
  destruct (bool_decide _); [by apply encode_with_head|done].
Qed.

(** What the response becomes, with or without an encoding. *)
Definition response_answer (fuel : nat) (q : HttpRequest) (r : HttpResponse) (p : DefaultParser) (b : RespBody) :=
  match (if codable r then v ← header_get "accept-encoding" (req_headers q); to_str v else None) with
  | Some value => encode_loop fuel (split_on ","%char value) q p b r
  | None => Done (p, Ok r)
  end.

Lemma set_length_head q q' r b rx ry :
  method (req_start q) <> "HEAD" -> method (req_start q') = "HEAD" ->
  resp_body r = Some b -> contains_header "content-length" r = false ->
  head_answer r (Ok rx) (Ok ry) -> set_length q' ry = bodiless (set_length q rx).
Proof.
  intros Hq Hq' Hb Hl [[-> ->]|[Hx ->]]; unfold set_length.
  - rewrite Hl, !header_body, Hb, (bool_decide_true (method (req_start q') = _)), bool_decide_false by done. unfold bodiless.
    by rewrite header_body, Hb.
  - unfold bodiless at 1. unfold contains_header, get_header in *. cbn. by rewrite Hx.
Qed.

(** The response to a HEAD request is the response to the GET request, with the same
    status, encoding and length, and an empty body; in particular no error and no wait
    comes to one of them alone. *)
Theorem head_like_get fuel q q' r b p :
  method (req_start q) <> "HEAD" -> method (req_start q') = "HEAD" -> req_headers q' = req_headers q ->
  resp_body r = Some b -> contains_header "content-length" r = false ->
  match parser_response fuel q r p with
  | Done (p', ContinueResponse _ r') => parser_response fuel q' r p = Done (p', ContinueResponse q' (bodiless r'))
  | x => parser_response fuel q' r p = x
  end.
Proof.
  intros Hq Hq' Hh Hb Hl. unfold parser_response. rewrite Hb. fold (response_answer fuel q r p b).
  fold (response_answer fuel q' r p b).
  assert (same_way (head_answer r) (response_answer fuel q r p b) (response_answer fuel q' r p b)) as Hr.
  { unfold response_answer. rewrite Hh. destruct (if codable r then _ else _); [|by split; [|left]].
    by apply encode_loop_head. }
  destruct (response_answer fuel q r p b) as [[p1 x]| | |], (response_answer fuel q' r p b) as [[p2 y]| | |];
    cbn in Hr |- *; try by destruct Hr.
  destruct Hr as [-> Hr].
  destruct x as [rx|e], y as [ry|e'].
  - do 2 f_equal. f_equal. by eapply set_length_head.
  - destruct Hr.
  - destruct Hr.
  - cbn in Hr. by subst.
Qed.
(** The compressor finishes this input in an output of the input's size. *)
Definition finishes (input : list Z) (d : Compress) : Prop :=
  exists d' w, compress input (length input) d = (d', Ok (StreamEnd, w)) /\
    total_out d' = length w /\ length w <= length input.

Lemma encode_deflate_finishes fuel input d :
  finishes input d ->
  exists d' w, encode_deflate (1 + fuel) d input (replicate (length input) 0%Z) = Done (d', w, Ok tt) /\
    total_out d' = length w.
Proof.
  intros (d' & w & E & Ht & Hl). exists d', w. change (1 + fuel) with (S fuel). cbn [encode_deflate]. rewrite length_replicate, E. cbn.
  by rewrite Ht, take_app_length.
Qed.

(** The length that a response announces is that of its body. *)
Definition length_told (r : HttpResponse) : Prop :=
  get_header "content-length" r =
  Some (header_of (to_dec (Z.of_nat (match resp_body r with Some b => default 0 (body_len b) | None => 0 end)))).

Lemma length_told_added n r :
  contains_header "content-length" r = false ->
  n = Z.of_nat (match resp_body r with Some b => default 0 (body_len b) | None => 0 end) ->
  length_told (header "content-length" (to_dec n) r).
Proof.
  intros Hc%contains_header_false ->. unfold length_told. rewrite header_body, length_added.
  unfold get_header. cbn. by rewrite header_get_snoc_eq.
Qed.

Lemma encoded_told q b output encoding r :
  method (req_start q) <> "HEAD" -> is_Some (buf b) -> contains_header "content-length" r = false ->
  encoding ∈ ["deflate"; "gzip"; "br"] ->
  length_told (encoded q b output encoding (length output) r).
Proof.
  intros Hq [x Hx] Hc He. unfold encoded, replace_body. rewrite bool_decide_false by done.
  apply length_told_added.
  - rewrite header_added by (done || by set_unfold in He; destruct_or?; subst).
    apply contains_header_false in Hc. apply contains_header_false. cbn. by rewrite header_get_snoc_ne.
  - rewrite header_body. cbn. unfold reset. by rewrite Hx.
Qed.
Lemma encode_with_told fuel encoding q p b r p' r' :
  method (req_start q) <> "HEAD" -> contains_header "content-length" r = false ->
  encoding ∈ ["deflate"; "gzip"; "br"] ->
  (forall input d, buf b = Some input -> d ∈ new_deflate :: idle p -> finishes input d) ->
  encode_with (1 + fuel) encoding q p b r = Done (p', Ok r') -> r' = r \/ length_told r'.
Proof.
  intros Hq Hc He Hd. unfold encode_with. destruct (buf b) as [input|] eqn:Hb; [|intros [= _ ->]; by left].
  assert (is_Some (buf b)) as Hs by (rewrite Hb; eauto).
  destruct (bool_decide (length input < _)); [intros [= _ ->]; by left|].
  destruct (bool_decide (encoding = "deflate")) eqn:Ed.
  - apply bool_decide_eq_true in Ed as ->.
    destruct (match idle p with [] => _ | _ :: _ => _ end) as [d rest] eqn:Ei.
    assert (finishes input d) as Hf by (apply Hd; [done|]; destruct (idle p); simplify_eq; set_solver).
    destruct (encode_deflate_finishes fuel input d Hf) as (d' & w & -> & Ht). cbn. rewrite Ht.
    intros [= _ <-]. right. by apply encoded_told.
  - destruct (if bool_decide _ then _ else _); [|done]. intros [= _ <-]. right. by apply encoded_told.
Qed.

Lemma encode_loop_told fuel vals q p b r p' r' :
  method (req_start q) <> "HEAD" -> contains_header "content-length" r = false ->
  (forall input d, buf b = Some input -> d ∈ new_deflate :: idle p -> finishes input d) ->
  encode_loop (1 + fuel) vals q p b r = Done (p', Ok r') -> r' = r \/ length_told r'.
Proof.
  intros Hq Hc Hd. induction vals as [|val vals IH]; cbn [encode_loop]; [intros [= _ ->]; by left|].
  case_bool_decide; [|done]. by apply encode_with_told.
Qed.

(** A response that goes out in answer to anything but HEAD announces the length of the
    body it carries, whichever encoding was chosen, when the compressor finishes each
    input in an output of the input's size. *)
Theorem response_length fuel q r b p p' r' :
  method (req_start q) <> "HEAD" -> resp_body r = Some b -> contains_header "content-length" r = false ->
  (forall input d, buf b = Some input -> d ∈ new_deflate :: idle p -> finishes input d) ->
  parser_response (1 + fuel) q r p = Done (p', ContinueResponse q r') -> length_told r'.
Proof.
  intros Hq Hb Hc Hd. unfold parser_response. rewrite Hb. fold (response_answer (1 + fuel) q r p b).
  destruct (response_answer (1 + fuel) q r p b) as [[p1 [r1|e]]| | |] eqn:E; [|done..]. cbn. intros [= <- <-].
  assert (r1 = r \/ length_told r1) as [-> |Ht].
  { unfold response_answer in E. destruct (if codable r then _ else _); [by eapply encode_loop_told|].
    injection E as _ <-. by left. }
  - unfold set_length. rewrite Hc, header_body, Hb, bool_decide_false by done.
    apply length_told_added; [done|]. by rewrite Hb.
  - unfold set_length. assert (contains_header "content-length" r1 = true) as ->; [|done].
    unfold contains_header. rewrite Ht. by apply bool_decide_eq_true.
Qed.

(** When the compressor fills the output, its first part is lost: the second turn
    compresses the input again and writes over the bytes of the first, while the length
    announced counts both, so that it may exceed the length of the body. *)
Theorem deflate_overwrites fuel input d d1 w1 d2 w2 :
  input <> [] ->
  compress input (length input) d = (d1, Ok (BufOk, w1)) -> length w1 = length input ->
  total_out d1 = length w1 ->
  compress input (length input * 2) d1 = (d2, Ok (StreamEnd, w2)) -> length w2 <= length input * 2 ->
  total_out d2 = length w1 + length w2 ->
  exists output, encode_deflate (2 + fuel) d input (replicate (length input) 0%Z) = Done (d2, output, Ok tt) /\
    output = firstn (total_out d2) (w2 ++ drop (length w2) (w1 ++ replicate (length input) 0%Z)) /\
    firstn (length w2) output = w2 /\ (length input < length w2 -> length output < total_out d2).
Proof.
  intros Hi E1 L1 T1 E2 L2 T2. change (2 + fuel) with (S (S fuel)). cbn [encode_deflate].
  rewrite length_replicate, E1, T1, L1, bool_decide_true.
  2:{ destruct input; [done|]. cbn. lia. }
  rewrite (drop_ge (replicate _ _)) by (rewrite length_replicate; lia). rewrite app_nil_r.
  unfold resize. rewrite take_ge by lia. rewrite L1.
  replace (length input * 2 - length input) with (length input) by lia.
  rewrite length_app, length_replicate, L1. replace (length input + length input) with (length input * 2) by lia.
  rewrite E2. eexists. split; [done|]. split; [done|]. split.
  - rewrite take_take, take_app_le by lia. rewrite take_ge by lia. done.
  - rewrite length_take, length_app, length_drop, length_app, length_replicate. lia.
Qed.
End properties.

(** ** Applied to concrete messages *)

(** A compressor that keeps what did not fit: each input is written behind the byte 1. *)
#[local] Instance sample_codec : CodecApi := {
  Compress := nat * list Z;
  new_deflate := (0, []);
  compress input room d :=
    let all := (d.2 ++ [1%Z] ++ input)%list in
    ((d.1 + length (firstn room all), drop room all),
     Ok (if bool_decide (length all <= room) then StreamEnd else BufOk, firstn room all));
  total_out := fst;
  deflate_reset _ := (0, []);
  gzip input := Ok (firstn 2 input);
  brotli input := Ok (rev input);
  form_pairs _ := [];
  json_text _ := None }.

#[local] Instance sample_mime : MimeApi := {
  mime := string * string;
  mime_parse s := i ← find_char "/"%char s; Some (str_take i s, str_drop (S i) s);
  mime_type := fst;
  mime_subtype := snd;
  mime_param _ _ := None }.

Definition sample_parser : DefaultParser := mkDefaultParser 2 [].

Definition get_gzip : HttpRequest := sample_request "GET" "/a" [("accept-encoding", "zstd, gzip;q=1")].
Definition head_gzip : HttpRequest := sample_request "HEAD" "/a" [("accept-encoding", "zstd, gzip;q=1")].

Example gzip_chosen :
  match parser_response 1 get_gzip (sample_response [7; 8; 9]%Z) sample_parser with
  | Done (_, ContinueResponse _ r) =>
      (resp_body r ≫= buf, get_header "content-length" r, get_header "content-encoding" r) =
      (Some [7; 8]%Z, Some (header_of "2"), Some (header_of "gzip"))
  | _ => False
  end.
Proof. reflexivity. Qed.

Lemma head_like_get_witness :
  match parser_response 1 get_gzip (sample_response [7; 8; 9]%Z) sample_parser with
  | Done (p', ContinueResponse _ r') =>
      parser_response 1 head_gzip (sample_response [7; 8; 9]%Z) sample_parser =
        Done (p', ContinueResponse head_gzip (bodiless r'))
  | x => parser_response 1 head_gzip (sample_response [7; 8; 9]%Z) sample_parser = x
  end.
Proof.
  apply (head_like_get 1 get_gzip head_gzip (sample_response [7; 8; 9]%Z) (sample_body [7; 8; 9]%Z) sample_parser);
    [done|reflexivity..].
Defined.

(** A parser whose compressors take a body of one byte without growing it. *)
Definition small_codec : CodecApi := {|
  Compress := nat;
  new_deflate := 0;
  compress input room d := (d + length input, Ok (StreamEnd, input));
  total_out d := d;
  deflate_reset _ := 0;
  gzip input := Ok input;
  brotli input := Ok input;
  form_pairs _ := [];
  json_text _ := None |}.

Definition get_deflate : HttpRequest := sample_request "GET" "/a" [("accept-encoding", "deflate")].

Definition small_answer : HttpResponse :=
  header "content-length" "3" (header "content-encoding" "deflate" (sample_response [7; 8; 9]%Z)).

Lemma response_length_witness : length_told small_answer.
Proof.
  apply (response_length (H1 := sample_mime) (H2 := small_codec) 0 get_deflate (sample_response [7; 8; 9]%Z)
    (sample_body [7; 8; 9]%Z) (mkDefaultParser (H1 := small_codec) 2 [])
    (mkDefaultParser (H1 := small_codec) 2 [0])); [done|reflexivity|reflexivity| |reflexivity].
  intros input d [= <-] Hd. apply list_elem_of_singleton in Hd as ->. by exists 3, [7; 8; 9]%Z.
Defined.

Definition deflate_at (total : nat) (kept : list Z) : @Compress sample_codec := (total, kept).

Lemma deflate_overwrites_witness :
  exists output : list Z,
    encode_deflate 2 (deflate_at 0 []) [7; 8; 9]%Z [0; 0; 0]%Z = Done (deflate_at 8 [], output, Ok tt) /\
    output = [9; 1; 7; 8; 9; 0]%Z /\ (3 < 5 -> length output < 8).
Proof.
  destruct (deflate_overwrites 0 [7; 8; 9]%Z (deflate_at 0 []) (deflate_at 3 [9]%Z) [1; 7; 8]%Z (deflate_at 8 [])
    [9; 1; 7; 8; 9]%Z) as (output & E & Eo & _ & Hl); [done|reflexivity..|cbn; lia|reflexivity|].
  exists output. split; [exact E|]. by split.
Defined.
