(* ===== verification/HttpConnect.v ===== *)
(** * HTTP connections (http/src/connect.rs, packet.rs, acceptor.rs, server.rs)

    The listener reads the head of a request from the TCP connection, builds the request
    and runs the service of its host; the connection writes the response, whole or in
    chunks. The world [W] has the TCP connection, the part that [Focus S W] reads, and
    whatever the service keeps; a handler runs to its end before the next one starts. *)

From Stdlib Require Import Ascii HexadecimalString HexadecimalN.
From S2P Require Import Prelude ByteSource HeadLoop SocketContext HttpText ByteSearch HttpMessage HttpBody HttpMiddleware.

#[local] Open Scope string_scope.
#[local] Open Scope list_scope.

(** ** The packages httparse, http and flate2 *)

(** What [HeadParser] leaves open. *)
Class HeadApi := {
  (** [HeaderValue::from_bytes] *)
  value_from_bytes : list Z -> option HeaderValue;
  (** [encode_gzip(new_gzip(Vec::new(), level), content)] *)
  gzip_at : Z -> list Z -> io_result (list Z);
  (** the texts of an error, [to_string] and [{:?}] *)
  error_text : ErrorKind -> string;
  error_debug : ErrorKind -> string;
}.

(** The service of a connection (http/src/service.rs). *)
Class HttpService (Svc W : Type) `{HttpApi} := {
  svc_call : Svc -> HttpRequest -> W -> outcome (Svc * W * io_result HttpResponse);
}.

Definition MAX_CONNECT_HTTP_HEADER_LIMIT : nat := 56.
Definition DEFAULT_SUPPORT_HTTP_VERSION : Z := 1.
Definition DEFAULT_VERSION : string := "HTTP/1.1".

(** [format!("{:x}", n)] *)
Definition to_hex (n : nat) : string := NilEmpty.string_of_uint (N.to_hex_uint (N.of_nat n)).

Section connect.
Context `{HttpApi} `{HeadParser} `{HeadApi} {S W Svc : Type} `{Transport S} `{Focus S W} `{!HttpService Svc W}.

(** ** The connection *)

Record HttpConnect := mkHttpConnect { service : Svc; keep_alive : Z }.

Definition reply (buf : list Z) (w : W) : W * io_result unit :=
  let '(s, res) := tr_write_ready buf (focus_get w) in (focus_put s w, res).

Definition update_timeout (keep_alive : Z) (w : W) : W :=
  focus_put (tr_set_timeout keep_alive (DurationEvent keep_alive) (focus_get w)) w.

Definition close (reason : io_result unit) (w : W) : W * io_result unit :=
  let '(s, res) := tr_close reason (focus_get w) in (focus_put s w, res).

Definition is_server_error (code : Z) : bool := ((500 <=? code) && (code <? 600))%Z.

Definition throw (resp : HttpResponse) (error : Z) (reason : ErrorKind) (w : W) : outcome (W * io_result unit) :=
  let error := if is_server_error error then error else 500%Z in
  let body := as_bytes (error_text reason) in
  let resp := status error (header "content-length" (to_dec (Z.of_nat (length body))) resp) in
  head ← lift (into_vec resp);
  let '(w, res) := reply (head ++ body) w in
  Done match res with
       | Err e => (w, Err e)
       | Ok _ => close (Err reason) w
       end.

Definition encode_content (encoding : ContentEncode) (content : list Z) : io_result (list Z) :=
  match encoding with
  | EncGzip level => gzip_at level content
  | _ => Ok content
  end.

Definition chunk (bin : list Z) : list Z := as_bytes (to_hex (length bin)) ++ CRLF ++ bin ++ CRLF.
Definition END_CHUNK : list Z := as_bytes "0" ++ CRLF ++ CRLF.

(** The error that an error of the body sends: its length is decimal. *)
Definition error_part (e : ErrorKind) : list Z :=
  let info := as_bytes (error_debug e) in as_bytes (to_dec (Z.of_nat (length info))) ++ CRLF ++ info ++ CRLF.

(** The loop of [run_service] over the parts of a streamed body. *)
Fixpoint stream_loop (fuel : nat) (encoding : ContentEncode) (b : RespBody) (w : W) : outcome W :=
  match fuel with
  | O => NoFuel
  | Datatypes.S fuel =>
      '(b, item) ← body_next b;
      match item with
      | RecvErr e => stream_loop fuel encoding b (reply (error_part e) w).1
      | RecvOk (Some (_, part)) =>
          let bin := match encode_content encoding part with
                     | Ok encoded => chunk encoded
                     | Err e => chunk (as_bytes (error_debug e))
                     end in
          stream_loop fuel encoding b (reply bin w).1
      | RecvOk None | RecvFin _ => Done (reply END_CHUNK w).1
      end
  end.

(** [run_service] *)
Definition run_service (fuel : nat) (q : HttpRequest) (c : HttpConnect) (w : W) : outcome (HttpConnect * W) :=
  let w := update_timeout (keep_alive c) w in
  '(svc, w, res) ← svc_call (service c) q w;
  let c := mkHttpConnect svc (keep_alive c) in
  match res with
  | Err e => '(w, _) ← throw empty_resp 500 e w; Done (c, w)
  | Ok resp =>
      if is_stream resp then
        let '(head, body) := into_header_and_body resp in
        match reply head w with
        | (w, Err e) => '(w, _) ← throw empty_resp 500 e w; Done (c, w)
        | (w, Ok _) =>
            match body with
            | Some b => w ← stream_loop fuel (content_encode resp) b w; Done (c, w)
            | None => Done (c, (reply END_CHUNK w).1)
            end
        end
      else
        buf ← lift (into_vec resp);
        match reply buf w with
        | (w, Err e) => '(w, _) ← throw empty_resp 500 e w; Done (c, w)
        | (w, Ok _) => Done (c, w)
        end
  end.

(** ** The head of a request *)

(** [fill_headers]: a later header replaces an earlier one of its name. *)
Fixpoint fill_headers (l : list (string * list Z)) (hs : HeaderMap) : io_result HeaderMap :=
  match l with
  | [] => Ok hs
  | (name, value) :: l =>
      match header_name name with
      | None => Err InvalidData
      | Some key =>
          match value_from_bytes value with
          | None => Err InvalidData
          | Some v => fill_headers l (header_insert key v hs)
          end
      end
  end.

(** [UpStreamHeader::read_header]: the method, the path and the headers of a whole head. *)
Definition read_header (bytes : list Z) (w : W)
    : outcome (W * io_result (option (option string * option string * HeaderMap))) :=
  match parse_head MAX_CONNECT_HTTP_HEADER_LIMIT bytes with
  | ParseError => Done ((close (Err Other) w).1, Err Other)
  | Partial version =>
      if match version with Some ver => negb (ver =? DEFAULT_SUPPORT_HTTP_VERSION)%Z | None => false end
      then Done ((close (Err Other) w).1, Err Other)
      else Done (w, Ok None)
  | Complete len method path l =>
      '(s, _) ← lift (src_take len (focus_get w));
      let w := focus_put s w in
      match fill_headers l [] with
      | Err e => Done ((close (Err e) w).1, Err Other)
      | Ok hs => Done (w, Ok (Some (method, path, hs)))
      end
  end.

(** The request of a whole head; [find] looks for what serves the host. [None] goes on
    with the next turn of the loop. *)
Definition build_request {X : Type} (find : string -> io_result X) (refused : ErrorKind)
    (method path : option string) (hs : HeaderMap) (w : W) : option (io_result (X * HttpRequest)) :=
  match header_get "host" hs with
  | None => Some (Err Other)
  | Some value =>
      match to_str value with
      | None => Some (Err Other)
      | Some host_name =>
          match find host_name with
          | Err e => Some (Err e)
          | Ok x =>
              match method, path with
              | Some method, Some path =>
                  let u := (if tr_is_security (focus_get w) then "https://" else "http://") +:+ host_name +:+ path in
                  match new_request method u DEFAULT_VERSION hs [] with
                  | Some q => Some (Ok (x, q))
                  | None => Some (Err refused)
                  end
              | _, _ => None
              end
          end
      end
  end.

(** A turn of the loop of [accept] and [handle_readed] that parses. *)
Definition parse_turn {X : Type} (find : string -> io_result X) (refused : ErrorKind) (bytes : list Z) (w : W)
    : outcome (W * option (option (X * HttpRequest))) :=
  '(w, head) ← read_header bytes w;
  match head with
  | Err _ => Done (w, Some None)
  | Ok None => Done (w, None)
  | Ok (Some (method, path, hs)) =>
      match build_request find refused method path hs w with
      | Some (Ok xq) => Done (w, Some (Some xq))
      | Some (Err e) => Done ((close (Err e) w).1, Some None)
      | None => Done (w, None)
      end
  end.

(** The loop of [accept] and [handle_readed]. *)
Definition parse_loop {X : Type} (find : string -> io_result X) (refused : ErrorKind) (w : W)
    : outcome (W * option (X * HttpRequest)) :=
  head_loop (fun w => ((close (Err Other) w).1, None)) None (parse_turn find refused) MAX_PARSE_COUNT 0 w.

(** [HttpAcceptor::accept]; [new_service] is [hosts.get(name)] and [host.new_service()]. *)
Definition accept (fuel : nat) (new_service : string -> option Svc) (alive : Z) (w : W)
    (ctx : SocketContext HttpConnect) : outcome (W * SocketContext HttpConnect) :=
  let find name := match new_service name with Some svc => Ok (mkHttpConnect svc alive) | None => Err Other end in
  '(w, found) ← parse_loop find Other w;
  match found with
  | Some (c, q) => '(c, w) ← run_service fuel q c w; Done (w, (SocketContext.set c ctx).1)
  | None => Done (w, ctx)
  end.

(** ** The listener *)

Definition handle_connected (st : io_result unit) (w : W) : W :=
  match st with Err _ => (close (Err Other) w).1 | Ok _ => w end.

Definition handle_readed (fuel : nat) (new_service : string -> option Svc) (alive : Z) (st : io_result unit) (w : W)
    (ctx : SocketContext HttpConnect) : outcome (W * SocketContext HttpConnect) :=
  match st with
  | Err _ => Done ((close (Err Other) w).1, ctx)
  | Ok _ =>
      if is_empty ctx then accept fuel new_service alive w ctx
      else
        match as_mut (SocketContext.get ctx) with
        | Some c =>
            '(w, found) ← parse_loop (fun _ => Ok tt) ConnectionRefused w;
            match found with
            | Some (_, q) => '(c, w) ← run_service fuel q c w; Done (w, put_mut c ctx)
            | None => Done (w, ctx)
            end
        | None => Done ((close (Err ConnectionRefused) w).1, ctx)
        end
  end.

Definition handle_writed (alive : Z) (st : io_result unit) (w : W) : W :=
  match st with Err _ => (close (Err Other) w).1 | Ok _ => update_timeout alive w end.

Definition handle_closed (ctx : SocketContext HttpConnect) : SocketContext HttpConnect := (remove ctx).1.

Definition handle_timeouted (w : W) : W := (close (Ok tt) w).1.
End connect.

(** ** A reference decoder of chunks *)

(** A line up to CRLF, and what is behind it. *)
Fixpoint crlf_line (l : list Z) : option (list Z * list Z) :=
  match l with
  | [] => None
  | b :: l' =>
      match l' with
      | c :: r => if bool_decide (b = 13 /\ c = 10)%Z then Some ([], r)
                  else '(line, r) ← crlf_line l'; Some (b :: line, r)
      | [] => None
      end
  end.

Definition hex_value (line : list Z) : option nat :=
  match line with
  | [] => None
  | _ => d ← NilEmpty.uint_of_string (text_of line); Some (N.to_nat (N.of_hex_uint d))
  end.

(** The content up to the chunk of length 0 and the empty line behind it, and the rest. *)
Fixpoint dechunk (fuel : nat) (l : list Z) : option (list Z * list Z) :=
  match fuel with
  | O => None
  | S fuel =>
      '(line, l) ← crlf_line l;
      n ← hex_value line;
      if bool_decide (length l < n) then None
      else
        '(e, rest) ← crlf_line (drop n l);
        match e, n with
        | _ :: _, _ => None
        | [], O => Some ([], rest)
        | [], _ => '(content, rest) ← dechunk fuel rest; Some (take n l ++ content, rest)
        end
  end.

Lemma crlf_line_crlf line r : Forall (fun b => b <> 13%Z) line -> crlf_line (line ++ CRLF ++ r) = Some (line, r).
Proof.
  induction 1 as [|b line Hb _ IH]; [done|]. cbn [app crlf_line]. rewrite IH.
  destruct (line ++ CRLF ++ r) eqn:E; [by destruct line|]. rewrite bool_decide_false; [done|]. by intros [? _].
Qed.

Lemma to_hex_line n : Forall (fun b => b <> 13%Z) (as_bytes (to_hex n)).
Proof.
  unfold to_hex, as_bytes. generalize (N.to_hex_uint (N.of_nat n)). intros d.
  induction d; cbn; constructor; done.
Qed.

Lemma hex_value_to_hex n : hex_value (as_bytes (to_hex n)) = Some n.
Proof.
  unfold hex_value. destruct (as_bytes (to_hex n)) as [|b l] eqn:E.
  - exfalso. unfold to_hex in E. destruct (N.of_nat n) as [|p] eqn:En; [done|].
    pose proof (HexadecimalPos.Unsigned.to_uint_nonnil p) as Hn. cbn in E.
    by destruct (Pos.to_hex_uint p).
  - rewrite <-E, text_of_as_bytes. unfold to_hex. rewrite NilEmpty.usu. cbn.
    by rewrite Unsigned.of_to, Nat2N.id.
Qed.

Lemma dechunk_chunk fuel e l :
  e <> [] -> dechunk (S fuel) (chunk e ++ l) = ('(content, rest) ← dechunk fuel l; Some (e ++ content, rest)).
Proof.
  intros He. unfold chunk. cbn [dechunk]. rewrite <-!app_assoc, crlf_line_crlf by apply to_hex_line.
  cbn [mbind option_bind]. rewrite hex_value_to_hex. cbn [mbind option_bind].
  rewrite bool_decide_false by (rewrite length_app; lia). rewrite drop_app_length, take_app_length.
  change (CRLF ++ l) with ([] ++ CRLF ++ l). rewrite crlf_line_crlf by constructor. cbn [mbind option_bind].
  by destruct e.
Qed.

Lemma dechunk_end fuel l : dechunk (S fuel) (chunk [] ++ l) = Some ([], l).
Proof. done. Qed.

(** The content of chunks is that of the parts before the first empty one. *)
Lemma dechunk_chunks fuel es l :
  Forall (fun e => e <> []) es ->
  dechunk (length es + S fuel) (concat (chunk <$> es) ++ chunk [] ++ l) = Some (concat es, l).
Proof.
  induction 1 as [|e es He _ IH]; [apply dechunk_end|]. cbn [fmap list_fmap concat length Nat.add].
  rewrite <-app_assoc, dechunk_chunk, IH by done. done.
Qed.

(** ** Writing a response *)

Section writing.
Context `{HttpLaws} `{HeadParser} `{HeadApi} {S W Svc : Type} `{TL : TransportLaws S} `{FocusLaws S W} `{!HttpService Svc W}.

(** What the peer was sent, and the reasons the connection was closed for. *)
Definition wire (w : W) : list (list Z) := tr_written (focus_get w).
Definition closes (w : W) : list (io_result unit) := tr_closes (focus_get w).
Definition open (w : W) : Prop := tr_is_closed (focus_get w) = false.

Lemma reply_open bytes w :
  open w -> exists w', reply bytes w = (w', Ok tt) /\ open w' /\ wire w' = wire w ++ [bytes] /\ closes w' = closes w.
Proof.
  intros Hc. destruct (tr_write_open bytes (focus_get w) Hc) as (s & E & Hs).
  exists (focus_put s w). unfold reply, open, wire, closes. rewrite E, focus_get_put.
  destruct (tr_write_accept bytes _ _ E) as [-> ->]. by split_and!.
Qed.

Lemma update_timeout_same ms w :
  wire (update_timeout ms w) = wire w /\ closes (update_timeout ms w) = closes w /\
  (open w -> open (update_timeout ms w)).
Proof.
  unfold wire, closes, open, update_timeout. rewrite focus_get_put.
  destruct (tr_timeout_only ms (DurationEvent ms) (focus_get w)) as (-> & -> & ->). by split_and!.
Qed.

Lemma close_records reason w : wire (close reason w).1 = wire w /\ closes (close reason w).1 = closes w ++ [reason].
Proof.
  unfold wire, closes, close. pose proof (tr_close_records reason (focus_get w)) as [E1 E2].
  destruct (tr_close reason _) as [s r]. cbn in *. by rewrite focus_get_put, E1, E2.
Qed.

(** The response of a service that failed. *)
Definition error_response (e : ErrorKind) : list Z :=
  let text := as_bytes (error_text e) in
  head_bytes (status 500 (header "content-length" (to_dec (Z.of_nat (length text))) empty_resp)) ++ text.

Lemma throw_open e w :
  open w -> exists w' r, throw empty_resp 500 e w = Done (w', r) /\
    wire w' = wire w ++ [error_response e] /\ closes w' = closes w ++ [Err e].
Proof.
  intros Ho. unfold throw. cbn [is_server_error Z.leb Z.ltb Z.compare andb Pos.compare Pos.compare_cont].
  rewrite header_added by (done || apply to_dec_visible). cbn [status start set_headers empty_resp].
  unfold into_vec. cbn [resp_body set_start set_headers empty_resp]. rewrite app_nil_r.
  match goal with |- context [lift ?x] => change x with (Some (head_bytes (set_start (Some 500%Z)
    (set_headers [("content-length", header_of (to_dec (Z.of_nat (length (as_bytes (error_text e))))))] empty_resp)))) end.
  cbn [lift mbind outcome_bind].
  edestruct reply_open as (w1 & -> & _ & Hw & Hc); [exact Ho|].
  destruct (close (Err e) w1) as [w2 r] eqn:E. exists w2, r. split; [done|].
  pose proof (close_records (Err e) w1) as [E1 E2]. rewrite E in E1, E2. cbn in E1, E2.
  rewrite E1, E2, Hw, Hc. split; [|done]. do 2 f_equal. unfold error_response.
  by rewrite header_added by (done || apply to_dec_visible).
Qed.

(** A service that answers with a whole response has exactly one buffer written, the
    head and the body; one that fails has the 500 response written, with the text of the
    error and its length, and the connection closed for that error. *)
Theorem service_answered fuel q c w svc w1 res :
  svc_call (service c) q (update_timeout (keep_alive c) w) = Done (svc, w1, res) -> open w1 ->
  match res with Ok r => is_stream r = false | Err _ => True end ->
  exists w', run_service fuel q c w = Done (mkHttpConnect svc (keep_alive c), w') /\
    match res with
    | Ok r => wire w' = wire w1 ++ [head_bytes r ++ match resp_body r with Some b => default [] (buf b) | None => [] end] /\
        closes w' = closes w1
    | Err e => wire w' = wire w1 ++ [error_response e] /\ closes w' = closes w1 ++ [Err e]
    end.
Proof.
  intros Hcall Ho Hr. unfold run_service. rewrite Hcall. cbn [mbind outcome_bind]. destruct res as [r|e].
  - rewrite Hr. unfold into_vec. rewrite Hr. cbn [lift mbind outcome_bind].
    edestruct reply_open as (w2 & -> & _ & ? & ?); [exact Ho|]. by exists w2.
  - destruct (throw_open e w1 Ho) as (w' & r & -> & ? & ?). by exists w'.
Qed.

(** ** Streams *)

Lemma body_next_part b p ms :
  buf b = None -> to_come (consumer b) = Some p :: ms ->
  exists b', body_next b = Done (b', RecvOk (Some p)) /\ buf b' = None /\ to_come (consumer b') = ms /\
    own_sender (consumer b') = own_sender (consumer b) /\ app_sender (consumer b') = app_sender (consumer b).
Proof.
  intros Hb Hc. unfold body_next, next_part. rewrite Hb.
  destruct (recv_async_cons _ _ _ Hc) as (r & -> & Hr & ? & ?). cbn. by exists (set_consumer r b).
Qed.

Lemma stream_loop_ends encoding fuel b w parts es rest :
  buf b = None -> to_come (consumer b) = (Some <$> parts) ++ None :: rest ->
  Forall2 (fun p e => encode_content encoding p.2 = Ok e) parts es -> length parts < fuel -> open w ->
  exists w', stream_loop fuel encoding b w = Done w' /\
    wire w' = wire w ++ (chunk <$> es) ++ [END_CHUNK] /\ closes w' = closes w.
Proof.
  intros Hb Hc He. revert b w parts es Hb Hc He. induction fuel as [|fuel IH]; intros b w parts es Hb Hc He Hf Ho; [lia|].
  cbn [stream_loop]. destruct He as [|[i bin] e parts es He Hes].
  - destruct (recv_async_cons _ _ _ Hc) as (r & Er & _). unfold body_next, next_part. rewrite Hb, Er.
    cbn [mbind outcome_bind fst snd]. destruct (reply_open END_CHUNK w Ho) as (w' & -> & _ & ? & ?). by exists w'.
  - destruct (body_next_part b (i, bin) _ Hb Hc) as (b' & -> & Hb' & Hc' & _). cbn [mbind outcome_bind].
    cbn in He. rewrite He. destruct (reply_open (chunk e) w Ho) as (w1 & -> & Ho1 & Hw1 & Hc1). cbn [fst].
    destruct (IH b' w1 parts es) as (w' & -> & Hw' & ?); [done..|cbn in Hf; lia|done|].
    exists w'. split; [done|]. rewrite Hw', Hw1, <-app_assoc. by split; [|congruence].
Qed.

(** A streamed response with these parts. *)
Lemma run_service_streams fuel q c w svc w1 r b parts es :
  svc_call (service c) q (update_timeout (keep_alive c) w) = Done (svc, w1, Ok r) -> open w1 ->
  is_stream r = true -> resp_body r = Some b -> buf b = None ->
  to_come (consumer b) = (Some <$> parts) ++ [None] ->
  Forall2 (fun p e => encode_content (content_encode r) p.2 = Ok e) parts es -> length parts < fuel ->
  exists w', run_service fuel q c w = Done (mkHttpConnect svc (keep_alive c), w') /\
    closes w' = closes w1 /\ wire w' = wire w1 ++ head_bytes r :: (chunk <$> es) ++ [END_CHUNK].
Proof.
  intros Hcall Ho Hr Hb Hbuf Hc He Hf. unfold run_service. rewrite Hcall. cbn [mbind outcome_bind].
  rewrite Hr. unfold into_header_and_body. rewrite Hb. cbn [fmap option_fmap option_map].
  edestruct reply_open as (w2 & -> & Ho2 & Hw2 & Hc2); [exact Ho|].
  destruct (stream_loop_ends (content_encode r) fuel (drop_sender b) w2 parts es []) as (w' & -> & Hw' & Hc');
    [done..|]. cbn [mbind outcome_bind].
  exists w'. split; [done|]. split; [congruence|]. by rewrite Hw', Hw2, <-app_assoc.
Qed.

(** C8: A streamed response is written as its head and a buffer for each part and for the
    end. What the peer decodes from the chunks is the parts in their order, and nothing is
    left; an empty part ends the content early, and the parts behind it are left over. *)
Theorem stream_roundtrip fuel q c w svc w1 r b parts es :
  svc_call (service c) q (update_timeout (keep_alive c) w) = Done (svc, w1, Ok r) -> open w1 ->
  is_stream r = true -> resp_body r = Some b -> buf b = None ->
  to_come (consumer b) = (Some <$> parts) ++ [None] ->
  Forall2 (fun p e => encode_content (content_encode r) p.2 = Ok e) parts es -> length parts < fuel ->
  exists w' bufs, run_service fuel q c w = Done (mkHttpConnect svc (keep_alive c), w') /\
    closes w' = closes w1 /\ wire w' = wire w1 ++ head_bytes r :: bufs /\
    (Forall (fun e => e <> []) es -> dechunk (length es + 1) (concat bufs) = Some (concat es, [])) /\
    (forall es1 es2, es = es1 ++ [] :: es2 -> Forall (fun e => e <> []) es1 ->
       dechunk (length es1 + 1) (concat bufs) = Some (concat es1, concat (chunk <$> es2) ++ END_CHUNK)).
Proof.
  intros Hcall Ho Hr Hb Hbuf Hc He Hf.
  destruct (run_service_streams fuel q c w svc w1 r b parts es) as (w' & E & Ec & Ew); [done..|].
  exists w', ((chunk <$> es) ++ [END_CHUNK]). split; [exact E|]. split; [exact Ec|]. split; [exact Ew|].
  change END_CHUNK with (chunk []). rewrite concat_app. split.
  - intros Hes. exact (dechunk_chunks 0 es [] Hes).
  - intros es1 es2 -> Hes. rewrite fmap_app, fmap_cons, concat_app, <-app_assoc. cbn [concat].
    rewrite app_nil_r, <-app_assoc. by apply dechunk_chunks.
Qed.

(** A streamed response whose senders are all gone without the end makes the
    connection write error parts for ever. *)
Theorem stream_never_ends q c w svc w1 r b parts :
  svc_call (service c) q (update_timeout (keep_alive c) w) = Done (svc, w1, Ok r) -> open w1 ->
  is_stream r = true -> resp_body r = Some b -> buf b = None ->
  to_come (consumer b) = Some <$> parts -> app_sender (consumer b) = false ->
  forall fuel, run_service fuel q c w = NoFuel.
Proof.
  intros Hcall Ho Hr Hb Hbuf Hc Ha fuel. unfold run_service. rewrite Hcall. cbn [mbind outcome_bind].
  rewrite Hr. unfold into_header_and_body. rewrite Hb. cbn [fmap option_fmap option_map].
  edestruct reply_open as (w2 & -> & _); [exact Ho|].
  enough (forall b w, buf b = None -> to_come (consumer b) = Some <$> parts -> own_sender (consumer b) = false ->
    app_sender (consumer b) = false -> stream_loop fuel (content_encode r) b w = NoFuel) as -> by done.
  clear. generalize (content_encode r). intros encoding.
  revert parts. induction fuel as [|fuel IH]; intros parts b w Hb Hc Ho Ha; [done|]. cbn [stream_loop].
  destruct parts as [|[i p] parts].
  - unfold body_next, next_part. rewrite Hb, recv_async_nil by done. rewrite Ho, Ha. cbn [orb mbind outcome_bind].
    apply (IH []); by destruct b.
  - destruct (body_next_part b (i, p) _ Hb Hc) as (b' & -> & ? & ? & Eo & Ea). cbn [mbind outcome_bind].
    apply (IH parts); [done|done|congruence..].
Qed.
End writing.

(** ** Reading the head of a request *)

Section reading.
Context `{HttpApi} `{HeadParser} `{HeadApi} {S W : Type} `{Transport S} {BL : ByteSourceLaws S} `{FocusLaws S W}.

(** The head is in the buffer: it is consumed. *)
Lemma read_header_whole head rest m p l hs w :
  starts_with_head MAX_CONNECT_HTTP_HEADER_LIMIT head rest m p l -> fill_headers l [] = Ok hs ->
  live w -> stream w = head ++ rest -> length head <= buffered w ->
  exists w', read_header (src_buffered (focus_get w)) w = Done (w', Ok (Some (Some m, Some p, hs))) /\
    live w' /\ stream w' = rest.
Proof.
  intros (_ & _ & Hp) Hf Hl Hs Hb. unfold read_header. rewrite buffered_take, Hs.
  rewrite Hp by (rewrite <-Hs; split; [done|apply buffered_le]).
  destruct (take_head head rest w Hl Hs Hb) as (s & -> & Hl' & Hs').
  cbn [lift mbind outcome_bind]. rewrite Hf. by exists (focus_put s w).
Qed.

Lemma read_header_part head rest m p l w :
  starts_with_head MAX_CONNECT_HTTP_HEADER_LIMIT head rest m p l -> stream w = head ++ rest ->
  0 < buffered w < length head -> read_header (src_buffered (focus_get w)) w = Done (w, Ok None).
Proof.
  intros (_ & Hp & _) Hs Hb. unfold read_header. rewrite buffered_take, Hs.
  by destruct (Hp (buffered w) Hb) as (v & -> & [-> | ->]).
Qed.

(** A part of a head of another version closes the connection; a whole head of that
    version is taken, since the version of a whole one is not looked at. *)
Lemma read_header_version v bytes w :
  parse_head MAX_CONNECT_HTTP_HEADER_LIMIT bytes = Partial (Some v) -> v <> DEFAULT_SUPPORT_HTTP_VERSION ->
  read_header bytes w = Done ((close (Err Other) w).1, Err Other).
Proof. intros Hp Hv. unfold read_header. by rewrite Hp, (proj2 (Z.eqb_neq _ _) Hv). Qed.

(** What becomes of a whole head. *)
Definition head_outcome {X} (find : string -> io_result X) (refused : ErrorKind) (rest : list Z)
    (m p : string) (hs : HeaderMap) (w' : W) (found : option (X * HttpRequest)) : Prop :=
  exists w1, stream w1 = rest /\ live w1 /\
    match build_request find refused (Some m) (Some p) hs w1 with
    | Some (Ok xq) => w' = w1 /\ found = Some xq
    | Some (Err e) => w' = (close (Err e) w1).1 /\ found = None
    | None => False
    end.

(** C9: Some of the bytes of a request of HTTP 1.1 with valid headers having come, the
    handler never waits for ever on its head, in whatever segments the rest of it comes: either the head is parsed and
    consumed exactly, and gives the request or the refusal that its host and URL decide,
    or the sixteen turns are used up and the connection is closed with nothing consumed;
    at most seven missing bytes always suffice. *)
Theorem head_read {X} (find : string -> io_result X) refused head rest m p l hs w :
  starts_with_head MAX_CONNECT_HTTP_HEADER_LIMIT head rest m p l -> fill_headers l [] = Ok hs ->
  live w -> stream w = head ++ rest -> 0 < buffered w ->
  exists w' found, parse_loop find refused w = Done (w', found) /\
    (head_outcome find refused rest m p hs w' found \/
     buffered w + 7 < length head /\ found = None /\
     exists w1, w' = (close (Err Other) w1).1 /\ stream w1 = head ++ rest).
Proof.
  intros Hh Hf Hl Hs Hb.
  edestruct (head_loop_reads (S := S) (fun w => ((close (Err Other) w).1, None)) None (parse_turn find refused)
    (fun _ => True) (head_outcome find refused rest m p hs) (length head) (head ++ rest))
    with (turns := MAX_PARSE_COUNT) (last := 0) (w := w) as (w' & found & E & Hr); try done.
  - rewrite length_app. lia.
  - intros w1 _ Hl1 Hs1 Hb1. unfold parse_turn.
    by rewrite (read_header_part head rest m p l w1 Hh Hs1 Hb1).
  - intros w1 _ Hl1 Hs1 Hb1. unfold parse_turn, head_outcome.
    destruct (read_header_whole head rest m p l hs w1) as (w2 & -> & Hl2 & Hs2); [done..|].
    assert (build_request find refused (Some m) (Some p) hs w2 <> None) as Hn
      by (unfold build_request; by repeat case_match).
    cbn [mbind outcome_bind].
    destruct (build_request find _ _ _ _ w2) as [[xq|e]|] eqn:Eb; [| |done];
      (eexists _, _; split; [done|]; exists w2; by rewrite Eb).
  - lia.
  - exists w', found. split; [exact E|]. destruct Hr as [|(Ht & w1 & E1 & _ & _ & Hs1)]; [by left|right].
    injection E1 as -> ->. split; [|by eauto].
    unfold turns_needed in Ht. rewrite bool_decide_false in Ht by lia. unfold MAX_PARSE_COUNT in Ht. lia.
Qed.
End reading.
