(* ===== verification/HttpOverTcp.v ===== *)
(** * HTTP over TCP

    The HTTP layer over the TCP connection of [TcpSocket], with simple stand-ins for the
    packages: the theorems of the HTTP files at concrete connections and messages. *)

From Stdlib Require Import Ascii.
From S2P Require Import Prelude ByteSource SocketContext TcpSocket WsOverTcp HttpText ByteSearch HttpMessage HttpSample HttpBody HttpMiddleware HttpParser HeadLoop HttpConnect.

#[local] Open Scope string_scope.
#[local] Open Scope list_scope.

#[export] Instance sample_head_api : HeadApi := {
  value_from_bytes bytes := Some (header_of (text_of bytes));
  gzip_at _ bin := Ok bin;
  error_text _ := "error";
  error_debug _ := "Error" }.

(** A service with a fixed answer. *)
#[export] Instance fixed_service : HttpService (io_result HttpResponse) TcpConn := {
  svc_call res q w := Done (res, w, res) }.

Definition get_head : list Z := as_bytes "GET /a HTTP/1.1
Host:h

".
Definition conn_of (res : io_result HttpResponse) : HttpConnect := mkHttpConnect res 30.

Definition get_request : HttpRequest := sample_request "GET" "/a" [].
Definition post_request (n : string) : HttpRequest := sample_request "POST" "/a" [("content-length", n)].

(** ** Bodies *)

Lemma take_body_delivers_witness :
  exists s' q', take_body 2 (post_request "3") (tcp_with [] [[1; 2]; [3; 4]]%Z) = Done (s', q', Some [1; 2; 3]%Z) /\
    src_live s' /\ src_stream s' = [4]%Z.
Proof.
  destruct (take_body_delivers 0 3 (post_request "3") (tcp_with [] [[1; 2]; [3; 4]]%Z)) as (s' & q' & E1 & E2 & E3);
    [reflexivity|done|by left|cbn; lia|].
  exists s', q'. split; [exact E1|]. split; [exact E2|exact E3].
Defined.

Lemma body_loop_spins_witness :
  body 1000 (post_request "3") (tcp_with [1; 2]%Z [[3]]%Z) = NoFuel /\
    take_body 1000 (post_request "3") (tcp_with [1; 2]%Z [[3]]%Z) = NoFuel.
Proof.
  apply (body_loop_spins 3 (post_request "3") (tcp_with [1; 2]%Z [[3]]%Z)); [reflexivity|done|cbn; lia..].
Defined.

Lemma next_body_block_witness :
  let s := tcp_with [] [[1; 2; 3]]%Z in
  exists s' q' r, next_body 2 2 (post_request "3") s = Done (s', q', r) /\ src_live s' /\
    match r with
    | Some bin => bin <> [] /\ length bin <= 2 /\ src_stream s = bin ++ src_stream s'
    | None => src_buffered s = [] /\ src_stream s' = src_stream s
    end.
Proof.
  apply (next_body_block 0 2 (post_request "3") (tcp_with [] [[1; 2; 3]]%Z)); [done|by vm_compute|lia].
Defined.

(** ** Answers *)

Lemma service_answered_witness :
  exists w', run_service 0 get_request (conn_of (Ok (sample_response [7]%Z))) (tcp_with [] []) =
    Done (conn_of (Ok (sample_response [7]%Z)), w') /\
    wire w' = [as_bytes "HTTP/1.1 200" ++ CRLF ++ CRLF ++ [7%Z]] /\ closes w' = [].
Proof.
  destruct (service_answered 0 get_request (conn_of (Ok (sample_response [7]%Z))) (tcp_with [] [])
    (Ok (sample_response [7]%Z)) (update_timeout 30 (tcp_with [] [])) (Ok (sample_response [7]%Z))) as (w' & E1 & E2 & E3);
    [reflexivity|done|done|].
  exists w'. split; [exact E1|]. split; [exact E2|exact E3].
Defined.

(** A streamed response: three parts, the second one empty, and the end if [fin]. *)
Definition streamed (parts : list (list Z)) (fin : bool) : HttpResponse :=
  mkHttpResponse true EncEmpty (Some 200%Z) []
    (Some (mkRespBody false (mkHttpReceiver 2 [] ((Some <$> ((fun p => (0%Z, p)) <$> parts)) ++ (if fin then [None] else []))
             true false) None)).

Lemma stream_roundtrip_witness :
  exists w' bufs, run_service 4 get_request (conn_of (Ok (streamed [[1]; []; [2]]%Z true))) (tcp_with [] []) =
      Done (conn_of (Ok (streamed [[1]; []; [2]]%Z true)), w') /\
    wire w' = (as_bytes "HTTP/1.1 200" ++ CRLF ++ CRLF) :: bufs /\
    dechunk 2 (concat bufs) = Some ([1%Z], chunk [2%Z] ++ END_CHUNK).
Proof.
  destruct (stream_roundtrip 4 get_request (conn_of (Ok (streamed [[1]; []; [2]]%Z true))) (tcp_with [] [])
    (Ok (streamed [[1]; []; [2]]%Z true)) (update_timeout 30 (tcp_with [] [])) (streamed [[1]; []; [2]]%Z true)
    (mkRespBody false (mkHttpReceiver 2 [] [Some (0, [1]); Some (0, []); Some (0, [2]); None]%Z true false) None)
    [(0, [1]); (0, []); (0, [2])]%Z [[1]; []; [2]]%Z) as (w' & bufs & E1 & _ & E2 & _ & E3);
    [reflexivity|done|done|reflexivity|done|reflexivity|by repeat constructor|cbn; lia|].
  exists w', bufs. split; [exact E1|]. split; [exact E2|]. apply (E3 [[1%Z]] [[2%Z]]); [done|]. by repeat constructor.
Defined.

Lemma stream_never_ends_witness :
  run_service 1000 get_request (conn_of (Ok (streamed [[1]]%Z false))) (tcp_with [] []) = NoFuel.
Proof.
  apply (stream_never_ends get_request (conn_of (Ok (streamed [[1]]%Z false))) (tcp_with [] [])
    (Ok (streamed [[1]]%Z false)) (update_timeout 30 (tcp_with [] [])) (streamed [[1]]%Z false)
    (mkRespBody false (mkHttpReceiver 2 [] [Some (0, [1])]%Z true false) None) [(0, [1])]%Z); reflexivity.
Defined.

(** ** Heads *)

Lemma get_head_whole :
  starts_with_head MAX_CONNECT_HTTP_HEADER_LIMIT get_head [65%Z] "GET" "/a" [("Host", as_bytes "h")].
Proof. apply head_check_ok. vm_compute. reflexivity. Qed.

Lemma head_read_witness :
  let w := tcp_with (firstn 5 get_head) [drop 5 get_head ++ [65%Z]] in
  exists w' found, parse_loop (fun _ => Ok tt) ConnectionRefused w = Done (w', found) /\
    (head_outcome (fun _ => Ok tt) ConnectionRefused [65%Z] "GET" "/a" [("host", header_of "h")] w' found \/
     buffered w + 7 < length get_head /\ found = None /\
     exists w1, w' = (HttpConnect.close (Err Other) w1).1 /\ stream w1 = get_head ++ [65%Z]).
Proof.
  apply (head_read (fun _ => Ok tt) ConnectionRefused get_head [65%Z] "GET" "/a"
    [("Host", as_bytes "h")] [("host", header_of "h")]
    (tcp_with (firstn 5 get_head) [drop 5 get_head ++ [65%Z]])).
  - exact get_head_whole.
  - reflexivity.
  - done.
  - reflexivity.
  - vm_compute. lia.
Defined.

(** The whole way of a first request whose head comes in three segments: the host is
    found, the answer written, and the connection kept for the next request. *)
Example request_served :
  match handle_readed 9 (fun host => if String.eqb host "h" then Some (Ok (sample_response [7%Z])) else None) 30 (Ok tt)
          (tcp_with (firstn 5 get_head) [firstn 4 (drop 5 get_head); drop 9 get_head ++ [65%Z]]) empty_context with
  | Done (w, ctx) =>
      (wire w, closes w, src_stream w, negb (is_empty ctx)) =
      ([as_bytes "HTTP/1.1 200" ++ CRLF ++ CRLF ++ [7%Z]], [], [65%Z], true)
  | _ => False
  end.
Proof. vm_compute. reflexivity. Qed.

(** ** Middlewares *)

Definition passing : Middleware nat :=
  {| mw_request q w := Done (w + 1, ContinueRequest q); mw_response q r w := Done (w + 10, ContinueResponse q r) |}.
Definition finishing : Middleware nat :=
  {| mw_request q w := Done (w, Finish q empty_resp); mw_response q r w := Done (w, Break r) |}.

Lemma chain_in_order_witness :
  exists n w1 a log,
    request_pass [passing; finishing; passing] get_request 0 n w1 a /\
    run_ware (chain_middleware (logged_chain [passing; finishing; passing])) get_request (0, []) =
      Done ((11, log), Ok empty_resp) /\
    match a with
    | Finish q1 r1 => exists j b, response_pass (rev [passing; finishing; passing]) q1 r1 w1 j 11 b /\
        Ok empty_resp = final_response b /\
        log = (OnRequest <$> firstn n [0; 1; 2]) ++ (OnResponse <$> firstn j [2; 1; 0])
    | a => 11 = w1 /\ Ok empty_resp = final_response a /\ log = OnRequest <$> firstn n [0; 1; 2]
    end.
Proof.
  apply (chain_in_order [passing; finishing; passing] get_request 0 11 (Ok empty_resp)). reflexivity.
Defined.

(** ** Forms *)

#[local] Instance form_mime : MimeApi := {
  mime := string * string;
  mime_parse s := i ← find_char "/"%char s; Some (str_take i s, str_drop (S i) s);
  mime_type := fst;
  mime_subtype := snd;
  mime_param _ _ := None }.

#[local] Instance form_codec : CodecApi := {
  Compress := unit;
  new_deflate := tt;
  compress input _ d := (d, Ok (StreamEnd, input));
  total_out _ := 0;
  deflate_reset d := d;
  gzip input := Ok input;
  brotli input := Ok input;
  form_pairs bin := sample_pairs (text_of bin);
  json_text _ := None }.

Definition form_post : HttpRequest :=
  sample_request "POST" "/a" [("content-type", "application/x-www-form-urlencoded"); ("content-length", "3")].

Definition form_type : @mime form_mime := ("application", "x-www-form-urlencoded").

Lemma form_request_witness :
  let s := tcp_with [] [as_bytes "k="; as_bytes "vGET"] in
  exists s' c' n, parser_request 2 form_post s new_context =
      Done (s', c', ContinueRequest (set_req_body_len n form_post)) /\
    src_stream s' = drop 3 (src_stream s) /\
    forall k, params c' !! k =
      match last_value k (form_pairs (take 3 (src_stream s))) with
      | Some v => Some (SStr v)
      | None => match last_value k (url_query_pairs (req_url (req_start form_post))) with
                | Some v => Some (SStr v)
                | None => params new_context !! k
                end
      end.
Proof.
  apply (form_request 0 3 form_type form_post
    (tcp_with [] [as_bytes "k="; as_bytes "vGET"]) new_context);
    [reflexivity|reflexivity|reflexivity|reflexivity|done|by left|vm_compute; lia].
Defined.
