(* ===== verification/WsHandshake.v ===== *)
(** * The WebSocket handshake (ws/src/acceptor.rs, server.rs)

    The listener reads the head of the first request, checks its headers, agrees on a
    sub-protocol and answers; the events behind it belong to [WsConnect]. The world is
    the connection with its context. *)

From Stdlib Require Import Ascii.
From S2P Require Import Prelude ByteSource HeadLoop SocketContext HttpText ByteSearch HttpMessage WsSession WsConnect.

#[local] Open Scope string_scope.
#[local] Open Scope list_scope.

(** The packages http, pi_crypto and base64: the text of a status code, SHA-1, and the
    encoding, which has only visible characters. *)
Class HandshakeApi := {
  canonical_reason : Z -> string;
  sha1 : list Z -> list Z;
  base64 : list Z -> string;
  base64_visible bin : str_all visible_char (base64 bin) = true;
}.

Definition HANDSHAKE_REQUEST_HEADER_COUNT : Z := 5.
Definition WEBSOCKET_EXTENSIONS : string := "permessage-deflate; client_max_window_bits".
Definition WEBSOCKET_PROTOCOL_VERSION_STR : string := "13".
Definition WEBSOCKET_GUID : string := "258EAFA5-E914-47DA-95CA-C5AB0DC85B11".
Definition MAX_HANDSHAKE_HTTP_HEADER_LIMIT : nat := 56.
Definition CONNECT_UPGRADE : string := "websocket".

(** The parsed request: method, path and headers. *)
Abbreviation Request := (option string * option string * list (string * list Z))%type.

(** The methods of [ChildProtocol] that the handshake calls. *)
Record HandshakeProtocol (S : Type) := {
  protocol_name : string;
  non_standard_handshake_protocol : Request -> io_result (string * list Z);
  handshake_protocol : Request -> S -> S * io_result unit;
}.
Arguments protocol_name {S} h.
Arguments non_standard_handshake_protocol {S} h.
Arguments handshake_protocol {S} h.

(** [http::Response<Vec<u8>>] *)
Record Response := mkResponse { r_status : Z; r_headers : HeaderMap; r_body : list Z }.

Section handshake.
Context `{HttpApi} `{HeadParser} `{HandshakeApi}.

(** ** Checking the request *)

(** [match_header_value]: the value itself, or one of its parts between commas. *)
Definition match_header_value (value : list Z) (rhs : string) : io_result string :=
  match from_utf8 value with
  | None => Err Other
  | Some val =>
      let lower := to_lowercase val in
      if bool_decide (lower = rhs) || existsb (fun part => bool_decide (trim part = rhs)) (split_on ","%char lower)
      then Ok lower else Err Other
  end.

Definition unmatch_header_value (value : list Z) : io_result string :=
  match from_utf8 value with
  | None => Err Other
  | Some val => if bool_decide (val = "") then Err Other else Ok val
  end.

(** The variables of the loop: the headers still missing, the key, the extension and the
    sub-protocols of the client. *)
Record Checked := mkChecked { count : Z; ws_key : string; ws_ext : Z; ws_protocol : string }.

Definition count_down (c : Checked) : Checked :=
  mkChecked (wrap8 (count c - 1)) (ws_key c) (ws_ext c) (ws_protocol c).

(** One header. *)
Definition check_header (window_bits : Z) (h : string * list Z) (c : Checked) : io_result Checked :=
  let key := to_lowercase h.1 in
  let value := h.2 in
  if bool_decide (key = "host") then _ ← unmatch_header_value value; Ok (count_down c)
  else if bool_decide (key = "connection") then _ ← match_header_value value "upgrade"; Ok (count_down c)
  else if bool_decide (key = "upgrade") then _ ← match_header_value value CONNECT_UPGRADE; Ok (count_down c)
  else if bool_decide (key = "sec-websocket-version") then
    _ ← match_header_value value WEBSOCKET_PROTOCOL_VERSION_STR; Ok (count_down c)
  else if bool_decide (key = "sec-websocket-key") then
    r ← unmatch_header_value value;
    Ok (mkChecked (wrap8 (count c - 1)) r (ws_ext c) (ws_protocol c))
  else if bool_decide (key = "sec-websocket-extensions") then
    match match_header_value value WEBSOCKET_EXTENSIONS with
    | Ok _ => Ok (mkChecked (count c) (ws_key c) (if (0 <? window_bits)%Z then window_bits else ws_ext c) (ws_protocol c))
    | Err _ => Ok c
    end
  else if bool_decide (key = "sec-websocket-protocol") then
    match unmatch_header_value value with
    | Ok r => Ok (mkChecked (count c) (ws_key c) (ws_ext c) r)
    | Err _ => Ok c
    end
  else Ok c.

Fixpoint check_headers (window_bits : Z) (hs : list (string * list Z)) (c : Checked) : io_result Checked :=
  match hs with
  | [] => Ok c
  | h :: hs => c ← check_header window_bits h c; check_headers window_bits hs c
  end.

(** The key of the server for a key of the client. *)
Definition accept_key (key : string) : string := base64 (sha1 (as_bytes (key +:+ WEBSOCKET_GUID))).

(** [check_handshake_request]: the window, the sub-protocols and the key of the server. *)
Definition check_handshake_request (hs : list (string * list Z)) (window_bits : Z) : io_result (Z * string * string) :=
  c ← check_headers window_bits hs (mkChecked HANDSHAKE_REQUEST_HEADER_COUNT "" 0 "");
  if (0 <? count c)%Z then Err Other else Ok (ws_ext c, ws_protocol c, accept_key (ws_key c)).

(** ** Answers *)

(** A header of [Response::builder]; a value that is not valid makes the response an error. *)
Definition with_header (key value : string) (r : io_result Response) : io_result Response :=
  r ← r;
  match header_value value with
  | Some v => Ok (mkResponse (r_status r) (r_headers r ++ [(key, v)]) (r_body r))
  | None => Err Other
  end.

Definition empty_response (code : Z) : io_result Response := Ok (mkResponse code [] []).

Definition reply_handshake (result : result Z (Z * option string * string)) : io_result Response :=
  match result with
  | Err code => empty_response code
  | Ok (window_bits, p, accept) =>
      let resp := with_header "upgrade" CONNECT_UPGRADE (with_header "connection" "upgrade" (empty_response 101)) in
      let resp := if (0 <? window_bits)%Z
                  then with_header "sec-websocket-extensions" (WEBSOCKET_EXTENSIONS +:+ "=" +:+ to_dec window_bits) resp
                  else resp in
      let resp := match p with Some protocol => with_header "sec-websocket-protocol" protocol resp | None => resp end in
      with_header "sec-websocket-accept" accept resp
  end.

(** The media type is unwrapped: one that is no valid value panics. *)
Definition reply_non_standard_handshake (result : result Z (string * list Z)) : outcome (io_result Response) :=
  match result with
  | Err code => Done (empty_response code)
  | Ok (mime, body) =>
      mime ← lift (header_value mime);
      Done (Ok (mkResponse 200
        [("content-type", mime); ("content-length", header_of (to_dec (Z.of_nat (length body))))] body))
  end.

Definition resp_to_vec (r : Response) : list Z :=
  as_bytes "HTTP/1.1" ++ as_bytes " " ++ as_bytes (to_dec (r_status r)) ++ as_bytes " " ++
  as_bytes (canonical_reason (r_status r)) ++ CRLF ++
  concat (header_bytes <$> header_iter (r_headers r)) ++ CRLF ++ r_body r.
End handshake.

(** ** The acceptor and the listener *)

Section acceptor.
Context `{HttpApi} `{HeadParser} `{HandshakeApi} {S C : Type} `{Transport S}.
Variable protocol : HandshakeProtocol S.

(** The first of the client's sub-protocols that is the server's, as the client wrote it;
    no sub-protocol when the client names none. *)
Fixpoint pick_protocol (alone : bool) (ps : list string) : option (option string) :=
  match ps with
  | [] => None
  | p :: ps =>
      if alone && bool_decide (p = "") then Some None
      else if bool_decide (protocol_name protocol = to_lowercase p) then Some (Some p)
      else pick_protocol alone ps
  end.

(** [handshake]: its result is [Ok] exactly when there is a response. *)
Definition handshake (window_bits : Z) (req : Request) (s : S) : outcome (S * io_result Response) :=
  match check_handshake_request req.2 window_bits with
  | Err _ =>
      resp ← match non_standard_handshake_protocol protocol req with
             | Err _ => reply_non_standard_handshake (Err 400%Z)
             | Ok successed => reply_non_standard_handshake (Ok successed)
             end;
      Done (s, resp)
  | Ok (ws_ext, ws_protocol, ws_accept) =>
      let protocols := split_on ";"%char (trim ws_protocol) in
      match pick_protocol (bool_decide (length protocols = 1)) protocols with
      | Some p =>
          let '(s, res) := handshake_protocol protocol req s in
          Done (s, reply_handshake match res with Err _ => Err 400%Z | Ok _ => Ok (ws_ext, p, ws_accept) end)
      | None => Done (s, reply_handshake (Err 400%Z))
      end
  end.

Definition close_conn (reason : io_result unit) (c : S * SocketContext (WsSession C)) : S * SocketContext (WsSession C) :=
  ((tr_close reason c.1).1, c.2).

(** A turn of the loop of [accept]. *)
Definition accept_turn (window_bits : Z) (bytes : list Z) (c : S * SocketContext (WsSession C))
    : outcome ((S * SocketContext (WsSession C)) * option unit) :=
  match parse_head MAX_HANDSHAKE_HTTP_HEADER_LIMIT bytes with
  | ParseError => Done (close_conn (Err Other) c, Some tt)
  | Partial version =>
      if match version with Some ver => negb (ver =? 1)%Z | None => false end
      then Done (close_conn (Err Other) c, Some tt)
      else Done (c, None)
  | Complete len method path hs =>
      '(s, _) ← lift (src_take len c.1);
      let ctx := (set default_session c.2).1 in
      '(s, res) ← handshake window_bits (method, path, hs) s;
      match res with
      | Err _ => Done (close_conn (Err Other) (s, ctx), Some tt)
      | Ok resp =>
          match tr_write_ready (resp_to_vec resp) s with
          | (s, Err _) => Done (close_conn (Err Other) (s, ctx), Some tt)
          | (s, Ok _) => Done ((s, ctx), Some tt)
          end
      end
  end.

(** [WsAcceptor::accept] *)
Definition ws_accept (window_bits : Z) (c : S * SocketContext (WsSession C)) : outcome (S * SocketContext (WsSession C)) :=
  '(c, _) ← head_loop (fun c => (close_conn (Err Other) c, tt)) tt (accept_turn window_bits) MAX_PARSE_COUNT 0 c;
  Done c.

(** [impl AsyncService for WebsocketListener], over the sub-protocol of the session *)
Variable child : ChildProtocol S C.

Definition listener_connected (st : io_result unit) (c : S * SocketContext (WsSession C)) :=
  match st with Err _ => close_conn (Err Other) c | Ok _ => c end.

Definition listener_readed (window_bits : Z) (st : io_result unit) (c : S * SocketContext (WsSession C))
    : outcome (S * SocketContext (WsSession C)) :=
  match st with
  | Err _ => Done (close_conn (Err Other) c)
  | Ok _ => if is_empty c.2 then ws_accept window_bits c else WsConnect.handle_readed child c
  end.

Definition listener_writed (st : io_result unit) (c : S * SocketContext (WsSession C)) :=
  match st with Err _ => close_conn (Err Other) c | Ok _ => WsConnect.handle_writed c end.

Definition listener_closed (result : io_result unit) (c : S * SocketContext (WsSession C)) :=
  WsConnect.handle_closed child result c.

Definition listener_timeouted (event : Z) (c : S * SocketContext (WsSession C)) :=
  WsConnect.handle_timeouted child event c.
End acceptor.

(** ** What the check accepts *)

Section checking.
Context `{HttpApi} `{HeadParser} `{HandshakeApi}.

Definition required_names : list string :=
  ["host"; "connection"; "upgrade"; "sec-websocket-version"; "sec-websocket-key"].

Definition is_required (h : string * list Z) : bool :=
  existsb (fun name => bool_decide (to_lowercase h.1 = name)) required_names.

(** What RFC 6455 asks of a required header. *)
Definition header_valid (h : string * list Z) : bool :=
  let key := to_lowercase h.1 in
  if bool_decide (key = "connection") then is_ok (match_header_value h.2 "upgrade")
  else if bool_decide (key = "upgrade") then is_ok (match_header_value h.2 CONNECT_UPGRADE)
  else if bool_decide (key = "sec-websocket-version") then is_ok (match_header_value h.2 WEBSOCKET_PROTOCOL_VERSION_STR)
  else is_ok (unmatch_header_value h.2).

(** The value of the last header of a name that is valid text. *)
Definition text_of_header (name : string) (r : string) (h : string * list Z) : string :=
  if bool_decide (to_lowercase h.1 = name) then match unmatch_header_value h.2 with Ok v => v | Err _ => r end else r.
Definition last_text (name : string) (hs : list (string * list Z)) : string := foldl (text_of_header name) "" hs.

Definition offers (h : string * list Z) : bool :=
  bool_decide (to_lowercase h.1 = "sec-websocket-extensions") && is_ok (match_header_value h.2 WEBSOCKET_EXTENSIONS).

(** One header of the loop. *)
Lemma check_header_spec window_bits h c :
  check_header window_bits h c =
  if is_required h && negb (header_valid h) then Err Other
  else Ok (mkChecked
    (if is_required h then wrap8 (count c - 1) else count c)
    (text_of_header "sec-websocket-key" (ws_key c) h)
    (if offers h && (0 <? window_bits)%Z then window_bits else ws_ext c)
    (text_of_header "sec-websocket-protocol" (ws_protocol c) h)).
Proof.
  unfold check_header, header_valid, is_required, required_names, text_of_header, offers. cbn [existsb].
  destruct c as [n k x p]. generalize (to_lowercase h.1). intros key.
  repeat match goal with
  | |- context [bool_decide (key = ?s)] =>
      destruct (decide (key = s)) as [->|?];
      [repeat first [rewrite bool_decide_true by done|rewrite bool_decide_false by done]
      |rewrite !(bool_decide_false (key = s)) by done]
  end; cbn [orb andb negb mbind result_bind];
  repeat match goal with |- context [match_header_value ?v ?r] => unfold match_header_value; repeat case_match; simplify_eq/=
  | |- context [unmatch_header_value ?v] => unfold unmatch_header_value; repeat case_match; simplify_eq/= end; try done.
Qed.

Lemma check_headers_spec window_bits hs c :
  (0 <= count c < 256)%Z ->
  check_headers window_bits hs c =
  if forallb (fun h => negb (is_required h) || header_valid h) hs then
    Ok (mkChecked (wrap8 (count c - Z.of_nat (length (filter (fun h => is_required h = true) hs))))
          (foldl (text_of_header "sec-websocket-key") (ws_key c) hs)
          (if existsb offers hs && (0 <? window_bits)%Z then window_bits else ws_ext c)
          (foldl (text_of_header "sec-websocket-protocol") (ws_protocol c) hs))
  else Err Other.
Proof.
  revert c. induction hs as [|h hs IH]; intros c Hc; cbn [check_headers forallb existsb foldl].
  { cbn. rewrite Z.sub_0_r. unfold wrap. rewrite Z.mod_small by done. by destruct c. }
  rewrite check_header_spec. destruct (is_required h) eqn:Er; cbn [negb orb andb].
  - destruct (header_valid h); cbn [negb andb]; [|done]. cbn [mbind result_bind]. rewrite IH.
    + rewrite filter_cons_True by done. cbn [count ws_key ws_ext ws_protocol length].
      destruct (forallb _ hs); [|done]. f_equal. f_equal.
      * unfold wrap. rewrite Zminus_mod_idemp_l. f_equal. lia.
      * destruct (offers h), (existsb offers hs), (0 <? window_bits)%Z; done.
    + cbn. unfold wrap. apply Z.mod_pos_bound. lia.
  - cbn [mbind result_bind]. rewrite IH by done. rewrite filter_cons_False by congruence.
    cbn [count ws_key ws_ext ws_protocol]. destruct (forallb _ hs); [|done]. f_equal. f_equal.
    destruct (offers h), (existsb offers hs), (0 <? window_bits)%Z; done.
Qed.

(** C11: A request of at most as many headers as the parser takes is a handshake exactly
    when all its required headers are valid and they are five in number, in any order and
    among any other headers; the answer's key is computed from the last key. The headers
    are counted, not told apart. *)
Theorem handshake_checked hs window_bits :
  length hs <= MAX_HANDSHAKE_HTTP_HEADER_LIMIT ->
  check_handshake_request hs window_bits =
  if forallb (fun h => negb (is_required h) || header_valid h) hs &&
     bool_decide (length (filter (fun h => is_required h = true) hs) = 5)
  then Ok (if existsb offers hs && (0 <? window_bits)%Z then window_bits else 0%Z,
           last_text "sec-websocket-protocol" hs, accept_key (last_text "sec-websocket-key" hs))
  else Err Other.
Proof.
  intros Hl. unfold check_handshake_request. rewrite check_headers_spec by done.
  destruct (forallb _ hs); [|done]. cbn [andb mbind result_bind count ws_key ws_ext ws_protocol].
  pose proof (length_filter (fun h => is_required h = true) hs) as Hf.
  unfold MAX_HANDSHAKE_HTTP_HEADER_LIMIT, HANDSHAKE_REQUEST_HEADER_COUNT in *.
  set (n := length (filter _ hs)) in *. case_bool_decide as Hn.
  - rewrite Hn. done.
  - assert (0 < wrap8 (5 - Z.of_nat n))%Z as Hp; [|by rewrite (proj2 (Z.ltb_lt _ _) Hp)].
    unfold wrap. destruct (decide (n < 5)) as [Hlt|Hge].
    + rewrite Z.mod_small; lia.
    + rewrite <-(Z.mod_add _ 1) by done. rewrite Z.mod_small; lia.
Qed.
End checking.

(** ** The handshake over a connection *)

Section completing.
Context `{HttpLaws} `{HeadParser} `{HandshakeApi} {S C : Type} `{Transport S} {BL : ByteSourceLaws S} {TL : TransportLaws S}.
Context (protocol : HandshakeProtocol S).

(** The answer to a request that is accepted. *)
Definition switching (window_bits : Z) (p : option string) (accept : string) : Response :=
  mkResponse 101
    ([("connection", header_of "upgrade"); ("upgrade", header_of CONNECT_UPGRADE)] ++
     (if (0 <? window_bits)%Z
      then [("sec-websocket-extensions", header_of (WEBSOCKET_EXTENSIONS +:+ "=" +:+ to_dec window_bits))] else []) ++
     match p with Some p => [("sec-websocket-protocol", header_of p)] | None => [] end ++
     [("sec-websocket-accept", header_of accept)]) [].

Lemma with_header_visible key value r :
  str_all visible_char value = true ->
  with_header key value (Ok r) = Ok (mkResponse (r_status r) (r_headers r ++ [(key, header_of value)]) (r_body r)).
Proof. intros Hv. unfold with_header. cbn. by rewrite header_value_visible. Qed.

Lemma reply_switching window_bits p key :
  match p with Some p => str_all visible_char p = true | None => True end ->
  reply_handshake (Ok (window_bits, p, accept_key key)) = Ok (switching window_bits p (accept_key key)).
Proof.
  intros Hp. unfold reply_handshake, switching, empty_response. rewrite !with_header_visible by done. cbn [r_status r_headers r_body app].
  destruct (0 <? window_bits)%Z; [rewrite with_header_visible by (by rewrite !str_all_app, to_dec_visible)|];
    (destruct p as [p|]; [rewrite with_header_visible by done|]; by rewrite with_header_visible by apply base64_visible).
Qed.

(** How the acceptor deals with a whole head whose answer is [resp]. *)
Definition answered (rest : list Z) (ctx : SocketContext (WsSession C)) (resp : Response)
    (c' : S * SocketContext (WsSession C)) : Prop :=
  exists s1, src_live s1 /\ src_stream s1 = rest /\ tr_write_ready (resp_to_vec resp) s1 = (c'.1, Ok tt) /\
    c'.2 = (set default_session ctx).1.

(** The handshake of a request answers with [resp], and leaves the stream alone. *)
Definition handshake_gives (window_bits : Z) (req : Request) (resp : Response) : Prop :=
  forall s, src_live s ->
    exists s', handshake protocol window_bits req s = Done (s', Ok resp) /\ src_live s' /\ src_stream s' = src_stream s.

Lemma accept_answers head rest m p l window_bits resp 
    (c : S * SocketContext (WsSession C)) :
  starts_with_head MAX_HANDSHAKE_HTTP_HEADER_LIMIT head rest m p l ->
  handshake_gives window_bits (Some m, Some p, l) resp ->
  live c -> stream c = head ++ rest -> 0 < buffered c ->
  exists c', ws_accept protocol window_bits c = Done c' /\
    (answered rest c.2 resp c' \/
     buffered c + 7 < length head /\ exists c1, c' = close_conn (Err Other) c1 /\ stream c1 = head ++ rest /\ c1.2 = c.2).
Proof.
  intros Hh Hg Hl Hs Hb. destruct Hh as (Hpos & Hpart & Hwhole).
  edestruct (head_loop_reads (S := S) (fun c => (close_conn (Err Other) c, tt)) tt (accept_turn protocol window_bits)
    (fun c1 => c1.2 = c.2) (fun c' _ => answered rest c.2 resp c') (length head) (head ++ rest))
    with (turns := MAX_PARSE_COUNT) (last := 0) (w := c) as (c' & [] & E & Hr); try done.
  - rewrite length_app. lia.
  - intros w _ _ Hs1 Hb1. unfold accept_turn. rewrite buffered_take, Hs1.
    by destruct (Hpart (buffered w) Hb1) as (v & -> & [-> | ->]).
  - intros w Hw Hl1 Hs1 Hb1. unfold accept_turn. rewrite buffered_take, Hs1.
    rewrite Hwhole by (rewrite <-Hs1; split; [done|apply buffered_le]).
    destruct (take_head head rest w Hl1 Hs1 Hb1) as (s & Es & Hl2 & Hs2). cbn in Es. rewrite Es.
    cbn [lift mbind outcome_bind]. destruct (Hg s Hl2) as (s1 & -> & Hl3 & Hs3). cbn [mbind outcome_bind].
    destruct (tr_write_open (resp_to_vec resp) s1 (tr_live_open s1 Hl3)) as (s' & Ew & _). rewrite Ew.
    eexists _, tt. split; [done|]. exists s1. cbn. rewrite Hw, Hs3, <-Hs2. by split_and!.
  - lia.
  - exists c'. unfold ws_accept. rewrite E. split; [done|].
    destruct Hr as [|(Ht & c1 & E1 & Hc1 & _ & Hs1)]; [by left|right]. injection E1 as ->.
    unfold turns_needed in Ht. rewrite bool_decide_false in Ht by lia. unfold MAX_PARSE_COUNT in Ht.
    split; [lia|]. by exists c1.
Qed.

(** C10: A valid handshake over HTTP 1.1 whose sub-protocol is agreed on, and of whose head at
    most seven bytes are missing, is answered with the switch of protocols, in whatever
    segments they come: the key of the server, the window and the
    sub-protocol as the client wrote it are announced, the session is bound to the
    connection, and the bytes behind the head stay for the first frame. *)
Theorem handshake_completes head rest m p l window_bits ext protos key q 
    (c : S * SocketContext (WsSession C)) :
  starts_with_head MAX_HANDSHAKE_HTTP_HEADER_LIMIT head rest m p l ->
  check_handshake_request l window_bits = Ok (ext, protos, accept_key key) ->
  pick_protocol protocol (bool_decide (length (split_on ";"%char (trim protos)) = 1)) (split_on ";"%char (trim protos)) = Some q ->
  match q with Some q => str_all visible_char q = true | None => True end ->
  (forall s, src_live s -> exists s', handshake_protocol protocol (Some m, Some p, l) s = (s', Ok tt) /\
     src_live s' /\ src_stream s' = src_stream s) ->
  live c -> stream c = head ++ rest -> 0 < buffered c -> length head <= buffered c + 7 ->
  exists c', ws_accept protocol window_bits c = Done c' /\ answered rest c.2 (switching ext q (accept_key key)) c'.
Proof.
  intros Hh Hc Hp Hq Hhp Hl Hs Hb Hn.
  destruct (accept_answers head rest m p l window_bits (switching ext q (accept_key key)) c Hh) as (c' & E & [Ha|[Hlt _]]);
    [|done..|by exists c'|lia].
  intros s Hs'. unfold handshake. cbn [fst snd]. rewrite Hc, Hp. destruct (Hhp s Hs') as (s' & -> & ? & ?). exists s'.
  by rewrite reply_switching.
Qed.

(** A request that is no handshake is answered with 400, but the connection stays open
    with the session bound to it, and the event of the written answer makes the session
    one that has shaken hands: the frames that come next are handled. *)
Theorem refused_handshake_opens head rest m p l window_bits 
    (c : S * SocketContext (WsSession C)) :
  starts_with_head MAX_HANDSHAKE_HTTP_HEADER_LIMIT head rest m p l ->
  check_handshake_request l window_bits = Err Other ->
  (exists e, non_standard_handshake_protocol protocol (Some m, Some p, l) = Err e) ->
  live c -> stream c = head ++ rest -> 0 < buffered c -> length head <= buffered c + 7 -> c.2 = empty_context ->
  exists s1 s', ws_accept protocol window_bits c = Done (s', ctx_of default_session) /\
    tr_write_ready (resp_to_vec (mkResponse 400 [] [])) s1 = (s', Ok tt) /\ src_stream s1 = rest /\
    tr_closes s' = tr_closes s1 /\
    listener_writed (C := C) (Ok tt) (s', ctx_of default_session) = (s', ctx_of (set_status HandShaked default_session)).
Proof.
  intros Hh Hc [e He] Hl Hs Hb Hn Hctx.
  destruct (accept_answers head rest m p l window_bits (mkResponse 400 [] []) c Hh)
    as (c' & E & [(s1 & Hl1 & Hs1 & Ew & Ec)|[Hlt _]]); [|done..| |lia].
  { intros s Hs'. unfold handshake. cbn [fst snd]. rewrite Hc, He. by exists s. }
  destruct c' as [s' ctx']. cbn [fst snd] in *. rewrite Hctx in Ec. cbn [set is_empty empty_context inner fst] in Ec. subst ctx'.
  apply tr_write_accept in Ew as Ha. exists s1, s'.
  split; [exact E|]. split; [exact Ew|]. split; [exact Hs1|]. split; [apply Ha|reflexivity].
Qed.
End completing.
