(* ===== verification/WsHandshakeOverTcp.v ===== *)
(** * The WebSocket handshake over TCP

    The theorems of [WsHandshake] at concrete requests on a TCP connection. *)

From Stdlib Require Import Ascii.
From S2P Require Import Prelude ByteSource HeadLoop SocketContext TcpSocket WsSession WsConnect WsOverTcp HttpText ByteSearch HttpMessage HttpSample WsHandshake.

#[local] Open Scope string_scope.
#[local] Open Scope list_scope.

(** Hexadecimal stand-ins for the digest and its encoding. *)
Definition hex_char (b : Z) : ascii := if (b mod 2 =? 0)%Z then "0"%char else "1"%char.

Definition hex_text (bin : list Z) : string := String.string_of_list_ascii (hex_char <$> bin).

Lemma hex_text_visible bin : str_all visible_char (hex_text bin) = true.
Proof.
  induction bin as [|b bin IH]; [done|]. unfold hex_text in *. cbn. rewrite IH. unfold hex_char.
  by destruct (b mod 2 =? 0)%Z.
Qed.

#[export] Instance sample_handshake : HandshakeApi := {
  canonical_reason code := if (code =? 101)%Z then "Switching Protocols" else if (code =? 200)%Z then "OK" else "Bad Request";
  sha1 bin := firstn 8 bin;
  base64 := hex_text;
  base64_visible := hex_text_visible }.

(** A server of the sub-protocol mqtt. *)
Definition mqtt_server : HandshakeProtocol TcpConn := {|
  protocol_name := "mqtt";
  non_standard_handshake_protocol _ := Err Other;
  handshake_protocol _ s := (s, Ok tt) |}.

Definition upgrade_headers : list (string * string) :=
  [("Host", "h"); ("Connection", "keep-alive, Upgrade"); ("Sec-WebSocket-Protocol", "foo;MQTT");
   ("Upgrade", "websocket"); ("Sec-WebSocket-Version", "13"); ("Sec-WebSocket-Key", "dGhl")].

Definition raw (hs : list (string * string)) : list (string * list Z) := (fun h => (h.1, as_bytes h.2)) <$> hs.

Definition head_of_headers (hs : list (string * string)) : list Z :=
  as_bytes ("GET /a HTTP/1.1" +:+ String LF "") ++
  concat ((fun h => as_bytes (h.1 +:+ ":" +:+ h.2 +:+ String LF "")) <$> hs) ++ as_bytes (String LF "").

Lemma handshake_checked_witness :
  check_handshake_request (raw upgrade_headers) 0 = Ok (0%Z, "foo;MQTT", accept_key "dGhl").
Proof. apply (handshake_checked (raw upgrade_headers) 0). vm_compute. lia. Defined.

(** Five hosts pass for a handshake, and a valid one with two hosts does not. *)
Example hosts_counted :
  check_handshake_request (raw (repeat ("Host", "h") 5)) 0 = Ok (0%Z, "", accept_key "") /\
  check_handshake_request (raw (("Host", "h") :: upgrade_headers)) 0 = Err Other.
Proof. split; reflexivity. Qed.

Definition conn_with (hs : list (string * string)) : TcpConn * SocketContext (WsSession unit) :=
  (tcp_with (firstn 20 (head_of_headers hs)) [drop 20 (head_of_headers hs) ++ [0x81]%Z], empty_context).
Definition conn_late (hs : list (string * string)) : TcpConn * SocketContext (WsSession unit) :=
  (tcp_with (head_of_headers hs) [[0x81]%Z], empty_context).

Lemma handshake_completes_witness :
  exists c', ws_accept mqtt_server 0 (conn_late upgrade_headers) = Done c' /\
    answered [0x81]%Z empty_context (switching 0 (Some "MQTT") (accept_key "dGhl")) c'.
Proof.
  apply (handshake_completes mqtt_server (head_of_headers upgrade_headers) [0x81]%Z "GET" "/a" (raw upgrade_headers) 0 0
    "foo;MQTT" "dGhl" (Some "MQTT") (conn_late upgrade_headers)).
  - apply head_check_ok. vm_compute. reflexivity.
  - reflexivity.
  - reflexivity.
  - reflexivity.
  - intros s Hs. by exists s.
  - done.
  - vm_compute. reflexivity.
  - vm_compute. lia.
  - vm_compute. lia.
Defined.

Definition plain_headers : list (string * string) := [("Host", "h")].

Lemma refused_handshake_opens_witness :
  exists s1 s', ws_accept mqtt_server 0 (conn_late plain_headers) = Done (s', ctx_of default_session) /\
    tr_write_ready (resp_to_vec (mkResponse 400 [] [])) s1 = (s', Ok tt) /\ src_stream s1 = [0x81]%Z /\
    tr_closes s' = tr_closes s1 /\
    listener_writed (Ok tt) (s', ctx_of (default_session : WsSession unit)) = (s', ctx_of (set_status HandShaked default_session)).
Proof.
  apply (refused_handshake_opens mqtt_server (head_of_headers plain_headers) [0x81]%Z "GET" "/a" (raw plain_headers) 0
    (conn_late plain_headers)).
  - apply head_check_ok. vm_compute. reflexivity.
  - reflexivity.
  - by exists Other.
  - done.
  - vm_compute. reflexivity.
  - vm_compute. lia.
  - vm_compute. lia.
  - done.
Defined.

(** A handshake in two segments, evaluated through the listener. *)
Example handshake_served :
  match listener_readed mqtt_server echo 0 (Ok tt) (conn_with upgrade_headers) with
  | Done (s, ctx) => (length (tr_written s), src_stream s, tr_closes s, is_empty ctx) = (1, [0x81]%Z, [], false)
  | _ => False
  end.
Proof. vm_compute. reflexivity. Qed.
