(* ===== verification/FilePath.v ===== *)
(** * Paths (std::path on Unix)

    What the file services of the HTTP server use of paths: their components, [push],
    [pop], [parent] and [join] on the text of a path; and [trim_path] of
    http/src/utils.rs and [normalize_path] of http/src/file_load.rs. *)

From Stdlib Require Import Ascii.
From S2P Require Import Prelude HttpText.

#[local] Open Scope string_scope.
#[local] Open Scope list_scope.

#[local] Arguments String.append : simpl nomatch.

Definition SEP : ascii := "/".

Inductive Component := RootDir | CurDir | ParentDir | Normal (x : string).

#[export] Instance Component_eq_dec : EqDecision Component.
Proof. solve_decision. Defined.

(** The component between two separators; none for nothing and for a dot. *)
Definition segment (s : string) : option Component :=
  if bool_decide (s = "" \/ s = ".") then None
  else if bool_decide (s = "..") then Some ParentDir
  else Some (Normal s).

Definition is_absolute (p : string) : bool :=
  match p with String c _ => bool_decide (c = SEP) | EmptyString => false end.

(** What stands in front of the body: the root or a leading dot. *)
Definition front (p : string) : option Component :=
  if is_absolute p then Some RootDir
  else if bool_decide (hd_error (split_on SEP p) = Some ".") then Some CurDir
  else None.

(** [Path::components] *)
Definition components (p : string) : list Component :=
  option_list (front p) ++ omap segment (split_on SEP p).

(** [Path::iter] *)
Definition component_text (c : Component) : string :=
  match c with RootDir => "/" | CurDir => "." | ParentDir => ".." | Normal x => x end.

Definition ends_with_sep (p : string) : bool :=
  match String.get (String.length p - 1) p with Some c => bool_decide (c = SEP) | None => false end.

(** [PathBuf::push], [Path::join]: an absolute path replaces the other. *)
Definition path_push (p x : string) : string :=
  if is_absolute x then x
  else if bool_decide (p = "") || ends_with_sep p then p +:+ x
  else p +:+ "/" +:+ x.

Fixpoint trim_back (segs : list string) : list string :=
  match segs with
  | [] => []
  | s :: segs =>
      match trim_back segs with
      | [] => match segment s with None => [] | Some _ => [s] end
      | t => s :: t
      end
  end.

(** What is left of the pieces of a path when its last component goes. *)
Definition front_segs (segs : list string) : list string := trim_back (removelast (trim_back segs)).

(** [Path::parent]: the path without its last component and the separators in front of
    that; a root and an empty path have none. *)
Definition parent (p : string) : option string :=
  let '(pre, segs) :=
    match front p with
    | Some RootDir => ("/", split_on SEP (str_drop 1 p))
    | Some CurDir => (".", split_on SEP (str_drop 1 p))
    | _ => ("", split_on SEP p)
    end in
  match trim_back segs with
  | [] => match front p with Some CurDir => Some "" | _ => None end
  | _ => Some (pre +:+ String.concat "/" (front_segs segs))
  end.

(** [PathBuf::pop] *)
Definition path_pop (p : string) : string := default p (parent p).

(** [Path::file_name] *)
Definition file_name (p : string) : option string :=
  match last (components p) with Some (Normal x) => Some x | _ => None end.

(** [trim_path] *)
Definition trim_path (p : string) : string := foldl path_push "" (component_text <$> components p).

(** [normalize_path] *)
Definition normalize_step (result : string) (c : Component) : string :=
  match c with
  | Normal x => path_push result x
  | ParentDir => path_pop result
  | _ => result
  end.

Definition normalize_path (p : string) : string := foldl normalize_step "" (components p).

(** [PathBuf::extend] *)
Definition path_extend (p q : string) : string := foldl path_push p (component_text <$> components q).

(** ** Names *)

(** A text that is one component. *)
Definition plain (x : string) : Prop := segment x = Some (Normal x) /\ find_char SEP x = None.

Lemma split_on_cons c s : exists l ls, split_on c s = l :: ls.
Proof. induction s as [|x s (l & ls & E)]; cbn; [by eauto|]. case_bool_decide; [by eauto|]. rewrite E. eauto. Qed.

Lemma split_on_sep c a b : split_on c (a +:+ String c b) = split_on c a ++ split_on c b.
Proof.
  induction a as [|x a IH]; cbn; [by rewrite bool_decide_true|].
  destruct (split_on_cons c a) as (l & ls & E). case_bool_decide; rewrite IH; [done|]. by rewrite E.
Qed.

Lemma split_on_parts c s : Forall (fun x => find_char c x = None) (split_on c s).
Proof.
  induction s as [|x s IH]; cbn; [by repeat constructor|].
  destruct (split_on_cons c s) as (l & ls & E). rewrite E in *. apply Forall_cons in IH as [Hl Hls].
  case_bool_decide; constructor; try done; [by constructor|]. by apply find_char_cons_none.
Qed.

Lemma segment_normal s x : segment s = Some (Normal x) -> s = x.
Proof. unfold segment. repeat case_bool_decide; congruence. Qed.

Lemma plain_not_absolute x : plain x -> is_absolute x = false.
Proof.
  intros [_ Hs]. destruct x as [|c x]; [done|]. cbn in *. by case_bool_decide.
Qed.

(** Every name among the components of a path is plain. *)
Lemma components_plain p x : Normal x ∈ components p -> plain x.
Proof.
  unfold components. rewrite elem_of_app. intros [Hx|Hx].
  - unfold front in Hx. repeat case_match; cbn in Hx; by repeat (apply elem_of_cons in Hx as [?|Hx]); simplify_eq; apply elem_of_nil in Hx.
  - apply list_elem_of_omap in Hx as (s & Hs & E). pose proof (segment_normal _ _ E) as ->. split; [done|].
    by eapply Forall_forall in Hs; [|apply split_on_parts].
Qed.

Lemma ends_with_sep_app p : ends_with_sep p = true <-> exists q, p = q +:+ "/".
Proof.
  unfold ends_with_sep. split.
  - induction p as [|c p IH]; cbn; [done|]. rewrite Nat.sub_0_r. destruct p as [|c' p]; cbn [String.length String.get].
    + case_bool_decide as Hc; [|done]. exists "". by rewrite Hc.
    + intros E. destruct IH as [q Hq]; [by cbn; rewrite Nat.sub_0_r|]. exists (String c q). cbn. by rewrite <-Hq.
  - intros [q ->]. induction q as [|c q IH]; [done|]. cbn. rewrite Nat.sub_0_r.
    destruct q as [|c' q]; [done|]. cbn in *. by rewrite Nat.sub_0_r in IH.
Qed.

(** ** Pushing names *)

Lemma split_on_push p x : plain x -> p <> "" ->
  omap segment (split_on SEP (path_push p x)) = omap segment (split_on SEP p) ++ [Normal x] /\
  hd_error (split_on SEP (path_push p x)) = hd_error (split_on SEP p).
Proof.
  intros Hx Hp. unfold path_push. rewrite plain_not_absolute by done. rewrite bool_decide_false by done. cbn [orb].
  destruct Hx as [Es Hx]. destruct (ends_with_sep p) eqn:E.
  - apply ends_with_sep_app in E as [q ->]. rewrite str_app_assoc. cbn [String.append].
    rewrite !(split_on_sep SEP), !(split_on_absent SEP x) by done. cbn [split_on]. rewrite !omap_app. cbn [omap list_omap]. rewrite Es. cbn.
    rewrite app_nil_r. split; [done|]. by destruct (split_on_cons SEP q) as (l & ls & ->).
  - cbn [String.append]. rewrite (split_on_sep SEP), (split_on_absent SEP x) by done. rewrite omap_app. cbn [omap list_omap]. rewrite Es.
    split; [done|]. by destruct (split_on_cons SEP p) as (l & ls & ->).
Qed.

Lemma is_absolute_push p x : plain x -> p <> "" -> is_absolute (path_push p x) = is_absolute p.
Proof.
  intros Hx Hp. unfold path_push. rewrite (plain_not_absolute x) by done. rewrite bool_decide_false by done. cbn [orb].
  destruct p as [|c p]; [done|]. by destruct (ends_with_sep _).
Qed.

(** A name that is pushed is the last component. *)
Lemma components_push p x : plain x -> components (path_push p x) = components p ++ [Normal x].
Proof.
  intros Hx. destruct (decide (p = "")) as [->|Hp].
  - replace (path_push "" x) with x by (unfold path_push; by rewrite plain_not_absolute, bool_decide_true). unfold components, front.
    rewrite plain_not_absolute by done. destruct Hx as [Es Hx]. rewrite split_on_absent by done. cbn [hd_error].
    rewrite bool_decide_false; [|by intros [= ->]]. cbn. by rewrite Es.
  - unfold components, front. rewrite is_absolute_push by done. destruct (split_on_push p x) as [-> ->]; [done..|].
    by rewrite app_assoc.
Qed.

Lemma push_nonempty p x : plain x -> path_push p x <> "".
Proof.
  intros Hx E. apply (f_equal components) in E. rewrite components_push in E by done.
  by destruct (components p).
Qed.

Lemma components_extend_names p names :
  Forall plain names -> components (foldl path_push p names) = components p ++ (Normal <$> names).
Proof.
  intros Hn. revert p. induction Hn as [|x names Hx _ IH]; intros p; cbn; [by rewrite app_nil_r|].
  by rewrite IH, components_push, <-app_assoc.
Qed.

(** ** Normalised paths *)

(** The text of a relative path with these names. *)
Definition joined (names : list string) : string := String.concat "/" names.

Lemma joined_snoc names x : joined (names ++ [x]) = if bool_decide (names = []) then x else joined names +:+ "/" +:+ x.
Proof.
  induction names as [|y names IH]; [done|]. rewrite bool_decide_false by done. unfold joined in *. cbn.
  destruct names as [|z names]; [done|]. cbn [app] in *. rewrite IH. rewrite bool_decide_false by done. by rewrite !str_app_assoc.
Qed.

Lemma split_on_joined names :
  Forall plain names -> names <> [] -> split_on SEP (joined names) = names.
Proof.
  intros Hn. induction Hn as [|x names [Ex Hx] Hn IH]; [done|]. intros _.
  destruct names as [|y names]; [by apply split_on_absent|].
  change (joined _) with (x +:+ String SEP (joined (y :: names))). rewrite split_on_app by done. by rewrite IH.
Qed.

Lemma joined_push names x : Forall plain names -> plain x -> path_push (joined names) x = joined (names ++ [x]).
Proof.
  intros Hn Hx. rewrite joined_snoc. unfold path_push. rewrite plain_not_absolute by done.
  case_bool_decide as Hj.
  - rewrite Hj. cbn. rewrite bool_decide_true; [done|].
    destruct names as [|y names]; [done|]. exfalso. pose proof (split_on_joined (y :: names) Hn ltac:(done)) as E.
    rewrite Hj in E. injection E as <- <-. apply Forall_cons in Hn as [[? _] _]. done.
  - destruct (ends_with_sep (joined names)) eqn:E.
    + exfalso. apply ends_with_sep_app in E as [q Hq]. destruct names as [|y names]; [done|].
      pose proof (split_on_joined (y :: names) Hn ltac:(done)) as E. rewrite Hq in E.
      rewrite (split_on_sep SEP) in E. rewrite <-E in Hn. apply Forall_app in Hn as [_ Hn].
      apply Forall_cons in Hn as [[? _] _]. done.
    + cbn [orb]. rewrite bool_decide_false; [done|]. by intros ->.
Qed.

Lemma trim_back_plain names : Forall plain names -> trim_back names = names.
Proof.
  induction 1 as [|x names [Ex _] _ IH]; [done|]. cbn. rewrite IH. by destruct names; [rewrite Ex|].
Qed.

Lemma front_joined names : Forall plain names -> front (joined names) = None.
Proof.
  intros Hn. destruct names as [|x names]; [done|]. unfold front.
  rewrite split_on_joined by done. cbn [hd_error]. apply Forall_cons in Hn as [Hx _].
  rewrite bool_decide_false; [|intros [= ->]; by destruct Hx].
  destruct (is_absolute (joined (x :: names))) eqn:E; [|done].
  assert (x <> "") as Hne by (intros ->; by destruct Hx).
  apply plain_not_absolute in Hx. destruct x as [|c x]; [done|]. unfold joined in E. destruct names; cbn in *; congruence.
Qed.

Lemma joined_pop names : Forall plain names -> path_pop (joined names) = joined (removelast names).
Proof.
  intros Hn. destruct names as [|x names]; [done|]. unfold path_pop, parent.
  rewrite front_joined, split_on_joined by done. unfold front_segs. rewrite trim_back_plain by done.
  rewrite trim_back_plain; [done|]. rewrite removelast_firstn_len. by apply Forall_take.
Qed.

(** The names that the components of a path come to, from the left. *)
Definition resolve (names : list string) (cs : list Component) : list string :=
  foldl (fun names c => match c with
                        | Normal x => names ++ [x]
                        | ParentDir => removelast names
                        | _ => names
                        end) names cs.

Lemma resolve_plain names cs :
  Forall plain names -> (forall x, Normal x ∈ cs -> plain x) -> Forall plain (resolve names cs).
Proof.
  revert names. induction cs as [|c cs IH]; intros names Hn Hc; [done|]. cbn. apply IH.
  - destruct c; [done|done| |].
    + rewrite removelast_firstn_len. by apply Forall_take.
    + apply Forall_app. split; [done|]. constructor; [|done]. apply Hc. by left.
  - intros x Hx. apply Hc. by right.
Qed.

Lemma normalize_names names cs :
  Forall plain names -> (forall x, Normal x ∈ cs -> plain x) ->
  foldl normalize_step (joined names) cs = joined (resolve names cs).
Proof.
  revert names. induction cs as [|c cs IH]; intros names Hn Hc; [done|]. cbn.
  assert (forall x, Normal x ∈ cs -> plain x) as Hc' by (intros x Hx; apply Hc; by right).
  destruct c as [| | |x]; [by apply IH..| |]; cbn [normalize_step].
  - rewrite joined_pop by done. apply IH; [|done]. rewrite removelast_firstn_len. by apply Forall_take.
  - assert (plain x) as Hx by (apply Hc; by left). rewrite joined_push by done. apply IH; [|done].
    apply Forall_app. by split; [|constructor].
Qed.

Lemma normalize_path_spec p :
  normalize_path p = joined (resolve [] (components p)) /\ Forall plain (resolve [] (components p)).
Proof.
  pose proof (components_plain p) as Hc.
  split; [by apply (normalize_names [])|by apply resolve_plain].
Qed.

Lemma components_joined names : Forall plain names -> components (joined names) = Normal <$> names.
Proof.
  intros Hn. destruct (decide (names = [])) as [->|Hne]; [done|]. unfold components.
  rewrite front_joined, split_on_joined by done. cbn [option_list app].
  clear Hne. induction Hn as [|x names [Ex _] _ IH]; [done|]. cbn [omap list_omap]. rewrite Ex. cbn. f_equal. exact IH.
Qed.

(** A path under [root] that follows a request's path: the names come from the path
    and each stays below the root. *)
Lemma extend_normalized root p :
  let names := resolve [] (components p) in
  Forall plain names /\
  path_extend root (normalize_path p) = foldl path_push root names /\
  components (path_extend root (normalize_path p)) = components root ++ (Normal <$> names).
Proof.
  intros names. destruct (normalize_path_spec p) as [En Hn]. fold names in En, Hn. split; [done|].
  assert (path_extend root (normalize_path p) = foldl path_push root names) as E; [|split; [done|]].
  - unfold path_extend. rewrite En, components_joined by done. f_equal. rewrite <-list_fmap_compose.
    induction names as [|x l IH]; cbn; [done|]. f_equal. apply Forall_cons in Hn as [_ Hn]. clear -l.
    induction l as [|y l IH]; cbn; by f_equal.
  - rewrite E. by apply components_extend_names.
Qed.

(** ** Parents *)

Lemma trim_back_omap segs : omap segment (trim_back segs) = omap segment segs.
Proof.
  induction segs as [|s segs IH]; [done|]. cbn. destruct (trim_back segs) as [|t l].
  - cbn in IH. destruct (segment s) as [c|] eqn:E; cbn; rewrite <-IH; [by rewrite E|done].
  - change (omap segment (s :: t :: l)) with
      (match segment s with Some y => y :: omap segment (t :: l) | None => omap segment (t :: l) end). by rewrite IH.
Qed.

(** The last piece that is left is a component. *)
Lemma trim_back_last segs s : last (trim_back segs) = Some s -> exists c, segment s = Some c.
Proof.
  induction segs as [|x segs IH]; [done|]. cbn. destruct (trim_back segs) as [|t l] eqn:E.
  - destruct (segment x) as [c|] eqn:Ex; [|done]. cbn. intros [= <-]. eauto.
  - intros Hl. apply IH. exact Hl.
Qed.

Lemma trim_back_head segs x l : trim_back segs = x :: l -> hd_error segs = Some x.
Proof. destruct segs as [|s segs]; [done|]. cbn. repeat case_match; by intros [= -> _]. Qed.

Lemma trim_back_subset segs : trim_back segs `prefix_of` segs.
Proof.
  induction segs as [|s segs IH]; [done|]. cbn. destruct (trim_back segs) as [|t l] eqn:E.
  - destruct (segment s); [|apply prefix_nil]. by apply prefix_cons, prefix_nil.
  - by apply prefix_cons.
Qed.

Lemma split_on_concat segs :
  Forall (fun x => find_char SEP x = None) segs -> segs <> [] -> split_on SEP (String.concat "/" segs) = segs.
Proof.
  induction 1 as [|x segs Hx Hn IH]; [done|]. intros _. destruct segs as [|y segs]; [by apply split_on_absent|].
  change (String.concat "/" (x :: y :: segs)) with (x +:+ String SEP (String.concat "/" (y :: segs))).
  rewrite split_on_app by done. by rewrite IH.
Qed.

Lemma omap_split_concat segs :
  Forall (fun x => find_char SEP x = None) segs -> omap segment (split_on SEP (String.concat "/" segs)) = omap segment segs.
Proof. intros Hs. destruct segs as [|x segs]; [done|]. by rewrite split_on_concat. Qed.

Lemma front_segs_omap segs c l :
  trim_back segs = c :: l -> exists x, omap segment segs = omap segment (front_segs segs) ++ [x].
Proof.
  intros E. unfold front_segs. rewrite trim_back_omap. destruct (trim_back segs) as [|a t] eqn:Et using rev_ind; [done|].
  destruct (trim_back_last segs a) as [x Hx]; [by rewrite Et, last_snoc|]. exists x.
  rewrite <-(trim_back_omap segs), Et, removelast_last, omap_app. cbn. by rewrite Hx.
Qed.

Lemma front_segs_sep segs :
  Forall (fun x => find_char SEP x = None) segs -> Forall (fun x => find_char SEP x = None) (front_segs segs).
Proof.
  intros Hs. unfold front_segs. destruct (trim_back_subset (removelast (trim_back segs))) as [a Ea].
  destruct (trim_back_subset segs) as [b Eb].
  assert (Forall (fun x => find_char SEP x = None) (trim_back segs)) as Ht by (rewrite Eb in Hs; by apply Forall_app in Hs as [? _]).
  assert (Forall (fun x => find_char SEP x = None) (removelast (trim_back segs))) as Hr
    by (rewrite removelast_firstn_len; by apply Forall_take).
  rewrite Ea in Hr. by apply Forall_app in Hr as [? _].
Qed.

Lemma front_segs_head segs x l : front_segs segs = x :: l -> hd_error segs = Some x.
Proof.
  unfold front_segs. intros E. apply trim_back_head in E. destruct (trim_back segs) as [|a t] eqn:Et; [done|].
  apply trim_back_head in Et. destruct t; [done|]. cbn in E. congruence.
Qed.

Lemma components_root q : components (String SEP q) = RootDir :: omap segment (split_on SEP q).
Proof. unfold components, front. cbn. rewrite bool_decide_true by done. done. Qed.

Lemma components_dot q : components ("." +:+ String SEP q) = CurDir :: omap segment (split_on SEP q).
Proof. done. Qed.

Lemma components_concat x l :
  Forall (fun x => find_char SEP x = None) (x :: l) -> x <> "" -> x <> "." ->
  is_absolute (String.concat "/" (x :: l)) = false /\
  components (String.concat "/" (x :: l)) = omap segment (x :: l).
Proof.
  intros Hs H1 H2. apply Forall_cons in Hs as Hs'. destruct Hs' as [Hx _].
  assert (is_absolute (String.concat "/" (x :: l)) = false) as Ha.
  { destruct x as [|c x]; [done|]. cbn in Hx. case_bool_decide; [done|]. destruct l; cbn; by rewrite bool_decide_false. }
  split; [done|]. unfold components, front. rewrite Ha, split_on_concat by done. cbn [hd_error].
  rewrite bool_decide_false by congruence. done.
Qed.

Lemma front_cur p : front p = Some CurDir ->
  exists q, p = "." +:+ q /\ hd_error (split_on SEP q) = Some "" /\ components p = CurDir :: omap segment (split_on SEP q).
Proof.
  unfold front. destruct (is_absolute p) eqn:Ea; [done|]. case_bool_decide as Hd; [|done]. intros _.
  destruct p as [|c p]; [done|]. cbn in Ea, Hd. case_bool_decide; [done|].
  destruct (split_on_cons SEP p) as (l & ls & E). rewrite E in Hd. injection Hd as -> ->.
  exists p. split; [done|]. destruct p as [|c p]; [done|]. cbn in E. case_bool_decide as Hc.
  - subst c. split; [cbn; by rewrite bool_decide_true|]. done.
  - destruct (split_on_cons SEP p) as (l & ls' & E'). by rewrite E' in E.
Qed.

(** The parent of a path has its components but the last one. *)
Lemma parent_components p d :
  parent p = Some d -> is_absolute d = is_absolute p /\ exists c, components p = components d ++ [c].
Proof.
  unfold parent. destruct (front p) as [[| | |x]|] eqn:Ef.
  - unfold front in Ef. destruct p as [|ch q]; [done|]. cbn [is_absolute] in Ef |- *. case_bool_decide as Hc; [subst ch|by case_match].
    cbn [str_drop]. replace (str_drop 0 q) with q by (by destruct q).
    destruct (trim_back (split_on SEP q)) as [|a t] eqn:Et; [done|]. intros [= <-]. split; [by cbn; rewrite bool_decide_true|].
    destruct (front_segs_omap _ _ _ Et) as [c Ec]. exists c. change ("/" +:+ ?x) with (String SEP x).
    rewrite !components_root, omap_split_concat by apply front_segs_sep, split_on_parts. by rewrite Ec.
  - destruct (front_cur p Ef) as (q & -> & Hq & E). rewrite E. cbn [String.append str_drop]. replace (str_drop 0 q) with q by (by destruct q).
    destruct (trim_back (split_on SEP q)) as [|a t] eqn:Et.
    + intros [= <-]. split; [done|]. exists CurDir. rewrite <-trim_back_omap, Et. done.
    + intros [= <-]. split; [done|]. destruct (front_segs_omap _ _ _ Et) as [c Ec]. exists c. rewrite Ec.
      pose proof (front_segs_sep _ (split_on_parts SEP q)) as Hs. destruct (front_segs (split_on SEP q)) as [|x l] eqn:Ex; [done|].
      pose proof (front_segs_head _ _ _ Ex) as Hx. rewrite Hq in Hx. injection Hx as <-. destruct l as [|y l]; [done|].
      change (String "." (String.concat "/" ("" :: y :: l))) with ("." +:+ String SEP (String.concat "/" (y :: l))).
      rewrite components_dot. apply Forall_cons in Hs as [_ Hs]. by rewrite omap_split_concat.
  - unfold front in Ef. by repeat case_match.
  - unfold front in Ef. by repeat case_match.
  - destruct (trim_back (split_on SEP p)) as [|a t] eqn:Et; [done|]. intros [= <-]. cbn [String.append].
    destruct (front_segs_omap _ _ _ Et) as [c Ec]. unfold components at 1. rewrite Ef, Ec. cbn [option_list app].
    assert (is_absolute p = false) as Ha by (unfold front in Ef; by destruct (is_absolute p)). rewrite Ha.
    pose proof (front_segs_sep _ (split_on_parts SEP p)) as Hs. destruct (front_segs (split_on SEP p)) as [|x l] eqn:Ex; [by split; [|exists c]|].
    pose proof (front_segs_head _ _ _ Ex) as Hx.
    destruct (components_concat x l Hs) as [-> ->]; [| |by split; [|exists c]].
    + intros ->. destruct p as [|ch p]; [done|]. cbn in Ha, Hx. rewrite Ha in Hx. by destruct (split_on SEP p).
    + intros ->. unfold front in Ef. rewrite Ha, bool_decide_true in Ef by done. done.
Qed.

(** ** Places *)

(** Where a path leads when every directory is a plain one: the names from the root, [cwd]
    for a relative path. *)
Definition place (cwd : list string) (p : string) : list string :=
  resolve (if is_absolute p then [] else cwd) (components p).

Lemma resolve_app names cs cs' : resolve names (cs ++ cs') = resolve (resolve names cs) cs'.
Proof. apply foldl_app. Qed.

Lemma place_parent cwd p d x :
  parent p = Some d -> file_name p = Some x -> place cwd p = place cwd d ++ [x].
Proof.
  intros Hp Hx. destruct (parent_components p d Hp) as (Ha & c & E). unfold file_name in Hx. rewrite E, last_snoc in Hx.
  destruct c; simplify_eq. unfold place. by rewrite Ha, E, resolve_app.
Qed.

(** ** Straight paths *)

Lemma push_relative p x :
  is_absolute x = false ->
  path_push p x = if bool_decide (p = "") || ends_with_sep p then p +:+ x else p +:+ "/" +:+ x.
Proof. intros Hx. unfold path_push. by rewrite Hx. Qed.

(** A path that never goes up. *)
Definition straight (p : string) : Prop := ParentDir ∉ components p.

Lemma resolve_extends names cs : ParentDir ∉ cs -> names `prefix_of` resolve names cs.
Proof.
  revert names. induction cs as [|c cs IH]; intros names Hc; [done|]. apply not_elem_of_cons in Hc as [Hc Hcs].
  cbn. destruct c as [| | |x]; [by apply IH..|done|]. etrans; [|by apply IH]. by apply prefix_app_r.
Qed.

Lemma is_absolute_components p : is_absolute p = bool_decide (hd_error (components p) = Some RootDir).
Proof.
  unfold components, front. destruct (is_absolute p) eqn:Ea; cbn [option_list app hd_error]; [by rewrite bool_decide_true|].
  symmetry. destruct (bool_decide (head (split_on SEP p) = Some ".")); [done|]. apply bool_decide_false.
  induction (split_on SEP p) as [|s l IH] in |- *; [done|]. cbn. destruct (segment s) as [c|] eqn:Es; [|done].
  cbn. intros [= ->]. unfold segment in Es. by repeat case_bool_decide.
Qed.

Lemma is_absolute_prefix a d :
  components a `prefix_of` components d -> components a <> [] -> is_absolute a = is_absolute d.
Proof. intros [k Hk] Hne. rewrite !is_absolute_components, Hk. by destruct (components a). Qed.

(** What a relative path adds to another when it is pushed. *)
Lemma components_push_relative p x :
  is_absolute x = false ->
  is_absolute (path_push p x) = is_absolute p /\
  exists l, components (path_push p x) = components p ++ l /\ forall c, c ∈ l -> c ∈ components x.
Proof.
  intros Hx. split.
  { rewrite push_relative by done. destruct p as [|ch p]; [by rewrite bool_decide_true|].
    rewrite bool_decide_false by done. by destruct (ends_with_sep _). }
  destruct (decide (p = "")) as [->|Hp].
  { exists (components x). rewrite push_relative by done. rewrite bool_decide_true by done. by split. }
  exists (omap segment (split_on SEP x)). split; [|intros c Hc; unfold components; rewrite elem_of_app; by right].
  rewrite push_relative, bool_decide_false by done. cbn [orb]. unfold components, front.
  assert (is_absolute (if ends_with_sep p then p +:+ x else p +:+ "/" +:+ x) = is_absolute p) as -> by (destruct p; [done|]; by case_match).
  assert (hd_error (split_on SEP (if ends_with_sep p then p +:+ x else p +:+ "/" +:+ x)) = hd_error (split_on SEP p) /\
    omap segment (split_on SEP (if ends_with_sep p then p +:+ x else p +:+ "/" +:+ x)) =
    omap segment (split_on SEP p) ++ omap segment (split_on SEP x)) as [-> ->]; [|by rewrite app_assoc].
  destruct (ends_with_sep p) eqn:E.
  - apply ends_with_sep_app in E as [q ->]. rewrite str_app_assoc. cbn [String.append].
    rewrite !(split_on_sep SEP), !omap_app. cbn [split_on]. cbn. rewrite app_nil_r.
    split; [|done]. by destruct (split_on_cons SEP q) as (l & ls & ->).
  - cbn [String.append]. rewrite (split_on_sep SEP), omap_app. split; [|done].
    by destruct (split_on_cons SEP p) as (l & ls & ->).
Qed.

(** ** Pushing many names at once *)

Lemma ends_with_sep_append b a : a <> "" -> ends_with_sep (b +:+ a) = ends_with_sep a.
Proof.
  intros Ha. induction b as [|c b IH]; [done|]. rewrite <-IH. unfold ends_with_sep. cbn.
  rewrite Nat.sub_0_r. destruct (b +:+ a) as [|c' s] eqn:E; [|cbn; by rewrite Nat.sub_0_r].
  by destruct b; [destruct a|].
Qed.

Lemma joined_shape names :
  Forall plain names -> names <> [] ->
  joined names <> "" /\ is_absolute (joined names) = false /\ ends_with_sep (joined names) = false.
Proof.
  intros Hn Hne. pose proof (split_on_joined names Hn Hne) as E. split_and!.
  - intros Ej. rewrite Ej in E. cbn in E. subst names. by apply Forall_cons in Hn as [[? _] _].
  - pose proof (front_joined names Hn) as Hf. unfold front in Hf. by destruct (is_absolute _).
  - apply not_true_is_false. intros [q Hq]%ends_with_sep_app. rewrite Hq, (split_on_sep SEP) in E.
    rewrite <-E in Hn. apply Forall_app in Hn as [_ Hn]. by apply Forall_cons in Hn as [[? _] _].
Qed.

Lemma push_joined p names :
  Forall plain names -> names <> [] -> path_push p (joined names) = foldl path_push p names.
Proof.
  induction names as [|x names IH] using rev_ind; [done|]. intros [Hn Hx]%Forall_app _.
  apply Forall_cons in Hx as [Hx _]. rewrite foldl_snoc. destruct (decide (names = [])) as [->|Hne]; [done|].
  rewrite <-IH by done. destruct (joined_shape names Hn Hne) as (H1 & H2 & H3).
  destruct (joined_shape (names ++ [x])) as (H4 & H5 & _); [apply Forall_app; by split; [|constructor]|by destruct names|].
  rewrite (push_relative p) by done.
  assert (path_push p (joined names) <> "" /\ ends_with_sep (path_push p (joined names)) = false) as [H6 H7].
  { rewrite push_relative by done. destruct (bool_decide (p = "") || ends_with_sep p).
    - rewrite ends_with_sep_append by done. split; [|done]. by destruct p, (joined names).
    - rewrite ends_with_sep_append by (by destruct (joined names)). rewrite ends_with_sep_append by done. by destruct p. }
  rewrite (push_relative (path_push p (joined names))) by (by apply plain_not_absolute). rewrite H7, (bool_decide_false (path_push _ _ = "")) by done.
  cbn [orb]. rewrite joined_snoc, (bool_decide_false (names = [])) by done.
  rewrite push_relative by done. destruct (bool_decide (p = "") || ends_with_sep p); by rewrite !str_app_assoc.
Qed.

Lemma omap_segment_joined names : Forall plain names -> omap segment (split_on SEP (joined names)) = Normal <$> names.
Proof.
  intros Hn. destruct (decide (names = [])) as [->|Hne]; [done|]. rewrite split_on_joined by done.
  clear Hne. induction Hn as [|x names [Ex _] _ IH]; [done|]. cbn. rewrite Ex. by f_equal.
Qed.

Lemma components_slash names : Forall plain names -> components ("/" +:+ joined names) = RootDir :: (Normal <$> names).
Proof. intros Hn. change ("/" +:+ joined names) with (String SEP (joined names)). by rewrite components_root, omap_segment_joined. Qed.

(** The path of a request that names a file below the root. *)
Lemma normalize_joined names :
  Forall plain names -> normalize_path ("/" +:+ joined names) = joined names.
Proof.
  intros Hn. destruct (normalize_path_spec ("/" +:+ joined names)) as [-> _]. f_equal.
  rewrite components_slash by done.
  cbn. clear Hn. assert (forall l, foldl (fun names c => match c with ParentDir => removelast names | Normal x => names ++ [x] | _ => names end)
    l (Normal <$> names) = l ++ names) as Hl; [|exact (Hl [])].
  induction names as [|x names IH]; intros l; cbn; [by rewrite app_nil_r|]. by rewrite IH, <-app_assoc.
Qed.

Lemma place_plain cwd p : Forall plain cwd -> Forall plain (place cwd p).
Proof. intros Hc. apply resolve_plain; [by destruct (is_absolute p)|]. intros x. apply components_plain. Qed.
