(* ===== verification/FileNames.v ===== *)
(** * The names of many files (http/src/files_load.rs, batch_load.rs)

    The parser of the parameters [d] and [f] with which a client names many files at once:
    groups of names with the same suffix, [js(a:b)], and directories behind a colon,
    [:lib(js(a:b):sub(...)...)]. The position, which the parser counts for the text of its
    error, is left out. *)

From Stdlib Require Import Ascii.
From S2P Require Import Prelude HttpText.

#[local] Open Scope string_scope.
#[local] Open Scope list_scope.
#[local] Arguments String.append : simpl nomatch.

(** The character behind a dollar sign. *)
Definition unescape (c : ascii) : option string :=
  if bool_decide (c = "$"%char) then Some "$"
  else if bool_decide (c = "1"%char) then Some "("
  else if bool_decide (c = "2"%char) then Some ")"
  else None.

(** [stack.last()]: the top is in front. *)
Definition top (stack : list string) : string := hd "" stack.

(** [decode], [decode_file] and [decode_path], which call each other at the end of their
    loops; [None] is their error. *)
Fixpoint decode (chars suffix : string) (stack result : list string) : option (list string) :=
  match chars with
  | EmptyString => Some result
  | String c chars =>
      if bool_decide (c = "$"%char) then
        match chars with
        | EmptyString => None
        | String d chars =>
            match unescape d with
            | Some x => decode chars (suffix +:+ x) stack result
            | None => None
            end
        end
      else if bool_decide (c = "("%char) then
        decode_file chars (if bool_decide (suffix = "") then suffix else "." +:+ suffix) "" stack result
      else if bool_decide (c = ":"%char) then decode_path chars "" stack result
      else decode chars (suffix +:+ String c "") stack result
  end
with decode_file (chars suffix name : string) (stack result : list string) : option (list string) :=
  match chars with
  | EmptyString => Some result
  | String c chars =>
      if bool_decide (c = "$"%char) then
        match chars with
        | EmptyString => None
        | String d chars =>
            match unescape d with
            | Some x => decode_file chars (suffix +:+ x) name stack result
            | None => None
            end
        end
      else if bool_decide (c = ":"%char) then
        decode_file chars suffix "" stack (result ++ [top stack +:+ name +:+ suffix])
      else if bool_decide (c = ")"%char) then
        decode chars "" stack (result ++ [top stack +:+ name +:+ suffix])
      else decode_file chars suffix (name +:+ String c "") stack result
  end
with decode_path (chars path : string) (stack result : list string) : option (list string) :=
  match chars with
  | EmptyString => Some result
  | String c chars =>
      if bool_decide (c = "$"%char) then
        match chars with
        | EmptyString => None
        | String d chars =>
            match unescape d with
            | Some x => decode_path chars (path +:+ x) stack result
            | None => None
            end
        end
      else if bool_decide (c = "("%char) then
        decode chars "" ((top stack +:+ path +:+ "/") :: stack) result
      else if bool_decide (c = ")"%char) then decode_path chars "" (tl stack) result
      else decode_path chars (path +:+ String c "") stack result
  end.

(** ** What a client writes *)

(** A directory: groups of names by suffix, and directories by name. *)
Inductive Dir := mkDir (groups : list (string * list string)) (dirs : list (string * Dir)).

Fixpoint escape (s : string) : string :=
  match s with
  | EmptyString => EmptyString
  | String c s =>
      (if bool_decide (c = "$"%char) then "$$"
       else if bool_decide (c = "("%char) then "$1"
       else if bool_decide (c = ")"%char) then "$2"
       else String c "") +:+ escape s
  end.

Definition encode_group (g : string * list string) : string :=
  escape g.1 +:+ "(" +:+ String.concat ":" g.2 +:+ ")".

Definition texts (l : list string) : string := foldr String.append "" l.

Fixpoint encode_dir (d : Dir) : string :=
  let 'mkDir groups dirs := d in
  texts (encode_group <$> groups) +:+ ":" +:+
  texts (map (fun nd => let '(name, sub) := nd in escape name +:+ "(" +:+ encode_dir sub +:+ ")") dirs).

Definition with_suffix (suffix : string) : string := if bool_decide (suffix = "") then suffix else "." +:+ suffix.

Definition group_files (prefix : string) (g : string * list string) : list string :=
  (fun name => prefix +:+ name +:+ with_suffix g.1) <$> g.2.

Fixpoint dir_files (prefix : string) (d : Dir) : list string :=
  let 'mkDir groups dirs := d in
  (groups ≫= group_files prefix) ++
  concat (map (fun nd => let '(name, sub) := nd in dir_files (prefix +:+ name +:+ "/") sub) dirs).

(** The names that can be written: no separator in a name, no colon in a suffix, and at
    least one name in a group. *)
Definition name_ok (s : string) : bool :=
  str_all (fun c => negb (bool_decide (c = "$"%char \/ c = ":"%char \/ c = ")"%char))) s.
Definition group_ok (g : string * list string) : bool :=
  str_all (fun c => negb (bool_decide (c = ":"%char))) g.1 &&
  negb (bool_decide (g.2 = [])) && forallb name_ok g.2.

Fixpoint dir_ok (d : Dir) : bool :=
  let 'mkDir groups dirs := d in
  forallb group_ok groups && forallb (fun nd => let '(_, sub) := nd in dir_ok sub) dirs.

(** Induction over directories and the list inside. *)
Lemma Dir_ind' (P : Dir -> Prop) :
  (forall groups dirs, Forall (fun nd => P nd.2) dirs -> P (mkDir groups dirs)) -> forall d, P d.
Proof.
  intros Hd. fix IH 1. intros [groups dirs]. apply Hd. induction dirs as [|[name sub] dirs IHd]; constructor; [apply IH|exact IHd].
Qed.

(** ** The parser inverts the writer *)

(** One step of the parser, with its comparisons of characters decided. *)
Ltac decode_step :=
  cbn [String.append decode decode_file decode_path]; unfold unescape;
  repeat match goal with
  | |- context [bool_decide (?a = ?b)] =>
      first [rewrite (bool_decide_true (a = b)) by done | rewrite (bool_decide_false (a = b)) by (done || tauto)]
  end.

Lemma decode_suffix s rest suffix stack result :
  str_all (fun c => negb (bool_decide (c = ":"%char))) s = true ->
  decode (escape s +:+ rest) suffix stack result = decode rest (suffix +:+ s) stack result.
Proof.
  revert suffix. induction s as [|c s IH]; intros suffix Hs; cbn [escape]; [by rewrite str_app_nil|].
  cbn in Hs. apply andb_prop in Hs as [Hc Hs]. apply negb_true_iff, bool_decide_eq_false in Hc.
  repeat case_bool_decide; subst; decode_step; rewrite IH by done; by rewrite str_app_assoc.
Qed.

Lemma decode_dir_name s rest path stack result :
  decode_path (escape s +:+ rest) path stack result = decode_path rest (path +:+ s) stack result.
Proof.
  revert path. induction s as [|c s IH]; intros path; cbn [escape]; [by rewrite str_app_nil|].
  repeat case_bool_decide; subst; decode_step; rewrite IH; by rewrite str_app_assoc.
Qed.

Lemma decode_name s rest suffix name stack result :
  name_ok s = true ->
  decode_file (s +:+ rest) suffix name stack result = decode_file rest suffix (name +:+ s) stack result.
Proof.
  revert name. induction s as [|c s IH]; intros name Hs; [by rewrite str_app_nil|].
  cbn in Hs. apply andb_prop in Hs as [Hc Hs]. apply negb_true_iff, bool_decide_eq_false in Hc.
  decode_step. rewrite IH by done. by rewrite str_app_assoc.
Qed.

Lemma decode_names names rest suffix stack result :
  names <> [] -> forallb name_ok names = true ->
  decode_file (String.concat ":" names +:+ String ")" rest) suffix "" stack result =
  decode rest "" stack (result ++ ((fun name => top stack +:+ name +:+ suffix) <$> names)).
Proof.
  revert result. induction names as [|name names IH]; intros result Hne Hn; [done|].
  cbn in Hn. apply andb_prop in Hn as [Hn1 Hn2]. destruct names as [|name2 names].
  - cbn [String.concat]. rewrite decode_name by done. by decode_step.
  - change (String.concat ":" (name :: name2 :: names)) with (name +:+ ":" +:+ String.concat ":" (name2 :: names)).
    rewrite !str_app_assoc, decode_name by done. decode_step. rewrite IH by done. by rewrite <-app_assoc.
Qed.

Lemma decode_group g rest stack result :
  group_ok g = true ->
  decode (encode_group g +:+ rest) "" stack result = decode rest "" stack (result ++ group_files (top stack) g).
Proof.
  intros Hg. apply andb_prop in Hg as [[Hs Hn]%andb_prop Hall]. apply negb_true_iff, bool_decide_eq_false in Hn.
  unfold encode_group. rewrite !str_app_assoc, decode_suffix by done. decode_step. by rewrite decode_names.
Qed.

Lemma decode_groups groups rest stack result :
  forallb group_ok groups = true ->
  decode (texts (encode_group <$> groups) +:+ rest) "" stack result =
  decode rest "" stack (result ++ (groups ≫= group_files (top stack))).
Proof.
  revert result. induction groups as [|g groups IH]; intros result Hg; [by rewrite app_nil_r|].
  cbn in Hg. apply andb_prop in Hg as [Hg1 Hg2]. cbn [fmap list_fmap texts foldr]. rewrite str_app_assoc, decode_group by done.
  rewrite IH by done. by rewrite <-app_assoc.
Qed.

Lemma decode_encoded d rest stack result :
  dir_ok d = true ->
  decode (encode_dir d +:+ rest) "" stack result = decode_path rest "" stack (result ++ dir_files (top stack) d).
Proof.
  revert rest stack result. induction d as [groups dirs IH] using Dir_ind'. intros rest stack result Hd.
  cbn [dir_ok] in Hd. apply andb_prop in Hd as [Hg Hd]. cbn [encode_dir dir_files].
  rewrite str_app_assoc, decode_groups by done. decode_step. rewrite app_assoc.
  generalize (result ++ (groups ≫= group_files (top stack))). clear result Hg.
  induction IH as [|[name sub] dirs Hsub _ IHd]; intros result; [by rewrite app_nil_r|].
  cbn [forallb] in Hd. apply andb_prop in Hd as [Hd1 Hd2]. cbn [map texts foldr concat]. fold (texts (map (fun nd : string * Dir => let '(name, sub) := nd in escape name +:+ "(" +:+ encode_dir sub +:+ ")") dirs)).
  rewrite !str_app_assoc, decode_dir_name. cbn [snd] in Hsub. decode_step. rewrite str_app_assoc, Hsub by done. cbn [top hd]. decode_step. cbn [tl].
  rewrite IHd by done. by rewrite <-app_assoc.
Qed.

(** The parser inverts the writer: of the text of a directory it gives the files of all
    groups with their suffixes and of all directories below, in order, each with its path. *)
Theorem names_roundtrip d :
  dir_ok d = true -> decode (encode_dir d) "" [] [] = Some (dir_files "" d).
Proof.
  intros Hd. rewrite <-(str_app_nil (encode_dir d)), decode_encoded by done. done.
Qed.

Definition sample_dir : Dir :=
  mkDir [("js", ["a"; "b.min"]); ("", ["LICENSE"])]
    [("lib(1)", mkDir [("css", ["x"])] [("deep", mkDir [("js", ["c(d"])] [])]); ("img", mkDir [("png", ["p"; "q"])] [])].

Lemma names_roundtrip_witness :
  decode (encode_dir sample_dir) "" [] [] =
  Some ["a.js"; "b.min.js"; "LICENSE"; "lib(1)/x.css"; "lib(1)/deep/c(d.js"; "img/p.png"; "img/q.png"].
Proof. apply (names_roundtrip sample_dir). reflexivity. Defined.

(** An escaped character in a name goes to the suffix, and a last name that is not closed is
    dropped. *)
Example escaped_name : decode "js(a$1b:c)" "" [] [] = Some ["ab.js("; "c.js("].
Proof. reflexivity. Qed.
Example open_group : decode "js(a:b" "" [] [] = Some ["a.js"].
Proof. reflexivity. Qed.
