(* ===== verification/FileLoad.v ===== *)
(** * Loading files (http/src/file_load.rs)

    The middleware that answers a request with a file below its root, from the static
    cache or from the disk, whole or in chunks. The file system is a parameter: it does
    not change while a request is served, and the tasks that read a file send what they
    read when the response waits for it. *)

From S2P Require Import Prelude ByteSource HttpText ByteSearch HttpMessage HttpMiddleware HeadLoop HttpConnect StaticCache FilePath.

#[local] Open Scope string_scope.
#[local] Open Scope list_scope.

(** [std::fs::Metadata], and [AsyncFile] of the package pi_async_file. *)
Record Metadata := mkMetadata { is_file : bool; is_dir : bool; meta_len : Z; modified : option Z }.
Record OpenFile := mkOpenFile { get_size : Z; read_at : nat -> nat -> io_result (list Z) }.

Class FileApi (F : Type) := {
  metadata : F -> string -> io_result Metadata;
  open_file : F -> string -> io_result OpenFile;
}.

(** The runtime takes a task or refuses it; the type of a file by its name. *)
Class FileRuntime := {
  spawns : bool;
  mime_guess : string -> option string;
}.

(** The packages pi_adler32 and httpdate. *)
Class CacheApi := {
  adler32 : list Z -> option Z;
  parse_http_date : string -> option Z;
  fmt_http_date : Z -> string;
}.

Definition DEAFULT_CHUNK_SIZE : Z := 512 * 1024.

(** The options of the cache that the file services have in common. *)
Record CacheOptions := mkCacheOptions {
  has_cache : bool;
  is_cache : bool;
  is_store : bool;
  is_transform : bool;
  is_only_if_cached : bool;
  max_age : Z;
}.

Record FileLoad := mkFileLoad {
  root : string;
  options : CacheOptions;
  min_block_size : option Z;
  chunk_size : option Z;
  interval : option nat;
}.

Definition new_file_load (dir : string) (o : CacheOptions) : FileLoad := mkFileLoad (trim_path dir) o None None None.

(** The setters. *)
Definition set_min_block_size x (ld : FileLoad) : FileLoad :=
  mkFileLoad (root ld) (options ld) x (chunk_size ld) (interval ld).
Definition set_chunk_size x (ld : FileLoad) : FileLoad :=
  mkFileLoad (root ld) (options ld) (min_block_size ld) x (interval ld).
Definition set_interval x (ld : FileLoad) : FileLoad :=
  mkFileLoad (root ld) (options ld) (min_block_size ld) (chunk_size ld) x.

(** What a task that runs beside the response will send. *)
Definition leave (ms : list (option part)) (r : HttpResponse) : HttpResponse :=
  match resp_body r with
  | Some b =>
      let c := consumer b in
      set_body (Some (set_consumer (mkHttpReceiver (bound c) (msgs c) (coming c ++ ms) (own_sender c) (app_sender c)) b)) r
  | None => r
  end.

(** A response with this body. *)
Definition with_body (bin : list Z) (r : HttpResponse) : HttpResponse :=
  match resp_body r with Some b => set_body (Some (push bin (init b).1)) r | None => r end.

Section load.
Context `{HttpApi} `{FileRuntime} `{CacheApi} {F : Type} `{FileApi F}.

(** ** The cache *)

(** [set_cache_resp_headers] with the options of a service. *)
Definition cache_headers (o : CacheOptions) (store : bool) (age : Z) (last_modified : option Z) (sign : Z)
    (r : HttpResponse) : HttpResponse :=
  set_headers (set_cache_resp_headers fmt_http_date false (is_cache o) store (is_transform o) (is_only_if_cached o)
                 age last_modified sign (headers r)) r.

(** The questions to the cache at the start of [request]; [hit] makes the response of a
    resource that is there. [None] goes on to the disk. *)
Definition request_cache (now : option Z) (key : string) (q : HttpRequest) (c : StaticCache)
    (hit : bool -> Z -> Z -> string -> Z -> HttpResponse) : outcome (option MiddlewareResult) :=
  match req_is_unmodified parse_http_date now None key (req_headers q) c with
  | Err e => Done (Some (Throw e))
  | Ok (Some false) => Done (Some (Break (header "content-length" "0" (status 412 fresh))))
  | Ok (Some true) => Done (Some (Break (status 304 fresh)))
  | Ok None =>
      match req_is_modified parse_http_date now None key (req_headers q) c with
      | Err e => Done (Some (Throw e))
      | Ok false => Done (Some (Break (status 304 fresh)))
      | Ok true =>
          res ← lift (request_get_cache now None key (req_headers q) c);
          match res with
          | Err e => Done (Some (Throw e))
          | Ok (store, age, Cached last_modified mime sign bin) =>
              Done (Some (Finish q (with_body bin (hit store age last_modified mime sign))))
          | Ok _ => Done None
          end
      end
  end.

(** ** Reading the file *)

(** [get_file_path] *)
Definition get_file_path (fs : F) (file_path : string) (meta : Metadata) : option (string * Z) :=
  if is_file meta then Some (file_path, meta_len meta)
  else
    let index_path := path_push file_path "index.html" in
    match metadata fs index_path with
    | Err _ => None
    | Ok m => if is_file m then Some (index_path, meta_len m) else None
    end.

(** The messages of the task of [async_load_file]. *)
Definition file_msgs (fs : F) (path : string) : list (option part) :=
  match open_file fs path with
  | Err _ => [None]
  | Ok file =>
      match read_at file 0 (Z.to_nat (get_size file)) with
      | Ok bin => [Some (0%Z, bin); None]
      | Err _ => [None]
      end
  end.

Definition async_load_file (fs : F) (r : HttpResponse) (path : string) : HttpResponse :=
  if spawns then leave (file_msgs fs path) r else r.

(** [async_load_file_chunk]: each chunk is a task of its own that starts the next. *)
Fixpoint chunk_msgs (fuel : nat) (file : OpenFile) (offset size : nat) : outcome (list (option part)) :=
  match fuel with
  | O => NoFuel
  | S fuel =>
      match read_at file offset size with
      | Ok bin =>
          if bool_decide (0 < length bin) then
            ms ← chunk_msgs fuel file (offset + length bin) size; Done (Some (0%Z, bin) :: ms)
          else Done [None]
      | Err _ => Done [None]
      end
  end.

Definition async_load_file_chunks (fuel : nat) (fs : F) (r : HttpResponse) (path : string) (size : nat)
    : outcome HttpResponse :=
  if spawns then
    match open_file fs path with
    | Ok file => ms ← chunk_msgs fuel file 0 size; Done (leave ms r)
    | Err _ => Done (leave [None] r)
    end
  else Done r.

(** The size of a chunk, when the file is not smaller than the least size of blocks. *)
Definition block_size (ld : FileLoad) (min : Z) : nat :=
  let size := default DEAFULT_CHUNK_SIZE (chunk_size ld) in
  Z.to_nat (if (size <? min)%Z then size else min).

(** ** The middleware *)

Definition not_found : HttpResponse := header "content-length" "0" (status 404 fresh).

(** The path of the file of a request. *)
Definition load_path (ld : FileLoad) (q : HttpRequest) : string :=
  path_extend (root ld) (normalize_path (url_path (req_url (req_start q)))).

(** The part of [request] that goes to the disk. *)
Definition load_from_disk (fuel : nat) (fs : F) (ld : FileLoad) (q : HttpRequest) (c : GatewayContext)
    : outcome (GatewayContext * MiddlewareResult) :=
  let file_path := load_path ld q in
  match metadata fs file_path with
  | Err NotFound => Done (c, Break not_found)
  | Err PermissionDenied => Done (c, Break (header "content-length" "0" (status 403 fresh)))
  | Err e => Done (c, Throw e)
  | Ok meta =>
      match get_file_path fs file_path meta with
      | None => Done (c, Break not_found)
      | Some (path, size) =>
          let mime := default "text/plain" (mime_guess path) in
          let r := header "content-type" mime fresh in
          let c := match modified meta with
                   | Some last_modified => set_cache_args (Some (file_path, mime, last_modified)) c
                   | None => c
                   end in
          match min_block_size ld with
          | Some min =>
              if (min <=? size)%Z then
                r ← async_load_file_chunks fuel fs (enable_stream r) path (block_size ld min); Done (c, Break r)
              else Done (c, Finish q (async_load_file fs r path))
          | None => Done (c, Finish q (async_load_file fs r path))
          end
      end
  end.

(** [FileLoad::request] *)
Definition load_request (fuel : nat) (fs : F) (now : option Z) (ld : FileLoad) (q : HttpRequest) (cache : StaticCache)
    (c : GatewayContext) : outcome (GatewayContext * MiddlewareResult) :=
  res ← if has_cache (options ld) then
          request_cache now (load_path ld q) q cache (fun store age last_modified mime sign =>
            header "content-type" mime (cache_headers (options ld) store age (Some last_modified) sign fresh))
        else Done None;
  match res with
  | Some res => Done (c, res)
  | None => load_from_disk fuel fs ld q c
  end.

(** The end of [response]: the body goes to the cache. *)
Definition store_file (now : option Z) (o : CacheOptions) (full_sign : bool) (announce : Z -> option Z)
    (r : HttpResponse) (cache : StaticCache) (c : GatewayContext) : StaticCache * HttpResponse :=
  match resp_body r ≫= buf, cache_args c with
  | Some body_bin, Some (key, mime, last_modified) =>
      if is_store o && has_cache o then
        match insert adler32 (fun t => as_bytes (fmt_http_date t)) now None (max_age o) last_modified mime full_sign
                key body_bin cache with
        | (cache, Err _) => (cache, r)
        | (cache, Ok (sign, _)) => (cache, cache_headers o (is_store o) (max_age o) (announce last_modified) sign r)
        end
      else (cache, r)
  | _, _ => (cache, r)
  end.

(** [FileLoad::response] *)
Definition load_response (now : option Z) (ld : FileLoad) (q : HttpRequest) (r : HttpResponse) (cache : StaticCache)
    (c : GatewayContext) : outcome (StaticCache * MiddlewareResult) :=
  let finish r := let '(cache, r) := store_file now (options ld) false Some r cache c in
                  (cache, ContinueResponse q r) in
  match resp_body r with
  | None => Done (finish r)
  | Some b =>
      match buf b with
      | Some _ => Done (cache, ContinueResponse q r)
      | None =>
          '(b, res) ← collect_body 2 [] b;
          match res with
          | Err e => Done (cache, Throw e)
          | Ok _ =>
              let r := set_body (Some b) r in
              Done (finish match body_len b with
                           | Some n => if bool_decide (0 < n) then r else status 404 r
                           | None => status 404 r
                           end)
          end
      end
  end.

(** [impl Middleware for FileLoad] *)
Definition file_load {W : Type} `{Focus GatewayContext W, Focus StaticCache W, Focus F W, Clock W}
    (fuel : nat) (ld : FileLoad) : Middleware W := {|
  mw_request q w :=
    '(c, res) ← load_request fuel (focus_get w) (since_epoch (clock w)) ld q (focus_get w) (focus_get w);
    Done (focus_put (c : GatewayContext) w, res);
  mw_response q r w :=
    '(c, res) ← load_response (since_epoch (clock w)) ld q r (focus_get w) (focus_get w);
    Done (focus_put (c : StaticCache) w, res) |}.
End load.

(** ** The file comes from below the root *)

Section below.
Context `{HttpApi} `{FileRuntime} `{CacheApi} {F : Type} `{FileApi F}.

Lemma plain_index : plain "index.html".
Proof. by split. Qed.
#[local] Hint Resolve plain_index : core.

(** The path is the root and names under it. *)
Definition below (dir p : string) : Prop :=
  exists names, Forall plain names /\ components p = components dir ++ (Normal <$> names).

Lemma load_path_below ld q : below (root ld) (load_path ld q).
Proof.
  destruct (extend_normalized (root ld) (url_path (req_url (req_start q)))) as (Hn & _ & E).
  eexists. split; [exact Hn|exact E].
Qed.

Lemma below_push dir p x : plain x -> below dir p -> below dir (path_push p x).
Proof.
  intros Hx (names & Hn & E). exists (names ++ [x]). split; [apply Forall_app; by split; [|constructor]|].
  rewrite components_push by done. by rewrite E, <-app_assoc, fmap_app.
Qed.

Lemma get_file_path_below dir fs p meta path size :
  below dir p -> get_file_path fs p meta = Some (path, size) -> below dir path.
Proof.
  intros Hp. unfold get_file_path. destruct (is_file meta); [by intros [= <- <-]|].
  destruct (metadata fs _) as [m|]; [|done]. destruct (is_file m); [|done]. intros [= <- <-].
  by apply below_push.
Qed.

(** C13: A request is answered from below the root: whatever its path is, two file systems
    that agree on the paths made of the root and names (no parent directory, no
    separator inside a name) give the same answer. *)
Theorem load_below_root fuel (fs1 fs2 : F) now ld q cache c
    (Hfs : forall p, below (root ld) p -> metadata fs1 p = metadata fs2 p /\ open_file fs1 p = open_file fs2 p) :
  load_request fuel fs1 now ld q cache c = load_request fuel fs2 now ld q cache c.
Proof.
  unfold load_request. destruct (if has_cache (options ld) then _ else _) as [[res|]| | |]; cbn [mbind outcome_bind]; [done| |done..].
  unfold load_from_disk. pose proof (load_path_below ld q) as Hp.
  destruct (Hfs _ Hp) as [-> _]. destruct (metadata fs2 _) as [meta|]; [|done].
  assert (get_file_path fs1 (load_path ld q) meta = get_file_path fs2 (load_path ld q) meta) as Eg.
  { unfold get_file_path. destruct (is_file meta); [done|].
    by destruct (Hfs (path_push (load_path ld q) "index.html")) as [-> _]; [by apply below_push|]. }
  rewrite Eg. destruct (get_file_path fs2 _ meta) as [[path size]|] eqn:E; [|done].
  eapply get_file_path_below in E; [|exact Hp]. destruct (Hfs _ E) as [_ Eo].
  assert (forall r, async_load_file fs1 r path = async_load_file fs2 r path) as E1
    by (intros r; unfold async_load_file, file_msgs; by rewrite Eo).
  assert (forall r n, async_load_file_chunks fuel fs1 r path n = async_load_file_chunks fuel fs2 r path n) as E2
    by (intros r n; unfold async_load_file_chunks; by rewrite Eo).
  destruct (min_block_size ld); [|by rewrite E1]. case_match; [by rewrite E2|by rewrite E1].
Qed.
End below.

(** ** A file in chunks *)

Section chunks.
Context `{HttpApi} `{FileRuntime} `{CacheApi} {F : Type} `{FileApi F}.

(** What reading a file promises: some bytes of those that are left, at most as many as
    asked for, and none only when none are left or asked for. *)
Definition reads (file : OpenFile) (data : list Z) : Prop :=
  forall offset size, offset <= length data ->
    exists n, read_at file offset size = Ok (take n (drop offset data)) /\ n <= size /\
      (n = 0 -> size = 0 \/ offset = length data) /\ offset + n <= length data.

Lemma chunk_msgs_spec fuel file data offset size :
  reads file data -> 0 < size -> offset <= length data -> length data - offset < fuel ->
  exists parts, chunk_msgs fuel file offset size = Done ((Some <$> (pair 0%Z <$> parts)) ++ [None]) /\
    concat parts = drop offset data /\ Forall (fun p => 0 < length p <= size) parts.
Proof.
  intros Hr Hs. revert offset. induction fuel as [|fuel IH]; intros offset Ho Hf; [lia|].
  cbn [chunk_msgs]. destruct (Hr offset size Ho) as (n & -> & Hn & Hz & Hle).
  assert (length (take n (drop offset data)) = n) as El by (rewrite length_take, length_drop; lia). rewrite El.
  case_bool_decide as Hp.
  - destruct (IH (offset + n)) as (parts & -> & Ec & Hall); [lia|lia|].
    exists (take n (drop offset data) :: parts). split_and!; [done| |].
    + cbn. rewrite Ec, <-drop_drop. apply take_drop.
    + constructor; [lia|done].
  - destruct Hz as [|E]; [lia|lia|]. exists []. split_and!; [done| |done]. cbn. by rewrite E, drop_all.
Qed.
End chunks.

(** ** Serving a file *)

Section serve.
Context `{HttpLaws} `{FileRuntime} `{CacheApi} {F : Type} `{FileApi F}.

(** The request is not answered from the cache. *)
Definition misses (now : option Z) (ld : FileLoad) (q : HttpRequest) (cache : StaticCache) : Prop :=
  has_cache (options ld) = true -> forall hit, request_cache now (load_path ld q) q cache hit = Done None.

(** The file of the request, with its type and its size. *)
Definition has_file (fs : F) (ld : FileLoad) (q : HttpRequest) (meta : Metadata) (path : string) (size : Z)
    (file : OpenFile) : Prop :=
  metadata fs (load_path ld q) = Ok meta /\ get_file_path fs (load_path ld q) meta = Some (path, size) /\
  open_file fs path = Ok file /\ spawns = true.

(** The context that the request leaves behind. *)
Definition load_context (ld : FileLoad) (q : HttpRequest) (meta : Metadata) (path : string) (c : GatewayContext)
    : GatewayContext :=
  match modified meta with
  | Some lm => set_cache_args (Some (load_path ld q, default "text/plain" (mime_guess path), lm)) c
  | None => c
  end.

Lemma load_request_disk fuel fs now ld q cache c :
  misses now ld q cache -> load_request fuel fs now ld q cache c = load_from_disk fuel fs ld q c.
Proof.
  intros Hm. unfold load_request, misses in *. destruct (has_cache (options ld)); [by rewrite Hm|done].
Qed.

Definition file_response (path : string) : HttpResponse :=
  header "content-type" (default "text/plain" (mime_guess path)) fresh.

Lemma file_response_body path : resp_body (file_response path) = Some (mkRespBody false (channel 2) None).
Proof. unfold file_response. by rewrite header_body. Qed.

Lemma leave_fresh ms r b :
  resp_body r = Some b -> exists b', resp_body (leave ms r) = Some b' /\ buf b' = buf b /\
    to_come (consumer b') = to_come (consumer b) ++ ms /\ own_sender (consumer b') = own_sender (consumer b).
Proof.
  intros E. unfold leave. rewrite E. eexists. split; [done|]. cbn. split_and!; [done| |done].
  unfold to_come. cbn. by rewrite app_assoc.
Qed.

Lemma leave_other ms r : headers (leave ms r) = headers r /\ start (leave ms r) = start r /\ is_stream (leave ms r) = is_stream r.
Proof. unfold leave. by destruct (resp_body r). Qed.

Lemma header_get_header_ne key value k r :
  key <> "" -> str_all name_char key = true -> key <> k ->
  header_get k (headers (header key value r)) = header_get k (headers r).
Proof.
  intros Hk Hl Hne. unfold header. rewrite header_name_lower by done. destruct (header_value value); [|done].
  by apply header_get_snoc_ne.
Qed.

Lemma file_response_etag path : header_get "etag" (headers (file_response path)) = None.
Proof. unfold file_response. by rewrite header_get_header_ne. Qed.

(** A file that is sent whole. *)
Lemma load_request_whole fuel fs now ld q cache c meta path size file :
  misses now ld q cache -> has_file fs ld q meta path size file ->
  match min_block_size ld with Some min => (size < min)%Z | None => True end ->
  load_request fuel fs now ld q cache c =
    Done (load_context ld q meta path c, Finish q (leave (file_msgs fs path) (file_response path))).
Proof.
  intros Hm (E1 & E2 & E3 & E4) Hmin. rewrite load_request_disk by done. unfold load_from_disk. rewrite E1, E2.
  fold (file_response path). fold (load_context ld q meta path c). unfold async_load_file. rewrite E4.
  destruct (min_block_size ld); [|done]. by rewrite (proj2 (Z.leb_gt _ _)) by lia.
Qed.

(** The response once the body is there, before it goes to the cache. *)
Definition loaded (r : HttpResponse) (b : RespBody) (data : list Z) : HttpResponse :=
  let r := set_body (Some b) r in if bool_decide (0 < length data) then r else status 404 r.

Lemma loaded_headers r b data : headers (loaded r b data) = headers r.
Proof. unfold loaded, status. by repeat case_match. Qed.

Lemma load_response_whole now ld q r b cache c data :
  resp_body r = Some b -> buf b = None -> to_come (consumer b) = [Some (0%Z, data); None] ->
  exists b', buf b' = Some data /\
    load_response now ld q r cache c =
      Done (let '(cache, r) := store_file now (options ld) false Some (loaded r b' data) cache c in
            (cache, ContinueResponse q r)).
Proof.
  intros Hb Hbuf Hc. destruct (collect_body_ends b [(0%Z, data)] [] Hbuf Hc) as (b' & E & Eb & _).
  cbn in Eb. rewrite app_nil_r in Eb. exists b'. split; [done|]. unfold load_response. rewrite Hb, Hbuf, E. cbn [mbind outcome_bind].
  unfold body_len, loaded. rewrite Eb. cbn. by case_bool_decide.
Qed.

Lemma store_file_keeps now o full announce r cache c :
  resp_body (store_file now o full announce r cache c).2 = resp_body r /\
  start (store_file now o full announce r cache c).2 = start r.
Proof. unfold store_file. by repeat case_match. Qed.

(** A file that is not in the cache and smaller than the least size of blocks is
    answered with its content, in the two passes of the middleware: the status is 200,
    but 404 for a file that is there and empty. *)
Theorem file_served fuel fs now now' ld q cache c meta path size file data
    (Hm : misses now ld q cache) (Hf : has_file fs ld q meta path size file)
    (Hmin : match min_block_size ld with Some min => (size < min)%Z | None => True end)
    (Hr : read_at file 0 (Z.to_nat (get_size file)) = Ok data) :
  exists r, load_request fuel fs now ld q cache c = Done (load_context ld q meta path c, Finish q r) /\
  exists cache' r' b, load_response now' ld q r cache (load_context ld q meta path c) = Done (cache', ContinueResponse q r') /\
    resp_body r' = Some b /\ buf b = Some data /\ start r' = Some (if bool_decide (data = []) then 404 else 200)%Z.
Proof.
  eexists. split; [by eapply load_request_whole|].
  destruct (leave_fresh (file_msgs fs path) _ _ (file_response_body path)) as (b & Hb & Hbuf & Hc & _).
  assert (file_msgs fs path = [Some (0%Z, data); None]) as Em by (unfold file_msgs; destruct Hf as (_ & _ & -> & _); by rewrite Hr).
  rewrite Em in Hc. cbn in Hc.
  edestruct (load_response_whole now' ld q) as (b' & Eb & ->); [exact Hb|exact Hbuf|exact Hc|].
  destruct (store_file _ _ _ _ _ _ _) as [cache' r'] eqn:E. eexists cache', r', b'. split; [done|].
  match type of E with store_file ?a ?b ?c ?d ?e ?f ?g = _ => destruct (store_file_keeps a b c d e f g) as [E1 E2] end.
  rewrite E in E1, E2. cbn [snd] in E1, E2. rewrite E1, E2. unfold loaded.
  destruct (leave_other (file_msgs fs path) (file_response path)) as (_ & Es & _).
  assert (start (file_response path) = Some 200%Z) as E200 by (unfold file_response; by rewrite header_start).
  destruct data as [|z data].
  - rewrite bool_decide_false by (cbn; lia). rewrite status_body. split_and!; [done..|]. unfold status. cbn. by rewrite Es, E200.
  - rewrite bool_decide_true by (cbn; lia). split_and!; [done..|]. cbn. by rewrite Es, E200.
Qed.

(** ** The entity tag of a file that was served *)

(** The condition of a request on the entity tag is its only one. *)
Definition only_condition (name : string) (etag : HeaderValue) (q : HttpRequest) : Prop :=
  (name = "if-none-match" \/ name = "if-match") /\ header_get name (req_headers q) = Some etag /\
  forall k, k = "if-none-match" \/ k = "if-match" \/ k = "if-modified-since" \/ k = "if-unmodified-since" ->
    k <> name -> header_get k (req_headers q) = None.

Lemma request_cache_own_etag name q t key cache res hit :
  StaticCache.cache cache !! cache_key None key = Some res -> (0 <= res_sign res < 2 ^ 64)%Z -> (t < res_timeout res)%Z ->
  only_condition name (header_of (to_dec (res_sign res))) q ->
  request_cache (Some t) key q cache hit = Done (Some (Break (status 304 fresh))).
Proof.
  intros Hc Hs Ht ([-> | ->] & Hn & Ho); unfold request_cache.
  - assert (req_is_unmodified parse_http_date (Some t) None key (req_headers q) cache = Ok None) as ->.
    { unfold req_is_unmodified, since_header, match_header. by rewrite !Ho by naive_solver. }
    rewrite (own_etag_not_modified _ _ _ _ _ _ _ Hc Hs) by (try apply Ho; naive_solver).
    by rewrite (proj2 (Z.leb_gt _ _)).
  - rewrite (own_etag_unmodified _ _ _ _ _ _ _ Hc Hs) by (try apply Ho; naive_solver).
    by rewrite (proj2 (Z.leb_gt _ _)).
Qed.

Lemma cache_headers_etag o store age lm sign r :
  header_get "etag" (headers r) = None ->
  header_get "etag" (headers (cache_headers o store age lm sign r)) = Some (header_of (to_dec sign)).
Proof.
  intros Hr. unfold cache_headers, set_cache_resp_headers, header_append. cbn [headers set_headers].
  apply header_get_snoc_eq. by destruct lm; rewrite ?header_get_snoc_ne by done.
Qed.

(** What the end of [response] does when the file fits into the cache. *)
Lemma store_file_stores n o full announce r cache c b data key mime lm timeout :
  (forall v s, adler32 v = Some s -> (0 <= s < 2 ^ 32)%Z) ->
  has_cache o = true -> is_store o = true -> resp_body r = Some b -> buf b = Some data ->
  cache_args c = Some (key, mime, lm) -> fits data cache -> checked_add n (max_age o) = Some timeout ->
  header_get "etag" (headers r) = None ->
  exists cache' r' sign, store_file (Some n) o full announce r cache c = (cache', r') /\ (0 <= sign < 2 ^ 64)%Z /\
    resp_body r' = resp_body r /\ header_get "etag" (headers r') = Some (header_of (to_dec sign)) /\
    StaticCache.cache cache' !! cache_key None key = Some (mkResource timeout lm mime sign data).
Proof.
  intros Ha Ho1 Ho2 Hb Hbuf Hc Hfit Ht He. unfold store_file. rewrite Hb. cbn [mbind option_bind]. rewrite Hbuf, Hc, Ho1, Ho2. cbn [andb].
  destruct (insert_fits adler32 (fun t => as_bytes (fmt_http_date t)) n None (max_age o) lm mime full key data cache timeout)
    as (cache' & old & -> & Ec & _); [done..|].
  eexists _, _, _. split; [done|]. split; [by apply signature_u64|]. split; [done|].
  split; [by apply cache_headers_etag|]. by rewrite Ec, lookup_insert_eq.
Qed.

(** When the file service stores what it serves, the response announces an entity tag;
    until the entry expires, a request for the same file with this tag in If-None-Match is
    answered with 304 and without a body, and without a look at the disk; and so is one
    with the tag in If-Match, which asks for the opposite. *)
Theorem served_then_not_modified fuel fs now n ld q cache c meta path size file data lm timeout
    (Ha : forall v s, adler32 v = Some s -> (0 <= s < 2 ^ 32)%Z)
    (Hm : misses now ld q cache) (Hf : has_file fs ld q meta path size file)
    (Hmin : match min_block_size ld with Some min => (size < min)%Z | None => True end)
    (Hr : read_at file 0 (Z.to_nat (get_size file)) = Ok data) (Hlm : modified meta = Some lm)
    (Hc : has_cache (options ld) = true) (Hst : is_store (options ld) = true)
    (Hfit : fits data cache) (Ht : checked_add n (max_age (options ld)) = Some timeout) :
  exists r cache' r' etag,
    load_request fuel fs now ld q cache c = Done (load_context ld q meta path c, Finish q r) /\
    load_response (Some n) ld q r cache (load_context ld q meta path c) = Done (cache', ContinueResponse q r') /\
    header_get "etag" (headers r') = Some etag /\
    forall name fuel' fs' t q' c', only_condition name etag q' -> load_path ld q' = load_path ld q -> (t < timeout)%Z ->
      load_request fuel' fs' (Some t) ld q' cache' c' = Done (c', Break (status 304 fresh)).
Proof.
  destruct (leave_fresh (file_msgs fs path) _ _ (file_response_body path)) as (b & Hb & Hbuf & Hcm & _).
  assert (file_msgs fs path = [Some (0%Z, data); None]) as Em by (unfold file_msgs; destruct Hf as (_ & _ & -> & _); by rewrite Hr).
  rewrite Em in Hcm. cbn in Hcm.
  destruct (load_response_whole (Some n) ld q _ b cache (load_context ld q meta path c) data Hb Hbuf Hcm) as (b' & Eb & El).
  set (r1 := loaded _ _ _) in *.
  assert (header_get "etag" (headers r1) = None) as He.
  { unfold r1. rewrite loaded_headers. destruct (leave_other (file_msgs fs path) (file_response path)) as (-> & _).
    apply file_response_etag. }
  assert (resp_body r1 = Some b') as Hb1 by (unfold r1, loaded; case_bool_decide; [done|by rewrite status_body]).
  assert (cache_args (load_context ld q meta path c) = Some (load_path ld q, default "text/plain" (mime_guess path), lm)) as Hca1
    by (unfold load_context; by rewrite Hlm).
  destruct (store_file_stores n (options ld) false Some r1 cache _ b' data _ _ _ timeout Ha Hc Hst Hb1 Eb Hca1 Hfit Ht He)
    as (cache' & r' & sign & Es & Hs & _ & Het & Hca).
  eexists _, cache', r', _. split; [by eapply load_request_whole|]. split.
  { rewrite El, Es. reflexivity. }
  split; [exact Het|]. intros name fuel' fs' t q' c' Hq Hp Hlt. unfold load_request. rewrite Hc, Hp.
  by rewrite (request_cache_own_etag name q' t _ _ _ _ Hca Hs Hlt Hq).
Qed.
End serve.

(** ** From the disk to the peer *)

Section streaming.
Context `{HttpLaws} `{FileRuntime} `{CacheApi} {F : Type} `{FileApi F}.
Context `{HeadParser} `{HeadApi} {S W Svc : Type} `{TL : TransportLaws S} `{FocusLaws S W} `{!HttpService Svc W}.

Lemma nonempty_parts (parts : list (list Z)) size :
  Forall (fun p => 0 < length p <= size) parts ->
  length parts <= length (concat parts) /\ Forall (fun e => e <> []) parts.
Proof.
  induction 1 as [|p parts Hp _ [IH1 IH2]]; [done|]. cbn [concat]. rewrite length_app. cbn. split; [lia|].
  constructor; [|done]. intros ->. cbn in Hp. lia.
Qed.

(** C17: A file that is not smaller than the least size of blocks is streamed: whatever
    number of bytes each read gives, when the connection runs a service that answers with
    the response of the request, the chunks that the peer is sent decode to the content of
    the file, and nothing is left over. *)
Theorem file_streamed fuel fs now ld q cache c meta path size file data min
    (Hm : misses now ld q cache) (Hf : has_file fs ld q meta path size file)
    (Hmin : min_block_size ld = Some min) (Hs : (min <= size)%Z) (Hb : 0 < block_size ld min)
    (Hr : reads file data) (Hfuel : length data < fuel) :
  exists r, load_request fuel fs now ld q cache c = Done (load_context ld q meta path c, Break r) /\
  forall fuel' (h : HttpConnect (Svc := Svc)) (w : W) svc w1,
    svc_call (service h) q (update_timeout (keep_alive h) w) = Done (svc, w1, Ok r) -> open w1 -> length data < fuel' ->
    exists w' bufs, run_service fuel' q h w = Done (mkHttpConnect svc (keep_alive h), w') /\
      wire w' = wire w1 ++ head_bytes r :: bufs /\ dechunk (length data + 1) (concat bufs) = Some (data, []).
Proof.
  rewrite load_request_disk by done. unfold load_from_disk. destruct Hf as (E1 & E2 & E3 & E4). rewrite E1, E2, Hmin.
  rewrite (proj2 (Z.leb_le _ _) Hs). fold (file_response path). fold (load_context ld q meta path c).
  unfold async_load_file_chunks. rewrite E4, E3.
  destruct (chunk_msgs_spec fuel file data 0 (block_size ld min)) as (parts & -> & Ec & Hp); [done|done|lia|lia|].
  rewrite drop_0 in Ec. destruct (nonempty_parts parts _ Hp) as [Hlen Hne]. rewrite Ec in Hlen. cbn [mbind outcome_bind].
  set (ms := _ ++ [None]). eexists. split; [done|]. intros fuel' h w svc w1 Hcall Ho Hfuel'.
  assert (resp_body (enable_stream (file_response path)) = Some (mkRespBody false (channel 2) None)) as Hb0
    by (unfold enable_stream; cbn; by rewrite header_body, file_response_body).
  destruct (leave_fresh ms _ _ Hb0) as (b & Hb1 & Hbuf & Hcm & _). cbn in Hcm.
  destruct (run_service_streams fuel' q h w svc w1 _ b (pair 0%Z <$> parts) parts Hcall Ho) as (w' & E & _ & Ew); try done.
  - by rewrite (proj2 (proj2 (leave_other _ _))).
  - apply Forall2_fmap_l. apply Forall_Forall2_diag. apply Forall_true. intros p. unfold leave. rewrite Hb0. cbn.
    unfold file_response, header. by repeat case_match.
  - rewrite length_fmap. lia.
  - exists w', ((chunk <$> parts) ++ [END_CHUNK]). split; [exact E|]. split; [exact Ew|].
    change END_CHUNK with (chunk []). rewrite concat_app.
    replace (length data + 1) with (length parts + Datatypes.S (length data - length parts)) by lia.
    rewrite <-Ec at 2. exact (dechunk_chunks _ parts [] Hne).
Qed.
End streaming.
