(* ===== verification/FilesLoad.v ===== *)
(** * Loading many files (http/src/files_load.rs, batch_load.rs)

    The two middlewares that answer with many files in one body: those of the directories
    that the parameter [d] names and those that [f] names. Each file is read by a task of
    its own; the tasks are interleaved by a schedule. [BatchLoad] differs by the root, which
    the request can extend, and by the head that it writes before each file. *)

From Stdlib Require Import Ascii.
From S2P Require Import Prelude ByteSource HttpText ByteSearch HttpMessage HttpMiddleware StaticCache FilePath FileNames FileLoad.

#[local] Open Scope string_scope.
#[local] Open Scope list_scope.

(** [std::fs::DirEntry]: the name, whether it is a directory, the length. *)
Record DirEntry := mkDirEntry { entry_name : string; entry_is_dir : io_result bool; entry_len : io_result Z }.

Class DirApi (F : Type) := {
  read_dir : F -> string -> io_result (list (io_result DirEntry));
}.

Section disk.
Context {F : Type} `{FileApi F} `{DirApi F}.

Definition exists_path (fs : F) (p : string) : bool := is_ok (metadata fs p).
Definition path_is_file (fs : F) (p : string) : bool :=
  match metadata fs p with Ok m => is_file m | Err _ => false end.
Definition path_is_dir (fs : F) (p : string) : bool :=
  match metadata fs p with Ok m => is_dir m | Err _ => false end.

(** [Path::extension] of a file name: what is behind the last dot, unless that is its
    first character. *)
Definition extension (name : string) : option string :=
  match rev (split_on "."%char name) with
  | ext :: (_ :: _) as front => if bool_decide (front = [ext; ""]) then None else Some ext
  | _ => None
  end.

(** [filter_file] *)
Definition filter_file (suffix : option string) (dir : string) (entry : DirEntry) : list (Z * string) :=
  let found := [(match entry_len entry with Ok len => len | Err _ => 0%Z end, path_push dir (entry_name entry))] in
  match suffix with
  | None => found
  | Some s0 =>
      match extension (entry_name entry) with
      | Some s1 => if bool_decide (s0 = s1) then found else []
      | None =>
          match split_on "."%char (entry_name entry) with
          | _ :: v1 :: _ => if bool_decide (s0 = v1) then found else []
          | _ => []
          end
      end
  end.

(** [disk_files], as the files it adds; [fuel] is the depth of directories. The result of
    the call for a directory inside is ignored. *)
Fixpoint disk_files (fuel : nat) (fs : F) (suffix : option string) (path : string)
    : outcome (list (Z * string) * io_result unit) :=
  match fuel with
  | O => NoFuel
  | S fuel =>
      if negb (exists_path fs path) then Done ([], Err NotFound)
      else
        match read_dir fs path with
        | Err _ => Done ([], Err Other)
        | Ok dirs =>
            let fix entries (dirs : list (io_result DirEntry)) : outcome (list (Z * string)) :=
              match dirs with
              | [] => Done []
              | Ok entry :: dirs =>
                  found ← match entry_is_dir entry with
                          | Ok true =>
                              '(found, _) ← disk_files fuel fs suffix (path_push path (entry_name entry));
                              Done found
                          | Ok false => Done (filter_file suffix path entry)
                          | Err _ => Done []
                          end;
                  rest ← entries dirs;
                  Done (found ++ rest)
              | Err _ :: dirs => entries dirs
              end in
            found ← entries dirs;
            Done (found, Ok tt)
        end
  end.

(** The order of the files of a directory. *)
Definition slash (c : ascii) : ascii := if bool_decide (c = "\"%char) then "/"%char else c.
Fixpoint slashes (s : string) : string :=
  match s with EmptyString => EmptyString | String c s => String (slash c) (slashes s) end.
Definition path_le (a b : Z * string) : Prop := String.leb (slashes a.2) (slashes b.2) = true.
#[local] Instance path_le_dec : RelDecision path_le := fun a b => decide (String.leb (slashes a.2) (slashes b.2) = true).

(** The files of one name of [decode_dir], before they are sorted. *)
Definition dir_files (fuel : nat) (fs : F) (root dir : string) : outcome (list (Z * string) * io_result unit) :=
  let path := path_push root dir in
  if negb (path_is_file fs path) && negb (path_is_dir fs path) then
    match file_name path ≫= (fun s => match split_on "."%char s with v0 :: v1 :: _ => Some (v0, v1) | _ => None end) with
    | Some (v0, v1) => up ← lift (parent path); disk_files fuel fs (Some v1) (path_push up v0)
    | None => up ← lift (parent path); disk_files fuel fs None up
    end
  else disk_files fuel fs None path.

(** [decode_dir] *)
Fixpoint decode_dir (fuel : nat) (fs : F) (dirs : list string) (root : string)
    : outcome (list (Z * string) * io_result unit) :=
  match dirs with
  | [] => Done ([], Ok tt)
  | dir :: dirs =>
      found ← dir_files fuel fs root dir;
      match found with
      | (l, Err e) => Done (l, Err e)
      | (l, Ok _) => '(rest, res) ← decode_dir fuel fs dirs root; Done (merge_sort path_le l ++ rest, res)
      end
  end.

(** The files of the parameter [f]. *)
Definition named_files (fs : F) (root : string) (files : list string) : list (Z * string) :=
  (fun file => let path := path_push root file in
               (match metadata fs path with Ok m => meta_len m | Err _ => 0%Z end, path)) <$> files.

(** ** The tasks that read the files *)

(** Reading its file; having sent this many bytes; ending the body; done. *)
Inductive task := Reading (path : string) | Written (n : Z) | Ending | Gone.

(** The shared counter of the bytes that are not loaded, what was sent, and the tasks by
    the index of their file. *)
Record Loading := mkLoading { unload : Z; sent : list (option part); tasks : list task }.

(** What a file is sent as; [None] is a panic of its task. *)
Variable encode : string -> list Z -> option (list Z).

(** The next step of the task [i]. *)
Definition task_step (fs : F) (l : Loading) (i : nat) : Loading :=
  match tasks l !! i with
  | Some (Reading path) =>
      match (file ← open_file fs path; read_at file 0 (Z.to_nat (get_size file))) with
      | Ok bin =>
          match encode path bin with
          | Some part => mkLoading (unload l) (sent l ++ [Some (Z.of_nat i, part)]) (<[i := Written (value_len part)]> (tasks l))
          | None => mkLoading (unload l) (sent l) (<[i := Gone]> (tasks l))
          end
      | Err _ => mkLoading (unload l) (sent l ++ [None]) (<[i := Gone]> (tasks l))
      end
  | Some (Written n) =>
      mkLoading (wrap64 (unload l - n)) (sent l) (<[i := if bool_decide (unload l = n) then Ending else Gone]> (tasks l))
  | Some Ending => mkLoading (unload l) (sent l ++ [None]) (<[i := Gone]> (tasks l))
  | _ => l
  end.

Definition run_tasks (fs : F) (schedule : list nat) (l : Loading) : Loading := foldl (task_step fs) l schedule.

Definition all_gone (l : Loading) : bool := forallb (fun t => match t with Gone => true | _ => false end) (tasks l).

(** [async_load_files]: a task for each file that is not empty. *)
Definition start_tasks `{FileRuntime} (total : Z) (files : list (Z * string)) : Loading :=
  mkLoading total [] ((fun file => if spawns then Reading file.2 else Gone) <$> filter (fun file => file.1 <> 0%Z) files).

Definition async_load_files `{FileRuntime} (fs : F) (schedule : list nat) (total : Z) (files : list (Z * string))
    (r : HttpResponse) : HttpResponse * (Z * nat) :=
  let l := start_tasks total files in
  (leave (sent (run_tasks fs schedule l)) r, (total, length (tasks l))).
End disk.

(** The body in the order of the indices. *)
Definition part_le (a b : part) : Prop := (a.1 <= b.1)%Z.
#[export] Instance part_le_dec : RelDecision part_le := fun a b => Z_le_dec a.1 b.1.

(** ** The middlewares *)

Section middleware.
Context `{HttpApi} `{FileRuntime} `{CacheApi} {F : Type} `{FileApi F} `{DirApi F}.

(** [FilesLoad] and [BatchLoad] have the same fields. *)
Record FilesLoad := mkFilesLoad { files_root : string; files_options : CacheOptions }.

Definition new_files_load (dir : string) (o : CacheOptions) : FilesLoad := mkFilesLoad (trim_path dir) o.

Definition DEFAULT_CONTENT_DISPOSITION : string := "attachment;filename=files".
Definition BATCH_CONTENT_DISPOSITION : string := "attachment;filename=batch".

(** A parameter of the request that is a text. *)
Definition text_param (k : string) (c : GatewayContext) : string :=
  match params c !! k with Some (SStr s) => s | _ => "" end.

(** The key of the files in the cache. *)
Definition files_id (c : GatewayContext) : string := text_param "d" c +:+ "&" +:+ text_param "f" c.

(** What differs between the two: the root of a request, the total of the sizes, how a
    file is sent, the name of the attachment. *)
Record ManyFiles := mkManyFiles {
  root_of : FilesLoad -> GatewayContext -> string;
  total_of : string -> list (Z * string) -> Z;
  encode_file : string -> string -> list Z -> option (list Z);
  disposition : string;
}.

Definition file_headers (m : ManyFiles) (mime : string) (r : HttpResponse) : HttpResponse :=
  header "content-type" mime (header "content-disposition" (disposition m) r).

(** All files that the parameters name. *)
Definition select_files (fuel : nat) (fs : F) (root : string) (c : GatewayContext)
    : outcome (io_result (list (Z * string))) :=
  match decode (text_param "d" c) "" [] [] with
  | None => Done (Err NotFound)
  | Some dirs =>
      '(dir_vec, res) ← decode_dir fuel fs dirs root;
      match res with
      | Err e => Done (Err e)
      | Ok _ =>
          match decode (text_param "f" c) "" [] [] with
          | None => Done (Err NotFound)
          | Some files => Done (Ok (dir_vec ++ named_files fs root files))
          end
      end
  end.

(** [FilesLoad::request], [BatchLoad::request]; [time] is [SystemTime::now]. *)
Definition many_request (m : ManyFiles) (fuel : nat) (schedule : list nat) (fs : F) (time : Z) (ld : FilesLoad)
    (q : HttpRequest) (cache : StaticCache) (c : GatewayContext) : outcome (GatewayContext * MiddlewareResult) :=
  let o := files_options ld in
  let root := root_of m ld c in
  res ← if has_cache o then
          request_cache (since_epoch time) (files_id c) q cache (fun store age last_modified mime sign =>
            file_headers m mime (cache_headers o store age None sign fresh))
        else Done None;
  match res with
  | Some res => Done (c, res)
  | None =>
      files ← select_files fuel fs root c;
      match files with
      | Err e => Done (c, Throw e)
      | Ok files =>
          r ← lift (new_resp (length files + 1));
          let '(r, (size, len)) := async_load_files (encode_file m root) fs schedule (total_of m root files) files r in
          Done (set_files_len len (set_files_size size
                  (set_cache_args (Some (files_id c, "application/octet-stream", time)) c)), Finish q r)
      end
  end.

(** The loop of [response]. *)
Fixpoint collect_indexed (fuel : nat) (body_buf : list part) (b : RespBody)
    : outcome (RespBody * io_result (list part)) :=
  match fuel with
  | O => NoFuel
  | S fuel =>
      '(b, res) ← body_parts b;
      match res with
      | RecvErr e => Done (b, Err e)
      | RecvOk bodys => collect_indexed fuel (body_buf ++ bodys) b
      | RecvFin bodys => Done (b, Ok (body_buf ++ bodys))
      end
  end.

Definition loaded_size (parts : list part) : Z := foldl (fun n p => n + value_len p.2)%Z 0%Z parts.

(** [FilesLoad::response], [BatchLoad::response] *)
Definition many_response (m : ManyFiles) (now : option Z) (ld : FilesLoad) (q : HttpRequest) (r : HttpResponse)
    (cache : StaticCache) (c : GatewayContext) : outcome (StaticCache * MiddlewareResult) :=
  let finish r :=
    let '(cache, r) :=
      match cache_args c with
      | Some (_, mime, _) => store_file now (files_options ld) true (fun _ => None) (file_headers m mime r) cache c
      | None => (cache, r)
      end in
    (cache, ContinueResponse q r) in
  match resp_body r with
  | None => Done (finish r)
  | Some b =>
      match buf b with
      | Some _ => Done (cache, ContinueResponse q r)
      | None =>
          if bool_decide (files_len c = 0) then
            Done (cache, Break (header "content-length" "0" (status 404 r)))
          else
            '(b, res) ← collect_indexed 2 [] b;
            match res with
            | Err e => Done (cache, Throw e)
            | Ok parts =>
                if bool_decide (length parts < files_len c) then Done (cache, Throw Other)
                else if bool_decide (loaded_size parts <> files_size c) then Done (cache, Throw Other)
                else
                  let b := foldl (fun b p => push p.2 b) (init b).1 (merge_sort part_le parts) in
                  Done (finish (set_body (Some b) r))
            end
      end
  end.

Definition many_middleware {W : Type} `{Focus GatewayContext W, Focus StaticCache W, Focus F W, Clock W}
    (m : ManyFiles) (fuel : nat) (schedule : list nat) (ld : FilesLoad) : Middleware W := {|
  mw_request q w :=
    '(c, res) ← many_request m fuel schedule (focus_get w) (clock w) ld q (focus_get w) (focus_get w);
    Done (focus_put (c : GatewayContext) w, res);
  mw_response q r w :=
    '(c, res) ← many_response m (since_epoch (clock w)) ld q r (focus_get w) (focus_get w);
    Done (focus_put (c : StaticCache) w, res) |}.

(** ** FilesLoad *)

Definition sum_sizes (files : list (Z * string)) : Z := foldl (fun n file => wrap64 (n + file.1)) 0%Z files.

Definition files_load : ManyFiles := mkManyFiles (fun ld _ => files_root ld) (fun _ => sum_sizes) (fun _ _ bin => Some bin)
  DEFAULT_CONTENT_DISPOSITION.

(** ** BatchLoad *)

(** The parameter [r] extends the root. *)
Definition batch_root (ld : FilesLoad) (c : GatewayContext) : string :=
  let rp := match params c !! "r" with Some (SStr r) => path_push (path_push "" (files_root ld)) r | _ => "" end in
  if bool_decide (rp = "") then files_root ld else rp.

Definition path_len (p : string) : Z := Z.of_nat (String.length p).

(** The length of a path without the root: a subtraction of machine words. *)
Definition rel_len (root_len : Z) (p : string) : Z := wrap64 (path_len p - root_len).

Definition batch_total (root : string) (files : list (Z * string)) : Z :=
  let root_len := (path_len root + 1)%Z in
  foldl (fun n file => if (file.1 =? 0)%Z then n else wrap64 (n + (wrap64 (6 + rel_len root_len file.2) + file.1)))
    0%Z files.

(** [put_u16_le], [put_u32_le] *)
Definition put_u16_le (n : Z) : list Z := [n mod 256; (n / 256) mod 256]%Z.
Definition put_u32_le (n : Z) : list Z := [n mod 256; (n / 256) mod 256; (n / 65536) mod 256; (n / 16777216) mod 256]%Z.

(** The head of a file is its path without the root, and its size. A slice that begins
    behind the path is a panic. *)
Definition batch_part (root p : string) (bin : list Z) : option (list Z) :=
  let root_len := (path_len root + 1)%Z in
  if (path_len p <? root_len)%Z then None
  else Some (put_u16_le (path_len p - root_len) ++ as_bytes (str_drop (Z.to_nat root_len) p) ++
             put_u32_le (value_len bin) ++ bin).

Definition batch_load : ManyFiles := mkManyFiles batch_root batch_total batch_part BATCH_CONTENT_DISPOSITION.

(** [BatchLoad::request] and [BatchLoad::response] *)
Definition batch_request := many_request batch_load.
Definition batch_response := many_response batch_load.
End middleware.

(** ** Every schedule of the tasks *)

Section tasks.
Context {F : Type} `{FileApi F} (encode : string -> list Z -> option (list Z)) (fs : F).

(** A file and what it is sent as. *)
Definition reads_as (w : string * list Z) : Prop :=
  exists bin, (file ← open_file fs w.1; read_at file 0 (Z.to_nat (get_size file))) = Ok bin /\
    encode w.1 bin = Some w.2 /\ w.2 <> [].

Definition task_of (w : string * list Z) (t : task) : Prop :=
  t = Reading w.1 \/ t = Written (value_len w.2) \/ t = Ending \/ t = Gone.

Abbreviation item := (nat * ((string * list Z) * task))%type.

Definition items (works : list (string * list Z)) (ts : list task) : list item := imap pair (zip works ts).

Lemma Forall2_insert_r' {A B} (P : A -> B -> Prop) l k i x y :
  Forall2 P l k -> l !! i = Some x -> P x y -> Forall2 P l (<[i := y]> k).
Proof.
  intros Hl Hi Hy. rewrite <-(list_insert_id l i x) by done. by apply Forall2_insert.
Qed.

(** What an item sent, what it still counts for, whether it will end the body. *)
Definition entry (x : item) : option part :=
  match x.2.2 with Reading _ => None | _ => Some (Z.of_nat x.1, x.2.1.2) end.
Definition pending (x : item) : Z :=
  match x.2.2 with Ending | Gone => 0 | _ => value_len x.2.1.2 end.
Definition ending (x : item) : Z := match x.2.2 with Ending => 1 | _ => 0 end.

Definition sumZ {A} (f : A -> Z) (l : list A) : Z := foldr (fun x n => f x + n)%Z 0%Z l.

#[global] Instance sumZ_proper {A} (f : A -> Z) : Proper ((≡ₚ) ==> (=)) (sumZ f).
Proof. intros l1 l2 Hl. unfold sumZ. induction Hl; cbn; lia. Qed.

Lemma sumZ_cons {A} (f : A -> Z) x l : sumZ f (x :: l) = (f x + sumZ f l)%Z.
Proof. done. Qed.

Lemma sumZ_nonneg {A} (f : A -> Z) l : (forall x, 0 <= f x)%Z -> (0 <= sumZ f l)%Z.
Proof. intros Hf. unfold sumZ. induction l as [|x l IH]; cbn; [lia|]. specialize (Hf x). lia. Qed.

Lemma pending_nonneg x : (0 <= pending x)%Z.
Proof. unfold pending, value_len. case_match; lia. Qed.
Lemma ending_nonneg x : (0 <= ending x)%Z.
Proof. unfold ending. case_match; lia. Qed.

Lemma items_step works ts i w t :
  works !! i = Some w -> ts !! i = Some t ->
  exists rest, items works ts ≡ₚ (i, (w, t)) :: rest /\
    forall t', items works (<[i := t']> ts) ≡ₚ (i, (w, t')) :: rest.
Proof.
  intros Hw Ht. exists (take i (items works ts) ++ drop (S i) (items works ts)).
  assert (items works ts !! i = Some (i, (w, t))) as Hi.
  { unfold items. rewrite list_lookup_imap, lookup_zip_with, Hw. cbn. by rewrite Ht. }
  split.
  - rewrite <-(take_drop_middle _ _ _ Hi) at 1. by rewrite Permutation_middle.
  - intros t'. assert (items works (<[i:=t']> ts) = <[i:=(i, (w, t'))]> (items works ts)) as ->.
    { apply list_eq. intros j. unfold items. rewrite list_lookup_imap, lookup_zip_with.
      destruct (decide (j = i)) as [->|Hj].
      - rewrite list_lookup_insert_eq by by eapply lookup_lt_Some. rewrite Hw.
        rewrite list_lookup_insert_eq; [done|]. by eapply lookup_lt_Some, Hi.
      - rewrite !list_lookup_insert_ne by done. by rewrite list_lookup_imap, lookup_zip_with. }
    rewrite insert_take_drop by (by eapply lookup_lt_Some). by rewrite Permutation_middle.
Qed.

(** What was sent is what the items that have been read give, in some order, and behind it
    the end of the body, when all items have been counted. *)
Record loading_inv (works : list (string * list Z)) (l : Loading) : Prop := {
  inv_tasks : Forall2 task_of works (tasks l);
  inv_unload : unload l = sumZ pending (items works (tasks l));
  inv_bound : (unload l < 2 ^ 64)%Z;
  inv_sent : exists ps k, sent l = (Some <$> ps) ++ repeat None k /\ ps ≡ₚ omap entry (items works (tasks l)) /\
    (Z.of_nat k + sumZ ending (items works (tasks l)) = if bool_decide (unload l = 0) then 1 else 0)%Z;
}.

Lemma value_len_pos (l : list Z) : l <> [] -> (0 < value_len l)%Z.
Proof. destruct l; [done|]. unfold value_len. cbn. lia. Qed.

Lemma read_step works l i w path :
  loading_inv works l -> works !! i = Some w -> tasks l !! i = Some (Reading path) -> reads_as w ->
  loading_inv works (task_step encode fs l i).
Proof.
  intros [Ht Hu Hb (ps & k & Hs & Hp & Hk)] Hw Hi (bin & Hr & He & Hne).
  assert (path = w.1) as -> by (pose proof (Forall2_lookup_lr _ _ _ _ _ _ Ht Hw Hi) as [?|[?|[?|?]]]; congruence).
  destruct (items_step works (tasks l) i w _ Hw Hi) as (rest & E1 & E2). specialize (E2 (Written (value_len w.2))).
  apply value_len_pos in Hne. pose proof (sumZ_nonneg pending rest pending_nonneg) as Hpr.
  pose proof (sumZ_nonneg ending rest ending_nonneg) as Her.
  rewrite E1 in Hu, Hp, Hk. rewrite sumZ_cons in Hu, Hk. cbn in Hu, Hp, Hk. rewrite bool_decide_false in Hk by lia.
  assert (k = 0) as -> by lia. unfold task_step. rewrite Hi, Hr, He. split; cbn [tasks unload sent].
  - eapply Forall2_insert_r'; [done..|]. by right; left.
  - by rewrite E2, sumZ_cons.
  - done.
  - exists (ps ++ [(Z.of_nat i, w.2)]), 0. rewrite E2, sumZ_cons. rewrite bool_decide_false by lia. cbn. split_and!; [|rewrite Hp; symmetry; apply Permutation_cons_append|lia].
    rewrite Hs, fmap_app. by rewrite !app_nil_r.
Qed.

Lemma count_step works l i w n :
  loading_inv works l -> works !! i = Some w -> tasks l !! i = Some (Written n) -> w.2 <> [] ->
  loading_inv works (task_step encode fs l i).
Proof.
  intros [Ht Hu Hb (ps & k & Hs & Hp & Hk)] Hw Hi Hne.
  assert (n = value_len w.2) as -> by (pose proof (Forall2_lookup_lr _ _ _ _ _ _ Ht Hw Hi) as [?|[?|[?|?]]]; congruence).
  destruct (items_step works (tasks l) i w _ Hw Hi) as (rest & E1 & E2).
  apply value_len_pos in Hne. pose proof (sumZ_nonneg pending rest pending_nonneg) as Hpr.
  pose proof (sumZ_nonneg ending rest ending_nonneg) as Her.
  rewrite E1 in Hu, Hp, Hk. rewrite sumZ_cons in Hu, Hk. cbn in Hu, Hp, Hk. rewrite bool_decide_false in Hk by lia.
  assert (k = 0) as -> by lia. unfold task_step. rewrite Hi. split; cbn [tasks unload sent].
  - eapply Forall2_insert_r'; [done..|]. case_bool_decide; unfold task_of; tauto.
  - rewrite E2, sumZ_cons. case_bool_decide; cbn; unfold wrap; rewrite Z.mod_small; lia.
  - unfold wrap. apply Z.mod_pos_bound. lia.
  - exists ps, 0. rewrite E2, sumZ_cons. split_and!; [done| |].
    + rewrite Hp. by case_bool_decide.
    + unfold wrap. rewrite Z.mod_small by lia. cbn. case_bool_decide as Hd; case_bool_decide; cbn; lia.
Qed.

Lemma end_step works l i w :
  loading_inv works l -> works !! i = Some w -> tasks l !! i = Some Ending ->
  loading_inv works (task_step encode fs l i).
Proof.
  intros [Ht Hu Hb (ps & k & Hs & Hp & Hk)] Hw Hi.
  destruct (items_step works (tasks l) i w _ Hw Hi) as (rest & E1 & E2). specialize (E2 Gone).
  pose proof (sumZ_nonneg ending rest ending_nonneg) as Her.
  rewrite E1 in Hu, Hp, Hk. rewrite sumZ_cons in Hu, Hk. cbn in Hu, Hp, Hk.
  assert (k = 0 /\ bool_decide (unload l = 0%Z) = true) as [-> Hd] by (case_bool_decide; split; (done || lia)). rewrite Hd in Hk.
  unfold task_step. rewrite Hi. split; cbn [tasks unload sent].
  - eapply Forall2_insert_r'; [done..|]. unfold task_of; tauto.
  - by rewrite E2, sumZ_cons.
  - done.
  - exists ps, 1. rewrite E2, sumZ_cons, Hd. cbn. split_and!; [|done|lia]. rewrite Hs. by rewrite <-app_assoc.
Qed.

Lemma task_step_inv works l i :
  Forall reads_as works -> loading_inv works l -> loading_inv works (task_step encode fs l i).
Proof.
  intros Hr Hl. destruct (tasks l !! i) as [t|] eqn:Hi; [|unfold task_step; by rewrite Hi].
  destruct (Forall2_lookup_r _ _ _ _ _ (inv_tasks _ _ Hl) Hi) as (w & Hw & _).
  pose proof (Forall_lookup_1 _ _ _ _ Hr Hw) as Hrw. destruct t as [path|n| |].
  - by eapply read_step.
  - eapply count_step; [done..|]. by destruct Hrw as (? & ? & ? & ?).
  - by eapply end_step.
  - unfold task_step. by rewrite Hi.
Qed.

Lemma run_tasks_inv works schedule l :
  Forall reads_as works -> loading_inv works l -> loading_inv works (run_tasks encode fs schedule l).
Proof.
  intros Hr. revert l. induction schedule as [|i schedule IH]; intros l Hl; [done|]. apply IH. by apply task_step_inv.
Qed.

(** The parts in the order of the files. *)
Definition indexed (works : list (string * list Z)) : list part := imap (fun i w => (Z.of_nat i, w.2)) works.

Definition total_len (works : list (string * list Z)) : Z := sumZ (fun w => value_len w.2) works.

Lemma sumZ_items (f : item -> Z) (g : (string * list Z) -> Z) works ts :
  length ts = length works -> (forall i w t, t ∈ ts -> f (i, (w, t)) = g w) -> sumZ f (items works ts) = sumZ g works.
Proof.
  unfold items. assert (forall k, length ts = length works -> (forall i w t, t ∈ ts -> f (i, (w, t)) = g w) ->
    sumZ f (imap (fun i => pair (k + i)) (zip works ts)) = sumZ g works) as Hk; [|intros; by apply (Hk 0)].
  revert ts. induction works as [|w works IH]; intros [|t ts] k Hl Hf; try done. cbn.
  rewrite Hf by apply list_elem_of_here. f_equal. rewrite (imap_ext _ (fun i => pair (Datatypes.S k + i))); [|intros; cbn; f_equal; lia].
  apply IH; [by injection Hl|]. intros. apply Hf. by apply list_elem_of_further.
Qed.

Lemma start_inv works :
  works <> [] -> Forall reads_as works -> (total_len works < 2 ^ 64)%Z ->
  loading_inv works (mkLoading (total_len works) [] ((fun w => Reading w.1) <$> works)).
Proof.
  intros Hne Hr Hb. split; cbn [tasks unload sent].
  - apply Forall2_fmap_r, Forall_Forall2_diag, Forall_true. intros w. by left.
  - symmetry. apply (sumZ_items _ _); [by rewrite length_fmap|].
    intros i w t (w' & -> & _)%list_elem_of_fmap. done.
  - done.
  - exists [], 0. split; [done|]. split.
    + unfold items. symmetry. clear. assert (forall k, omap entry (imap (fun i => pair (k + i)) (zip works ((fun w => Reading w.1) <$> works))) = []) as Hk.
      { induction works as [|w works IH]; intros k; [done|]. cbn. rewrite (imap_ext _ (fun i => pair (Datatypes.S k + i))); [apply IH|].
        intros; cbn; f_equal; lia. }
      apply Permutation_nil_r. exact (Hk 0).
    + rewrite bool_decide_false.
      * rewrite (sumZ_items _ (fun _ => 0%Z)); [|by rewrite length_fmap|].
        -- clear. cbn. induction works as [|w works IH]; [done|]. exact IH.
        -- intros i w t (w' & -> & _)%list_elem_of_fmap. done.
      * destruct works as [|w works]; [done|]. unfold total_len. rewrite sumZ_cons.
        apply Forall_cons in Hr as [(_ & _ & _ & Hw) _]. apply value_len_pos in Hw.
        assert (0 <= sumZ (fun w : string * list Z => value_len w.2) works)%Z by (apply sumZ_nonneg; intros; unfold value_len; lia).
        lia.
Qed.

(** When all tasks are done, all parts were sent, in some order, and then the end. *)
Lemma all_sent works l :
  loading_inv works l -> all_gone l = true ->
  exists ps, sent l = (Some <$> ps) ++ [None] /\ ps ≡ₚ indexed works.
Proof.
  intros [Ht Hu Hb (ps & k & Hs & Hp & Hk)] Hg.
  assert (forall t, t ∈ tasks l -> t = Gone) as Hall.
  { intros t Hin. unfold all_gone in Hg. rewrite forallb_forall in Hg. specialize (Hg t). rewrite <-list_elem_of_In in Hg.
    specialize (Hg Hin). by destruct t. }
  assert (length (tasks l) = length works) as Hlen by (symmetry; by eapply Forall2_length).
  rewrite (sumZ_items _ (fun _ => 0%Z)) in Hu by (try done; intros i w t ->%Hall; done).
  rewrite (sumZ_items _ (fun _ => 0%Z)) in Hk by (try done; intros i w t ->%Hall; done).
  assert (forall A (l : list A), sumZ (fun _ => 0%Z) l = 0%Z) as Hz by (clear; intros A l; induction l as [|x l IH]; [done|exact IH]).
  rewrite Hz in Hu, Hk. rewrite bool_decide_true in Hk by done. assert (k = 1) as -> by lia.
  exists ps. split; [exact Hs|]. rewrite Hp. clear -Hall Hlen. unfold items, indexed.
  assert (forall k, omap entry (imap (fun i => pair (k + i)) (zip works (tasks l))) = imap (fun i w => (Z.of_nat (k + i), w.2)) works) as Hk;
    [|exact (reflexive_eq _ _ (Hk 0))].
  revert Hall Hlen. generalize (tasks l). induction works as [|w works IH]; intros [|t ts] Hall Hlen k; try done.
  cbn. rewrite (Hall t) by apply list_elem_of_here. cbn. f_equal. rewrite (imap_ext _ (fun i => pair (Datatypes.S k + i))) by (intros; cbn; f_equal; lia).
  rewrite (imap_ext _ (fun i w => (Z.of_nat (Datatypes.S k + i), w.2))) by (intros; unfold compose; f_equal; lia).
  apply IH; [|by injection Hlen]. intros t' Ht'. apply Hall. by apply list_elem_of_further.
Qed.
End tasks.

#[export] Instance part_le_trans : Transitive part_le.
Proof. intros x y z. unfold part_le. lia. Qed.
#[export] Instance part_le_total : Total part_le.
Proof. intros x y. unfold part_le. lia. Qed.

Lemma indexed_from_sorted k (works : list (string * list Z)) :
  StronglySorted part_le (imap (fun i w => (Z.of_nat (k + i), w.2)) works) /\
  forall p, p ∈ imap (fun i w => (Z.of_nat (k + i), w.2)) works ->
    (Z.of_nat k <= p.1)%Z /\ exists w, works !! Z.to_nat (p.1 - Z.of_nat k) = Some w /\ p.2 = w.2.
Proof.
  revert k. induction works as [|w works IH]; intros k; [split; [constructor|by intros p ?%not_elem_of_nil]|].
  cbn. destruct (IH (Datatypes.S k)) as [Hs Hi].
  rewrite (imap_ext _ (fun i w => (Z.of_nat (Datatypes.S k + i), w.2))) by (intros; unfold compose; f_equal; lia).
  split.
  - constructor; [done|]. apply Forall_forall. intros p Hp. destruct (Hi p Hp) as [Hle _].
    unfold part_le. cbn. lia.
  - intros p [->|Hp]%elem_of_cons; cbn.
    + split; [lia|]. exists w. split; [|done]. by replace (Z.to_nat _) with 0 by lia.
    + destruct (Hi p Hp) as (Hle & w' & Hw' & E). split; [lia|]. exists w'. split; [|done].
      replace (Z.to_nat (p.1 - Z.of_nat k)) with (Datatypes.S (Z.to_nat (p.1 - Z.of_nat (Datatypes.S k)))) by lia. done.
Qed.

(** Sorting puts the parts back into the order of the files. *)
Lemma sort_indexed works ps : ps ≡ₚ indexed works -> merge_sort part_le ps = indexed works.
Proof.
  intros Hp. destruct (indexed_from_sorted 0 works) as [Hs Hi]. apply (StronglySorted_unique_strong part_le).
  - intros p1 p2 H1 H2 Hle1 Hle2. rewrite merge_sort_Permutation, Hp in H1.
    destruct (Hi p1 H1) as (_ & w1 & Hw1 & E1). destruct (Hi p2 H2) as (_ & w2 & Hw2 & E2).
    unfold part_le in *. destruct p1 as [i1 b1], p2 as [i2 b2]. cbn in *. assert (i1 = i2) as -> by lia.
    rewrite Hw1 in Hw2. congruence.
  - apply StronglySorted_merge_sort; apply _.
  - done.
  - by rewrite merge_sort_Permutation.
Qed.

(** ** Serving many files *)

(** The files that are not empty. *)
Abbreviation nonempty := (filter (fun file : Z * string => file.1 <> 0%Z)).

Section serving.
Context `{HttpLaws} `{FileRuntime} `{CacheApi} {F : Type} `{FileApi F} `{DirApi F}.

Definition many_misses (now : option Z) (ld : FilesLoad) (q : HttpRequest) (cache : StaticCache) (c : GatewayContext) : Prop :=
  has_cache (files_options ld) = true -> forall hit, request_cache now (files_id c) q cache hit = Done None.

(** The files that the request names and that are not empty, with what each is sent as;
    every task runs to its end. *)
Record serves (m : ManyFiles) (fuel : nat) (schedule : list nat) (fs : F) (ld : FilesLoad) (c : GatewayContext)
    (files : list (Z * string)) (works : list (string * list Z)) : Prop := {
  sv_select : select_files fuel fs (root_of m ld c) c = Done (Ok files);
  sv_room : (Z.of_nat (length files + 1) <= MAX_HTTP_RESP_BODY_BUFFER_LEN)%Z;
  sv_spawns : spawns = true;
  sv_works : (filter (fun file => file.1 <> 0%Z) files).*2 = works.*1;
  sv_reads : Forall (reads_as (encode_file m (root_of m ld c)) fs) works;
  sv_some : works <> [];
  sv_total : total_of m (root_of m ld c) files = total_len works;
  sv_bound : (total_len works < 2 ^ 64)%Z;
  sv_done : all_gone (run_tasks (encode_file m (root_of m ld c)) fs schedule
              (start_tasks (total_of m (root_of m ld c) files) files)) = true;
}.

Lemma start_tasks_works total files (works : list (string * list Z)) :
  spawns = true -> (filter (fun file => file.1 <> 0%Z) files).*2 = works.*1 ->
  start_tasks total files = mkLoading total [] ((fun w => Reading w.1) <$> works).
Proof.
  intros Hsp Hw. unfold start_tasks. rewrite Hsp. f_equal.
  transitivity (Reading <$> (filter (fun file : Z * string => file.1 <> 0%Z) files).*2); [by rewrite <-list_fmap_compose|].
  rewrite Hw. by rewrite <-list_fmap_compose.
Qed.

Lemma loaded_size_sum parts : loaded_size parts = sumZ (fun p => value_len p.2) parts.
Proof.
  unfold loaded_size. assert (forall n, foldl (fun n p => (n + value_len p.2)%Z) n parts = (n + sumZ (fun p => value_len p.2) parts)%Z) as Hn;
    [|by rewrite (Hn 0%Z)].
  induction parts as [|p parts IH]; intros n; cbn; [lia|]. rewrite IH. unfold sumZ. lia.
Qed.

Lemma loaded_size_indexed ps works : ps ≡ₚ indexed works -> loaded_size ps = total_len works.
Proof.
  intros Hp. rewrite loaded_size_sum, Hp. unfold indexed, total_len.
  assert (forall k, sumZ (fun p : part => value_len p.2) (imap (fun i w => (Z.of_nat (k + i), w.2)) works) =
    sumZ (fun w : string * list Z => value_len w.2) works) as Hk; [|exact (Hk 0)].
  clear. induction works as [|w works IH]; intros k; [done|]. cbn. unfold sumZ in *. cbn. f_equal.
  rewrite (imap_ext _ (fun i w => (Z.of_nat (Datatypes.S k + i), w.2))) by (intros; unfold compose; f_equal; lia). apply IH.
Qed.

Lemma indexed_contents works : (indexed works).*2 = works.*2.
Proof.
  unfold indexed. assert (forall k, (imap (fun i w => (Z.of_nat (k + i), w.2)) works).*2 = works.*2) as Hk; [|exact (Hk 0)].
  induction works as [|w works IH]; intros k; [done|]. cbn. f_equal.
  rewrite (imap_ext _ (fun i w => (Z.of_nat (Datatypes.S k + i), w.2))) by (intros; unfold compose; f_equal; lia). apply IH.
Qed.

Lemma collect_indexed_ends b parts :
  buf b = None -> to_come (consumer b) = (Some <$> parts) ++ [None] ->
  exists b', collect_indexed 2 [] b = Done (b', Ok parts) /\ buf b' = None.
Proof.
  intros Ef Hm. cbn [collect_indexed]. unfold body_parts. rewrite Ef. destruct (recv_ends _ _ _ Hm) as (c' & -> & _).
  cbn. by eexists.
Qed.

(** What the tasks of a request leave in the channel. *)
Lemma many_sent m fuel schedule fs ld c files works :
  serves m fuel schedule fs ld c files works ->
  exists ps, sent (run_tasks (encode_file m (root_of m ld c)) fs schedule
    (start_tasks (total_of m (root_of m ld c) files) files)) = (Some <$> ps) ++ [None] /\ ps ≡ₚ indexed works.
Proof.
  intros Hs. apply all_sent; [|apply Hs]. apply run_tasks_inv; [apply Hs|].
  rewrite (start_tasks_works _ _ works), (sv_total _ _ _ _ _ _ _ _ Hs) by apply Hs. eapply start_inv; apply Hs.
Qed.

Lemma many_request_disk m fuel schedule fs time ld q cache c files works :
  many_misses (since_epoch time) ld q cache c -> serves m fuel schedule fs ld c files works ->
  exists ps r, ps ≡ₚ indexed works /\
    many_request m fuel schedule fs time ld q cache c =
      Done (set_files_len (length works) (set_files_size (total_len works)
              (set_cache_args (Some (files_id c, "application/octet-stream", time)) c)), Finish q r) /\
    start r = Some 200%Z /\
    exists b, resp_body r = Some b /\ buf b = None /\ to_come (consumer b) = (Some <$> ps) ++ [None].
Proof.
  intros Hm Hs. destruct (many_sent _ _ _ _ _ _ _ _ Hs) as (ps & E & Hp). exists ps.
  unfold many_request. assert ((if has_cache (files_options ld) then request_cache (since_epoch time) (files_id c) q cache
    (fun store age last_modified mime sign => file_headers m mime (cache_headers (files_options ld) store age None sign fresh))
    else Done None) = Done None) as -> by (unfold many_misses in Hm; destruct (has_cache _); [by rewrite Hm|done]).
  cbn [mbind outcome_bind]. rewrite (sv_select _ _ _ _ _ _ _ _ Hs). cbn [mbind outcome_bind]. unfold new_resp.
  rewrite (proj2 (Z.ltb_ge _ _)) by apply (sv_room _ _ _ _ _ _ _ _ Hs). cbn [lift mbind outcome_bind].
  unfold async_load_files. rewrite E, (sv_total _ _ _ _ _ _ _ _ Hs).
  assert (length (tasks (start_tasks (total_len works) files)) = length works) as ->.
  { rewrite (start_tasks_works _ _ works) by apply Hs. cbn. by rewrite length_fmap. }
  eexists. split; [done|]. split; [done|]. split; [done|]. by eexists.
Qed.

(** The answer to many files: the bodies in the order of the request, whatever the order
    was in which the tasks ran. *)
Lemma many_served m fuel schedule fs time now ld q cache c files works :
  many_misses (since_epoch time) ld q cache c -> serves m fuel schedule fs ld c files works ->
  exists c' r cache' r' b,
    many_request m fuel schedule fs time ld q cache c = Done (c', Finish q r) /\
    many_response m now ld q r cache c' = Done (cache', ContinueResponse q r') /\
    resp_body r' = Some b /\ buf b = Some (concat works.*2) /\ start r' = Some 200%Z.
Proof.
  intros Hm Hs. destruct (many_request_disk _ _ _ _ _ _ _ _ _ _ _ Hm Hs) as (ps & r & Hp & E & Hst & b & Hb & Hbuf & Hc).
  destruct (collect_indexed_ends b ps Hbuf Hc) as (b1 & Ec & Hb1).
  pose proof (sv_some _ _ _ _ _ _ _ _ Hs) as Hne. set (c' := set_files_len _ _) in E.
  assert (length ps = length works) as Hlp by (rewrite (Permutation_length Hp); apply length_imap).
  set (b2 := foldl (fun b p => push p.2 b) (init b1).1 (indexed works)).
  destruct (store_file_keeps now (files_options ld) true (fun _ => None)
    (file_headers m "application/octet-stream" (set_body (Some b2) r)) cache c') as [E1 E2].
  destruct (store_file _ _ _ _ _ _ _) as [cache' r'] eqn:Es. cbn [snd] in E1, E2.
  exists c', r, cache', r', b2. split; [exact E|]. split.
  { unfold many_response. rewrite Hb, Hbuf. change (files_len c') with (length works). change (files_size c') with (total_len works).
    rewrite bool_decide_false by (by destruct works). rewrite Ec. cbn [mbind outcome_bind].
    rewrite bool_decide_false by lia. rewrite (loaded_size_indexed _ _ Hp), bool_decide_false by (intros ?; done).
    rewrite (sort_indexed works ps Hp). fold b2. change (cache_args c') with (Some (files_id c, "application/octet-stream", time)).
    cbv beta iota zeta. by rewrite Es. }
  rewrite E1, E2. unfold file_headers. rewrite !header_body, !header_start. split; [done|]. split; [|done].
  unfold b2, init. rewrite Hb1. cbn [fst].
  rewrite <-(foldl_fmap (fun b bin => push bin b)), (push_all _ _ []) by done. cbn. by rewrite indexed_contents.
Qed.

(** ** FilesLoad: the contents one after the other *)

(** The content of a file, which has the size of the metadata. *)
Definition has_content (fs : F) (file : Z * string) (bin : list Z) : Prop :=
  (f ← open_file fs file.2; read_at f 0 (Z.to_nat (get_size f))) = Ok bin /\ value_len bin = file.1.

Lemma fold_sum_sizes files (contents : list (list Z)) fs n :
  Forall2 (has_content fs) (nonempty files) contents -> (0 <= n)%Z ->
  (n + sumZ value_len contents < 2 ^ 64)%Z ->
  foldl (fun n file => wrap64 (n + file.1)) n files = (n + sumZ value_len contents)%Z.
Proof.
  intros Hc. remember (nonempty files) as nf eqn:Enf. revert contents nf Hc Enf n.
  induction files as [|file files IH]; intros contents nf Hc Enf n Hn Hb; subst nf.
  { cbn in Hc. inversion Hc; subst. cbn. lia. }
  cbn [foldl]. destruct (decide (file.1 = 0%Z)) as [E0|E0].
  - rewrite filter_cons_False in Hc by tauto. rewrite E0, Z.add_0_r.
    assert (0 <= sumZ value_len contents)%Z by (apply sumZ_nonneg; intros; unfold value_len; lia).
    unfold wrap at 2. rewrite Z.mod_small by lia. by eapply IH.
  - rewrite filter_cons_True in Hc by done. inversion Hc as [|? bin ? contents' [Hbin El] Hc']; subst.
    rewrite sumZ_cons in *. assert (0 <= sumZ value_len contents')%Z by (apply sumZ_nonneg; intros; unfold value_len; lia).
    assert (0 <= value_len bin)%Z by (unfold value_len; lia). rewrite <-El.
    unfold wrap at 2. rewrite Z.mod_small by lia. rewrite (IH contents' _ Hc' eq_refl) by lia. lia.
Qed.

Lemma contents_reads (fs : F) (files : list (Z * string)) (contents : list (list Z)) (enc : string -> list Z -> option (list Z))
    (parts : list (list Z)) :
  Forall2 (has_content fs) files contents -> Forall (fun file => file.1 <> 0%Z) files ->
  Forall2 (fun '(file, bin) part => enc file.2 bin = Some part /\ part <> []) (zip files contents) parts ->
  Forall (reads_as enc fs) (zip files.*2 parts).
Proof.
  intros Hc. revert parts. induction Hc as [|file bin files contents [Hr _] _ IH]; intros parts Hf Hp; cbn in *; [constructor|].
  inversion Hp as [|? part ? parts' Hx Hp']; subst. destruct Hx as [He Hne]. apply Forall_cons in Hf as [_ Hf]. constructor; [|by apply IH].
  by exists bin.
Qed.

(** What the request for many files is about, in the terms of the file system. *)
Record names_files (m : ManyFiles) (fuel : nat) (schedule : list nat) (fs : F) (ld : FilesLoad) (c : GatewayContext)
    (files : list (Z * string)) (contents : list (list Z)) : Prop := {
  nf_select : select_files fuel fs (root_of m ld c) c = Done (Ok files);
  nf_room : (Z.of_nat (length files + 1) <= MAX_HTTP_RESP_BODY_BUFFER_LEN)%Z;
  nf_spawns : spawns = true;
  nf_contents : Forall2 (has_content fs) (nonempty files) contents;
  nf_some : contents <> [];
  nf_done : all_gone (run_tasks (encode_file m (root_of m ld c)) fs schedule
              (start_tasks (total_of m (root_of m ld c) files) files)) = true;
}.

Lemma filter_nonempty (files : list (Z * string)) : Forall (fun file => file.1 <> 0%Z) (nonempty files).
Proof. apply Forall_forall. by intros file [? _]%list_elem_of_filter. Qed.

Lemma names_serves m fuel schedule fs ld c files contents parts :
  names_files m fuel schedule fs ld c files contents ->
  Forall2 (fun '(file, bin) part => encode_file m (root_of m ld c) file.2 bin = Some part /\ part <> [])
    (zip (nonempty files) contents) parts ->
  total_of m (root_of m ld c) files = sumZ value_len parts -> (sumZ value_len parts < 2 ^ 64)%Z ->
  serves m fuel schedule fs ld c files (zip (nonempty files).*2 parts) /\ (zip (nonempty files).*2 parts).*2 = parts.
Proof.
  intros Hn Hp Ht Hb. pose proof (Forall2_length _ _ _ (nf_contents _ _ _ _ _ _ _ _ Hn)) as Hl.
  assert (length parts = length contents) as Hlp.
  { rewrite <-(Forall2_length _ _ _ Hp), length_zip_with, Hl. lia. }
  assert (total_len (zip (nonempty files).*2 parts) = sumZ value_len parts) as Etl.
  { unfold total_len. clear -Hl Hlp. assert (length ((nonempty files).*2) = length parts) as Hl2 by (rewrite length_fmap; lia).
    revert Hl2. generalize ((nonempty files).*2). clear. intros ps. revert ps.
    induction parts as [|p parts IH]; intros [|x ps] Hl; try done. cbn. unfold sumZ in *. cbn. f_equal. apply IH. by injection Hl. }
  split; [split|].
  - apply Hn.
  - apply Hn.
  - apply Hn.
  - rewrite fst_zip; [done|]. rewrite length_fmap. lia.
  - eapply contents_reads; [apply Hn|apply filter_nonempty|done].
  - destruct contents as [|bin contents]; [by destruct (nf_some _ _ _ _ _ _ _ _ Hn)|].
    destruct parts as [|p parts]; [done|]. by destruct (nonempty files).
  - by rewrite Etl.
  - by rewrite Etl.
  - apply Hn.
  - apply snd_zip. rewrite length_fmap. lia.
Qed.

(** The files that a request names: for each directory of the parameter [d] what was found
    there, sorted by path, then the files of the parameter [f] as they are named. *)
Definition in_request_order (fuel : nat) (fs : F) (root : string) (c : GatewayContext) (files : list (Z * string)) : Prop :=
  exists dirs names groups,
    decode (text_param "d" c) "" [] [] = Some dirs /\ decode (text_param "f" c) "" [] [] = Some names /\
    Forall2 (fun dir group => Sorted path_le group /\
      exists found, dir_files fuel fs root dir = Done (found, Ok tt) /\ group ≡ₚ found) dirs groups /\
    files = concat groups ++ named_files fs root names.

#[local] Existing Instance path_le_dec.
#[local] Instance path_le_total : Total path_le.
Proof. intros a b. unfold path_le. destruct (String.leb_total (slashes a.2) (slashes b.2)); [by left|by right]. Qed.

Lemma decode_dir_groups fuel fs root dirs l :
  decode_dir fuel fs dirs root = Done (l, Ok tt) ->
  exists groups, l = concat groups /\ Forall2 (fun dir group => Sorted path_le group /\
    exists found, dir_files fuel fs root dir = Done (found, Ok tt) /\ group ≡ₚ found) dirs groups.
Proof.
  revert l. induction dirs as [|dir dirs IH]; intros l E; cbn in E; [exists []; by simplify_eq|].
  destruct (dir_files fuel fs root dir) as [[found [[]|e]]| | |] eqn:Ed; simplify_eq/=.
  destruct (decode_dir fuel fs dirs root) as [[rest res]| | |]; simplify_eq/=.
  destruct (IH rest eq_refl) as (groups & -> & Hg). exists (merge_sort path_le found :: groups). split; [done|].
  constructor; [|done]. split; [apply (Sorted_merge_sort path_le)|]. exists found. split; [done|]. by apply merge_sort_Permutation.
Qed.

Lemma select_files_order fuel fs root c files :
  select_files fuel fs root c = Done (Ok files) -> in_request_order fuel fs root c files.
Proof.
  unfold select_files. destruct (decode (text_param "d" c) "" [] []) as [dirs|] eqn:Ed; [|done].
  destruct (decode_dir fuel fs dirs root) as [[l [[]|e]]| | |] eqn:El; [|done..]. cbn.
  destruct (decode (text_param "f" c) "" [] []) as [names|] eqn:En; [|done]. intros [= <-].
  destruct (decode_dir_groups _ _ _ _ _ El) as (groups & -> & Hg). by exists dirs, names, groups.
Qed.

(** C14: However the tasks that read the files are interleaved, the answer to a request for
    many files, which the cache does not have, is their contents one after the other, in the
    order of the request: directory by directory what is found there, sorted by path, then the
    named ones; empty files are left out. The files are fewer than the queue of the body has
    room for (65535), readable, not all empty, and together shorter than 2^64 bytes. *)
Theorem files_in_order fuel schedule fs time now ld q cache c files contents
    (Hm : many_misses (since_epoch time) ld q cache c)
    (Hf : names_files files_load fuel schedule fs ld c files contents)
    (Hb : (sumZ value_len contents < 2 ^ 64)%Z) :
  in_request_order fuel fs (root_of files_load ld c) c files /\
  exists c' r cache' r' b,
    many_request files_load fuel schedule fs time ld q cache c = Done (c', Finish q r) /\
    many_response files_load now ld q r cache c' = Done (cache', ContinueResponse q r') /\
    resp_body r' = Some b /\ buf b = Some (concat contents) /\ start r' = Some 200%Z.
Proof.
  split; [apply select_files_order, Hf|].
  pose proof (nf_contents _ _ _ _ _ _ _ _ Hf) as Hc.
  destruct (names_serves files_load fuel schedule fs ld c files contents contents Hf) as [Hs E].
  - pose proof (filter_nonempty files) as Hne. revert Hc Hne. generalize (nonempty files). clear. intros fl Hc.
    induction Hc as [|file bin fl contents [_ Hl] _ IH]; intros Hne; cbn; constructor; apply Forall_cons in Hne as [H0 Hne]; [|by apply IH].
    split; [done|]. intros ->. done.
  - cbn. unfold sum_sizes. erewrite fold_sum_sizes; [|done..]. done.
  - done.
  - destruct (many_served files_load fuel schedule fs time now ld q cache c files _ Hm Hs) as (c' & r & cache' & r' & b & Hr).
    exists c', r, cache', r', b. by rewrite E in Hr.
Qed.

(** ** BatchLoad: a head before each file *)

(** A reader of the body: the name and the content of each file. *)
Fixpoint parse_batch (fuel : nat) (l : list Z) : option (list (string * list Z)) :=
  match fuel, l with
  | _, [] => Some []
  | S fuel, n0 :: n1 :: l =>
      let n := Z.to_nat (n0 + 256 * n1) in
      match drop n l with
      | s0 :: s1 :: s2 :: s3 :: rest =>
          let size := Z.to_nat (s0 + 256 * s1 + 65536 * s2 + 16777216 * s3) in
          files ← parse_batch fuel (drop size rest);
          Some ((text_of (take n l), take size rest) :: files)
      | _ => None
      end
  | _, _ => None
  end.

(** The name of a file in the body. *)
Definition batch_name (root p : string) : string := str_drop (String.length root + 1) p.

Definition batch_fits (root : string) (file : Z * string) (bin : list Z) : Prop :=
  (path_len root + 1 <= path_len file.2 < path_len root + 1 + 65536)%Z /\ (value_len bin < 2 ^ 32)%Z.

Lemma u16_le n : (0 <= n < 65536)%Z -> (n mod 256 + 256 * ((n / 256) mod 256) = n)%Z.
Proof. intros Hn. rewrite (Z.mod_small (n / 256)); [|split; [apply Z.div_pos|apply Z.div_lt_upper_bound]; lia]. pose proof (Z.div_mod n 256 ltac:(lia)). lia. Qed.

Lemma u32_le n : (0 <= n < 2 ^ 32)%Z ->
  (n mod 256 + 256 * ((n / 256) mod 256) + 65536 * ((n / 65536) mod 256) + 16777216 * ((n / 16777216) mod 256) = n)%Z.
Proof.
  intros Hn. change 65536%Z with (256 * 256)%Z. change 16777216%Z with (256 * 256 * 256)%Z. rewrite <-!Z.div_div by lia.
  set (a := (n / 256)%Z). set (b := (a / 256)%Z). pose proof (Z.div_mod n 256 ltac:(lia)). pose proof (Z.div_mod a 256 ltac:(lia)).
  pose proof (Z.div_mod b 256 ltac:(lia)).
  assert (0 <= b / 256 < 256)%Z.
  { unfold b, a. rewrite !Z.div_div by lia. split; [apply Z.div_pos; lia|apply Z.div_lt_upper_bound; lia]. }
  rewrite (Z.mod_small (b / 256)) by done. lia.
Qed.

Lemma length_as_bytes s : length (as_bytes s) = String.length s.
Proof. induction s as [|c s IH]; [done|]. cbn. by f_equal. Qed.

Lemma batch_part_some root file bin :
  batch_fits root file bin ->
  exists part, batch_part root file.2 bin = Some part /\ part <> [] /\
    value_len part = wrap64 (wrap64 (6 + rel_len (path_len root + 1) file.2) + value_len bin) /\
    forall fuel rest, parse_batch (Datatypes.S fuel) (part ++ rest) =
      (files ← parse_batch fuel rest; Some ((batch_name root file.2, bin) :: files)).
Proof.
  intros [Hp Hb]. assert (0 <= value_len bin)%Z as Hb0 by (unfold value_len; lia).
  unfold batch_part. rewrite (proj2 (Z.ltb_ge _ _)) by lia. eexists. split; [done|]. split; [done|].
  assert (Z.to_nat (path_len root + 1) = String.length root + 1) as -> by (unfold path_len; lia).
  set (name := str_drop (String.length root + 1) file.2).
  assert (Z.of_nat (String.length name) = path_len file.2 - (path_len root + 1))%Z as Hl
    by (unfold name, path_len in *; rewrite str_drop_length; lia).
  split.
  - unfold value_len, rel_len in *. rewrite (wrap64_small (path_len file.2 - _)), (wrap64_small (6 + _)), wrap64_small by lia.
    rewrite !length_app, length_as_bytes. cbn [put_u16_le put_u32_le length]. lia.
  - intros fuel rest. rewrite <-!app_assoc. cbn [put_u16_le app parse_batch]. rewrite <-Hl, u16_le by lia.
    rewrite Nat2Z.id, <-length_as_bytes, drop_app_length, take_app_length, text_of_as_bytes.
    cbn [put_u32_le app]. rewrite u32_le by lia. unfold value_len. rewrite Nat2Z.id, drop_app_length, take_app_length. done.
Qed.

Lemma batch_parts root (files : list (Z * string)) contents :
  Forall2 (batch_fits root) files contents ->
  exists parts,
    Forall2 (fun '(file, bin) part => batch_part root file.2 bin = Some part /\ part <> []) (zip files contents) parts /\
    Forall2 (fun '(file, bin) part => value_len part = wrap64 (wrap64 (6 + rel_len (path_len root + 1) file.2) + value_len bin))
      (zip files contents) parts /\
    parse_batch (length contents) (concat parts) = Some (zip (batch_name root <$> files.*2) contents).
Proof.
  induction 1 as [|file bin files contents Hf _ (parts & H1' & H2' & H3')]; [by exists []|].
  destruct (batch_part_some root file bin Hf) as (part & Hp & Hne & Hl & Hparse). exists (part :: parts).
  cbn [zip zip_with concat length]. split; [by constructor|]. split; [by constructor|]. rewrite Hparse, H3'. done.
Qed.

Lemma batch_total_sum root files contents parts fs n :
  Forall2 (has_content fs) (nonempty files) contents ->
  Forall2 (fun '(file, bin) part => value_len part = wrap64 (wrap64 (6 + rel_len (path_len root + 1) file.2) + value_len bin))
    (zip (nonempty files) contents) parts ->
  (0 <= n)%Z -> (n + sumZ value_len parts < 2 ^ 64)%Z ->
  foldl (fun n file => if (file.1 =? 0)%Z then n else wrap64 (n + (wrap64 (6 + rel_len (path_len root + 1) file.2) + file.1)))
    n files = (n + sumZ value_len parts)%Z.
Proof.
  revert contents parts n. induction files as [|file files IH]; intros contents parts n Hc Hp Hn Hb.
  { cbn in *. inversion Hc; subst. inversion Hp; subst. cbn. lia. }
  cbn [foldl]. destruct (Z.eqb_spec file.1 0) as [E0|E0].
  - rewrite filter_cons_False in Hc, Hp by tauto. by eapply IH.
  - rewrite filter_cons_True in Hc, Hp by done. inversion Hc as [|? bin ? contents' [Hbin El] Hc']; subst.
    inversion Hp as [|? part ? parts' Hx Hp']; subst. cbn in Hx. rewrite sumZ_cons in *.
    assert (0 <= sumZ value_len parts')%Z by (apply sumZ_nonneg; intros; unfold value_len; lia).
    assert (0 <= value_len part)%Z by (unfold value_len; lia). rewrite <-El.
    replace (wrap64 (n + (wrap64 (6 + rel_len (path_len root + 1) file.2) + value_len bin))) with (n + value_len part)%Z.
    + rewrite (IH contents' parts') by (done || lia). lia.
    + rewrite <-(wrap64_small (n + value_len part)) by lia. rewrite Hx. unfold wrap. by rewrite Zplus_mod_idemp_r.
Qed.

(** C15: The answer of [BatchLoad] can be taken apart again: reading heads of a path length, a
    path, a size and that many bytes gives each file that is not empty, with its path below
    the root, in the order of the request, whatever the schedule of the tasks was; paths are
    shorter than 65536 bytes and files smaller than 4 GB. *)
Theorem batch_roundtrip fuel schedule fs time now ld q cache c files contents
    (Hm : many_misses (since_epoch time) ld q cache c)
    (Hf : names_files batch_load fuel schedule fs ld c files contents)
    (Hfit : Forall2 (batch_fits (batch_root ld c)) (nonempty files) contents)
    (Hb : (sumZ value_len contents + 65542 * Z.of_nat (length contents) < 2 ^ 64)%Z) :
  exists c' r cache' r' b body,
    many_request batch_load fuel schedule fs time ld q cache c = Done (c', Finish q r) /\
    many_response batch_load now ld q r cache c' = Done (cache', ContinueResponse q r') /\
    resp_body r' = Some b /\ buf b = Some body /\
    parse_batch (length contents) body =
      Some (zip (batch_name (batch_root ld c) <$> (nonempty files).*2) contents).
Proof.
  pose proof (nf_contents _ _ _ _ _ _ _ _ Hf) as Hc. pose proof (Forall2_length _ _ _ Hfit) as Hl.
  destruct (batch_parts _ _ _ Hfit) as (parts & Hp1 & Hp2 & Hparse).
  assert (sumZ value_len parts <= sumZ value_len contents + 65542 * Z.of_nat (length contents))%Z as Hsum.
  { clear -Hfit Hp2. revert parts Hp2. induction Hfit as [|file bin fl contents [Hf1 Hf2] _ IH]; intros parts Hp; cbn in Hp.
    - inversion Hp; subst. cbn. lia.
    - inversion Hp as [|? part ? parts' Hx Hp']; subst. cbn in Hx. rewrite !sumZ_cons. cbn [length]. specialize (IH _ Hp').
      assert (0 <= value_len bin)%Z by (unfold value_len; lia). unfold rel_len in Hx.
      rewrite (wrap64_small (path_len file.2 - _)), (wrap64_small (6 + _)), wrap64_small in Hx by lia. lia. }
  destruct (names_serves batch_load fuel schedule fs ld c files contents parts Hf Hp1) as [Hs E].
  - cbn. unfold batch_total. rewrite (batch_total_sum _ _ contents parts fs) by (done || lia). done.
  - lia.
  - destruct (many_served batch_load fuel schedule fs time now ld q cache c files _ Hm Hs)
      as (c' & r & cache' & r' & b & E1 & E2 & E3 & E4 & _).
    rewrite E in E4. exists c', r, cache', r', b, (concat parts). by split_and!.
Qed.

(** ** What the names are not checked for *)

Lemma select_absolute fuel fs root c p meta :
  text_param "d" c = "" -> text_param "f" c = "(" +:+ p +:+ ")" -> name_ok p = true -> is_absolute p = true ->
  metadata fs p = Ok meta -> select_files fuel fs root c = Done (Ok [(meta_len meta, p)]).
Proof.
  intros Hd Hf Hn Ha Hm. unfold select_files. rewrite Hd, Hf. cbn [decode decode_dir mbind outcome_bind].
  assert (decode ("(" +:+ p +:+ ")") "" [] [] = Some [p]) as ->.
  { pose proof (decode_group ("", [p]) "" [] []) as Hg. cbn [encode_group fst snd escape String.concat] in Hg.
    unfold encode_group in Hg. cbn [fst snd escape String.concat] in Hg. rewrite str_app_nil in Hg.
    change ("" +:+ "(" +:+ p +:+ ")") with ("(" +:+ p +:+ ")") in Hg. rewrite Hg.
    - cbn. by rewrite str_app_nil.
    - unfold group_ok. cbn. rewrite Hn. done. }
  cbn. unfold path_push. by rewrite Ha, Hm.
Qed.

(** A request for many files is not kept below the root, as one for a single file is: an
    absolute path in the parameter [f] is read from wherever it leads, for every root. *)
Theorem files_escape fuel fs time now ld q cache c p meta file data
    (Hm : many_misses (since_epoch time) ld q cache c)
    (Hd : text_param "d" c = "") (Hf : text_param "f" c = "(" +:+ p +:+ ")")
    (Hn : name_ok p = true) (Ha : is_absolute p = true)
    (Hme : metadata fs p = Ok meta) (Hl : meta_len meta = value_len data) (Hne : data <> [])
    (Ho : open_file fs p = Ok file) (Hr : read_at file 0 (Z.to_nat (get_size file)) = Ok data)
    (Hsp : spawns = true) (Hb : (value_len data < 2 ^ 64)%Z) :
  exists c' r cache' r' b,
    many_request files_load fuel [0; 0; 0] fs time ld q cache c = Done (c', Finish q r) /\
    many_response files_load now ld q r cache c' = Done (cache', ContinueResponse q r') /\
    resp_body r' = Some b /\ buf b = Some data.
Proof.
  assert (meta_len meta <> 0%Z) as Hnz by (rewrite Hl; destruct data; [done|unfold value_len; cbn; lia]).
  assert (sum_sizes [(meta_len meta, p)] = value_len data) as Hsum.
  { unfold sum_sizes. cbn. rewrite Z.add_0_l, Hl. apply wrap64_small. unfold value_len in *. lia. }
  edestruct (many_served files_load fuel [0; 0; 0] fs time now ld q cache c [(meta_len meta, p)] [(p, data)])
    as (c' & r & cache' & r' & b & E1 & E2 & E3 & E4 & _); [done| |].
  - split; cbn [files_load root_of total_of encode_file].
    + by apply select_absolute.
    + done.
    + done.
    + by rewrite filter_cons_True.
    + constructor; [|done]. exists data. cbn. by rewrite Ho.
    + done.
    + rewrite Hsum. unfold total_len. cbn. lia.
    + unfold total_len. cbn. lia.
    + unfold start_tasks. rewrite filter_cons_True by done. rewrite Hsum, Hsp. cbn. unfold task_step. cbn. rewrite Ho. cbn. rewrite Hr. cbn.
      rewrite bool_decide_true by done. done.
  - cbn in E4. rewrite app_nil_r in E4. exists c', r, cache', r', b. by split_and!.
Qed.

(** The key of the cache has no root: what was stored for one root answers for another. *)
Lemma batch_cache_ignores_root fuel schedule fs time ld q cache c c' res :
  has_cache (files_options ld) = true -> text_param "d" c = text_param "d" c' -> text_param "f" c = text_param "f" c' ->
  (forall hit, exists res, request_cache (since_epoch time) (files_id c) q cache hit = Done (Some res)) ->
  many_request batch_load fuel schedule fs time ld q cache c = Done (c, res) ->
  many_request batch_load fuel schedule fs time ld q cache c' = Done (c', res).
Proof.
  intros Hc Hd Hf Hhit. unfold many_request. assert (files_id c' = files_id c) as -> by (unfold files_id; by rewrite Hd, Hf).
  rewrite Hc. edestruct Hhit as [res' Er]. rewrite Er. cbn. by intros [= <-].
Qed.
End serving.
