(* ===== verification/Upload.v ===== *)
(** * Uploading files (http/src/upload.rs)

    The middleware that stores the content of a form below its root, or removes a file
    there. The tasks that write change the file system before the response, which waits for
    them, is made. *)

From Stdlib Require Import Ascii.
From S2P Require Import Prelude ByteSource HttpText ByteSearch HttpMessage HttpMiddleware HeadLoop HttpConnect StaticCache FilePath FileLoad.

#[local] Open Scope string_scope.
#[local] Open Scope list_scope.

(** Changes of the file system: [create_dir_all] of std, [remove_file], and [AsyncFile] of
    the package pi_async_file, opened for reading and writing and written at its start;
    [absolutize] of the package path_absolutize. *)
Class FileWriteApi (F : Type) := {
  create_dir_all : F -> string -> F * io_result unit;
  remove_file : F -> string -> F * io_result unit;
  open_write : F -> string -> F * io_result unit;
  write_start : F -> string -> list Z -> F * io_result unit;
  absolutize : string -> option string;
}.

Definition FILE_REMOVE_METHOD : string := "_$remove".

Record UploadFile := mkUploadFile { upload_root : string }.

(** [Path::starts_with] *)
Definition starts_with (p base : string) : bool := bool_decide (components base `prefix_of` components p).

Definition part_text (k : string) (c : GatewayContext) : option string :=
  match parts c !! k with Some (SStr s) => Some s | _ => None end.

Section upload.
Context `{HttpApi} `{HeadApi} `{FileRuntime} {F : Type} `{FileApi F} `{FileWriteApi F}.

(** [UploadFile::new]: a root that cannot be made is a panic. *)
Definition new_upload (fs : F) (dir : string) : outcome (F * UploadFile) :=
  let root := trim_path dir in
  if is_ok (metadata fs root) then Done (fs, mkUploadFile root)
  else match create_dir_all fs root with
       | (fs, Ok _) => Done (fs, mkUploadFile root)
       | (_, Err _) => Panic
       end.

(** The task of [async_remove_file], and what it sends. *)
Definition async_remove_file (fs : F) (path : string) (r : HttpResponse) : F * HttpResponse :=
  if spawns then
    match remove_file fs path with
    | (fs, Ok _) => (fs, leave [None] r)
    | (fs, Err e) => (fs, leave [Some (0%Z, as_bytes ("remove file error, reason: " +:+ error_debug e)); None] r)
    end
  else (fs, r).

(** The task of [async_save_file]. *)
Definition upload_failed (e : ErrorKind) : list (option part) :=
  [Some (0%Z, as_bytes ("Upload file error, reason: " +:+ error_debug e)); None].

Definition async_save_file (fs : F) (path : string) (content : list Z) (r : HttpResponse) : F * HttpResponse :=
  if spawns then
    match open_write fs path with
    | (fs, Ok _) =>
        match write_start fs path content with
        | (fs, Ok _) => (fs, leave [None] r)
        | (fs, Err e) => (fs, leave (upload_failed e) r)
        end
    | (fs, Err e) => (fs, leave (upload_failed e) r)
    end
  else (fs, r).

(** The part of [request] that works on the path of the file. *)
Definition store_path (fs : F) (u : UploadFile) (is_remove : bool) (file : string) (content : list Z) (q : HttpRequest)
    : outcome (F * MiddlewareResult) :=
  if is_absolute file then Done (fs, Throw NotFound)
  else
    let path := path_push (upload_root u) file in
    match parent path with
    | None => Done (fs, Throw Other)
    | Some dir =>
        ok ← match absolutize dir with
             | Some p => base ← lift (absolutize (upload_root u)); Done (starts_with p base)
             | None => Done true
             end;
        if negb ok then Done (fs, Throw Other)
        else if is_remove then
          if is_ok (metadata fs path) then let '(fs, r) := async_remove_file fs path fresh in Done (fs, Finish q r)
          else Done (fs, Throw Other)
        else
          let '(fs, made) := if is_ok (metadata fs dir) then (fs, Ok tt) else create_dir_all fs dir in
          match made with
          | Err _ => Done (fs, Throw Other)
          | Ok _ => let '(fs, r) := async_save_file fs path content fresh in Done (fs, Finish q r)
          end
    end.

(** [UploadFile::request] *)
Definition upload_request (fs : F) (u : UploadFile) (q : HttpRequest) (c : GatewayContext)
    : outcome (F * GatewayContext * MiddlewareResult) :=
  if bool_decide (part_text "method" c = Some FILE_REMOVE_METHOD) then
    match part_text "file_name" c with
    | Some file => '(fs, res) ← store_path fs u true file [] q; Done (fs, c, res)
    | None => Done (fs, c, Throw NotFound)
    end
  else
    match part_text "filename" c with
    | None => Done (fs, c, Throw NotFound)
    | Some file =>
        let content := match parts c !! "content" with Some (SStr s) => as_bytes s | Some (SBin bin) => bin | None => [] end in
        let c := set_parts (delete "content" (parts c)) c in
        '(fs, res) ← store_path fs u false file content q;
        Done (fs, c, res)
    end.

(** [UploadFile::response]: a body is the text of an error. *)
Definition upload_response (q : HttpRequest) (r : HttpResponse) : outcome MiddlewareResult :=
  match resp_body r with
  | None => Done (ContinueResponse q r)
  | Some b =>
      '(b, res) ← collect_body 2 [] b;
      match res with
      | Err e => Done (Throw e)
      | Ok _ =>
          let r := set_body (Some b) r in
          Done (ContinueResponse q match body_len b with
                                   | Some n => if bool_decide (0 < n) then status 500 r else r
                                   | None => r
                                   end)
      end
  end.

(** [impl Middleware for UploadFile] *)
Definition upload_file {W : Type} `{Focus GatewayContext W, Focus F W} (u : UploadFile) : Middleware W := {|
  mw_request q w :=
    '(fs, c, res) ← upload_request (focus_get w) u q (focus_get w);
    Done (focus_put (c : GatewayContext) (focus_put (fs : F) w), res);
  mw_response q r w := res ← upload_response q r; Done (w, res) |}.
End upload.

(** ** Uploads stay below the root *)

Section confined.
Context `{HttpApi} `{HeadApi} `{FileRuntime} {F : Type} `{FileApi F} `{FileWriteApi F}.

(** The file systems agree on a path. *)
Definition same (fs fs' : F) (p : string) : Prop := metadata fs' p = metadata fs p /\ open_file fs' p = open_file fs p.

(** They agree, or there is a directory now where there was nothing or a directory. *)
Definition outside_kept (fs fs' : F) (p : string) : Prop :=
  same fs fs' p \/
  (forall m, metadata fs p = Ok m -> is_dir m = true) /\ exists m, metadata fs' p = Ok m /\ is_dir m = true.

Lemma same_trans fs1 fs2 fs3 p : same fs1 fs2 p -> same fs2 fs3 p -> same fs1 fs3 p.
Proof. intros [? ?] [? ?]. split; congruence. Qed.

Lemma outside_kept_same fs1 fs2 fs3 p : outside_kept fs1 fs2 p -> same fs2 fs3 p -> outside_kept fs1 fs3 p.
Proof.
  intros [Hs|(Hd & m & Hm & Hdir)] Hs'; [left; by eapply same_trans|right].
  split; [done|]. exists m. split; [|done]. by destruct Hs' as [-> _].
Qed.

(** The place of the directory that has the file, or directory, of a path. *)
Definition around (cwd : list string) (p : string) : list string := removelast (place cwd p).

(** Without links: writing or removing a file changes nothing outside the directory that has
    it, and nothing at all when the path has no name at its end, since that is a directory.
    [create_dir_all] works on the text of the path: each of its prefixes that has a name at
    its end and does not exist is made, also one that a later ".." leaves again, and only
    directories are made. The laws speak of what straight paths show. [absolutize] resolves
    the components from the working directory. *)
Class FileWriteLaws (cwd : list string) := {
  absolutize_place p : exists a, absolutize p = Some a /\ components a = RootDir :: (Normal <$> place cwd p);
  remove_frame fs p p' : straight p' ->
    ~ around cwd p `prefix_of` place cwd p' \/ file_name p = None -> same fs (remove_file fs p).1 p';
  open_frame fs p p' : straight p' ->
    ~ around cwd p `prefix_of` place cwd p' \/ file_name p = None -> same fs (open_write fs p).1 p';
  write_frame fs p bin p' : straight p' ->
    ~ around cwd p `prefix_of` place cwd p' \/ file_name p = None -> same fs (write_start fs p bin).1 p';
  create_frame fs d p' : straight p' ->
    (forall a, components a `prefix_of` components d ->
       is_ok (metadata fs a) = true \/ ~ around cwd a `prefix_of` place cwd p' \/ file_name a = None) ->
    same fs (create_dir_all fs d).1 p';
  create_dirs fs d p' : straight p' -> outside_kept fs (create_dir_all fs d).1 p';
}.

Context (cwd : list string) `{!FileWriteLaws cwd}.

Lemma starts_with_place p a root base :
  absolutize p = Some a -> absolutize root = Some base -> starts_with a base = true ->
  place cwd root `prefix_of` place cwd p.
Proof.
  intros Hp Hr Hs. destruct (absolutize_place p) as (a' & Ea & Ec). destruct (absolutize_place root) as (b' & Eb & Ed).
  rewrite Hp in Ea. injection Ea as <-. rewrite Hr in Eb. injection Eb as <-.
  apply bool_decide_eq_true in Hs. rewrite Ec, Ed in Hs. apply prefix_cons_inv_2 in Hs. revert Hs.
  generalize (place cwd root), (place cwd p). clear. intros l. induction l as [|x l IH]; intros k Hs; [apply prefix_nil|].
  destruct k as [|y k]; [by apply prefix_nil_inv in Hs|]. cbn in Hs.
  apply prefix_cons_inv_1 in Hs as Hx. injection Hx as ->. apply prefix_cons. apply IH. by eapply prefix_cons_inv_2.
Qed.

(** A path outside is not in the directory of a file whose directory is inside. *)
Lemma outside_file dir path p root :
  parent path = Some dir -> place cwd root `prefix_of` place cwd dir -> ~ place cwd root `prefix_of` place cwd p ->
  ~ around cwd path `prefix_of` place cwd p \/ file_name path = None.
Proof.
  intros Hd Hr Ho. destruct (file_name path) as [x|] eqn:Ex; [left|by right]. unfold around.
  rewrite (place_parent cwd path dir x Hd Ex), removelast_last. intros Hp. apply Ho. by etrans.
Qed.

Lemma async_remove_same fs path r dir p root :
  straight p -> parent path = Some dir -> place cwd root `prefix_of` place cwd dir -> ~ place cwd root `prefix_of` place cwd p ->
  same fs (async_remove_file fs path r).1 p.
Proof.
  intros Hst Hd Hr Ho. unfold async_remove_file. destruct spawns; [|done].
  pose proof (remove_frame fs path p Hst (outside_file _ _ _ _ Hd Hr Ho)) as Hs. by destruct (remove_file fs path) as [fs' [|]].
Qed.

Lemma async_save_same fs path content r dir p root :
  straight p -> parent path = Some dir -> place cwd root `prefix_of` place cwd dir -> ~ place cwd root `prefix_of` place cwd p ->
  same fs (async_save_file fs path content r).1 p.
Proof.
  intros Hst Hd Hr Ho. unfold async_save_file. destruct spawns; [|done]. pose proof (outside_file _ _ _ _ Hd Hr Ho) as Hout.
  pose proof (open_frame fs path p Hst Hout) as Hs. destruct (open_write fs path) as [fs1 [|]]; [|done].
  pose proof (write_frame fs1 path content p Hst Hout) as Hs'. destruct (write_start fs1 path content) as [fs2 [|]]; by eapply same_trans.
Qed.

(** The root and the directories above it, by whatever text, exist. *)
Definition root_exists (fs : F) (u : UploadFile) : Prop :=
  forall a, components a `prefix_of` components (upload_root u) -> file_name a <> None -> is_ok (metadata fs a) = true.

(** Below the root a path that goes on with names only makes directories only there. *)
Lemma create_same fs u file dir p :
  straight p -> root_exists fs u -> ParentDir ∉ components file -> is_absolute file = false ->
  parent (path_push (upload_root u) file) = Some dir -> ~ place cwd (upload_root u) `prefix_of` place cwd p ->
  same fs (create_dir_all fs dir).1 p.
Proof.
  intros Hst Hroot Hf Ha Hd Ho. apply create_frame; [done|]. intros a Hpre.
  destruct (file_name a) as [x|] eqn:Ex; [|by right; right].
  destruct (components_push_relative (upload_root u) file Ha) as (Hpa & l & El & Hl).
  destruct (parent_components _ _ Hd) as (Hda & c & Ec).
  assert (components a `prefix_of` components (upload_root u) ++ l) as Hp.
  { rewrite <-El, Ec. etrans; [exact Hpre|]. by apply prefix_app_r. }
  assert (components a <> []) as Hne by (unfold file_name in Ex; by destruct (components a)).
  pose proof (is_absolute_prefix a dir Hpre Hne) as Haa. rewrite Hda, Hpa in Haa.
  destruct (prefix_weak_total _ _ _ Hp (prefix_app_r _ _ l (reflexivity _))) as [Hin|[k Hk]].
  { left. apply Hroot; [done|congruence]. }
  destruct k as [|y k _] using rev_ind; [left; apply Hroot; [rewrite Hk, app_nil_r; done|congruence]|].
  assert (y = Normal x) as -> by (unfold file_name in Ex; rewrite Hk, app_assoc, last_snoc in Ex; destruct y; congruence).
  right; left. intros Hpp. apply Ho. etrans; [|exact Hpp]. unfold around, place.
  rewrite Haa, Hk, app_assoc, !resolve_app. cbn [resolve foldl]. rewrite removelast_last.
  apply resolve_extends. intros Hk'. apply Hf, Hl. rewrite Hk in Hp. apply prefix_app_inv in Hp as [k2 ->].
  rewrite !elem_of_app. by left; left.
Qed.

(** What storing changes: the directories it makes, and what is inside of the root. *)
Lemma store_path_same fs u b file content q fs' res p :
  straight p -> store_path fs u b file content q = Done (fs', res) -> ~ place cwd (upload_root u) `prefix_of` place cwd p ->
  same fs fs' p \/ exists dir, is_absolute file = false /\ parent (path_push (upload_root u) file) = Some dir /\
    same (create_dir_all fs dir).1 fs' p.
Proof.
  intros Hst E Ho. unfold store_path in E. destruct (is_absolute file); [left; by simplify_eq|].
  destruct (parent _) as [dir|] eqn:Hd; [|left; by simplify_eq].
  destruct (absolutize_place dir) as (a & Ea & _). destruct (absolutize_place (upload_root u)) as (base & Eb & _).
  rewrite Ea, Eb in E. cbn [lift mbind outcome_bind] in E. destruct (starts_with a base) eqn:Hs; cbn [negb] in E; [|left; by simplify_eq].
  pose proof (starts_with_place _ _ _ _ Ea Eb Hs) as Hr. destruct b.
  - left. destruct (is_ok _); [|by simplify_eq]. pose proof (async_remove_same fs _ fresh _ p _ Hst Hd Hr Ho) as Hsame.
    destruct (async_remove_file _ _ _) as [fs1 r]. by simplify_eq.
  - destruct (is_ok (metadata fs dir)).
    + left. pose proof (async_save_same fs _ content fresh _ p _ Hst Hd Hr Ho) as Hsame.
      destruct (async_save_file _ _ _ _) as [fs1 r]. by simplify_eq.
    + right. exists dir. split_and!; [done..|]. destruct (create_dir_all fs dir) as [fs1 [|]]; [|by simplify_eq].
      pose proof (async_save_same fs1 _ content fresh _ p _ Hst Hd Hr Ho) as Hsame.
      destruct (async_save_file _ _ _ _) as [fs2 r]. by simplify_eq.
Qed.

(** The name the form gives. *)
Definition upload_name (c : GatewayContext) : option string :=
  if bool_decide (part_text "method" c = Some FILE_REMOVE_METHOD) then part_text "file_name" c else part_text "filename" c.

Lemma upload_stores fs u q c fs' c' res :
  upload_request fs u q c = Done (fs', c', res) ->
  fs' = fs \/ exists b file content res', upload_name c = Some file /\ store_path fs u b file content q = Done (fs', res').
Proof.
  unfold upload_request, upload_name. case_bool_decide; cbv zeta.
  - destruct (part_text "file_name" c) as [file|]; [|intros ?; left; by simplify_eq]. intros E. right.
    destruct (store_path fs u true file [] q) as [[fs1 res1]| | |] eqn:Es; simplify_eq/=. by exists true, file, [], res.
  - destruct (part_text "filename" c) as [file|]; [|intros ?; left; by simplify_eq].
    match goal with |- context [store_path fs u false file ?x q] => set (content := x) end. intros E. right.
    destruct (store_path fs u false file content q) as [[fs1 res1]| | |] eqn:Es; simplify_eq/=.
    by exists false, file, content, res.
Qed.

(** C16: Whatever name a form gives, an upload or a removal makes, changes or removes no file
    outside the root: what a straight path that does not lead below the root shows is as
    before, or it is a directory that was made, or one that was there and stays. If the root
    exists, with the directories above it, and the name has no "..", nothing at all changes
    there. There are no links. *)
Theorem upload_confined fs u q c fs' c' res p
    (Hreq : upload_request fs u q c = Done (fs', c', res)) (Hst : straight p)
    (Hout : ~ place cwd (upload_root u) `prefix_of` place cwd p) :
  outside_kept fs fs' p /\
  (root_exists fs u -> (forall file, upload_name c = Some file -> ParentDir ∉ components file) -> same fs fs' p).
Proof.
  apply upload_stores in Hreq as [->|(b & file & content & res' & Hn & E)]; [by split; [left|]|].
  destruct (store_path_same _ _ _ _ _ _ _ _ p Hst E Hout) as [Hs|(dir & Ha & Hd & Hs)]; [by split; [left|]|]. split.
  - eapply outside_kept_same; [|exact Hs]. by apply create_dirs.
  - intros Hroot Hname. eapply same_trans; [|exact Hs]. exact (create_same fs u file dir p Hst Hroot (Hname file Hn) Ha Hd Hout).
Qed.
End confined.
