(* ===== verification/FilesOverHttp.v ===== *)
(** * The file services on concrete files

    A small file system and stand-ins for the packages, with which the theorems on the file
    services are applied. *)

From S2P Require Import Prelude ByteSource HttpText ByteSearch HttpMessage HttpSample HttpMiddleware HeadLoop TcpSocket WsConnect WsOverTcp HttpConnect HttpOverTcp StaticCache FilePath FileNames FileLoad FilesLoad Upload.

#[local] Open Scope string_scope.
#[local] Open Scope list_scope.

(** Files by path; what is in front of a separator is a directory. *)
Abbreviation SampleFs := (list (string * list Z)).

Definition find_file (fs : SampleFs) (p : string) : option (list Z) :=
  snd <$> (snd <$> list_find (fun e => components e.1 = components p) fs).

#[export] Instance sample_file_api : FileApi SampleFs := {
  metadata fs p :=
    match find_file fs p with
    | Some data => Ok (mkMetadata true false (value_len data) (Some 7%Z))
    | None => if existsb (fun e => bool_decide (components <$> parent e.1 = Some (components p))) fs then Ok (mkMetadata false true 0 None) else Err NotFound
    end;
  open_file fs p :=
    match find_file fs p with
    | Some data => Ok (mkOpenFile (value_len data) (fun offset size => Ok (firstn size (drop offset data))))
    | None => Err NotFound
    end }.

#[export] Instance sample_dir_api : DirApi SampleFs := {
  read_dir fs p := Ok (e ← fs; match parent e.1, file_name e.1 with
                               | Some dir, Some name =>
                                   if bool_decide (components dir = components p) then [Ok (mkDirEntry name (Ok false) (Ok (value_len e.2)))] else []
                               | _, _ => []
                               end) }.

#[export] Instance sample_runtime : FileRuntime := {
  spawns := true;
  mime_guess p := if HttpText.contains ".html" p then Some "text/html" else None }.

#[export] Instance sample_cache_api : CacheApi := {
  adler32 := len_sum;
  parse_http_date _ := None;
  fmt_http_date _ := "" }.

Definition site : SampleFs :=
  [("/www/b.js", [5; 6]); ("/www/index.html", [1; 2; 3]); ("/www/a.js", [4]); ("/www/empty", []); ("/etc/secret", [9; 9])]%Z.
Definition other_site : SampleFs :=
  [("/www/b.js", [5; 6]); ("/www/index.html", [1; 2; 3]); ("/www/a.js", [4]); ("/www/empty", []); ("/etc/secret", [0])]%Z.

Definition site_options : CacheOptions := mkCacheOptions true true true true false 10.
Definition site_load : FileLoad := new_file_load "/www/" site_options.
Definition site_chunks : FileLoad := set_chunk_size (Some 2%Z) (set_min_block_size (Some 3%Z) site_load).
Definition many_load : FilesLoad := new_files_load "/www" site_options.

Definition file_request (p : string) : HttpRequest := sample_request "GET" p [].

(** A path with parent directories stays below the root. *)
Example secret_not_found :
  load_request 9 site (Some 5%Z) site_load (file_request "/../x/../../etc/secret") (StaticCache.new 99 9) new_context =
  Done (new_context, Break not_found).
Proof. reflexivity. Qed.

Lemma site_misses now p : misses now site_load (file_request p) (StaticCache.new 99 9).
Proof. intros _ hit. reflexivity. Qed.

Lemma below_www_not_etc : ~ below "/www" "/etc/secret".
Proof. intros (names & _ & E). vm_compute in E. congruence. Qed.

Lemma load_below_root_witness :
  load_request 9 site (Some 5%Z) site_load (file_request "/../../etc/secret") (StaticCache.new 99 9) new_context =
  load_request 9 other_site (Some 5%Z) site_load (file_request "/../../etc/secret") (StaticCache.new 99 9) new_context.
Proof.
  apply (load_below_root 9 site other_site). intros p Hp.
  assert (components "/etc/secret" <> components p) as Hne.
  { intros E. apply below_www_not_etc. destruct Hp as (names & Hn & E'). exists names. by rewrite E. }
  assert (find_file site p = find_file other_site p) as Hfind.
  { unfold find_file, site, other_site. cbn [list_find]. repeat case_decide; done. }
  unfold metadata, open_file. cbn [sample_file_api]. rewrite Hfind. split; [|done]. done.
Defined.

Definition index_meta : Metadata := mkMetadata false true 0 None.
Definition sample_open (data : list Z) : OpenFile :=
  mkOpenFile (value_len data) (fun offset size => Ok (firstn size (drop offset data))).

Lemma file_served_witness :
  exists r, load_request 9 site (Some 5%Z) site_load (file_request "/a.js") (StaticCache.new 99 9) new_context =
    Done (load_context site_load (file_request "/a.js") (mkMetadata true false 1 (Some 7%Z)) "/www/a.js" new_context,
      Finish (file_request "/a.js") r) /\
  exists cache' r' b, load_response (Some 6%Z) site_load (file_request "/a.js") r (StaticCache.new 99 9)
      (load_context site_load (file_request "/a.js") (mkMetadata true false 1 (Some 7%Z)) "/www/a.js" new_context) =
      Done (cache', ContinueResponse (file_request "/a.js") r') /\
    resp_body r' = Some b /\ buf b = Some [4%Z] /\ start r' = Some 200%Z.
Proof.
  apply (file_served 9 site (Some 5%Z) (Some 6%Z) site_load (file_request "/a.js") (StaticCache.new 99 9) new_context
    (mkMetadata true false 1 (Some 7%Z)) "/www/a.js" 1 (sample_open [4%Z]) [4%Z]).
  - apply site_misses.
  - by split_and!.
  - done.
  - reflexivity.
Defined.

Lemma served_then_not_modified_witness :
  exists r cache' r' etag,
    load_request 9 site (Some 5%Z) site_load (file_request "/a.js") (StaticCache.new 99 9) new_context =
      Done (load_context site_load (file_request "/a.js") (mkMetadata true false 1 (Some 7%Z)) "/www/a.js" new_context,
        Finish (file_request "/a.js") r) /\
    load_response (Some 6%Z) site_load (file_request "/a.js") r (StaticCache.new 99 9)
      (load_context site_load (file_request "/a.js") (mkMetadata true false 1 (Some 7%Z)) "/www/a.js" new_context) =
      Done (cache', ContinueResponse (file_request "/a.js") r') /\
    header_get "etag" (headers r') = Some etag /\
    forall name fuel' fs' t q' c', only_condition name etag q' -> load_path site_load q' = "/www/a.js" -> (t < 6 + 10 * NANOS)%Z ->
      load_request fuel' fs' (Some t) site_load q' cache' c' = Done (c', Break (status 304 fresh)).
Proof.
  apply (served_then_not_modified 9 site (Some 5%Z) 6 site_load (file_request "/a.js") (StaticCache.new 99 9) new_context
    (mkMetadata true false 1 (Some 7%Z)) "/www/a.js" 1 (sample_open [4%Z]) [4%Z] 7 (6 + 10 * NANOS)).
  - intros v s. cbn. unfold len_sum, value_len. destruct (Z.ltb_spec (Z.of_nat (length v)) (2 ^ 32)); [|done].
    intros [= <-]. lia.
  - apply site_misses.
  - by split_and!.
  - done.
  - reflexivity.
  - reflexivity.
  - reflexivity.
  - reflexivity.
  - split; vm_compute; discriminate.
  - reflexivity.
Defined.

Lemma sample_open_reads data : reads (sample_open data) data.
Proof.
  intros offset size Ho. exists (min size (length data - offset)). cbn. split_and!; [|lia|lia|lia].
  f_equal. destruct (decide (size <= length data - offset)) as [Hs|Hs]; [by rewrite Nat.min_l by lia|].
  rewrite Nat.min_r by lia. rewrite !take_ge by (rewrite length_drop; lia). done.
Qed.

Lemma file_streamed_witness :
  exists r, load_request 9 site (Some 5%Z) site_chunks (file_request "/") (StaticCache.new 99 9) new_context =
    Done (load_context site_chunks (file_request "/") index_meta "/www/index.html" new_context, Break r) /\
  exists w' bufs, run_service 9 (file_request "/") (conn_of (Ok r)) (tcp_with [] []) = Done (conn_of (Ok r), w') /\
    wire w' = head_bytes r :: bufs /\ dechunk 4 (concat bufs) = Some ([1; 2; 3]%Z, []).
Proof.
  destruct (file_streamed (S := TcpConn) (W := TcpConn) (Svc := io_result HttpResponse) 9 site (Some 5%Z) site_chunks (file_request "/")
    (StaticCache.new 99 9) new_context index_meta "/www/index.html" 3 (sample_open [1; 2; 3]%Z) [1; 2; 3]%Z 3) as (r & E & Hr).
  - intros _ hit. reflexivity.
  - by split_and!.
  - done.
  - lia.
  - vm_compute. lia.
  - apply sample_open_reads.
  - cbn. lia.
  - exists r. split; [exact E|].
    destruct (Hr 9 (conn_of (Ok r)) (tcp_with [] []) (Ok r) (update_timeout 30 (tcp_with [] []))) as (w' & bufs & E1 & E2 & E3);
      [reflexivity|done|cbn; lia|].
    exists w', bufs. split; [exact E1|]. split; [exact E2|exact E3].
Defined.

(** ** Many files *)

Definition many_context : GatewayContext :=
  insert_param "d" (SStr "js()") (insert_param "f" (SStr "html(index):") new_context).

(** The tasks of three files, interleaved. *)
Definition mixed : list nat := [2; 0; 2; 1; 0; 1; 1].

Definition many_files : list (Z * string) := [(1%Z, "/www/a.js"); (2%Z, "/www/b.js"); (3%Z, "/www/index.html")].

Example many_selected : select_files 9 site "/www" many_context = Done (Ok many_files).
Proof. vm_compute. reflexivity. Qed.

Lemma many_misses_new time c : many_misses (since_epoch time) many_load (file_request "/m") (StaticCache.new 99 9) c.
Proof. intros _ hit. reflexivity. Qed.

Lemma many_contents : Forall2 (has_content site) (nonempty many_files) [[4]; [5; 6]; [1; 2; 3]]%Z.
Proof. by repeat constructor. Qed.

Lemma files_in_order_witness :
  in_request_order 9 site "/www" many_context many_files /\
  exists c' r cache' r' b,
    many_request files_load 9 mixed site 5 many_load (file_request "/m") (StaticCache.new 99 9) many_context =
      Done (c', Finish (file_request "/m") r) /\
    many_response files_load (Some 6%Z) many_load (file_request "/m") r (StaticCache.new 99 9) c' =
      Done (cache', ContinueResponse (file_request "/m") r') /\
    resp_body r' = Some b /\ buf b = Some [4; 5; 6; 1; 2; 3]%Z /\ start r' = Some 200%Z.
Proof.
  apply (files_in_order 9 mixed site 5 (Some 6%Z) many_load (file_request "/m") (StaticCache.new 99 9) many_context many_files
    [[4]; [5; 6]; [1; 2; 3]]%Z).
  - apply many_misses_new.
  - split; [vm_compute; reflexivity|vm_compute; discriminate|done|apply many_contents|done|vm_compute; reflexivity].
  - vm_compute. reflexivity.
Defined.

Lemma batch_roundtrip_witness :
  exists c' r cache' r' b body,
    many_request batch_load 9 mixed site 5 many_load (file_request "/m") (StaticCache.new 99 9) many_context =
      Done (c', Finish (file_request "/m") r) /\
    many_response batch_load (Some 6%Z) many_load (file_request "/m") r (StaticCache.new 99 9) c' =
      Done (cache', ContinueResponse (file_request "/m") r') /\
    resp_body r' = Some b /\ buf b = Some body /\
    parse_batch 3 body = Some [("a.js", [4]); ("b.js", [5; 6]); ("index.html", [1; 2; 3])]%Z.
Proof.
  apply (batch_roundtrip 9 mixed site 5 (Some 6%Z) many_load (file_request "/m") (StaticCache.new 99 9) many_context many_files
    [[4]; [5; 6]; [1; 2; 3]]%Z).
  - apply many_misses_new.
  - split; [vm_compute; reflexivity|vm_compute; discriminate|done|apply many_contents|done|vm_compute; reflexivity].
  - repeat constructor; vm_compute; congruence.
  - vm_compute. reflexivity.
Defined.

Definition escape_context : GatewayContext := insert_param "f" (SStr "(/etc/secret)") new_context.

Lemma files_escape_witness :
  exists c' r cache' r' b,
    many_request files_load 9 [0; 0; 0] site 5 many_load (file_request "/m") (StaticCache.new 99 9) escape_context =
      Done (c', Finish (file_request "/m") r) /\
    many_response files_load (Some 6%Z) many_load (file_request "/m") r (StaticCache.new 99 9) c' =
      Done (cache', ContinueResponse (file_request "/m") r') /\
    resp_body r' = Some b /\ buf b = Some [9; 9]%Z.
Proof.
  apply (files_escape 9 site 5 (Some 6%Z) many_load (file_request "/m") (StaticCache.new 99 9) escape_context "/etc/secret"
    (mkMetadata true false 2 (Some 7%Z)) (sample_open [9; 9]%Z) [9; 9]%Z).
  - apply many_misses_new.
  - reflexivity.
  - reflexivity.
  - reflexivity.
  - reflexivity.
  - reflexivity.
  - reflexivity.
  - done.
  - reflexivity.
  - reflexivity.
  - reflexivity.
  - vm_compute. reflexivity.
Defined.

(** A directory that is not there gives all files of the one above. *)
Example missing_dir : decode_dir 9 site ["nothing"] "/www" =
  Done ([(1%Z, "/www/a.js"); (2%Z, "/www/b.js"); (0%Z, "/www/empty"); (3%Z, "/www/index.html")], Ok tt).
Proof. vm_compute. reflexivity. Qed.

(** A parameter [r] that is empty cuts the first character of the names. *)
Example empty_r_cuts : batch_part (batch_root many_load (insert_param "r" (SStr "") new_context)) "/www/a.js" [4]%Z =
  Some ([3; 0] ++ as_bytes ".js" ++ [1; 0; 0; 0; 4])%Z.
Proof. vm_compute. reflexivity. Qed.

(** ** Writing *)

(** Files by the place of their path, the latest first; a directory has no content. *)
Record TreeFs := mkTreeFs { entries : list (list string * option (list Z)) }.

Fixpoint find_entry (k : list string) (es : list (list string * option (list Z))) : option (option (list Z)) :=
  match es with
  | [] => None
  | (k', e) :: es => if decide (k = k') then Some e else find_entry k es
  end.

Definition tree_at (fs : TreeFs) (p : string) : option (option (list Z)) := find_entry (place [] p) (entries fs).

#[export] Instance tree_file_api : FileApi TreeFs := {
  metadata fs p :=
    match tree_at fs p with
    | Some (Some data) => Ok (mkMetadata true false (value_len data) (Some 7%Z))
    | Some None => Ok (mkMetadata false true 0 None)
    | None => Err NotFound
    end;
  open_file fs p := match tree_at fs p with Some (Some data) => Ok (sample_open data) | _ => Err NotFound end }.

Definition put_entry (p : string) (e : option (list Z)) (fs : TreeFs) : TreeFs := mkTreeFs ((place [] p, e) :: entries fs).

Definition remove_entry (p : string) (fs : TreeFs) : TreeFs :=
  mkTreeFs (filter (fun e => e.1 <> place [] p) (entries fs)).

(** One directory, unless something is there; and with all those in front of it in the text
    of the path, the first one first. The fuel is the length of the text. *)
Definition make_dir (p : string) (es : list (list string * option (list Z))) : list (list string * option (list Z)) :=
  match file_name p, find_entry (place [] p) es with Some _, None => (place [] p, None) :: es | _, _ => es end.

Fixpoint make_dirs (fuel : nat) (p : string) (es : list (list string * option (list Z))) : list (list string * option (list Z)) :=
  match fuel, parent p with
  | S fuel, Some d => make_dir p (make_dirs fuel d es)
  | _, _ => make_dir p es
  end.

Definition open_entry (fs : TreeFs) (p : string) : TreeFs * io_result unit :=
  match tree_at fs p with
  | Some (Some _) => (fs, Ok tt)
  | Some None => (fs, Err Other)
  | None => (put_entry p (Some []) fs, Ok tt)
  end.

Definition write_entry (fs : TreeFs) (p : string) (bin : list Z) : TreeFs * io_result unit :=
  match tree_at fs p with
  | Some (Some old) => (put_entry p (Some (bin ++ drop (length bin) old)) fs, Ok tt)
  | _ => (fs, Err Other)
  end.

(** Only a path with a name at its end can be a file's. *)
Definition on_file (p : string) (fs : TreeFs) (res : TreeFs * io_result unit) : TreeFs * io_result unit :=
  match file_name p with Some _ => res | None => (fs, Err Other) end.

#[export] Instance tree_write_api : FileWriteApi TreeFs := {
  create_dir_all fs d := (mkTreeFs (make_dirs (String.length d) d (entries fs)), Ok tt);
  remove_file fs p := on_file p fs (remove_entry p fs, Ok tt);
  open_write fs p := on_file p fs (open_entry fs p);
  write_start fs p bin := on_file p fs (write_entry fs p bin);
  absolutize p := Some ("/" +:+ joined (place [] p)) }.

Lemma same_tree (fs fs' : TreeFs) p : tree_at fs' p = tree_at fs p -> same fs fs' p.
Proof. intros E. unfold same, metadata, open_file, tree_file_api. by rewrite E. Qed.

Lemma put_entry_ne p e fs p' : place [] p' <> place [] p -> tree_at (put_entry p e fs) p' = tree_at fs p'.
Proof. intros Hne. unfold tree_at. cbn. by rewrite decide_False. Qed.

Lemma find_entry_filter k k' es : k <> k' -> find_entry k (filter (fun e => e.1 <> k') es) = find_entry k es.
Proof.
  intros Hne. induction es as [|[k1 e] es IH]; [done|]. destruct (decide (k1 = k')) as [->|Hk].
  - rewrite filter_cons_False by (cbn; tauto). cbn. by rewrite decide_False.
  - rewrite filter_cons_True by done. cbn. by rewrite IH.
Qed.

(** What making directories does to an entry: it stays, or is a directory that was not there. *)
Lemma make_dir_entry k p es :
  find_entry k (make_dir p es) = find_entry k es \/
  find_entry k es = None /\ find_entry k (make_dir p es) = Some None /\ k = place [] p /\ file_name p <> None.
Proof.
  unfold make_dir. destruct (file_name p); [|by left]. destruct (find_entry (place [] p) es) eqn:E; [by left|].
  cbn. case_decide; [subst k; by right|by left].
Qed.

Lemma make_dirs_entry k fuel : forall p es,
  find_entry k (make_dirs fuel p es) = find_entry k es \/
  find_entry k es = None /\ find_entry k (make_dirs fuel p es) = Some None.
Proof.
  induction fuel as [|fuel IH]; intros p es; cbn; [|destruct (parent p) as [d|]].
  - destruct (make_dir_entry k p es); tauto.
  - destruct (IH d es) as [E|[E1 E2]]; destruct (make_dir_entry k p (make_dirs fuel d es)) as [E'|(E' & E3 & _)]; rewrite ?E3, ?E'.
    all: first [by left|by right|left; congruence|right; split; congruence].
  - destruct (make_dir_entry k p es); tauto.
Qed.

Lemma make_dir_keeps k p es :
  is_Some (find_entry (place [] p) es) \/ ~ around [] p `prefix_of` k \/ file_name p = None ->
  find_entry k (make_dir p es) = find_entry k es.
Proof.
  intros Hp. destruct (make_dir_entry k p es) as [E|(E & _ & -> & Hn)]; [done|]. rewrite E in Hp.
  destruct Hp as [[? ?]|[Hp|?]]; [done| |done]. exfalso. apply Hp. unfold around.
  destruct (place [] p) as [|x l _] using rev_ind; [done|]. rewrite removelast_last. by apply prefix_app_r.
Qed.

Lemma make_dirs_keeps k fuel : forall p es,
  (forall a, components a `prefix_of` components p ->
     is_Some (find_entry (place [] a) es) \/ ~ around [] a `prefix_of` k \/ file_name a = None) ->
  find_entry k (make_dirs fuel p es) = find_entry k es.
Proof.
  induction fuel as [|fuel IH]; intros p es Ha; cbn; [|destruct (parent p) as [d|] eqn:Hd]; [by apply make_dir_keeps, Ha| |by apply make_dir_keeps, Ha].
  rewrite make_dir_keeps.
  - apply IH. intros a Hp. apply Ha. etrans; [exact Hp|]. destruct (parent_components p d Hd) as (_ & c & ->). by apply prefix_app_r.
  - destruct (Ha p) as [[e He]|Hn]; [done| |by right]. left.
    destruct (make_dirs_entry (place [] p) fuel d es) as [->|[E _]]; [by exists e|congruence].
Qed.

#[export] Instance tree_laws : FileWriteLaws (F := TreeFs) [].
Proof.
  assert (forall p k, ~ around [] p `prefix_of` k -> k <> place [] p) as Hne.
  { intros p k Hp ->. apply Hp. unfold around.
    destruct (place [] p) as [|x l _] using rev_ind; [done|]. rewrite removelast_last. by apply prefix_app_r. }
  split.
  - intros p. eexists. split; [done|]. by apply components_slash, place_plain.
  - intros fs p p' _ Hp. cbn. unfold on_file. destruct (file_name p); [|by apply same_tree]. destruct Hp as [Hp|]; [|done].
    apply same_tree. by apply find_entry_filter, Hne.
  - intros fs p p' _ Hp. cbn. unfold on_file. destruct (file_name p); [|by apply same_tree]. destruct Hp as [Hp|]; [|done].
    apply same_tree. unfold open_entry. destruct (tree_at fs p) as [[|]|]; cbn [fst]; [done..|]. by apply put_entry_ne, Hne.
  - intros fs p bin p' _ Hp. cbn. unfold on_file. destruct (file_name p); [|by apply same_tree]. destruct Hp as [Hp|]; [|done].
    apply same_tree. unfold write_entry. destruct (tree_at fs p) as [[|]|]; cbn [fst]; [|done..]. by apply put_entry_ne, Hne.
  - intros fs d p' _ Ha. apply same_tree. apply make_dirs_keeps. intros a Hp.
    destruct (Ha a Hp) as [Hok|Hn]; [left|by right]. unfold metadata, tree_file_api, tree_at in Hok. by destruct (find_entry _ _).
  - intros fs d p' _.
    destruct (make_dirs_entry (place [] p') (String.length d) d (entries fs)) as [E|[E1 E2]]; [left; by apply same_tree|right].
    unfold metadata, tree_file_api, tree_at. cbn. rewrite E1, E2. split; [done|]. by eexists.
Qed.

Definition tree : TreeFs := mkTreeFs [(["www"], None); (["etc"], None); (["etc"; "secret"], Some [9]%Z); ([], None)].
Definition upload_context : GatewayContext :=
  insert_part "content" (SBin [1; 2; 3]%Z) (insert_part "filename" (SStr "js/../img/x.png") new_context).

Lemma tree_root_exists : root_exists tree (mkUploadFile "/www").
Proof.
  intros a Ha _. unfold metadata, tree_file_api, tree_at, place. change (components (upload_root _)) with [RootDir; Normal "www"] in Ha.
  destruct Ha as [k Hk]. destruct (is_absolute a); destruct (components a) as [|c [|c' l]]; try done; cbn in Hk; simplify_eq; try done.
  all: destruct l; simplify_eq; done.
Qed.

(** The file is written with the directory it needs, and what is outside is as it was. *)
Lemma upload_confined_witness :
  let c := insert_part "filename" (SStr "img/x.png") upload_context in
  exists fs' c' res, upload_request tree (mkUploadFile "/www") (file_request "/up") c = Done (fs', c', res) /\
    tree_at fs' "/www/img/x.png" = Some (Some [1; 2; 3]%Z) /\
    outside_kept tree fs' "/etc/secret" /\ same tree fs' "/etc/secret".
Proof.
  cbv zeta. eexists _, _, _. split; [reflexivity|]. split; [reflexivity|].
  edestruct (upload_confined [] tree (mkUploadFile "/www") (file_request "/up")
    (insert_part "filename" (SStr "img/x.png") upload_context)) as [Hk Hs].
  - reflexivity.
  - instantiate (1 := "/etc/secret"). unfold straight. vm_compute. set_solver.
  - intros [k Hk]. vm_compute in Hk. discriminate.
  - split; [exact Hk|]. apply Hs; [exact tree_root_exists|]. intros file [= <-]. vm_compute. set_solver.
Defined.

(** Also with a ".." the file is written below the root. *)
Example name_with_parent :
  exists fs' c' res, upload_request tree (mkUploadFile "/www") (file_request "/up") upload_context = Done (fs', c', res) /\
    tree_at fs' "/www/img/x.png" = Some (Some [1; 2; 3]%Z).
Proof. eexists _, _, _. by split; [reflexivity|]. Qed.

(** A name that leaves the root and comes back passes the check, and makes a directory outside. *)
Lemma directory_made_outside :
  exists fs' c' res,
    upload_request tree (mkUploadFile "/www") (file_request "/up")
      (insert_part "filename" (SStr "../newdir/../www/sub/f") upload_context) = Done (fs', c', res) /\
    metadata tree "/newdir" = Err NotFound /\ metadata fs' "/newdir" = Ok (mkMetadata false true 0 None).
Proof. eexists _, _, _. split; [reflexivity|]. by split. Qed.
